(* ===== verification/_CoqProject ===== *)
-Q . S2P
Prelude.v
Text.v
Float64.v
Json.v
Canonical.v
Catalogs.v
Lifecycle.v
Requests.v
PoolDomain.v
Tables.v
Demo.v
Roster.v
World.v
History.v
WorkerStore.v
Sessions.v
ServiceRestart.v
PoolEnrollment.v
PoolLog.v
PoolWrites.v
PoolSettle.v
Settlement.v
PoolReplace.v
PoolAdmit.v
Replacement.v
Replays.v
Admissions.v
WorkerFinish.v
Terminal.v
Steps.v
Posts.v
PoolSystem.v
Reachable.v
Protocol.v
Reading.v
Redact.v
Notices.v
Evidence.v
Outbox.v
Dispatch.v
Publication.v
ExactlyOnce.v
Restart.v
ProviderCatalog.v
LaunchIdentity.v
ProviderAdmit.v
Selection.v
Attempts.v
Starts.v
LaunchDemo.v
Supervision.v
StoreFrames.v
StoreSystem.v
RestartSafety.v
Recovery.v
RestartDelivery.v
Failures.v
Storage.v
Inventory.v
Receipts.v
Writer.v
WriterTrial.v
Ledger.v
OperationsOnce.v
Effects.v
Lanes.v
PoolRows.v
Failover.v
StartOnce.v
