(* ===== verification/Prelude.v ===== *)
(** * agent-run: a verification library for starts, pools, completion, delivery and the writer

    agent-run is a broker that starts provider-backed agents, records their
    lifecycle in one SQLite database, and lets groups of agents (pools) work
    toward a common goal until they agree on a result.  This library is a
    shallow embedding of the parts of it that decide something durable: the
    wire contracts of [crates/agent-run-domain], the transactions of
    [crates/agent-run-store] around admission, pools, worker finish, terminal
    outcomes, delivery and restarts, and the single writer that runs every
    transaction exactly once for the producers that retry it.

    ** How the program fits together

    An orchestrator starts agents and pools.  A start is admitted against a
    catalog of providers and accounts: one account is chosen, and when its
    quota or billing fails, the execution moves to another one.  Each
    execution (an agent row,
    possibly with successors under one root) runs an attempt that holds a
    worker capability.  Through it a worker reports to its orchestrator,
    reads and writes the log of its pool (messages, proposals, votes), and
    declares its work finished.  A terminal commit ends the execution.  When
    all current seats of a pool have voted for the newest proposal and ended
    successfully, the pool settles: one completion record, one delivery.  An
    operator may post, replace a member whose execution has ended, or bind
    the pool to an orchestrator session.  Reports, ends and completions are
    announced through an outbox: dispatchers lease a due notice, freeze what
    they are going to publish, hand it to the Bridge (a separate service that
    takes custody of notices), and conclude the attempt.  A restart of the
    service bars admissions, warns and stops the executions at work, hands over
    to the service manager, and resumes them under the next writer.  Every
    mutation is an operation of a fixed inventory, submitted in an envelope
    with an identity, a producer and an ordinal; one resident writer runs it
    and its receipt as one transaction, and producers retry an envelope until
    they have an answer.

    ** Which file models what

    - [Prelude]: results with [let?], [try?] and [fail?] for the [?] operator
      and early returns, the query combinators the SQL statements are written
      with ([first_where], [best_by], [update_where], [count_where], ...),
      and the shared tactics and list lemmas.
    - [Text]: Rust [str] as Stdlib strings of UTF-8 bytes, with [chars],
      [trim], byte slices and decimal formatting.  [Float64]: [f64] as
      binary64 of [SpecFloat].  [Json]: [serde_json] values.
    - [Canonical]: [canonical.rs].  [Catalogs]: the worker tool catalogs of
      [worker.rs], and SHA-256 as an executable instance.  [Lifecycle]: [fsm.rs] and [Status] of
      [domain.rs].  [Requests]: the rest of [domain.rs], [worker.rs],
      [health.rs] and [provider_start.rs].  [PoolDomain]: [pool.rs].
    - [Tables]: the rows of [sql/schema.sql] as records, the database [Db] as
      a record of row lists and counters, and the constraints that refuse a
      row.  [Demo]: a small concrete database for the witnesses.
    - [Roster]: membership, tips, fan-out and vote validity of [pool_log.rs].
      [World]: the well-formedness invariant [wf] of the durable state.
      [History]: the order [later] in which the state only moves forward.
    - [WorkerStore]: [store/worker.rs].  [Sessions]: session resolution of
      [lib.rs] and terminal notices of [delivery.rs].  [ServiceRestart]: the
      gate and views of [service_restart.rs] the other transactions read.  [PoolEnrollment]:
      [pool_enrollment.rs].
    - [PoolLog]: the transactions of [pool_log.rs]; [PoolWrites] proves them.
      [PoolSettle]: [pool_settle.rs]; [Settlement] proves it.  [PoolReplace]:
      [pool_replace.rs]; [Replacement] and [Replays] prove it.  [PoolAdmit]:
      [pool_admission.rs] and the eligibility read of [pool_enrollment.rs];
      [Admissions] proves them.
    - [WorkerFinish]: [worker_finish.rs].  [Terminal]: [terminal.rs] and the
      compaction of [process_ownership.rs].
    - [Steps], [Posts] and [PoolSystem] put the transactions together as one
      transition system: [step] has a constructor for each of them,
      [step_admitted] for the admission of an execution outside a pool, and
      [step_other] for any other change that leaves pools, seats and the log
      alone ([quiet]).  [Reachable] proves what holds of every run,
      [Protocol] that the system refines an abstract machine of teams, and
      [Reading] what a reader sees beside the writers.
    - [Redact] and [Evidence]: the diagnostics of a delivery attempt, as
      [core/delivery/mod.rs] builds them and [store/delivery.rs] keeps them.
      [Notices]: the texts of [core/delivery/mod.rs], [worker.rs] and
      [pool.rs] with the templates of [assets/completion_notice.json].
    - [Outbox]: the lease, publication and expiry transactions of
      [store/delivery.rs] over the database and three tables of their own.
      [Dispatch]: [core/delivery/bridge.rs] and the dispatch of
      [core/delivery/mod.rs].  [Publication] puts any number of dispatchers
      and the requests in flight together ([dispatcher_step]), and these with
      the other transactions as one transition system ([dispatch_step]);
      [ExactlyOnce] proves it.
    - [Restart]: the transactions of [service_restart.rs] and the user commands
      of [store/lib.rs], over the outbox with the recipients of restarts and
      the epoch of the writer.  [Supervision]: [bind_orchestrator] and
      [running] of [store/lib.rs], [seal_identity] of [supervisor_units.rs] and
      the stored form of a request ([core/service.rs]).
    - [StoreFrames]: what each transaction leaves as it is, admissions, restart
      rows, sessions and executions at work.  [StoreSystem] puts the
      transactions that change one database, every admission among them,
      together as one transition system ([db_step]).  [RestartSafety] joins it
      with the transactions on restarts, bindings, user commands and terminal
      commits ([restart_step]) and proves what it keeps; [Recovery] proves
      that a restart ends; [RestartDelivery] runs store transactions,
      dispatchers and restarts over one store ([service_step]) and proves that
      every such run is a run of each system.
    - [Failures]: the whole of [error.rs].  [Storage]: the writer's protocol
      types, [domain/storage.rs].  [Inventory]: the operation rows and the
      wire gate of [store/ops/mod.rs].
    - [Receipts]: [store/ops/apply.rs], one submission as one transaction with
      its receipt, retention and recovery observations.  [Writer]: the store
      writer ([store/writer.rs]), its queue ([writer/queued.rs] on
      [sqlite-access]), the broker's handle ([core/writer.rs]) and the lanes'
      retry loop ([core/storage_client.rs], [core/broker_writer.rs]).
      [WriterTrial]: a small concrete writer for the witnesses.
    - [Ledger] proves what one call does to the ledger.  [OperationsOnce] puts
      calls, clocks, restarts and reboots together as one transition system
      and proves that nothing is stored twice.  [Effects] proves atomicity,
      authority and replays; [Lanes] that a lane's answer is true.
    - [PoolRows]: the pool rows of [store/ops/dispatch.rs], and the proof that
      the writer's committed store is a run of [PoolSystem].
    - [ProviderCatalog]: [catalog.rs], [provider_connection.rs],
      [credential_ref.rs] and the scalars of [types.rs] they use.
      [LaunchIdentity]: the frozen documents of a launch, how they are
      serialized, and the checks that they agree.
    - [ProviderAdmit]: [accounts.rs], [lineage.rs], the choice of an account
      and [admit_in_tx] of [provider_admission.rs]; its last instance is the
      [Admission] the pool transactions are proved against.  [Selection]
      proves the choice.
    - [Attempts]: the phases, evidence and cooldowns of attempts and
      [allocate_next_attempt].  [Starts]: [admit_provider_lineage] with its
      replays, and [admission.rs].  [LaunchDemo]: a small concrete run.
    - [Failover] puts admissions, seals, phases, allocations and ends together
      as a transition system and proves its bound; [StartOnce] proves what a
      start commits and that a repeated one finds it after any run of
      [restart_step].

    ** How code becomes definitions

    A transaction is a function from [Db] to [result (Db * A)]: an [Err]
    rolls everything back, as dropping the transaction does.  Pool writes
    return [result (verdict A)], where [Denied] is the inner [Err] of
    [Result<Result<_, PoolDenial>>].  The clock and fresh identifiers are
    arguments.  What SQLite answers at each boundary of the writer (a failing
    [BEGIN], read, savepoint, insert or [ROLLBACK], a [COMMIT] that fails
    before or after it was applied), whether a call is refused, lost or run,
    and how a transaction left open ends are arguments too ([Sqlite_],
    [Answers], [Fate]); the theorems hold for all of them.  Machine integers
    are [Z] with the wrap or the failure written out where the code relies on
    the width.  Code outside the repository is a type class whose fields are
    what the code relies on: [Chrono], [FileSystem], [Unicode], [Serde],
    [Sha256], [EventJson], [JsonSchema], [Host], [JsonText], [JsonWriter],
    [BridgeSdk], [JsonParser], [SqliteDriver], [WireDecoder], [UrlParser],
    [LaunchSerde] and [ProcessTable].  [Admission] is the interface between
    the pool transactions and the admission of one agent: the pool theorems
    assume its frame, [ProviderAdmit] proves it.  What the Bridge answers is
    an argument of
    the publication; the system assumes of it that a receipt is only issued for
    an accepted event ([truthful]) and that an error the SDK reports as without
    effect had none ([no_effect]).  Identifiers read back from the database
    are not parsed again: every stored identifier was written from a parsed
    one.  The store transactions of [db_step] are the code with its own checks,
    [require_admissions_open] included, and nothing is assumed of them about
    restarts.  A transaction outside the development is assumed to leave alone
    what the theorem is about: pools, seats and the log ([quiet]), or the
    restart tables and the identities of executions, attempts and sessions,
    admitting nothing itself ([elsewhere]).  The replay
    of a start assumes that its request identity is used in one conversation
    only ([reserved]).
    The history of the writer assumes that the monotonic clock of a boot does
    not go back and that no two boots share a tag ([writer_step]), and a lane
    that nobody else uses its fresh operation identity ([lane_run]).

    ** What the theorems show

    - Contracts: canonical bytes determine the document, the catalogs accepted
      by an enrollment are the recorded ones, statuses round-trip,
      the lifecycle is finite and frozen, start validation is idempotent, an
      entry's rendering cannot be forged from its body, a shortened notice is
      the longest legal one.
    - Pool log: an accepted write is stamped from the authenticated seat, a
      key replays for good, only refusals fail, fan-out is exact.
    - Membership: a pool admission seats exactly what was asked, a replacement
      hands over one slot and voids every earlier agreement, both answer a
      repeated request with the original receipt at every later state.
    - Settlement: the deciding read is equivalent to unanimity, a pool
      completes exactly once, the sweep starves no pool, notices fit.
    - System: every reachable state is sound, history only moves forward, a
      completed pool stays as it was completed and has the agreement in its
      log, the transactions refine the team protocol, and a reader that
      follows its cursor misses nothing.  Retention, which deletes old pools
      and agents, is not a step: these theorems are about the histories
      between two of its passes.
    - Delivery: no notice is published twice, whatever is lost or crashes, and
      a notice recorded as delivered was published; a notice cannot be forged;
      diagnostics keep no secret and read back as they were stored.
    - Restarts: one at a time, nothing at work when the service stops, a minute
      between the first warning and the forced stop, a result for every
      execution and one notice for every recipient, a cancellation that stays;
      a recovery ends once every continuation has had its minute and no
      cancelled one is at work; and restarts, dispatchers and pools do not
      disturb each other.
    - Completion: a finish is accepted once, guarded, and closes its attempt;
      a terminal commit is sound and final.
    - Starts: an accepted catalog is consistent, the account chosen is the
      least eligible one, a start stays within the caps and commits one
      execution, a repeated request finds it at every later state, and a run never has more
      attempts than its frozen scope has accounts nor two owned ones.
    - Writer: whatever SQLite answers, a call is atomic and no operation is
      ever stored twice, also over reboots and pruning; receipts are in the
      order of their producer's ordinals; an effect has an authority that owns
      its target; a retry gets the stored answer, and the answer of a lane is
      the truth about the ledger; the store the writer commits is a run of the
      pool system.  The wire admits only its own rows; identities and refusals
      round-trip.

    ** Fuel

    The recursion of the model is structural, on lists or on an index that
    the loop lowers, except for the digit generation of [Canonical], which
    has fuel for the exponent and precision range of binary64, and for the
    loops of [Redact], which consume text: [redaction_keeps_no_secret] proves
    that the fuel, the length of the text, is enough.  Likewise
    [trim_start_matches] of [Restart] has the length of the text, of which
    every match consumes a part.

    ** Not modelled

    The quota facts and the scoring that ranks the candidates of an admission,
    the resolution of roles and configuration files before it, the credential
    file and lock of the dispatcher, the supervisor that calls the restart
    transactions, the writer's exclusive
    lease, sockets and frames, the inventory rows outside the modelled
    transactions, process supervision and provider adapters, projections for
    display, migrations, retention of agents and pools, the command line and
    the TUI.  They are
    I/O, external programs or read-only views; the modelled transactions meet
    them only through the arguments and interfaces named above. *)

From stdpp Require Export base decidable list strings numbers pretty.
From stdpp Require Export sorting sets.
From Stdlib Require Export ZArith Lia.

#[global] Open Scope Z_scope.

(** ** The Rust [Result] type

    [Err] carries the domain error; [?] is the binder [let?]. *)

(** The admission refusals of [catalog.rs]. *)
Inductive BindingCooldownReason := BillingUnavailable | BcQuotaExhausted.

(** [BindingCooldownReason::as_str]. *)
Definition cooldown_reason_str (r : BindingCooldownReason) : string :=
  match r with BillingUnavailable => "billing_unavailable" | BcQuotaExhausted => "quota_exhausted" end.

Inductive QuotaAdmissionError :=
  | QaSelectionStale (committed current : Z)
  | QaSelectionBusy (stale_retries : Z)
  | QaNoEligibleAccount (provider model : string)
  | QaQuotaExhausted (provider model account : string)
  | QaBindingCooldown (provider model account : string) (reason : BindingCooldownReason) (retry_after : Z).

(** [Display for QuotaAdmissionError]. *)
Definition quota_display (q : QuotaAdmissionError) : string :=
  match q with
  | QaSelectionStale committed current =>
      "selection_stale (committed revision " +:+ pretty committed +:+ ", current revision " +:+ pretty current +:+ ")"
  | QaSelectionBusy n => "selection_busy (after " +:+ pretty n +:+ " stale retries)"
  | QaNoEligibleAccount provider model =>
      "no_eligible_account (provider " +:+ provider +:+ ", model " +:+ model +:+ ")"
  | QaQuotaExhausted provider model account =>
      "quota_exhausted (provider " +:+ provider +:+ ", model " +:+ model +:+ ", account " +:+ account +:+ ")"
  | QaBindingCooldown provider model account reason retry =>
      "binding_cooldown (provider " +:+ provider +:+ ", model " +:+ model +:+ ", account " +:+ account
        +:+ ", reason " +:+ cooldown_reason_str reason +:+ "; retry after " +:+ pretty retry +:+ " seconds)"
  end.

(** Expected domain failures, [error.rs] [Error].  The variants are those the
    modelled code constructs or forwards.  [Sql] is the SQLite boundary, split
    into the two failures a statement of the modelled code can meet on an
    intact database: a [query_row] that finds no row, and a schema constraint
    that refuses a row. *)
Inductive SqlFailure := QueryReturnedNoRows | ConstraintViolation | InvalidColumnType.

Inductive Error :=
  | Validation (message : string)
  | NotFound (message : string)
  | Transition (message : string)
  | Conflict
  | Capacity
  | Unsupported (message : string)
  | Integrity (message : string)
  | Runtime (message : string)
  | QuotaAdmission (q : QuotaAdmissionError)
  | ExecutionChanged
  | JsonFailure
  | Sql (failure : SqlFailure).

(** [error.rs]: [invalid], the typed public validation error. *)
Definition invalid (message : string) : Error := Validation message.

(** The [thiserror] display text.  The text of the SQLite and JSON boundaries
    belongs to their libraries; no modelled code formats it. *)
Definition display (e : Error) : string :=
  match e with
  | Validation s | Unsupported s | Integrity s | Runtime s => s
  | NotFound s => "unknown agent: " +:+ s
  | Transition s => "invalid agent transition: " +:+ s
  | Conflict => "request identity conflicts with a previously admitted request"
  | Capacity => "agent capacity is exhausted"
  | QuotaAdmission q => quota_display q
  | ExecutionChanged => "current execution differs from the required sequence"
  | JsonFailure | Sql _ => ""
  end.

Inductive result (A : Type) :=
  | Ok (a : A)
  | Err (e : Error).
Arguments Ok {A} a.
Arguments Err {A} e.

Definition is_ok {A} (r : result A) : bool :=
  match r with Ok _ => true | Err _ => false end.

(** [o.is_some_and(f)] and [o.is_none_or(f)]. *)
Definition is_some_and {A} (f : A → bool) (o : option A) : bool :=
  match o with Some a => f a | None => false end.
Definition is_none_or {A} (f : A → bool) (o : option A) : bool :=
  match o with Some a => f a | None => true end.

Definition ok {A} (r : result A) : option A :=
  match r with Ok a => Some a | Err _ => None end.

Declare Scope rust_scope.
Delimit Scope rust_scope with rust.

Notation "'let?' x ':=' e 'in' k" :=
  (match e with Ok x => k | Err err => Err err end)
  (at level 10, x pattern, e at level 200, k at level 200,
   format "'[v' 'let?'  x  ':='  e  'in' '//' k ']'") : rust_scope.
(** [try? e; k]: the statement [e?;]. *)
Notation "'try?' e ; k" :=
  (match e with Ok _ => k | Err err => Err err end)
  (at level 10, e at level 200, k at level 200,
   format "'[v' 'try?'  e ; '//' k ']'") : rust_scope.
(** [fail? b with e; k]: the statement [if b { return Err(e); }]. *)
Notation "'fail?' b 'with' e ; k" :=
  (if (b : bool) then Err e else k)
  (at level 10, b at level 200, e at level 200, k at level 200,
   format "'[v' 'fail?'  b  'with'  e ; '//' k ']'") : rust_scope.
#[global] Open Scope rust_scope.

#[global] Instance sql_failure_eq_dec : EqDecision SqlFailure.
Proof. solve_decision. Defined.
#[global] Instance cooldown_reason_eq_dec : EqDecision BindingCooldownReason.
Proof. solve_decision. Defined.
#[global] Instance quota_admission_eq_dec : EqDecision QuotaAdmissionError.
Proof. solve_decision. Defined.
#[global] Instance error_eq_dec : EqDecision Error.
Proof. solve_decision. Defined.
#[global] Instance result_eq_dec {A} `{EqDecision A} : EqDecision (result A).
Proof. solve_decision. Defined.

(** [Option::ok_or]. *)
Definition ok_or {A} (e : Error) (o : option A) : result A :=
  match o with Some a => Ok a | None => Err e end.

(** A [query_row] without [.optional()]. *)
Definition row {A} (o : option A) : result A := ok_or (Sql QueryReturnedNoRows) o.

(** [Iterator::map(f).collect::<Result<Vec<_>>>()]: the first error wins. *)
Fixpoint traverse {A B} (f : A → result B) (l : list A) : result (list B) :=
  match l with
  | [] => Ok []
  | x :: l' => let? y := f x in let? ys := traverse f l' in Ok (y :: ys)
  end.

(** A [for] loop with [?] inside and a mutable accumulator. *)
Fixpoint try_fold {A S} (f : S → A → result S) (s : S) (l : list A) : result S :=
  match l with
  | [] => Ok s
  | x :: l' => let? s' := f s x in try_fold f s' l'
  end.

(** ** Table queries

    A table is the list of its rows in insertion order.  [WHERE] is [filter];
    [LIMIT 1] without an order on a primary key is [first_where]. *)
Definition first_where {A} (P : A → Prop) `{∀ x, Decision (P x)} (l : list A)
  : option A := head (filter P l).

(** [SELECT EXISTS(SELECT 1 FROM l WHERE P)]. *)
Definition exists_where {A} (P : A → Prop) `{∀ x, Decision (P x)} (l : list A) : bool :=
  bool_decide (Exists P l).

(** [SELECT COUNT( * ) FROM l WHERE P]. *)
Definition count_where {A} (P : A → Prop) `{∀ x, Decision (P x)} (l : list A) : Z :=
  Z.of_nat (length (filter P l)).

(** [ORDER BY key DESC LIMIT 1]: the last row no other row is above. *)
Fixpoint best_by {A} (le : A → A → bool) (l : list A) : option A :=
  match l with
  | [] => None
  | x :: l' =>
      match best_by le l' with
      | None => Some x
      | Some y => if le x y then Some y else Some x
      end
  end.

(** [UPDATE l SET f WHERE P]. *)
Definition update_where {A} (P : A → Prop) `{∀ x, Decision (P x)} (f : A → A)
  (l : list A) : list A := map (λ x, if decide (P x) then f x else x) l.

(** [COALESCE(SUM(f), 0)]. *)
Definition sum_by {A} (f : A → Z) (l : list A) : Z := foldr (λ x n, f x + n) 0 l.

(** [iter.any(|x| !seen.insert(x))] over a fresh set. *)
Definition has_dup {A} `{EqDecision A} (l : list A) : bool := negb (bool_decide (NoDup l)).

(** ** Proof automation *)

(** Splits every [match] a hypothesis or the goal branches on, discarding the
    branches that disagree with an equation already known. *)
Ltac inv_match :=
  intros; simplify_eq/=; repeat (case_match; simplify_eq/=; try done); try done.

(** As [inv_match], turning the boolean tests of the code into propositions. *)
Ltac to_prop := repeat match goal with
  | H : bool_decide _ = true |- _ => apply bool_decide_eq_true_1 in H
  | H : bool_decide _ = false |- _ => apply bool_decide_eq_false_1 in H
  | H : (_ && _) = true |- _ => apply andb_true_iff in H as [? ?]
  | H : (_ || _) = false |- _ => apply orb_false_iff in H as [? ?]
  | H : negb _ = true |- _ => apply negb_true_iff in H
  | H : negb _ = false |- _ => apply negb_false_iff in H
  | H : (_ <? _) = true |- _ => apply Z.ltb_lt in H
  | H : (_ <? _) = false |- _ => apply Z.ltb_ge in H
  | H : (_ <=? _) = true |- _ => apply Z.leb_le in H
  | H : (_ <=? _) = false |- _ => apply Z.leb_gt in H
  | H : (_ =? _) = true |- _ => apply Z.eqb_eq in H
  | H : (_ =? _) = false |- _ => apply Z.eqb_neq in H
  end.
Ltac inv_code := inv_match; to_prop.

(** Runs one step of the code in the equation [H : code = result]: splits the
    outermost test until the result is reached, keeping the goal as it is. *)
Ltac run H := repeat
  match type of H with
  | (match ?x with _ => _ end) = _ => destruct x eqn:?; simplify_eq/=; try done
  end.
Ltac run_code H := run H; to_prop.

(** As [run], without simplifying anything: for code over large terms. *)
Ltac walk H := repeat
  match type of H with
  | (match ?x with _ => _ end) = _ => destruct x eqn:?; try discriminate H
  end.

Create HintDb agentrun.

(** ** Lemmas on queries *)

Section queries.
Context {A : Type}.
Implicit Types l : list A.

Lemma first_where_Some (P : A → Prop) `{∀ x, Decision (P x)} l x :
  first_where P l = Some x → P x ∧ x ∈ l.
Proof.
  unfold first_where. intros Hx.
  destruct (filter P l) as [|y l'] eqn:E; simplify_eq/=.
  assert (x ∈ filter P l) as Hin by (rewrite E; left).
  by apply list_elem_of_filter in Hin.
Qed.

Lemma first_where_None (P : A → Prop) `{∀ x, Decision (P x)} l :
  first_where P l = None ↔ ∀ x, x ∈ l → ¬ P x.
Proof.
  unfold first_where. split.
  - intros Hn x Hx HP. assert (x ∈ filter P l) as Hin by (by apply list_elem_of_filter).
    destruct (filter P l); [by apply elem_of_nil in Hin | done].
  - intros Hall. destruct (filter P l) as [|y l'] eqn:E; [done|].
    assert (y ∈ filter P l) as Hin by (rewrite E; left).
    apply list_elem_of_filter in Hin as [? ?]. naive_solver.
Qed.

Lemma first_where_is_Some (P : A → Prop) `{∀ x, Decision (P x)} l x :
  x ∈ l → P x → is_Some (first_where P l).
Proof.
  intros Hx HP. destruct (first_where P l) eqn:E; [eauto|].
  rewrite first_where_None in E. naive_solver.
Qed.

Lemma filter_none (P : A → Prop) `{∀ x, Decision (P x)} l :
  (∀ x, x ∈ l → ¬ P x) → filter P l = [].
Proof.
  intros Hn. induction l as [|x l IH]; [done|]. rewrite filter_cons, decide_False.
  - apply IH. intros y Hy. apply Hn. by right.
  - apply Hn. left.
Qed.

Lemma exists_where_true (P : A → Prop) `{∀ x, Decision (P x)} l :
  exists_where P l = true ↔ ∃ x, x ∈ l ∧ P x.
Proof.
  unfold exists_where. rewrite bool_decide_eq_true, Exists_exists.
  setoid_rewrite list_elem_of_In. done.
Qed.

Lemma exists_where_false (P : A → Prop) `{∀ x, Decision (P x)} l :
  exists_where P l = false ↔ ∀ x, x ∈ l → ¬ P x.
Proof.
  rewrite <-not_true_iff_false, exists_where_true. naive_solver.
Qed.

Lemma first_where_app (P : A → Prop) `{∀ x, Decision (P x)} l1 l2 :
  first_where P (l1 ++ l2) =
    match first_where P l1 with Some x => Some x | None => first_where P l2 end.
Proof. unfold first_where. rewrite filter_app. by destruct (filter P l1). Qed.

Lemma count_where_app (P : A → Prop) `{∀ x, Decision (P x)} l1 l2 :
  count_where P (l1 ++ l2) = count_where P l1 + count_where P l2.
Proof. unfold count_where. rewrite filter_app, length_app. lia. Qed.

Lemma count_where_nonneg (P : A → Prop) `{∀ x, Decision (P x)} l :
  0 ≤ count_where P l.
Proof. unfold count_where. lia. Qed.

Lemma count_where_one (P : A → Prop) `{∀ x, Decision (P x)} x :
  count_where P [x] = if decide (P x) then 1 else 0.
Proof. unfold count_where. rewrite filter_cons, filter_nil. by case_decide. Qed.

Lemma count_where_iff (P Q : A → Prop) `{∀ x, Decision (P x)} `{∀ x, Decision (Q x)} l :
  (∀ x, x ∈ l → P x ↔ Q x) → count_where P l = count_where Q l.
Proof.
  intros Hiff. unfold count_where. do 2 f_equal.
  induction l as [|y l' IH]; [done|]. rewrite !filter_cons.
  assert (P y ↔ Q y) by (apply Hiff; left).
  rewrite IH by (intros; apply Hiff; by right).
  repeat case_decide; naive_solver.
Qed.

Lemma best_by_elem (le : A → A → bool) l x : best_by le l = Some x → x ∈ l.
Proof.
  revert x. induction l as [|y l IH]; intros x; simpl; [done|].
  destruct (best_by le l) eqn:E; [|intros; simplify_eq; left].
  case_match; intros; simplify_eq; [right; by apply IH | left].
Qed.

Lemma best_by_None (le : A → A → bool) l : best_by le l = None ↔ l = [].
Proof. destruct l; simpl; [done|]. split; [|done]. inv_match. Qed.

Lemma best_by_max (le : A → A → bool) l x :
  (∀ a b, le a b = true ∨ le b a = true) →
  (∀ a b c, le a b = true → le b c = true → le a c = true) →
  best_by le l = Some x → ∀ y, y ∈ l → le y x = true.
Proof.
  intros Htot Htr. revert x. induction l as [|z l IH]; intros x Hx y Hy; simpl in *.
  { by apply elem_of_nil in Hy. }
  destruct (best_by le l) as [w|] eqn:E.
  - specialize (IH w eq_refl). apply elem_of_cons in Hy as [->|Hy].
    + destruct (le z w) eqn:Ez; simplify_eq; [done|]. by destruct (Htot x x).
    + destruct (le z w) eqn:Ez; simplify_eq; [by apply IH|].
      apply Htr with w; [by apply IH|]. destruct (Htot w x); congruence.
  - apply best_by_None in E as ->. simplify_eq.
    apply list_elem_of_singleton in Hy as ->. by destruct (Htot x x).
Qed.

Lemma elem_of_update_where (P : A → Prop) `{∀ x, Decision (P x)} f l y :
  y ∈ update_where P f l ↔ ∃ x, x ∈ l ∧ y = (if decide (P x) then f x else x).
Proof. unfold update_where. rewrite list_elem_of_fmap. naive_solver. Qed.

(** An update that keeps the searched columns updates the found row. *)
Lemma first_where_update (P Q : A → Prop) `{∀ x, Decision (P x)} `{∀ x, Decision (Q x)} f l :
  (∀ x, P (f x) ↔ P x) →
  first_where P (update_where Q f l) =
    option_map (λ x, if decide (Q x) then f x else x) (first_where P l).
Proof.
  intros Hf. unfold first_where, update_where. induction l as [|x l IH]; [done|].
  simpl map. rewrite !filter_cons. destruct (decide (Q x)) as [HQ|HQ].
  - destruct (decide (P x)) as [HP|HP].
    + rewrite decide_True by (by apply Hf). simpl. by rewrite decide_True.
    + by rewrite decide_False by (by rewrite Hf).
  - destruct (decide (P x)); [simpl; by rewrite decide_False|done].
Qed.

Lemma length_update_where (P : A → Prop) `{∀ x, Decision (P x)} f l :
  length (update_where P f l) = length l.
Proof. apply length_map. Qed.

Lemma update_where_id (P : A → Prop) `{∀ x, Decision (P x)} f l :
  (∀ x, x ∈ l → ¬ P x) → update_where P f l = l.
Proof.
  intros Hn. unfold update_where. induction l as [|x l IH]; simpl; [done|].
  rewrite decide_False by (apply Hn; left).
  f_equal. apply IH. intros. apply Hn. by right.
Qed.

Lemma filter_update_other (Q P : A → Prop) `{∀ x, Decision (Q x)} `{∀ x, Decision (P x)} f l :
  (∀ x, P x → ¬ Q x ∧ ¬ Q (f x)) → filter Q (update_where P f l) = filter Q l.
Proof.
  intros HP. unfold update_where. induction l as [|x l IH]; [done|]. simpl map. rewrite !filter_cons, IH.
  destruct (decide (P x)) as [Hx|]; [|done]. destruct (HP x Hx). by rewrite !decide_False.
Qed.

Lemma map_update_where {B} (g : A → B) (P : A → Prop) `{∀ x, Decision (P x)} f l :
  (∀ x, x ∈ l → P x → g (f x) = g x) → map g (update_where P f l) = map g l.
Proof.
  intros Hg. unfold update_where. rewrite map_map. apply map_ext_in.
  intros x Hx. case_decide; [|done]. apply Hg; [by apply list_elem_of_In | done].
Qed.

Lemma sum_by_app (f : A → Z) l1 l2 : sum_by f (l1 ++ l2) = sum_by f l1 + sum_by f l2.
Proof. induction l1; simpl; lia. Qed.

Lemma traverse_Ok {B} (f : A → result B) l ys :
  traverse f l = Ok ys ↔ Forall2 (λ x y, f x = Ok y) l ys.
Proof.
  revert ys. induction l as [|x l IH]; intros ys; simpl.
  - split; [by intros [= <-] | by inversion 1].
  - split.
    + destruct (f x) as [y|] eqn:E; [|done].
      destruct (traverse f l) as [zs|]; [|done].
      intros [= <-]. constructor; [done | by apply IH].
    + inversion 1 as [|? y ? zs Hy Hzs]; simplify_eq. rewrite Hy.
      by rewrite (proj2 (IH zs) Hzs).
Qed.

Lemma traverse_total {B} (f : A → result B) l :
  (∀ x, x ∈ l → ∃ y, f x = Ok y) → ∃ ys, traverse f l = Ok ys.
Proof.
  induction l as [|x l IH]; intros Hf; simpl; [eauto|].
  destruct (Hf x) as [y ->]; [left|]. destruct IH as [ys ->]; [intros; apply Hf; by right|]. eauto.
Qed.
End queries.

Lemma first_where_cons {A} (P : A → Prop) `{∀ x, Decision (P x)} x l :
  first_where P (x :: l) = if decide (P x) then Some x else first_where P l.
Proof. unfold first_where. rewrite filter_cons. by case_decide. Qed.

(** Scanning the indices of a range from the top finds the greatest match. *)
Lemma first_where_descending {A} (P : A → Prop) `{∀ x, Decision (P x)} (f : nat → A) n :
  match first_where P (map f (rev (seq 0 n))) with
  | Some x => ∃ k, (k < n)%nat ∧ x = f k ∧ P x ∧ ∀ k', (k < k' < n)%nat → ¬ P (f k')
  | None => ∀ k, (k < n)%nat → ¬ P (f k)
  end.
Proof.
  induction n as [|n IH]; [intros k; lia|].
  rewrite seq_S, rev_app_distr. simpl. rewrite first_where_cons. case_decide as Hn.
  - exists n. repeat split; [lia | done | intros; lia].
  - destruct (first_where P _) as [x|].
    + destruct IH as (k & Hk & -> & HP & Hmax). exists k. repeat split; [lia | done |].
      intros k' Hk'. destruct (decide (k' = n)) as [->|]; [done|]. apply Hmax. lia.
    + intros k Hk. destruct (decide (k = n)) as [->|]; [done|]. apply IH. lia.
Qed.

Lemma has_dup_false {A} `{EqDecision A} (l : list A) : has_dup l = false ↔ NoDup l.
Proof. unfold has_dup. by rewrite negb_false_iff, bool_decide_eq_true. Qed.

Lemma count_where_cons {A} (P : A → Prop) `{∀ x, Decision (P x)} x l :
  count_where P (x :: l) = (if decide (P x) then 1 else 0) + count_where P l.
Proof. unfold count_where. rewrite filter_cons. case_decide; simpl; lia. Qed.

(** An update that only adds matches never lowers a count. *)
Lemma count_where_update_mono {A} (P Q : A → Prop) `{∀ x, Decision (P x)} `{∀ x, Decision (Q x)} f l :
  (∀ x, P x → Q x → P (f x)) → count_where P l ≤ count_where P (update_where Q f l).
Proof.
  intros Hf. induction l as [|x l IH]; [done|]. unfold update_where. simpl map.
  rewrite !count_where_cons. fold (update_where Q f l).
  destruct (decide (Q x)); repeat case_decide; try lia. exfalso. auto.
Qed.

Lemma count_where_update_more {A} (P Q : A → Prop) `{∀ x, Decision (P x)} `{∀ x, Decision (Q x)}
  f l x :
  (∀ x, P x → Q x → P (f x)) → x ∈ l → Q x → ¬ P x → P (f x) →
  count_where P l + 1 ≤ count_where P (update_where Q f l).
Proof.
  intros Hf Hx HQ HP HP'. apply list_elem_of_split in Hx as (l1 & l2 & ->).
  unfold update_where. rewrite map_app. simpl map.
  fold (update_where Q f l1) (update_where Q f l2).
  rewrite !count_where_app, !count_where_cons, (decide_True (P := Q x)), decide_False, decide_True by done.
  pose proof (count_where_update_mono P Q f l1 Hf). pose proof (count_where_update_mono P Q f l2 Hf). lia.
Qed.

(** An invariant of the steps is an invariant of the loop. *)
Lemma try_fold_inv {A S} (P : S → Prop) (f : S → A → result S) l s s' :
  (∀ s x s', x ∈ l → P s → f s x = Ok s' → P s') → P s → try_fold f s l = Ok s' → P s'.
Proof.
  revert s. induction l as [|x l IH]; intros s Hf Hs E; simpl in E; [by injection E as <-|].
  destruct (f s x) as [s1|] eqn:Ef; [|done]. apply (IH s1); [| |done].
  - intros t y t' Hy. apply Hf. by right.
  - apply (Hf s x); [left|done|done].
Qed.

(** A loop whose steps keep an invariant and do not fail does not fail. *)
Lemma try_fold_total {A S} (P : S → Prop) (f : S → A → result S) l s :
  P s → (∀ s x, P s → x ∈ l → ∃ s', f s x = Ok s' ∧ P s') → ∃ s', try_fold f s l = Ok s' ∧ P s'.
Proof.
  revert s. induction l as [|x l IH]; intros s Hs Hf; simpl; [eauto|].
  destruct (Hf s x Hs) as (s1 & -> & H1); [left|]. apply IH; [done|]. intros t y Ht Hy. apply Hf; [done|by right].
Qed.

(** Related lists have related elements. *)
Lemma related_l {A B} (R : A → B → Prop) l k x : Forall2 R l k → x ∈ l → ∃ y, y ∈ k ∧ R x y.
Proof.
  intros F (n & Hn)%list_elem_of_lookup. destruct (Forall2_lookup_l _ _ _ _ _ F Hn) as (y & Hy & Hr).
  exists y. split; [by eapply list_elem_of_lookup_2|done].
Qed.

Lemma related_r {A B} (R : A → B → Prop) l k y : Forall2 R l k → y ∈ k → ∃ x, x ∈ l ∧ R x y.
Proof. intros F. apply (related_l (flip R)). by apply Forall2_flip. Qed.

(** Sorting respects a relation that the order cannot see. *)
Section sort_related.
Context {A : Type} (R : relation A) `{!RelDecision R} (S : A → A → Prop).
Hypothesis Hcompat : ∀ x x' y y', S x x' → S y y' → R x y ↔ R x' y'.

Lemma list_merge_related l1 l1' l2 l2' :
  Forall2 S l1 l1' → Forall2 S l2 l2' → Forall2 S (list_merge R l1 l2) (list_merge R l1' l2').
Proof.
  intros H1. revert l2 l2'. induction H1 as [|x x' l1 l1' Hx H1 IH1]; intros l2 l2' H2.
  { by destruct H2; simpl; try constructor. }
  induction H2 as [|y y' l2 l2' Hy H2 IH2]; simpl; [by constructor|].
  destruct (decide (R x y)) as [HR|HR].
  - rewrite decide_True by (by apply (Hcompat x x' y y')). constructor; [done|].
    apply IH1. by constructor.
  - rewrite decide_False by (by rewrite <-(Hcompat x x' y y')). constructor; [done|].
    exact IH2.
Qed.

Lemma merge_to_stack_related st st' l l' :
  Forall2 (option_Forall2 (Forall2 S)) st st' → Forall2 S l l' →
  Forall2 (option_Forall2 (Forall2 S)) (merge_list_to_stack R st l) (merge_list_to_stack R st' l').
Proof.
  intros Hs. revert l l'. induction Hs as [|o o' st st' Ho Hs IH]; intros l l' Hl; simpl.
  { by repeat constructor. }
  destruct Ho as [a a' Ha|].
  - constructor; [constructor|]. apply IH. by apply list_merge_related.
  - constructor; [by constructor|done].
Qed.

Lemma merge_stack_related st st' :
  Forall2 (option_Forall2 (Forall2 S)) st st' → Forall2 S (merge_stack R st) (merge_stack R st').
Proof.
  induction 1 as [|o o' st st' Ho _ IH]; simpl; [constructor|].
  destruct Ho; [by apply list_merge_related|done].
Qed.

Lemma merge_sort_related l l' : Forall2 S l l' → Forall2 S (merge_sort R l) (merge_sort R l').
Proof.
  unfold merge_sort. assert (∀ st st', Forall2 (option_Forall2 (Forall2 S)) st st' → Forall2 S l l' →
    Forall2 S (merge_sort_aux R st l) (merge_sort_aux R st' l')) as Haux; [|by apply Haux].
  intros st st' Hst Hl. revert st st' Hst. induction Hl as [|x x' l l' Hx _ IH]; intros st st' Hst; simpl.
  - by apply merge_stack_related.
  - apply IH. apply merge_to_stack_related; [done|by repeat constructor].
Qed.
End sort_related.

Lemma filter_related {A} (P : A → Prop) `{∀ x, Decision (P x)} (S : A → A → Prop) l l' :
  (∀ x x', S x x' → P x ↔ P x') → Forall2 S l l' → Forall2 S (filter P l) (filter P l').
Proof.
  intros HP. induction 1 as [|x x' l l' Hx _ IH]; [constructor|]. rewrite !filter_cons.
  destruct (decide (P x)) as [Hp|Hp].
  - rewrite decide_True by (by apply (HP x x')). by constructor.
  - rewrite decide_False by (by rewrite <-(HP x x')). done.
Qed.

#[export] Hint Resolve count_where_nonneg : agentrun.

(** ** Lists in key order *)

Section keyed.
Context {A : Type} (f : A → Z).
Let ordered := (StronglySorted (λ x y, f x < f y)).

Lemma ordered_key l x y : ordered l → x ∈ l → y ∈ l → f x = f y → x = y.
Proof.
  induction 1 as [|z l Ho IH F]; [by intros ?%elem_of_nil|]. rewrite Forall_forall in F.
  intros [->|Hx]%elem_of_cons [->|Hy]%elem_of_cons E; [done| | |auto].
  - specialize (F y Hy). lia.
  - specialize (F x Hx). lia.
Qed.

Lemma ordered_filter (P : A → Prop) `{∀ x, Decision (P x)} (l : list A) : ordered l → ordered (filter P l).
Proof.
  induction 1 as [|x l Ho IH F]; [constructor|]. rewrite filter_cons. case_decide; [|done].
  constructor; [done|]. rewrite Forall_forall in F. apply Forall_forall. intros y [_ Hy]%list_elem_of_filter. auto.
Qed.

Lemma filter_all (P : A → Prop) `{∀ x, Decision (P x)} (l : list A) : (∀ x, x ∈ l → P x) → filter P l = l.
Proof.
  induction l as [|x l IH]; intros Hp; [done|]. rewrite filter_cons, decide_True by (apply Hp; left).
  f_equal. apply IH. intros y Hy. apply Hp. by right.
Qed.

(** What lies beyond and before an element. *)
Lemma filter_above l1 x l2 : ordered (l1 ++ x :: l2) → filter (λ y, f x < f y) (l1 ++ x :: l2) = l2.
Proof.
  intros (H12 & _ & [_ F]%StronglySorted_inv)%StronglySorted_app. rewrite Forall_forall in F.
  rewrite filter_app, filter_cons, decide_False by lia.
  rewrite filter_none, filter_all; [done|auto|]. intros y Hy Hlt. specialize (H12 y x Hy ltac:(left)). lia.
Qed.

Lemma filter_below l1 x l2 : ordered (l1 ++ x :: l2) → filter (λ y, f y < f x) (l1 ++ x :: l2) = l1.
Proof.
  intros (H12 & _ & [_ F]%StronglySorted_inv)%StronglySorted_app. rewrite Forall_forall in F.
  rewrite filter_app, filter_cons, decide_False by lia.
  rewrite (filter_none _ l2), filter_all, app_nil_r; [done| |].
  - intros y Hy. apply H12; [done|left].
  - intros y Hy Hlt. specialize (F y Hy). lia.
Qed.

(** Sorting by the key changes nothing. *)
Lemma ordered_sorted (R : A → A → Prop) `{!RelDecision R, !Transitive R, !Total R} l :
  (∀ x y, R x y → f x ≤ f y) → (∀ x y, f x < f y → R x y) → ordered l → merge_sort R l = l.
Proof.
  intros HR HR' Ho. apply (StronglySorted_unique_strong R).
  - intros x y Hx Hy Hxy%HR Hyx%HR. rewrite merge_sort_Permutation in Hx.
    apply (ordered_key l); [done..|lia].
  - apply (StronglySorted_merge_sort R).
  - clear -HR' Ho. induction Ho as [|x l Ho IH F]; constructor; [done|]. rewrite Forall_forall in *. auto.
  - apply merge_sort_Permutation.
Qed.
(** The rest of a selection begins right after the last element taken. *)
Lemma above_taken l a k x :
  ordered l → last (take k (filter (λ y, a < f y) l)) = Some x →
  filter (λ y, f x < f y) l = drop k (filter (λ y, a < f y) l).
Proof.
  intros Ho Hl. set (sel := filter (λ y, a < f y) l) in *.
  assert (ordered sel) as Hs by (by apply ordered_filter).
  apply last_Some in Hl as [l1 Hl]. pose proof (take_drop k sel) as E. rewrite Hl, <-app_assoc in E. simpl in E.
  assert (a < f x) as Ha.
  { assert (x ∈ sel) as [Hx _]%list_elem_of_filter; [|done]. rewrite <-E. apply elem_of_app. right. left. }
  transitivity (filter (λ y, f x < f y) sel).
  - unfold sel. rewrite list_filter_filter. apply list_filter_iff. intros y. lia.
  - rewrite <-E in Hs |- * at 1. by apply filter_above.
Qed.

Lemma below_taken l b k x :
  ordered l → last (take k (reverse (filter (λ y, f y < b) l))) = Some x →
  reverse (filter (λ y, f y < f x) l) = drop k (reverse (filter (λ y, f y < b) l)).
Proof.
  intros Ho Hl. set (sel := filter (λ y, f y < b) l) in *.
  assert (ordered sel) as Hs by (by apply ordered_filter).
  apply last_Some in Hl as [l1 Hl]. pose proof (take_drop k (reverse sel)) as E.
  rewrite Hl, <-app_assoc in E. simpl in E. set (rest := drop k (reverse sel)) in *.
  assert (sel = reverse rest ++ x :: reverse l1) as Es.
  { apply (inj reverse). rewrite <-E, reverse_app, reverse_cons, !reverse_involutive, <-app_assoc. done. }
  assert (f x < b) as Hb.
  { assert (x ∈ sel) as [Hx _]%list_elem_of_filter; [|done]. rewrite Es. apply elem_of_app. right. left. }
  transitivity (reverse (filter (λ y, f y < f x) sel)).
  - unfold sel. rewrite list_filter_filter. f_equal. apply list_filter_iff. intros y. lia.
  - rewrite Es in Hs |- *. by rewrite filter_below, reverse_involutive by done.
Qed.
End keyed.

(** ** Results *)

Lemma ok_pair_inj {A B} (a a' : A) (b b' : B) : Ok (a, b) = Ok (a', b') → a = a' ∧ b = b'.
Proof. by intros [= -> ->]. Qed.

(** ** Keys *)

Lemma primary_key {A B} (f : A → B) (l : list A) x y :
  NoDup (map f l) → x ∈ l → y ∈ l → f x = f y → x = y.
Proof.
  intros Hn Hx Hy E. apply list_elem_of_lookup in Hx as [i Hi], Hy as [j Hj].
  assert (i = j) as <-; [|congruence].
  eapply (NoDup_lookup (map f l)); [done | rewrite list_lookup_fmap, Hi; done |].
  rewrite list_lookup_fmap, Hj. simpl. by rewrite E.
Qed.

(** A lookup by primary key finds the row. *)
Lemma first_where_key {A} (f : A → string) (l : list A) x :
  NoDup (map f l) → x ∈ l → first_where (λ y, f y = f x) l = Some x.
Proof.
  intros Hn Hx. destruct (first_where_is_Some (λ y, f y = f x) l x) as [y Hy]; [done..|].
  rewrite Hy. f_equal. apply first_where_Some in Hy as [E Hy]. by apply (primary_key f l).
Qed.
