(* ===== verification/Text.v ===== *)
(** * Rust strings

    A [&str] is its UTF-8 byte sequence, held in a [string] whose characters
    are the bytes.  [len], [as_bytes] and byte slices work on bytes; [chars]
    decodes scalar values with the standard library's unchecked decoder.  The
    validity invariant of [str] is [utf8].  The char classes are those the
    validators use: [char::is_control] (category Cc) and [char::is_whitespace]
    (property White_Space). *)

From S2P Require Import Prelude.
From Stdlib Require Import Ascii.

(** ** Bytes *)

Definition u8 (a : ascii) : Z := Z.of_N (N_of_ascii a).
Definition of_u8 (b : Z) : ascii := ascii_of_N (Z.to_N b).

(** [str::as_bytes]. *)
Fixpoint bytes (s : string) : list Z :=
  match s with
  | EmptyString => []
  | String a s' => u8 a :: bytes s'
  end.

Fixpoint of_bytes (l : list Z) : string :=
  match l with
  | [] => EmptyString
  | b :: l' => String (of_u8 b) (of_bytes l')
  end.

(** [str::len], in bytes. *)
Definition len (s : string) : Z := Z.of_nat (String.length s).

Definition is_empty (s : string) : bool := bool_decide (s = ""%string).

(** [s[from..to]] for byte offsets inside the string. *)
Definition slice (s : string) (from to : nat) : string :=
  String.substring from (to - from) s.

Definition starts_with (p s : string) : bool := String.prefix p s.

(** [str::strip_prefix]. *)
Definition strip_prefix (p s : string) : option string :=
  if String.prefix p s
  then Some (String.substring (String.length p) (String.length s - String.length p) s)
  else None.

Definition ends_with (p s : string) : bool :=
  (String.length p <=? String.length s)%nat &&
  bool_decide (String.substring (String.length s - String.length p) (String.length p) s = p).

(** [str::contains(&str)]: some suffix starts with the pattern. *)
Fixpoint contains (p s : string) : bool :=
  String.prefix p s ||
  match s with
  | EmptyString => false
  | String _ s' => contains p s'
  end.

(** [str::replace]: non-overlapping matches from the left, for a nonempty
    pattern.  Every step consumes a byte, so the length is fuel enough. *)
Fixpoint replace_from (fuel : nat) (from to s : string) : string :=
  match fuel, s with
  | S fuel, String c rest =>
      match strip_prefix from s with
      | Some rest => to +:+ replace_from fuel from to rest
      | None => String c (replace_from fuel from to rest)
      end
  | _, _ => s
  end.
Definition str_replace (from to s : string) : string :=
  replace_from (String.length s) from to s.

Definition is_ascii_digit (b : Z) : bool := (48 <=? b) && (b <=? 57).
Definition is_ascii_lowercase (b : Z) : bool := (97 <=? b) && (b <=? 122).
Definition is_ascii_uppercase (b : Z) : bool := (65 <=? b) && (b <=? 90).
Definition is_ascii_alphanumeric (b : Z) : bool :=
  is_ascii_digit b || is_ascii_lowercase b || is_ascii_uppercase b.
(** Digits and [a..=f]: a lowercase hexadecimal digit. *)
Definition is_lower_hex (b : Z) : bool :=
  is_ascii_digit b || ((97 <=? b) && (b <=? 102)).
Definition to_ascii_lowercase (s : string) : string :=
  of_bytes (map (λ b, if is_ascii_uppercase b then b + 32 else b) (bytes s)).
Definition is_ascii (s : string) : bool := forallb (λ b, b <? 128) (bytes s).

(** ** Scalar values *)

(** A Unicode scalar value: a [char]. *)
Definition scalar (c : Z) : Prop := 0 ≤ c < 55296 ∨ 57344 ≤ c < 1114112.

(** [char::encode_utf8]. *)
Definition encode (c : Z) : list Z :=
  if c <? 128 then [c]
  else if c <? 2048 then [192 + c / 64; 128 + c mod 64]
  else if c <? 65536 then [224 + c / 4096; 128 + c / 64 mod 64; 128 + c mod 64]
  else [240 + c / 262144; 128 + c / 4096 mod 64; 128 + c / 64 mod 64; 128 + c mod 64].

(** [core::str::next_code_point] iterated over the bytes of a [str]; the
    branches that run out of bytes are unreachable on valid UTF-8. *)
Fixpoint decode (bs : list Z) : list Z :=
  match bs with
  | [] => []
  | x :: r =>
      if x <? 128 then x :: decode r
      else
        let init := x mod 32 in
        match r with
        | [] => []
        | y :: r1 =>
            if x <? 224 then init * 64 + y mod 64 :: decode r1
            else
              match r1 with
              | [] => []
              | z :: r2 =>
                  let y_z := y mod 64 * 64 + z mod 64 in
                  if x <? 240 then init * 4096 + y_z :: decode r2
                  else
                    match r2 with
                    | [] => []
                    | w :: r3 => init mod 8 * 262144 + (y_z * 64 + w mod 64) :: decode r3
                    end
              end
        end
  end.

(** [str::chars]. *)
Definition chars (s : string) : list Z := decode (bytes s).

(** [chars.collect::<String>()]. *)
Definition of_chars (cs : list Z) : string := of_bytes (concat (map encode cs)).

(** The validity invariant of [str]. *)
Definition utf8 (s : string) : Prop := ∃ cs, Forall scalar cs ∧ s = of_chars cs.

(** [char::is_control]: C0, DEL and C1. *)
Definition is_control (c : Z) : bool := (c <? 32) || ((127 <=? c) && (c <? 160)).

(** [char::is_whitespace]. *)
Definition is_whitespace (c : Z) : bool :=
  ((9 <=? c) && (c <=? 13)) || (c =? 32) || (c =? 133) || (c =? 160) || (c =? 5760)
  || ((8192 <=? c) && (c <=? 8202)) || (c =? 8232) || (c =? 8233) || (c =? 8239)
  || (c =? 8287) || (c =? 12288).

Fixpoint drop_space (cs : list Z) : list Z :=
  match cs with
  | [] => []
  | c :: cs' => if is_whitespace c then drop_space cs' else cs
  end.

Definition trim_chars (cs : list Z) : list Z :=
  reverse (drop_space (reverse (drop_space cs))).

(** [str::trim]. *)
Definition trim (s : string) : string := of_chars (trim_chars (chars s)).

(** [s.trim().is_empty()]. *)
Definition blank (s : string) : bool := is_empty (trim s).

(** [s.chars().count()]. *)
Definition char_count (s : string) : Z := Z.of_nat (length (chars s)).

(** [s.contains('\0')]: NUL is its own byte. *)
Definition has_nul (s : string) : bool := bool_decide (0 ∈ bytes s).

(** [str::is_char_boundary]: the end, or a byte that is not a continuation. *)
Definition is_char_boundary (s : string) (i : nat) : bool :=
  if (i =? 0)%nat then true
  else match bytes s !! i with
       | None => (i =? String.length s)%nat
       | Some b => negb ((128 <=? b) && (b <? 192))
       end.

(** [Display] of an unsigned integer. *)
Definition dec (n : Z) : string := pretty n.

(** ** Lemmas *)

Lemma bytes_app s1 s2 : bytes (s1 +:+ s2) = bytes s1 ++ bytes s2.
Proof. induction s1 as [|a s1 IH]; simpl; [done|]. by rewrite IH. Qed.

Lemma length_bytes s : length (bytes s) = String.length s.
Proof. induction s; simpl; congruence. Qed.

Lemma u8_range a : 0 ≤ u8 a < 256.
Proof. unfold u8. pose proof (N_ascii_bounded a). lia. Qed.

Lemma of_u8_u8 a : of_u8 (u8 a) = a.
Proof. unfold of_u8, u8. rewrite N2Z.id. apply ascii_N_embedding. Qed.

Lemma u8_of_u8 b : 0 ≤ b < 256 → u8 (of_u8 b) = b.
Proof. intros. unfold of_u8, u8. rewrite N_ascii_embedding; lia. Qed.

Lemma of_bytes_bytes s : of_bytes (bytes s) = s.
Proof. induction s as [|a s IH]; simpl; [done|]. by rewrite of_u8_u8, IH. Qed.

Lemma bytes_of_bytes l : Forall (λ b, 0 ≤ b < 256) l → bytes (of_bytes l) = l.
Proof. induction 1; simpl; [done|]. by rewrite u8_of_u8, IHForall. Qed.

Lemma bytes_inj s1 s2 : bytes s1 = bytes s2 → s1 = s2.
Proof. intros E. by rewrite <-(of_bytes_bytes s1), <-(of_bytes_bytes s2), E. Qed.

Lemma of_bytes_app l1 l2 : of_bytes (l1 ++ l2) = of_bytes l1 +:+ of_bytes l2.
Proof. induction l1 as [|b l1 IH]; simpl; [done|]. by rewrite IH. Qed.

Lemma app_empty s : s +:+ "" = s.
Proof. induction s as [|a s IH]; [done|]. exact (f_equal (String a) IH). Qed.

Lemma app_assoc_string s1 s2 s3 : s1 +:+ s2 +:+ s3 = (s1 +:+ s2) +:+ s3.
Proof. induction s1 as [|a s1 IH]; [done|]. exact (f_equal (String a) IH). Qed.

Lemma length_string_app s1 s2 :
  String.length (s1 +:+ s2) = (String.length s1 + String.length s2)%nat.
Proof. by rewrite <-!length_bytes, bytes_app, length_app. Qed.

Lemma len_app s1 s2 : len (s1 +:+ s2) = len s1 + len s2.
Proof. unfold len. rewrite length_string_app. lia. Qed.

Lemma len_nonneg s : 0 ≤ len s.
Proof. unfold len. lia. Qed.

Lemma len_zero s : len s = 0 ↔ s = ""%string.
Proof. unfold len. destruct s; simpl; split; (done || lia). Qed.

Ltac divmod := Z.div_mod_to_equations; lia.

Lemma encode_range c : scalar c → Forall (λ b, 0 ≤ b < 256) (encode c).
Proof.
  unfold scalar, encode. intros Hc. repeat case_match; to_prop;
    repeat (apply Forall_cons; split); try apply Forall_nil_2; divmod.
Qed.

Lemma decode_encode c r : scalar c → decode (encode c ++ r) = c :: decode r.
Proof.
  intros Hc. unfold encode.
  destruct (c <? 128) eqn:E1; [simpl; by rewrite E1|]. apply Z.ltb_ge in E1.
  destruct (c <? 2048) eqn:E2.
  { apply Z.ltb_lt in E2. simpl.
    rewrite (proj2 (Z.ltb_ge _ _)) by divmod.
    rewrite (proj2 (Z.ltb_lt _ _)) by divmod. f_equal. divmod. }
  apply Z.ltb_ge in E2.
  destruct (c <? 65536) eqn:E3.
  { apply Z.ltb_lt in E3. simpl.
    rewrite (proj2 (Z.ltb_ge _ _)) by divmod.
    rewrite (proj2 (Z.ltb_ge _ _)) by divmod.
    rewrite (proj2 (Z.ltb_lt _ _)) by divmod. f_equal. divmod. }
  apply Z.ltb_ge in E3. unfold scalar in Hc. simpl.
  rewrite (proj2 (Z.ltb_ge _ _)) by divmod.
  rewrite (proj2 (Z.ltb_ge _ _)) by divmod.
  rewrite (proj2 (Z.ltb_ge _ _)) by divmod. f_equal. divmod.
Qed.

Lemma decode_concat_encode cs : Forall scalar cs → decode (concat (map encode cs)) = cs.
Proof. induction 1; simpl; [done|]. by rewrite decode_encode, IHForall. Qed.

Lemma concat_encode_range cs :
  Forall scalar cs → Forall (λ b, 0 ≤ b < 256) (concat (map encode cs)).
Proof.
  induction 1; simpl; [done|]. apply Forall_app. split; [by apply encode_range | done].
Qed.

(** Decoding inverts encoding on scalar values. *)
Lemma chars_of_chars cs : Forall scalar cs → chars (of_chars cs) = cs.
Proof.
  intros Hcs. unfold chars, of_chars.
  rewrite bytes_of_bytes by by apply concat_encode_range.
  by apply decode_concat_encode.
Qed.

Lemma utf8_chars s : utf8 s → Forall scalar (chars s).
Proof. intros (cs & Hcs & ->). by rewrite chars_of_chars. Qed.

Lemma of_chars_chars s : utf8 s → of_chars (chars s) = s.
Proof. intros (cs & Hcs & ->). by rewrite chars_of_chars. Qed.

Lemma utf8_of_chars cs : Forall scalar cs → utf8 (of_chars cs).
Proof. intros. by exists cs. Qed.

Lemma of_chars_app c1 c2 : of_chars (c1 ++ c2) = of_chars c1 +:+ of_chars c2.
Proof. unfold of_chars. by rewrite map_app, concat_app, of_bytes_app. Qed.

Lemma utf8_app s1 s2 : utf8 s1 → utf8 s2 → utf8 (s1 +:+ s2).
Proof.
  intros (c1 & H1 & ->) (c2 & H2 & ->). exists (c1 ++ c2).
  split; [by apply Forall_app | by rewrite of_chars_app].
Qed.

Lemma chars_app s1 s2 : utf8 s1 → utf8 s2 → chars (s1 +:+ s2) = chars s1 ++ chars s2.
Proof.
  intros (c1 & H1 & ->) (c2 & H2 & ->). rewrite <-of_chars_app.
  rewrite !chars_of_chars; auto. by apply Forall_app.
Qed.

Lemma encode_length c : (1 ≤ length (encode c) ≤ 4)%nat.
Proof. unfold encode. repeat case_match; simpl; lia. Qed.

Lemma of_chars_length cs :
  (length cs ≤ String.length (of_chars cs) ≤ 4 * length cs)%nat.
Proof.
  induction cs as [|c cs IH]; simpl; [done|].
  change (c :: cs) with ([c] ++ cs). rewrite of_chars_app, length_string_app.
  assert (1 ≤ String.length (of_chars [c]) ≤ 4)%nat; [|lia].
  unfold of_chars; simpl. rewrite app_nil_r. pose proof (encode_length c) as Hl.
  revert Hl. generalize (encode c) as l. intros l Hl.
  assert (String.length (of_bytes l) = length l) as ->; [|done].
  clear. induction l; simpl; congruence.
Qed.

Lemma len_chars s : utf8 s → char_count s ≤ len s ≤ 4 * char_count s.
Proof.
  intros (cs & Hcs & ->). unfold char_count, len. rewrite chars_of_chars by done.
  pose proof (of_chars_length cs). lia.
Qed.

(** [trim] leaves a contiguous part of the characters. *)
Lemma drop_space_suffix cs : ∃ p, cs = p ++ drop_space cs ∧ Forall (λ c, is_whitespace c = true) p.
Proof.
  induction cs as [|c cs (p & E & Hp)]; simpl; [by exists []|].
  destruct (is_whitespace c) eqn:Hc; [|by exists []].
  exists (c :: p). rewrite E at 1. split; [done | by constructor].
Qed.

Lemma trim_chars_infix cs : ∃ p q, cs = p ++ trim_chars cs ++ q ∧
  Forall (λ c, is_whitespace c = true) p ∧ Forall (λ c, is_whitespace c = true) q.
Proof.
  unfold trim_chars.
  destruct (drop_space_suffix cs) as (p & E & Hp).
  destruct (drop_space_suffix (reverse (drop_space cs))) as (q & E' & Hq).
  exists p, (reverse q). split; [|split; [done | by apply Forall_reverse]].
  rewrite E at 1. f_equal. rewrite <-reverse_app, <-E'. by rewrite reverse_involutive.
Qed.

Lemma trim_chars_Forall (P : Z → Prop) cs : Forall P cs → Forall P (trim_chars cs).
Proof.
  destruct (trim_chars_infix cs) as (p & q & E & _). rewrite E at 1.
  rewrite !Forall_app. tauto.
Qed.

Lemma drop_space_id cs : (∀ c, head cs = Some c → is_whitespace c = false) → drop_space cs = cs.
Proof. destruct cs as [|c cs]; simpl; [done|]. intros H. by rewrite (H c). Qed.

Lemma drop_space_head cs c : head (drop_space cs) = Some c → is_whitespace c = false.
Proof. induction cs as [|d cs IH]; simpl; [done|]. case_match; [done|]. by intros [= <-]. Qed.

Lemma trim_chars_idemp cs : trim_chars (trim_chars cs) = trim_chars cs.
Proof.
  set (a := drop_space cs).
  assert (∀ l : list Z, drop_space (reverse (drop_space l)) = [] → drop_space l = []) as Hnil.
  { intros l Hl. destruct (drop_space_suffix (reverse (drop_space l))) as (p & E & Hp).
    rewrite Hl, app_nil_r in E. destruct (drop_space l) as [|c l'] eqn:El; [done|].
    assert (is_whitespace c = false) as Hc by (apply (drop_space_head l); by rewrite El).
    assert (c ∈ p) as Hin by (rewrite <-E, elem_of_reverse; left).
    rewrite Forall_forall in Hp. rewrite Hp in Hc; done. }
  assert (∀ c, head (trim_chars cs) = Some c → is_whitespace c = false) as Hh.
  { intros c Hc. unfold trim_chars in Hc. fold a in Hc.
    destruct (drop_space_suffix (reverse a)) as (p & E & Hp).
    set (b := drop_space (reverse a)) in *.
    assert (a = reverse b ++ reverse p) as Ea.
    { rewrite <-reverse_app, <-E. by rewrite reverse_involutive. }
    apply (drop_space_head cs). fold a. rewrite Ea.
    destruct (reverse b); simplify_eq/=; done. }
  unfold trim_chars at 1. rewrite (drop_space_id _ Hh). unfold trim_chars.
  rewrite reverse_involutive. f_equal. apply drop_space_id.
  intros c Hc. by apply (drop_space_head (reverse (drop_space cs))).
Qed.

Lemma chars_trim s : utf8 s → chars (trim s) = trim_chars (chars s).
Proof.
  intros Hs. unfold trim. apply chars_of_chars. by apply trim_chars_Forall, utf8_chars.
Qed.

Lemma utf8_trim s : utf8 s → utf8 (trim s).
Proof. intros Hs. apply utf8_of_chars. by apply trim_chars_Forall, utf8_chars. Qed.

(** Trimming twice trims once. *)
Lemma trim_idemp s : utf8 s → trim (trim s) = trim s.
Proof.
  intros Hs. unfold trim at 1. rewrite chars_trim by done. by rewrite trim_chars_idemp.
Qed.

Lemma is_empty_true s : is_empty s = true ↔ s = ""%string.
Proof. unfold is_empty. by rewrite bool_decide_eq_true. Qed.

Lemma is_empty_false s : is_empty s = false ↔ s ≠ ""%string.
Proof. unfold is_empty. by rewrite bool_decide_eq_false. Qed.

Lemma blank_empty : blank "" = true.
Proof. reflexivity. Qed.

Lemma not_blank_len s : blank s = false → 0 < len s.
Proof.
  intros Hb. destruct (decide (len s = 0)) as [E|]; [|pose proof (len_nonneg s); lia].
  apply len_zero in E as ->. done.
Qed.

(** ** Splitting at a separator *)

(** A separator outside both heads splits a text in one way. *)
Lemma app_sep_inj {A} (x : A) l1 l2 r1 r2 :
  x ∉ l1 → x ∉ l2 → l1 ++ x :: r1 = l2 ++ x :: r2 → l1 = l2 ∧ r1 = r2.
Proof.
  revert l2. induction l1 as [|y l1 IH]; intros [|z l2] H1 H2 E; injection E.
  - by intros ->.
  - intros _ ->. exfalso. apply H2. left.
  - intros _ ->. exfalso. apply H1. left.
  - clear E. intros E ->. apply not_elem_of_cons in H1 as [_ H1], H2 as [_ H2].
    destruct (IH l2 H1 H2 E) as [-> ->]. done.
Qed.

(** The byte [b] does not occur. *)
Definition free (b : Z) (s : string) : bool := bool_decide (b ∉ bytes s).

Lemma free_app b s1 s2 : free b (s1 +:+ s2) = free b s1 && free b s2.
Proof.
  unfold free. rewrite bytes_app. apply eq_bool_prop_intro. rewrite andb_True, !bool_decide_spec.
  by rewrite not_elem_of_app.
Qed.

Lemma string_sep_inj b s1 s2 t1 t2 :
  0 ≤ b < 256 → free b s1 = true → free b s2 = true →
  s1 +:+ of_bytes [b] +:+ t1 = s2 +:+ of_bytes [b] +:+ t2 → s1 = s2 ∧ t1 = t2.
Proof.
  unfold free. rewrite !bool_decide_eq_true. intros Hb H1 H2 E.
  apply (f_equal bytes) in E. rewrite !bytes_app in E. simpl in E. rewrite u8_of_u8 in E by done.
  destruct (app_sep_inj b _ _ _ _ H1 H2 E). split; by apply bytes_inj.
Qed.

(** The same split at the last separator. *)
Lemma string_sep_inj_last b s1 s2 t1 t2 :
  0 ≤ b < 256 → free b t1 = true → free b t2 = true →
  s1 +:+ of_bytes [b] +:+ t1 = s2 +:+ of_bytes [b] +:+ t2 → s1 = s2 ∧ t1 = t2.
Proof.
  unfold free. rewrite !bool_decide_eq_true. intros Hb H1 H2 E.
  apply (f_equal (λ s, rev (bytes s))) in E. rewrite !bytes_app in E. simpl in E. rewrite u8_of_u8 in E by done.
  rewrite !rev_app_distr in E. simpl in E. rewrite <-!app_assoc in E. simpl in E.
  destruct (app_sep_inj b (rev (bytes t1)) (rev (bytes t2)) (rev (bytes s1)) (rev (bytes s2))) as [E1 E2]; [| |done|].
  1,2: by rewrite list_elem_of_In, <-in_rev, <-list_elem_of_In.
  split; apply bytes_inj; [rewrite <-(rev_involutive (bytes s1)), E2|rewrite <-(rev_involutive (bytes t1)), E1];
    apply rev_involutive.
Qed.

Lemma free_utf8 b s :
  utf8 s → 0 ≤ b < 128 → b ∉ chars s → free b s = true.
Proof.
  intros (cs & Hcs & ->) Hb. rewrite chars_of_chars by done. unfold of_chars, free.
  rewrite bytes_of_bytes by by apply concat_encode_range. rewrite bool_decide_eq_true.
  induction Hcs as [|c cs Hc Hcs IH]; simpl; intros Hn; [apply not_elem_of_nil|].
  apply not_elem_of_cons in Hn as [Hne Hn]. apply not_elem_of_app. split; [|by apply IH].
  unfold scalar in Hc. unfold encode. repeat case_match; to_prop;
    repeat (apply not_elem_of_cons; split); try apply not_elem_of_nil; divmod.
Qed.

(** Decimal digits contain neither separators nor controls. *)
Lemma pretty_N_go_free b n s :
  ¬ (48 ≤ b ≤ 57) → free b s = true → free b (pretty_N_go n s) = true.
Proof.
  intros Hb. revert s. induction (N.lt_wf_0 n) as [n _ IH]; intros s Hs.
  assert (n = 0 ∨ 0 < n)%N as [->|?] by lia; [by rewrite pretty_N_go_0|].
  rewrite pretty_N_go_step by done. apply IH; [by apply N.div_lt|].
  change (String (pretty_N_char (n `mod` 10)) s)
    with (String (pretty_N_char (n `mod` 10)) "" +:+ s).
  rewrite free_app, Hs, andb_true_r. unfold free. rewrite bool_decide_eq_true.
  unfold pretty_N_char. simpl. apply not_elem_of_cons. split; [|apply not_elem_of_nil].
  repeat case_match; vm_compute u8; lia.
Qed.

Lemma dec_free b n : b ≠ 45 → ¬ (48 ≤ b ≤ 57) → free b (dec n) = true.
Proof.
  intros Hd Hb. assert (∀ p, free b (pretty (N.pos p)) = true) as Hp.
  { intros p. unfold pretty, pretty_N. rewrite decide_False by done.
    by apply pretty_N_go_free. }
  unfold dec, pretty, pretty_Z. destruct n as [|p|p]; [|apply Hp|].
  - unfold free. rewrite bool_decide_eq_true. simpl.
    apply not_elem_of_cons. split; [vm_compute u8; lia | apply not_elem_of_nil].
  - rewrite free_app. apply andb_true_iff. split; [|apply Hp].
    unfold free. rewrite bool_decide_eq_true. simpl.
    apply not_elem_of_cons. split; [vm_compute u8; lia | apply not_elem_of_nil].
Qed.

Lemma dec_inj m n : dec m = dec n → m = n.
Proof. apply (inj pretty). Qed.

Lemma app_last_byte s1 s2 : s2 ≠ ""%string → last (bytes (s1 +:+ s2)) = last (bytes s2).
Proof.
  intros Hs. rewrite bytes_app, last_app. destruct s2 as [|a s2]; [done|]. simpl.
  destruct (last (u8 a :: bytes s2)) eqn:E; [done|]. by apply last_None in E.
Qed.

Lemma string_app_inj_r s1 s2 t : s1 +:+ t = s2 +:+ t → s1 = s2.
Proof.
  intros E. apply (f_equal bytes) in E. rewrite !bytes_app in E.
  by apply bytes_inj, (app_inv_tail (bytes t)).
Qed.

Lemma ascii_utf8 s : is_ascii s = true → utf8 s.
Proof.
  unfold is_ascii. intros Ha. exists (bytes s).
  assert (Forall (λ b, 0 ≤ b < 128) (bytes s)) as Hb.
  { induction s as [|a s IH]; simpl in *; [done|]. to_prop.
    constructor; [pose proof (u8_range a); lia | by apply IH]. }
  split; [eapply Forall_impl; [done|]; unfold scalar; simpl; lia|].
  assert (concat (map encode (bytes s)) = bytes s) as E.
  { clear Ha. induction Hb as [|b l Hb _ IH]; simpl; [done|]. unfold encode at 1.
    rewrite (proj2 (Z.ltb_lt b 128)) by lia. simpl. by f_equal. }
  unfold of_chars. by rewrite E, of_bytes_bytes.
Qed.

(** A character prefix is a byte prefix. *)
Lemma of_chars_take_prefix s k :
  utf8 s → ∃ rest, s = of_chars (take k (chars s)) +:+ rest.
Proof.
  intros Hu. exists (of_chars (drop k (chars s))).
  rewrite <-of_chars_app, take_drop. by rewrite of_chars_chars.
Qed.

Lemma dec_bytes b n : b ∈ bytes (dec n) → b = 45 ∨ 48 ≤ b ≤ 57.
Proof.
  intros Hin. destruct (decide (b = 45)); [by left|]. destruct (decide (48 ≤ b ≤ 57)); [by right|].
  assert (free b (dec n) = true) as Hf by (apply dec_free; lia).
  unfold free in Hf. by rewrite bool_decide_eq_true in Hf.
Qed.

Lemma pretty_N_go_suffix n s : ∃ p, pretty_N_go n s = p +:+ s.
Proof.
  revert s. induction (N.lt_wf_0 n) as [n _ IH]; intros s.
  assert (n = 0 ∨ 0 < n)%N as [->|?] by lia; [by exists ""%string|].
  rewrite pretty_N_go_step by done.
  destruct (IH (n `div` 10)%N (N.div_lt n 10 ltac:(done) eq_refl)
    (String (pretty_N_char (n `mod` 10)) s)) as [p ->].
  exists (p +:+ String (pretty_N_char (n `mod` 10)) ""). by rewrite <-app_assoc_string.
Qed.

Lemma dec_nonempty n : dec n ≠ ""%string.
Proof.
  assert (∀ p, pretty (N.pos p) ≠ ""%string) as Hp.
  { intros p. unfold pretty, pretty_N. rewrite decide_False by done.
    rewrite pretty_N_go_step by done.
    destruct (pretty_N_go_suffix (N.pos p `div` 10) (String (pretty_N_char (N.pos p `mod` 10)) ""))
      as [q ->]. intros E. apply (f_equal String.length) in E.
    rewrite length_string_app in E. simpl in E. lia. }
  unfold dec, pretty, pretty_Z. destruct n as [|p|p]; [done | apply Hp | done].
Qed.

(** A number below [10^k] has at most [k] digits. *)
Lemma pretty_N_go_length n s k :
  (n < 10 ^ N.of_nat k)%N → (String.length (pretty_N_go n s) ≤ k + String.length s)%nat.
Proof.
  revert n s. induction k as [|k IH]; intros n s Hn.
  - assert (n = 0)%N as -> by (simpl in Hn; lia). by rewrite pretty_N_go_0.
  - assert (n = 0 ∨ 0 < n)%N as [->|?] by lia; [rewrite pretty_N_go_0; lia|].
    rewrite pretty_N_go_step by done.
    assert (n `div` 10 < 10 ^ N.of_nat k)%N as Hd.
    { apply N.Div0.div_lt_upper_bound. rewrite Nat2N.inj_succ, N.pow_succ_r' in Hn. lia. }
    specialize (IH _ (String (pretty_N_char (n `mod` 10)) s) Hd). simpl in IH. lia.
Qed.

Lemma len_dec n k : (0 < k)%nat → 0 ≤ n < 10 ^ Z.of_nat k → len (dec n) ≤ Z.of_nat k.
Proof.
  intros Hk Hn. destruct n as [|p|p]; [unfold len; simpl; lia| |lia].
  assert (N.pos p < 10 ^ N.of_nat k)%N as Hp.
  { apply N2Z.inj_lt. rewrite N2Z.inj_pow, nat_N_Z. apply Hn. }
  pose proof (pretty_N_go_length _ "" _ Hp) as Hl. rewrite Nat.add_0_r in Hl.
  unfold len, dec. change (pretty (Z.pos p)) with (pretty (N.pos p)).
  unfold pretty, pretty_N. rewrite decide_False by done. lia.
Qed.

Lemma ascii_chars s : is_ascii s = true → chars s = bytes s.
Proof.
  unfold is_ascii. rewrite forallb_forall. intros Ha.
  assert (Forall scalar (bytes s)) as Hs.
  { apply Forall_forall. intros b Hb. unfold scalar.
    assert (b < 128) by (apply Z.ltb_lt, Ha; by apply list_elem_of_In).
    assert (0 ≤ b) by (clear -Hb; induction s as [|a s IH]; simpl in Hb;
      [by apply elem_of_nil in Hb|apply elem_of_cons in Hb as [->|Hb]; [apply u8_range|auto]]). lia. }
  assert (concat (map encode (bytes s)) = bytes s) as E.
  { clear Hs. induction (bytes s) as [|b l IH]; simpl; [done|]. unfold encode at 1.
    rewrite (Ha b) by (by left). simpl. f_equal. apply IH. intros x Hx. apply Ha. by right. }
  rewrite <-(chars_of_chars (bytes s) Hs). f_equal. unfold of_chars. by rewrite E, of_bytes_bytes.
Qed.

Lemma of_chars_empty cs : of_chars cs = ""%string → cs = [].
Proof.
  intros E. destruct cs as [|c cs]; [done|]. apply (f_equal String.length) in E.
  pose proof (of_chars_length (c :: cs)) as Hl. simpl in Hl, E. lia.
Qed.

(** A string with a visible character is not blank. *)
Lemma visible_not_blank s c : c ∈ chars s → is_whitespace c = false → blank s = false.
Proof.
  intros Hc Hw. unfold blank. apply is_empty_false. unfold trim. intros E%of_chars_empty.
  destruct (trim_chars_infix (chars s)) as (p & q & Ecs & Hp & Hq). rewrite E in Ecs. simpl in Ecs.
  rewrite Ecs in Hc. rewrite Forall_forall in Hp, Hq.
  apply elem_of_app in Hc as [Hc|Hc]; [specialize (Hp c Hc)|specialize (Hq c Hc)]; congruence.
Qed.

(** ** Prefixes *)

Lemma strip_prefix_self s t : strip_prefix s (s +:+ t) = Some t.
Proof.
  unfold strip_prefix. assert (String.prefix s (s +:+ t) = true) as ->.
  { induction s as [|c s IH]; simpl; [by destruct t|]. by destruct (ascii_dec c c). }
  f_equal. rewrite length_string_app. replace (_ + _ - _)%nat with (String.length t) by lia.
  induction s as [|c s IH]; [|exact IH]. simpl. induction t as [|c t IH]; simpl; [done|]. by f_equal.
Qed.

Lemma strip_prefix_Some s t r : strip_prefix s t = Some r → t = s +:+ r.
Proof.
  unfold strip_prefix. destruct (String.prefix s t) eqn:E; [|done].
  assert (∃ r, t = s +:+ r) as [r' ->].
  { clear -E. revert t E. induction s as [|c s IH]; intros t E; [by exists t|]. destruct t as [|d t]; [done|].
    simpl in E. destruct (ascii_dec c d) as [->|]; [|done]. destruct (IH t E) as [r' ->]. by exists r'. }
  pose proof (strip_prefix_self s r') as Es. unfold strip_prefix in Es. rewrite E in Es.
  injection Es as Es. rewrite Es. by intros [= ->].
Qed.

Lemma strip_prefix_length s t r : strip_prefix s t = Some r → String.length t = (String.length s + String.length r)%nat.
Proof. intros ->%strip_prefix_Some. by rewrite length_string_app. Qed.
