(* ===== verification/Float64.v ===== *)
(** * Rust [f64]

    IEEE 754 binary64 as the Standard Library's specification floats.  The
    comparisons are Rust's [PartialOrd]: every comparison with a NaN is false.
    On the other values the order is the lexicographic order of [rank], which
    gives the totality and transitivity the sorts of the program rely on. *)

From S2P Require Import Prelude.
From Stdlib Require Export SpecFloat.

Definition f64 := spec_float.
Definition prec : Z := 53.
Definition emax : Z := 1024.

(** An integer literal such as [25.0], or [n as f64]. *)
Definition of_Z (n : Z) : f64 := binary_normalize prec emax n 0 false.

Definition fadd : f64 → f64 → f64 := SFadd prec emax.
Definition fsub : f64 → f64 → f64 := SFsub prec emax.
Definition fmul : f64 → f64 → f64 := SFmul prec emax.
Definition fdiv : f64 → f64 → f64 := SFdiv prec emax.

Definition partial_cmp (a b : f64) : option comparison := SFcompare a b.
Definition flt (a b : f64) : bool := SFltb a b.
Definition fle (a b : f64) : bool := SFleb a b.
Definition feq (a b : f64) : bool := SFeqb a b.
Definition is_nan (a : f64) : bool := match a with S754_nan => true | _ => false end.
Definition is_finite (a : f64) : bool :=
  match a with S754_nan | S754_infinity _ => false | _ => true end.

(** [f64::max] and [f64::min]: a NaN operand is ignored. *)
Definition fmax (a b : f64) : f64 := if is_nan a then b else if flt a b then b else a.
Definition fmin (a b : f64) : f64 := if is_nan a then b else if flt b a then b else a.

(** [f64::clamp]. *)
Definition fclamp (a lo hi : f64) : f64 :=
  let a := if flt a lo then lo else a in if flt hi a then hi else a.

#[global] Instance f64_eq_dec : EqDecision f64.
Proof. unfold EqDecision, f64. solve_decision. Defined.

(** ** Order *)

(** The position of a value: its class from [-2] (minus infinity) to [2], then
    the signed exponent and mantissa of a nonzero finite value. *)
Definition rank (a : f64) : Z * Z * Z :=
  match a with
  | S754_infinity true => (-2, 0, 0)
  | S754_finite true m e => (-1, - e, - Z.pos m)
  | S754_zero _ | S754_nan => (0, 0, 0)
  | S754_finite false m e => (1, e, Z.pos m)
  | S754_infinity false => (2, 0, 0)
  end.

Definition lex3 (x y : Z * Z * Z) : comparison :=
  match x, y with
  | (a1, b1, c1), (a2, b2, c2) =>
      match Z.compare a1 a2 with
      | Eq => match Z.compare b1 b2 with Eq => Z.compare c1 c2 | c => c end
      | c => c
      end
  end.

Definition lex3_le (x y : Z * Z * Z) : Prop :=
  match x, y with
  | (a1, b1, c1), (a2, b2, c2) =>
      a1 < a2 ∨ (a1 = a2 ∧ (b1 < b2 ∨ (b1 = b2 ∧ c1 ≤ c2)))
  end.

Lemma lex3_spec x y :
  match lex3 x y with
  | Lt => lex3_le x y ∧ ¬ lex3_le y x
  | Eq => x = y
  | Gt => lex3_le y x ∧ ¬ lex3_le x y
  end.
Proof.
  destruct x as [[a1 b1] c1], y as [[a2 b2] c2]. unfold lex3, lex3_le.
  destruct (Z.compare_spec a1 a2); [|lia..].
  destruct (Z.compare_spec b1 b2); [|lia..].
  destruct (Z.compare_spec c1 c2); [by subst | lia..].
Qed.

Lemma lex3_le_trans x y z : lex3_le x y → lex3_le y z → lex3_le x z.
Proof. destruct x as [[??]?], y as [[??]?], z as [[??]?]. unfold lex3_le. lia. Qed.

Lemma lex3_le_total x y : lex3_le x y ∨ lex3_le y x.
Proof. destruct x as [[??]?], y as [[??]?]. unfold lex3_le. lia. Qed.

Lemma partial_cmp_rank a b :
  is_nan a = false → is_nan b = false → partial_cmp a b = Some (lex3 (rank a) (rank b)).
Proof.
  unfold partial_cmp, rank, lex3.
  destruct a as [|[]| |[] m1 e1], b as [|[]| |[] m2 e2]; try done; intros _ _; simpl.
  rewrite Z.compare_opp, (Z.compare_antisym e1 e2).
  by destruct (Z.compare e1 e2).
Qed.

Lemma partial_cmp_None a b : partial_cmp a b = None ↔ is_nan a = true ∨ is_nan b = true.
Proof.
  split.
  - intros Hn. destruct (is_nan a) eqn:Ha; [by left|]. destruct (is_nan b) eqn:Hb; [by right|].
    by rewrite partial_cmp_rank in Hn.
  - by destruct a as [|[]| |[]], b as [|[]| |[]]; intros [].
Qed.

Lemma fle_rank a b :
  fle a b = true ↔ is_nan a = false ∧ is_nan b = false ∧ lex3_le (rank a) (rank b).
Proof.
  unfold fle, SFleb. change (SFcompare a b) with (partial_cmp a b).
  destruct (is_nan a) eqn:Ha, (is_nan b) eqn:Hb;
    try (rewrite (proj2 (partial_cmp_None a b)) by auto; naive_solver).
  rewrite partial_cmp_rank by done. pose proof (lex3_spec (rank a) (rank b)) as Hs.
  destruct (lex3 (rank a) (rank b)).
  - rewrite Hs. destruct (lex3_le_total (rank b) (rank b)); naive_solver.
  - naive_solver.
  - naive_solver.
Qed.

Lemma flt_rank a b :
  flt a b = true ↔ is_nan a = false ∧ is_nan b = false ∧ ¬ lex3_le (rank b) (rank a).
Proof.
  unfold flt, SFltb. change (SFcompare a b) with (partial_cmp a b).
  destruct (is_nan a) eqn:Ha, (is_nan b) eqn:Hb;
    try (rewrite (proj2 (partial_cmp_None a b)) by auto; naive_solver).
  rewrite partial_cmp_rank by done. pose proof (lex3_spec (rank a) (rank b)) as Hs.
  destruct (lex3 (rank a) (rank b)).
  - rewrite Hs. destruct (lex3_le_total (rank b) (rank b)); naive_solver.
  - naive_solver.
  - naive_solver.
Qed.

Lemma fle_trans a b c : fle a b = true → fle b c = true → fle a c = true.
Proof. rewrite !fle_rank. intros (?&?&?) (?&?&?). eauto using lex3_le_trans. Qed.

Lemma fle_total a b : is_nan a = false → is_nan b = false → fle a b = true ∨ fle b a = true.
Proof. rewrite !fle_rank. destruct (lex3_le_total (rank a) (rank b)); naive_solver. Qed.

Lemma flt_fle a b : is_nan a = false → is_nan b = false → flt a b = negb (fle b a).
Proof.
  intros Ha Hb. apply eq_bool_prop_intro. rewrite negb_True, !Is_true_true.
  rewrite flt_rank, fle_rank. naive_solver.
Qed.

Lemma is_finite_not_nan a : is_finite a = true → is_nan a = false.
Proof. by destruct a. Qed.
