(* ===== verification/Json.v ===== *)
(** * JSON documents

    [serde_json::Value] without the [arbitrary_precision] and [preserve_order]
    features: a number is an [i64], a [u64] or an [f64], and an object is an
    ordered map, kept as its key-sorted association list. *)

From S2P Require Import Prelude Float64.

Inductive Number :=
  | PosInt (n : Z)
  | NegInt (n : Z)
  | Float (f : f64).

Inductive Value :=
  | Null
  | Bool (b : bool)
  | Num (n : Number)
  | Str (s : string)
  | Arr (items : list Value)
  | Obj (map : list (string * Value)).

#[global] Instance number_eq_dec : EqDecision Number.
Proof. solve_decision. Defined.

(** Structural induction through the nested lists. *)
Section value_ind.
Variable P : Value → Prop.
Hypothesis HNull : P Null.
Hypothesis HBool : ∀ b, P (Bool b).
Hypothesis HNum : ∀ n, P (Num n).
Hypothesis HStr : ∀ s, P (Str s).
Hypothesis HArr : ∀ l, Forall P l → P (Arr l).
Hypothesis HObj : ∀ m, Forall (λ kv, P (snd kv)) m → P (Obj m).

Fixpoint value_nested_ind (v : Value) : P v :=
  match v with
  | Null => HNull
  | Bool b => HBool b
  | Num n => HNum n
  | Str s => HStr s
  | Arr l =>
      HArr l
        ((fix go l : Forall P l :=
            match l with
            | [] => Forall_nil_2 P
            | x :: l' => Forall_cons_2 P x l' (value_nested_ind x) (go l')
            end) l)
  | Obj m =>
      HObj m
        ((fix go m : Forall (λ kv, P (snd kv)) m :=
            match m with
            | [] => Forall_nil_2 _
            | kv :: m' =>
                Forall_cons_2 (λ kv, P (snd kv)) kv m' (value_nested_ind (snd kv)) (go m')
            end) m)
  end.
End value_ind.

#[global] Instance value_eq_dec : EqDecision Value.
Proof.
  hnf. fix go 1. intros v w.
  destruct v as [|b|n|s|l|m], w as [|b'|n'|s'|l'|m']; try (right; congruence).
  - by left.
  - destruct (decide (b = b')); [left; congruence | right; congruence].
  - destruct (decide (n = n')); [left; congruence | right; congruence].
  - destruct (decide (s = s')); [left; congruence | right; congruence].
  - assert (Decision (l = l')) as [|]; [|left; congruence | right; congruence].
    revert l'. induction l as [|x l IH]; intros [|y l']; try (by left); try (by right).
    destruct (go x y); [|right; congruence].
    destruct (IH l'); [left; congruence | right; congruence].
  - assert (Decision (m = m')) as [|]; [|left; congruence | right; congruence].
    revert m'. induction m as [|[k x] m IH]; intros [|[k' y] m']; try (by left); try (by right).
    destruct (decide (k = k')); [|right; congruence].
    destruct (go x y); [|right; congruence].
    destruct (IH m'); [left; congruence | right; congruence].
Defined.
