(* ===== verification/Canonical.v ===== *)
(** * Canonical JSON

    [canonical.rs]: the byte-exact serializer behind every persisted digest
    (CPython's [json.dumps] with sorted keys and compact separators).  A float
    prints the shortest digits that round to it, generated as the Standard
    Library's [flt2dec] does, in CPython's layout.  On float-free documents the
    serialization is injective, so equal digests mean equal documents up to
    hash collisions. *)

From S2P Require Import Prelude Text Float64 Json.

(** ** Strings *)

Definition hex_digit (n : Z) : Z := if n <? 10 then 48 + n else 87 + n.

(** [format!("\\u{code_point:04x}")]: backslash, [u], four hex digits. *)
Definition push_u_escape (code_point : Z) : list Z :=
  [92; 117; hex_digit (code_point / 4096 mod 16); hex_digit (code_point / 256 mod 16);
   hex_digit (code_point / 16 mod 16); hex_digit (code_point mod 16)].

(** One character of [write_string]. *)
Definition write_char (ensure_ascii : bool) (c : Z) : list Z :=
  if c =? 34 then [92; 34]
  else if c =? 92 then [92; 92]
  else if c =? 8 then [92; 98]
  else if c =? 9 then [92; 116]
  else if c =? 10 then [92; 110]
  else if c =? 12 then [92; 102]
  else if c =? 13 then [92; 114]
  else if c <? 32 then push_u_escape c
  else if ensure_ascii && (126 <? c) then
    if c <? 65536 then push_u_escape c
    else push_u_escape (55296 + (c - 65536) / 1024)
         ++ push_u_escape (56320 + (c - 65536) mod 1024)
  else encode c.

Definition write_string (ensure_ascii : bool) (s : string) : list Z :=
  [34] ++ concat (map (write_char ensure_ascii) (chars s)) ++ [34].

(** ** Floats *)

(** The digit loop of the shortest formatter: the value is [mant / scale] of
    the current position, and the run stops once the digits so far lie within
    [minus] below or [plus] above it. *)
Fixpoint shortest_digits (fuel : nat) (inclusive : bool) (mant minus plus scale : Z)
  : list Z * bool :=
  match fuel with
  | O => ([], false)
  | S fuel =>
      let d := mant / scale in
      let mant := mant mod scale in
      let down := if inclusive then mant <=? minus else mant <? minus in
      let up := if inclusive then scale <=? mant + plus else scale <? mant + plus in
      if down || up then ([d], up && (negb down || (scale <=? 2 * mant)))
      else
        let '(ds, round) :=
          shortest_digits fuel inclusive (10 * mant) (10 * minus) (10 * plus) scale in
        (d :: ds, round)
  end.

(** Adds one to the last digit; a carry out of the first digit leaves a
    leading one and moves the decimal point. *)
Fixpoint round_up (ds : list Z) : bool * list Z :=
  match ds with
  | [] => (true, [])
  | d :: ds' =>
      let '(carry, ds') := round_up ds' in
      if carry then if d =? 9 then (true, 0 :: ds') else (false, (d + 1) :: ds')
      else (false, d :: ds')
  end.

(** The least [k] with [high / den <= 10^k], by search from a lower bound. *)
Fixpoint scale_up (fuel : nat) (strict : bool) (high den k : Z) : Z :=
  match fuel with
  | O => k
  | S fuel =>
      let above := if 0 <=? k then den * 10 ^ k <? high else den <? high * 10 ^ (- k) in
      let at_top := if 0 <=? k then den * 10 ^ k =? high else den =? high * 10 ^ (- k) in
      if above || (strict && at_top) then scale_up fuel strict high den (k + 1) else k
  end.

Fixpoint strip_zeros (ds : list Z) : list Z :=
  match ds with
  | [] => []
  | d :: ds' => match strip_zeros ds' with
                | [] => if d =? 0 then [] else [d]
                | ds'' => d :: ds''
                end
  end.

(** The digits [d1 d2 ...] and exponent [k] of [0.d1d2... * 10^k], the shortest
    decimal that rounds to the positive value [m * 2^e]. *)
Definition shortest (m e : Z) : list Z * Z :=
  let boundary := m =? 2 ^ 52 in
  let shift := if boundary then 2 else 1 in
  let mant := m * 2 ^ shift in
  let minus := 1 in
  let plus := if boundary then 2 else 1 in
  let exp := e - shift in
  let inclusive := Z.even m in
  let num := if 0 <=? exp then 2 ^ exp else 1 in
  let den := if 0 <=? exp then 1 else 2 ^ (- exp) in
  let k := scale_up 700 inclusive ((mant + plus) * num) den (-330) in
  let up := if 0 <=? k then 1 else 10 ^ (- k) in
  let scale := den * (if 0 <=? k then 10 ^ k else 1) in
  let '(ds, round) :=
    shortest_digits 20 inclusive (10 * mant * num * up) (10 * minus * num * up)
      (10 * plus * num * up) scale in
  if round then
    let '(carry, ds) := round_up ds in
    if carry then (strip_zeros (1 :: ds), k + 1) else (strip_zeros ds, k)
  else (ds, k).

Definition digits_str (ds : list Z) : string := of_bytes (map (λ d, 48 + d) ds).
Definition zeros (n : Z) : string := digits_str (repeat 0 (Z.to_nat n)).

(** [python_float_repr]; [decpt] is the position of the decimal point. *)
Definition python_float_repr (f : f64) : string :=
  match f with
  | S754_nan => "NaN"
  | S754_infinity s => if s then "-Infinity" else "Infinity"
  | S754_zero s => (if s then "-" else "") +:+ "0.0"
  | S754_finite s m e =>
      let sign := if s then "-" else ""%string in
      let '(digits, decpt) := shortest (Z.pos m) e in
      let n := Z.of_nat (length digits) in
      let body :=
        if (decpt <=? -4) || (16 <? decpt) then
          let e := decpt - 1 in
          digits_str (take 1 digits)
          +:+ (if 1 <? n then "." +:+ digits_str (drop 1 digits) else "")
          +:+ "e" +:+ (if 0 <=? e then "+" else "-")
          +:+ (if Z.abs e <? 10 then "0" else "") +:+ dec (Z.abs e)
        else if decpt <=? 0 then "0." +:+ zeros (- decpt) +:+ digits_str digits
        else if n <=? decpt then digits_str digits +:+ zeros (decpt - n) +:+ ".0"
        else digits_str (take (Z.to_nat decpt) digits) +:+ "."
             +:+ digits_str (drop (Z.to_nat decpt) digits) in
      sign +:+ body
  end.

(** ** Documents *)

Definition write_number (n : Number) : list Z :=
  match n with
  | PosInt i | NegInt i => bytes (dec i)
  | Float f => bytes (python_float_repr f)
  end.

(** [out.push(b',')] between the items. *)
Definition comma_sep (items : list (list Z)) : list Z :=
  match items with
  | [] => []
  | x :: rest => x ++ concat (map (λ y, 44 :: y) rest)
  end.

Definition by_key {A} (x y : string * A) : Prop := (fst x ≤ fst y)%string.
#[global] Instance by_key_dec {A} : RelDecision (@by_key A).
Proof. intros x y. unfold by_key. apply _. Defined.

(** [write_value]; the keys of an object are sorted, and each is looked up. *)
Fixpoint write_value (ensure_ascii : bool) (v : Value) : list Z :=
  match v with
  | Null => bytes "null"
  | Bool true => bytes "true"
  | Bool false => bytes "false"
  | Num n => write_number n
  | Str s => write_string ensure_ascii s
  | Arr items => [91] ++ comma_sep (map (write_value ensure_ascii) items) ++ [93]
  | Obj map' =>
      let fields := map (λ kv, (fst kv, write_value ensure_ascii (snd kv))) map' in
      [123]
      ++ comma_sep
           (map (λ kv, write_string ensure_ascii (fst kv) ++ [58] ++ snd kv)
              (merge_sort by_key fields))
      ++ [125]
  end.

Definition dumps (v : Value) (ensure_ascii : bool) : list Z := write_value ensure_ascii v.

(** [hex_digest]: two lowercase digits per byte. *)
Definition hex_digest (bs : list Z) : string :=
  of_bytes (concat (map (λ b, [hex_digit (b / 16); hex_digit (b mod 16)]) bs)).

(** The SHA-256 digest of [sha2], 32 bytes. *)
Class Sha256 := { digest : list Z → list Z }.

Definition sha256_hex `{Sha256} (v : Value) (ensure_ascii : bool) : string :=
  hex_digest (digest (dumps v ensure_ascii)).

(** [agent_run_platform::fs::sha256]: the hex digest of raw bytes. *)
Definition sha256 `{Sha256} (bs : list Z) : string := hex_digest (digest bs).

(** ** Reading back a character *)

Definition unhex (b : Z) : Z := if b <? 58 then b - 48 else b - 87.

Definition read_u (bs : list Z) : option (Z * list Z) :=
  match bs with
  | a :: b :: c :: d :: r => Some (4096 * unhex a + 256 * unhex b + 16 * unhex c + unhex d, r)
  | _ => None
  end.

Definition read_raw (bs : list Z) : option (Z * list Z) :=
  match decode bs with
  | c :: _ => Some (c, drop (length (encode c)) bs)
  | [] => None
  end.

Definition read_unicode (bs : list Z) : option (Z * list Z) :=
  match read_u bs with
  | Some (u, r) =>
      if (55296 <=? u) && (u <? 56320) then
        match read_u (drop 2 r) with
        | Some (l, r') => Some (65536 + (u - 55296) * 1024 + (l - 56320), r')
        | None => None
        end
      else Some (u, r)
  | None => None
  end.

(** The inverse of [write_char]. *)
Definition read_char (bs : list Z) : option (Z * list Z) :=
  match bs with
  | b :: x :: r =>
      if b =? 92 then
        if x =? 117 then read_unicode r
        else Some (if x =? 98 then 8 else if x =? 116 then 9 else if x =? 110 then 10
                   else if x =? 102 then 12 else if x =? 114 then 13 else x, r)
      else read_raw bs
  | _ => read_raw bs
  end.

Lemma unhex_hex n : 0 ≤ n < 16 → unhex (hex_digit n) = n.
Proof. intros Hn. unfold unhex, hex_digit. repeat case_match; to_prop; lia. Qed.

Lemma read_u_escape u r :
  0 ≤ u < 65536 →
  read_u (drop 2 (push_u_escape u) ++ r) = Some (u, r).
Proof.
  intros Hu. unfold push_u_escape. simpl.
  rewrite !unhex_hex by divmod. do 2 f_equal. divmod.
Qed.

Lemma read_char_raw c r :
  scalar c → c ≠ 92 → read_char (encode c ++ r) = Some (c, r).
Proof.
  intros Hc Hne.
  assert (∃ b t, encode c ++ r = b :: t ∧ b ≠ 92) as (b & t & E & Hb).
  { unfold encode, scalar in *. repeat case_match; to_prop; simpl;
      (eexists _, _; split; [done|divmod]). }
  assert (read_char (encode c ++ r) = read_raw (encode c ++ r)) as ->.
  { rewrite E. unfold read_char. destruct t; [done|]. by rewrite (proj2 (Z.eqb_neq b 92)). }
  unfold read_raw. rewrite decode_encode by done. by rewrite drop_app_length.
Qed.

Lemma push_u_split u r : push_u_escape u ++ r = 92 :: 117 :: (drop 2 (push_u_escape u) ++ r).
Proof. unfold push_u_escape. reflexivity. Qed.

Lemma drop_two (a b : Z) t : drop 2 (a :: b :: t) = t.
Proof. reflexivity. Qed.

Lemma read_char_unicode r : read_char (92 :: 117 :: r) = read_unicode r.
Proof. reflexivity. Qed.

Lemma read_char_u u r :
  0 ≤ u < 65536 → ¬ (55296 ≤ u < 56320) → read_char (push_u_escape u ++ r) = Some (u, r).
Proof.
  intros Hu Hs. rewrite push_u_split, read_char_unicode.
  unfold read_unicode. rewrite read_u_escape by done.
  destruct ((55296 <=? u) && (u <? 56320)) eqn:E; [to_prop; lia | done].
Qed.

Lemma read_char_pair h l r :
  55296 ≤ h < 56320 → 56320 ≤ l < 57344 →
  read_char (push_u_escape h ++ push_u_escape l ++ r)
  = Some (65536 + (h - 55296) * 1024 + (l - 56320), r).
Proof.
  intros Hh Hl. rewrite (push_u_split h), read_char_unicode.
  unfold read_unicode. rewrite read_u_escape by lia.
  rewrite (proj2 (Z.leb_le 55296 h)), (proj2 (Z.ltb_lt h 56320)) by lia. cbn [andb].
  rewrite (push_u_split l), drop_two. by rewrite read_u_escape by lia.
Qed.

Lemma read_write_char e c r :
  scalar c → read_char (write_char e c ++ r) = Some (c, r).
Proof.
  intros Hc. unfold write_char.
  do 7 (match goal with |- context [if ?c =? ?k then [92; _] else _] =>
          destruct (Z.eqb_spec c k); [subst; reflexivity|] end).
  destruct (c <? 32) eqn:E; to_prop; [apply read_char_u; unfold scalar in Hc; lia|].
  destruct (e && (126 <? c)) eqn:Ee; [to_prop|by apply read_char_raw].
  destruct (c <? 65536) eqn:E'; to_prop; [apply read_char_u; unfold scalar in Hc; lia|].
  rewrite <-app_assoc. unfold scalar in Hc. rewrite read_char_pair by divmod.
  do 2 f_equal. divmod.
Qed.

(** ** Injectivity *)

Lemma write_char_head e c :
  scalar c → ∃ b t, write_char e c = b :: t ∧ b ≠ 34.
Proof.
  intros Hc. unfold write_char.
  do 7 (match goal with |- context [if ?c =? ?k then [92; _] else _] =>
          destruct (Z.eqb_spec c k); [eexists _, _; split; [reflexivity|lia]|] end).
  assert (∀ u r, ∃ b t, push_u_escape u ++ r = b :: t ∧ b ≠ 34) as Hu.
  { intros u r. rewrite push_u_split. eexists _, _. split; [reflexivity|lia]. }
  destruct (c <? 32); [rewrite <-(app_nil_r (push_u_escape c)); apply Hu|].
  destruct (e && _).
  { destruct (c <? 65536); [rewrite <-(app_nil_r (push_u_escape c))|]; apply Hu. }
  unfold encode, scalar in *. repeat case_match; to_prop; (eexists _, _; split; [done|divmod]).
Qed.

Lemma write_chars_inj e cs1 cs2 r1 r2 :
  Forall scalar cs1 → Forall scalar cs2 →
  concat (map (write_char e) cs1) ++ 34 :: r1 = concat (map (write_char e) cs2) ++ 34 :: r2 →
  cs1 = cs2 ∧ r1 = r2.
Proof.
  intros H1. revert cs2. induction H1 as [|c1 cs1 Hc1 _ IH]; intros cs2 H2.
  - destruct H2 as [|c2 cs2 Hc2 _]; simpl; [by intros [= ->]|].
    destruct (write_char_head e c2 Hc2) as (b & t & -> & Hb). intros [= ? _]. congruence.
  - destruct H2 as [|c2 cs2 Hc2 H2]; simpl.
    { destruct (write_char_head e c1 Hc1) as (b & t & -> & Hb). intros [= ? _]. congruence. }
    rewrite <-!app_assoc. intros E. apply (f_equal read_char) in E.
    rewrite !read_write_char in E by done. injection E as -> E.
    destruct (IH _ H2 E) as [-> ->]. done.
Qed.

Lemma write_string_inj e s1 s2 r1 r2 :
  utf8 s1 → utf8 s2 → write_string e s1 ++ r1 = write_string e s2 ++ r2 → s1 = s2 ∧ r1 = r2.
Proof.
  intros H1 H2 E. unfold write_string in E. rewrite <-!app_assoc in E. simpl in E.
  injection E as E.
  apply write_chars_inj in E as [E ->]; [|by apply utf8_chars..].
  split; [|done]. rewrite <-(of_chars_chars s1), <-(of_chars_chars s2) by done. by rewrite E.
Qed.

(** What may follow a value inside a document: a separator or a closer. *)
Definition stop (r : list Z) : Prop :=
  match r with [] => True | b :: _ => b = 44 ∨ b = 93 ∨ b = 125 end.

Lemma dec_stop_inj m n r1 r2 :
  stop r1 → stop r2 → bytes (dec m) ++ r1 = bytes (dec n) ++ r2 → m = n ∧ r1 = r2.
Proof.
  intros H1 H2 E.
  assert (∀ l1 l2, (∀ b, b ∈ l1 → b = 45 ∨ 48 ≤ b ≤ 57) → (∀ b, b ∈ l2 → b = 45 ∨ 48 ≤ b ≤ 57) →
    l1 ++ r1 = l2 ++ r2 → l1 = l2 ∧ r1 = r2) as Hsplit.
  { clear E. induction l1 as [|b1 l1 IH]; intros [|b2 l2] Hl1 Hl2 E; simpl in *.
    - done.
    - destruct r1 as [|b r1]; simplify_eq/=. specialize (Hl2 b2). set_solver by lia.
    - destruct r2 as [|b r2]; simplify_eq/=. specialize (Hl1 b). set_solver by lia.
    - injection E as -> E. destruct (IH l2) as [-> ->]; set_solver. }
  destruct (Hsplit (bytes (dec m)) (bytes (dec n))) as [E' ->]; eauto using dec_bytes.
  by apply bytes_inj, dec_inj in E'.
Qed.

(** Documents as the decoder and the constructors build them: integers in
    their own variant, valid text, keys in order, and no float. *)
Fixpoint float_free (v : Value) : Prop :=
  match v with
  | Num (PosInt n) => 0 ≤ n
  | Num (NegInt n) => n < 0
  | Num (Float _) => False
  | Str s => utf8 s
  | Arr items => foldr (λ x P, float_free x ∧ P) True items
  | Obj map' =>
      (StronglySorted String.le (map fst map') ∧ NoDup (map fst map')) ∧
      foldr (λ kv P, (utf8 (fst kv) ∧ float_free (snd kv)) ∧ P) True map'
  | _ => True
  end.

Lemma foldr_and {A} (P : A → Prop) l : foldr (λ x Q, P x ∧ Q) True l ↔ Forall P l.
Proof.
  induction l as [|x l IH]; simpl; [by split|]. rewrite IH. split; [by intros []; constructor|].
  by inversion 1.
Qed.

(** The first byte of a value tells its variant. *)
Definition variant_byte (v : Value) (b : Z) : Prop :=
  match v with
  | Null => b = 110
  | Bool true => b = 116
  | Bool false => b = 102
  | Num _ => b = 45 ∨ 48 ≤ b ≤ 57
  | Str _ => b = 34
  | Arr _ => b = 91
  | Obj _ => b = 123
  end.

Lemma write_value_head e v :
  float_free v → ∃ b t, write_value e v = b :: t ∧ variant_byte v b.
Proof.
  intros Hv. destruct v as [|[]|[n|n|f]|s|l|m]; simpl in *; try done;
    try (by eexists _, _).
  - destruct (bytes (dec n)) as [|b t] eqn:E.
    { exfalso. apply (dec_nonempty n), bytes_inj. done. }
    exists b, t. split; [done|]. apply (dec_bytes b n). rewrite E. left.
  - destruct (bytes (dec n)) as [|b t] eqn:E.
    { exfalso. apply (dec_nonempty n), bytes_inj. done. }
    exists b, t. split; [done|]. apply (dec_bytes b n). rewrite E. left.
Qed.

(** A list of prefix codes, comma-separated and closed, is read in one way. *)
Lemma comma_sep_inj {A} (f : A → list Z) (close : Z) (l1 l2 : list A) r1 r2 :
  close = 93 ∨ close = 125 →
  (∀ x, x ∈ l1 ∨ x ∈ l2 → ∃ b t, f x = b :: t ∧ b ≠ close) →
  (∀ x1 x2 t1 t2, x1 ∈ l1 → x2 ∈ l2 → stop t1 → stop t2 →
     f x1 ++ t1 = f x2 ++ t2 → x1 = x2 ∧ t1 = t2) →
  comma_sep (map f l1) ++ close :: r1 = comma_sep (map f l2) ++ close :: r2 →
  l1 = l2 ∧ r1 = r2.
Proof.
  intros Hclose Hhead Hinj.
  assert (∀ m1 m2, m1 ⊆ l1 → m2 ⊆ l2 →
    concat (map (λ y, 44 :: y) (map f m1)) ++ close :: r1
    = concat (map (λ y, 44 :: y) (map f m2)) ++ close :: r2 → m1 = m2 ∧ r1 = r2) as Htail.
  { induction m1 as [|x1 m1 IH]; intros [|x2 m2] S1 S2; simpl.
    - by intros [= ->].
    - intros [= ? _]. lia.
    - intros [= ? _]. lia.
    - rewrite <-!app_assoc. intros [= E].
      apply Hinj in E as [-> E]; [|set_solver..| |].
      + apply IH in E as [-> ->]; set_solver.
      + destruct m1; simpl; auto.
      + destruct m2; simpl; auto. }
  destruct l1 as [|x1 l1], l2 as [|x2 l2]; simpl; rewrite <-?app_assoc; intros E.
  - by injection E.
  - destruct (Hhead x2) as (b & t & Ef & Hb); [set_solver|]. rewrite Ef in E.
    injection E as E _. congruence.
  - destruct (Hhead x1) as (b & t & Ef & Hb); [set_solver|]. rewrite Ef in E.
    injection E as E _. congruence.
  - apply Hinj in E as [-> E]; [|set_solver..| |].
    + apply Htail in E as [-> ->]; set_solver.
    + destruct l1; simpl; tauto.
    + destruct l2; simpl; tauto.
Qed.

Lemma merge_sort_unique {A} (m m' : list (string * A)) :
  m ≡ₚ m' → StronglySorted String.le (map fst m') → NoDup (map fst m') → merge_sort by_key m = m'.
Proof.
  intros Hp Hs Hn.
  assert (Transitive (@by_key A)) by (intros x y z; unfold by_key; apply (transitivity (R:=String.le))).
  assert (Total (@by_key A)) by (intros x y; unfold by_key; apply (total String.le)).
  apply (StronglySorted_unique_strong by_key).
  - intros x y Hx Hy Hxy Hyx. rewrite merge_sort_Permutation, Hp in Hx.
    assert (fst x = fst y) as E by (by apply (anti_symm String.le)).
    apply list_elem_of_lookup in Hx as [i Hi], Hy as [j Hj].
    assert (i = j) as <-; [|congruence].
    eapply (NoDup_lookup (map fst m')); [done | rewrite list_lookup_fmap, Hi; done |].
    rewrite list_lookup_fmap, Hj. simpl. by rewrite E.
  - apply StronglySorted_merge_sort; apply _.
  - clear Hn Hp. induction m' as [|x m' IH]; simpl in *; [constructor|].
    apply StronglySorted_cons in Hs as [Hx Hs]. constructor; [by apply IH|].
    by rewrite Forall_map in Hx.
  - by rewrite merge_sort_Permutation.
Qed.

Lemma merge_sort_by_key {A} (m : list (string * A)) :
  StronglySorted String.le (map fst m) → NoDup (map fst m) → merge_sort by_key m = m.
Proof. by apply merge_sort_unique. Qed.

Lemma merge_sort_keys {A} (m : list (string * A)) : StronglySorted String.le (map fst (merge_sort by_key m)).
Proof.
  assert (Transitive (@by_key A)) by (intros x y z; unfold by_key; apply (transitivity (R:=String.le))).
  assert (Total (@by_key A)) by (intros x y; unfold by_key; apply (total String.le)).
  pose proof (StronglySorted_merge_sort by_key m) as Hs.
  induction Hs as [|x l Hs IH Hx]; simpl; constructor; [done|]. by rewrite Forall_map.
Qed.

Definition write_field (e : bool) (kv : string * Value) : list Z :=
  write_string e (fst kv) ++ [58] ++ write_value e (snd kv).

Lemma write_obj e m :
  StronglySorted String.le (map fst m) → NoDup (map fst m) →
  write_value e (Obj m) = [123] ++ comma_sep (map (write_field e) m) ++ [125].
Proof.
  intros Hs Hn. simpl. rewrite merge_sort_by_key by (by rewrite map_map; simpl).
  by rewrite map_map.
Qed.

Lemma write_field_inj e kv1 kv2 t1 t2 :
  (∀ v2 r1 r2, float_free (snd kv1) → float_free v2 → stop r1 → stop r2 →
     write_value e (snd kv1) ++ r1 = write_value e v2 ++ r2 → snd kv1 = v2 ∧ r1 = r2) →
  utf8 (fst kv1) ∧ float_free (snd kv1) → utf8 (fst kv2) ∧ float_free (snd kv2) →
  stop t1 → stop t2 → write_field e kv1 ++ t1 = write_field e kv2 ++ t2 → kv1 = kv2 ∧ t1 = t2.
Proof.
  intros IH [Hk1 Hv1] [Hk2 Hv2] Ht1 Ht2. unfold write_field. rewrite <-!app_assoc. simpl.
  intros E. apply write_string_inj in E as [Ek E]; [|done..]. injection E as E.
  apply IH in E as [Ev ->]; try done. destruct kv1, kv2; simplify_eq/=. done.
Qed.

(** Values that start at the same bytes are of the same variant. *)
Lemma write_value_same_variant e v1 v2 r1 r2 :
  float_free v1 → float_free v2 → write_value e v1 ++ r1 = write_value e v2 ++ r2 →
  match v1, v2 with
  | Null, Null | Num _, Num _ | Str _, Str _ | Arr _, Arr _ | Obj _, Obj _ => True
  | Bool b1, Bool b2 => b1 = b2
  | _, _ => False
  end.
Proof.
  intros H1 H2 E.
  destruct (write_value_head e v1 H1) as (b1 & t1 & E1 & V1).
  destruct (write_value_head e v2 H2) as (b2 & t2 & E2 & V2).
  rewrite E1, E2 in E. injection E as -> _. clear E1 E2 H1 H2.
  destruct v1 as [|[]| | | |], v2 as [|[]| | | |]; simpl in *; (done || lia).
Qed.

Lemma number_inj n1 n2 r1 r2 :
  float_free (Num n1) → float_free (Num n2) → stop r1 → stop r2 →
  write_number n1 ++ r1 = write_number n2 ++ r2 → n1 = n2 ∧ r1 = r2.
Proof.
  intros H1 H2 S1 S2 E. destruct n1, n2; try done; simpl in *;
    apply dec_stop_inj in E as [-> ->]; try done; lia.
Qed.

(** Two values that start at the same place, each ended by a separator, a
    closer or the end of input, are the same value. *)
Lemma write_value_inj e v1 : ∀ v2 r1 r2,
  float_free v1 → float_free v2 → stop r1 → stop r2 →
  write_value e v1 ++ r1 = write_value e v2 ++ r2 → v1 = v2 ∧ r1 = r2.
Proof.
  induction v1 as [|b|n|s|l IH|m IH] using value_nested_ind; intros v2 r1 r2 H1 H2 S1 S2 E;
    pose proof (write_value_same_variant e _ _ _ _ H1 H2 E) as Hv; destruct v2 as [|b'|n'|s'|l'|m'];
    try done.
  - by apply app_inv_head in E.
  - subst. by apply app_inv_head in E.
  - by apply number_inj in E as [-> ->].
  - by apply write_string_inj in E as [-> ->].
  - simpl in H1, H2, E. rewrite foldr_and in H1, H2. rewrite !Forall_forall in *.
    rewrite <-!app_assoc in E. injection E as E.
    apply comma_sep_inj in E as [-> ->]; auto.
    intros x [Hx|Hx]; destruct (write_value_head e x) as (b & t & Eb & Vb); auto;
      exists b, t; (split; [done|]); destruct x as [|[]| | | |]; simpl in Vb; lia.
  - destruct H1 as [[Hs1 Hn1] H1], H2 as [[Hs2 Hn2] H2].
    rewrite !write_obj in E by done. rewrite <-!app_assoc in E. injection E as E.
    rewrite foldr_and in H1, H2. rewrite !Forall_forall in *.
    apply comma_sep_inj in E as [-> ->]; auto.
    + intros kv _. unfold write_field, write_string. eexists _, _. split; [reflexivity|lia].
    + intros kv1 kv2 t1 t2 Hkv1 Hkv2 St1 St2 E'.
      apply (write_field_inj e kv1 kv2); auto.
Qed.

(** ** Documents up to the order of their keys *)

(** Documents in any order of their keys: integers in their own variant, valid
    text, distinct keys, and no float. *)
Fixpoint document (v : Value) : Prop :=
  match v with
  | Num (PosInt n) => 0 ≤ n
  | Num (NegInt n) => n < 0
  | Num (Float _) => False
  | Str s => utf8 s
  | Arr items => foldr (λ x P, document x ∧ P) True items
  | Obj map' =>
      NoDup (map fst map') ∧ foldr (λ kv P, (utf8 (fst kv) ∧ document (snd kv)) ∧ P) True map'
  | _ => True
  end.

(** The same document with the keys of every object in order. *)
Fixpoint arranged (v : Value) : Value :=
  match v with
  | Arr items => Arr (map arranged items)
  | Obj map' => Obj (merge_sort by_key (map (λ kv, (fst kv, arranged (snd kv))) map'))
  | _ => v
  end.

Lemma merge_sort_values {A B} (f : A → B) (m : list (string * A)) :
  NoDup (map fst m) →
  merge_sort by_key (map (λ kv, (fst kv, f (snd kv))) m)
  = map (λ kv, (fst kv, f (snd kv))) (merge_sort by_key m).
Proof.
  intros Hn. apply merge_sort_unique.
  - by rewrite merge_sort_Permutation.
  - rewrite map_map. apply merge_sort_keys.
  - rewrite map_map. by rewrite merge_sort_Permutation.
Qed.

Lemma arranged_float_free v : document v → float_free (arranged v).
Proof.
  induction v as [|b|n|s|l IH|m IH] using value_nested_ind; try done; simpl.
  - rewrite !foldr_and, Forall_map, !Forall_forall in *. auto.
  - intros [Hn Hm]. split; [split|].
    + apply merge_sort_keys.
    + by rewrite merge_sort_Permutation, map_map.
    + rewrite foldr_and in Hm |- *. rewrite merge_sort_Permutation, Forall_map.
      rewrite !Forall_forall in *. intros kv Hkv. simpl. destruct (Hm kv Hkv). auto.
Qed.

Lemma write_arranged e v : document v → write_value e (arranged v) = write_value e v.
Proof.
  induction v as [|b|n|s|l IH|m IH] using value_nested_ind; try done.
  - simpl. rewrite foldr_and, map_map, !Forall_forall in *. intros Hl.
    do 3 f_equal. apply map_ext_in. intros x Hx. rewrite <-list_elem_of_In in Hx. auto.
  - intros [Hn Hm]. rewrite foldr_and in Hm. cbn [arranged]. rewrite write_obj.
    + simpl. do 3 f_equal. rewrite !merge_sort_values, !map_map by done.
      apply map_ext_in. intros kv Hkv. rewrite <-list_elem_of_In, merge_sort_Permutation in Hkv.
      rewrite !Forall_forall in *. unfold write_field. simpl.
      rewrite IH; [done..|]. by apply Hm.
    + apply merge_sort_keys.
    + by rewrite merge_sort_Permutation, map_map.
Qed.

(** C39: Equal canonical bytes mean equal documents.  Two float-free documents
    with their integers in their own variant, valid text and distinct keys have
    the same canonical bytes, in either mode, exactly when they are the same
    document up to the order of the keys of their objects.  So a persisted
    digest identifies its document up to a SHA-256 collision, and does not
    depend on the order in which the document was built. *)
Theorem dumps_injective v1 v2 ensure_ascii :
  document v1 → document v2 →
  dumps v1 ensure_ascii = dumps v2 ensure_ascii ↔ arranged v1 = arranged v2.
Proof.
  intros H1 H2. unfold dumps. rewrite <-(write_arranged _ v1), <-(write_arranged _ v2) by done.
  split; [|by intros ->]. intros E.
  destruct (write_value_inj ensure_ascii (arranged v1) (arranged v2) [] []) as [-> _];
    try done; [by apply arranged_float_free..|]. by rewrite !app_nil_r.
Qed.

Definition demo_value : Value :=
  Obj [("a", Arr [Num (PosInt 1); Null; Bool true]); ("b", Obj [("y", Str "x"); ("z", Num (NegInt (-3)))])]%string.
Definition demo_reordered : Value :=
  Obj [("b", Obj [("z", Num (NegInt (-3))); ("y", Str "x")]); ("a", Arr [Num (PosInt 1); Null; Bool true])]%string.
Definition demo_altered : Value :=
  Obj [("b", Obj [("z", Num (NegInt (-3))); ("y", Str "x")]); ("a", Arr [Num (PosInt 1); Bool true; Null])]%string.

Lemma dumps_injective_witness :
  demo_value ≠ demo_reordered ∧ dumps demo_value true = dumps demo_reordered true ∧
  dumps demo_value false ≠ dumps demo_altered false.
Proof.
  assert (document demo_value ∧ document demo_reordered ∧ document demo_altered) as (H1 & H2 & H3).
  { split_and!; simpl; repeat split; try lia; try (by apply ascii_utf8);
      apply (bool_decide_unpack _); vm_compute; exact I. }
  split; [by apply (bool_decide_unpack _); vm_compute|]. split.
  - apply (dumps_injective demo_value demo_reordered true H1 H2). vm_compute. reflexivity.
  - intros E. apply (dumps_injective demo_value demo_altered false H1 H3) in E. by vm_compute in E.
Defined.
