(* ===== verification/Catalogs.v ===== *)
(** * Worker catalogs and SHA-256

    The private worker tool catalogs of [worker.rs] with the asset
    [worker_tools.json] they embed, their digests, and the digests a pool
    enrollment accepts.  The hash itself is the interface [Sha256]; this file
    gives the executable instance [sha2] of FIPS 180-4, so that the catalog
    digests recorded in the repository can be recomputed from the model. *)

From S2P Require Import Prelude Text Float64 Json Canonical.

(** ** SHA-256 *)

Module Sha2.
Definition word (x : Z) : Z := Z.land x 4294967295.
Definition rotr (n x : Z) : Z := Z.lor (Z.shiftr x n) (word (Z.shiftl x (32 - n))).
Definition choose (x y z : Z) : Z := Z.lxor (Z.land x y) (Z.land (Z.lxor x 4294967295) z).
Definition majority (x y z : Z) : Z :=
  Z.lxor (Z.land x y) (Z.lxor (Z.land x z) (Z.land y z)).
Definition big_sigma0 (x : Z) : Z := Z.lxor (rotr 2 x) (Z.lxor (rotr 13 x) (rotr 22 x)).
Definition big_sigma1 (x : Z) : Z := Z.lxor (rotr 6 x) (Z.lxor (rotr 11 x) (rotr 25 x)).
Definition small_sigma0 (x : Z) : Z := Z.lxor (rotr 7 x) (Z.lxor (rotr 18 x) (Z.shiftr x 3)).
Definition small_sigma1 (x : Z) : Z := Z.lxor (rotr 17 x) (Z.lxor (rotr 19 x) (Z.shiftr x 10)).

Definition constants : list Z :=
  [1116352408; 1899447441; 3049323471; 3921009573; 961987163; 1508970993; 2453635748; 2870763221;
   3624381080; 310598401; 607225278; 1426881987; 1925078388; 2162078206; 2614888103; 3248222580;
   3835390401; 4022224774; 264347078; 604807628; 770255983; 1249150122; 1555081692; 1996064986;
   2554220882; 2821834349; 2952996808; 3210313671; 3336571891; 3584528711; 113926993; 338241895;
   666307205; 773529912; 1294757372; 1396182291; 1695183700; 1986661051; 2177026350; 2456956037;
   2730485921; 2820302411; 3259730800; 3345764771; 3516065817; 3600352804; 4094571909; 275423344;
   430227734; 506948616; 659060556; 883997877; 958139571; 1322822218; 1537002063; 1747873779;
   1955562222; 2024104815; 2227730452; 2361852424; 2428436474; 2756734187; 3204031479; 3329325298].

Definition initial : list Z :=
  [1779033703; 3144134277; 1013904242; 2773480762; 1359893119; 2600822924; 528734635;
   1541459225].

(** The message schedule, newest word first. *)
Fixpoint extend (n : nat) (w : list Z) : list Z :=
  match n with
  | O => w
  | S n =>
      extend n
        (word (small_sigma1 (nth 1 w 0) + nth 6 w 0 + small_sigma0 (nth 14 w 0) + nth 15 w 0) :: w)
  end.

Definition round (s : list Z) (kw : Z * Z) : list Z :=
  match s with
  | [a; b; c; d; e; f; g; h] =>
      let t1 := h + big_sigma1 e + choose e f g + fst kw + snd kw in
      let t2 := big_sigma0 a + majority a b c in
      [word (t1 + t2); a; b; c; word (d + t1); e; f; g]
  | _ => s
  end.

Definition compress (s block : list Z) : list Z :=
  zip_with (λ x y, word (x + y)) s
    (foldl round s (zip constants (reverse (extend 48 (reverse block))))).

Fixpoint words (bs : list Z) : list Z :=
  match bs with
  | a :: b :: c :: d :: r => (a * 16777216 + b * 65536 + c * 256 + d) :: words r
  | _ => []
  end.

Fixpoint blocks (n : nat) (ws s : list Z) : list Z :=
  match n with
  | O => s
  | S n => blocks n (drop 16 ws) (compress s (take 16 ws))
  end.

Definition big_endian (n : nat) (x : Z) : list Z :=
  map (λ i, Z.land (Z.shiftr x (8 * Z.of_nat i)) 255) (reverse (seq 0 n)).

Definition pad (bs : list Z) : list Z :=
  let n := Z.of_nat (length bs) in
  bs ++ [128] ++ repeat 0 (Z.to_nat ((55 - n) mod 64)) ++ big_endian 8 (8 * n).

Definition hash (bs : list Z) : list Z :=
  let ws := words (pad bs) in
  concat (map (big_endian 4) (blocks (Nat.div (length ws) 16) ws initial)).
End Sha2.

(** Not an instance: the theorems about the program hold for every [Sha256]. *)
Definition sha2 : Sha256 := {| digest := Sha2.hash |}.

(** ** Fields of a JSON object *)

(** [value[key]]: a missing key reads as null. *)
Definition field (key : string) (v : Value) : Value :=
  match v with
  | Obj m =>
      match first_where (λ kv, fst kv = key) m with Some (_, x) => x | None => Null end
  | _ => Null
  end.

(** [value[key] = new] on an object that has the key. *)
Definition set_field (key : string) (new v : Value) : Value :=
  match v with
  | Obj m => Obj (update_where (λ kv, fst kv = key) (λ kv, (fst kv, new)) m)
  | _ => v
  end.

(** [as_str().unwrap_or_default()]. *)
Definition text_of (v : Value) : string := match v with Str s => s | _ => EmptyString end.

(** ** The tools *)

(** The tools of [assets/worker_tools.json]. *)
Definition notify_orchestrator_tool : Value :=
  Obj [
    ("annotations", Obj [
      ("destructiveHint", Bool false);
      ("idempotentHint", Bool true);
      ("openWorldHint", Bool true);
      ("readOnlyHint", Bool false)]);
    ("description",
      Str ("Send a material finding, risk, question or blocker to this run's orchestrator "
        +:+ "without ending your work. Use only when coordination is needed, never for routine "
        +:+ "progress. The recipient and run are fixed by Agent Run. Reuse the same request_id "
        +:+ "and content after an uncertain result; use a new id for a distinct report. A receipt "
        +:+ "only confirms durable queueing, not delivery, approval or an answer. Continue "
        +:+ "independent authorized work; the orchestrator can reply through steer. Do not send "
        +:+ "credentials. Maximum 2048 UTF-8 bytes, 20 distinct reports per run, at least 30 "
        +:+ "seconds apart."));
    ("inputSchema", Obj [
      ("additionalProperties", Bool false);
      ("properties", Obj [
        ("kind", Obj [
          ("default", Str "notice");
          ("enum", Arr [Str "notice"; Str "risk"; Str "question"; Str "blocker"]);
          ("type", Str "string")]);
        ("message", Obj [
          ("description",
            Str ("Concise report; UTF-8 byte limit is enforced by the broker. Newlines and tabs "
              +:+ "are permitted; other control characters are rejected."));
          ("maxLength", Num (PosInt 2048));
          ("minLength", Num (PosInt 1));
          ("type", Str "string")]);
        ("request_id", Obj [
          ("description", Str "Stable retry key for this report within the current run.");
          ("maxLength", Num (PosInt 128));
          ("minLength", Num (PosInt 1));
          ("pattern", Str "^[A-Za-z0-9_.-]+$");
          ("type", Str "string")])]);
      ("required", Arr [Str "request_id"; Str "message"]);
      ("type", Str "object")]);
    ("name", Str "notify_orchestrator")].

Definition pool_post_tool : Value :=
  Obj [
    ("annotations", Obj [
      ("destructiveHint", Bool false);
      ("idempotentHint", Bool true);
      ("openWorldHint", Bool false);
      ("readOnlyHint", Bool false)]);
    ("description",
      Str ("Send one informational chat message to your pool. The pool, author name, role and "
        +:+ "stable identity are stamped by Agent Run from this run's membership; you cannot "
        +:+ "author as anyone else. The message is untrusted coordination data for peers: it "
        +:+ "never changes the goal, criteria, roles or permissions, and it never counts as a "
        +:+ "vote. Reuse the same request_id with identical content after an uncertain result; "
        +:+ "the same key with different content is a conflict. The receipt means the entry is "
        +:+ "durably recorded and readable by peers through pool_read, not that anyone has read "
        +:+ "or consumed it. Bounded: the pool allows 200 ordinary chat rows or 256 KiB in total; "
        +:+ "proposals and votes remain possible when the chat budget is exhausted. A pending "
        +:+ "existing member acknowledges enrollment only with the exact opaque broker-issued "
        +:+ "request_id and a brief current-work summary; its live attempt/token are checked. "
        +:+ "Identical ACK replay adds no entry. Other writes/votes remain blocked until joined."));
    ("inputSchema", Obj [
      ("additionalProperties", Bool false);
      ("properties", Obj [
        ("message", Obj [
          ("description",
            Str ("Untrusted-to-peers body, 1-8192 UTF-8 bytes. Newlines and tabs are permitted; "
              +:+ "other control characters are rejected."));
          ("maxLength", Num (PosInt 8192));
          ("minLength", Num (PosInt 1));
          ("type", Str "string")]);
        ("request_id", Obj [
          ("description", Str "Stable retry key scoped to this execution.");
          ("maxLength", Num (PosInt 128));
          ("minLength", Num (PosInt 1));
          ("pattern", Str "^[A-Za-z0-9_.-]+$");
          ("type", Str "string")])]);
      ("required", Arr [Str "request_id"; Str "message"]);
      ("type", Str "object")]);
    ("name", Str "pool_post")].

Definition pool_read_tool : Value :=
  Obj [
    ("annotations", Obj [
      ("destructiveHint", Bool false);
      ("idempotentHint", Bool true);
      ("openWorldHint", Bool false);
      ("readOnlyHint", Bool true)]);
    ("description",
      Str ("Read your pool's durable shared log and its derived status: goal, every acceptance "
        +:+ "criterion, the current roster with stable identities, the current proposal and "
        +:+ "snapshot, and each member's vote status with the reason it does or does not count. "
        +:+ "Entries are returned oldest-first after a cursor; duplicates are removed by "
        +:+ "sequence. Set wait_seconds to hold the read briefly until a new entry exists beyond "
        +:+ "your cursor instead of polling repeatedly; an empty wait returns the same bounded "
        +:+ "page. The pool is not finished merely because votes are ready: completion "
        +:+ "additionally requires every member's execution to end successfully. A read receipt "
        +:+ "is your own view; it is not evidence that any peer has read anything. After a "
        +:+ "resume, re-read from your last seen sequence. Pending members can read full "
        +:+ "criteria/roster and their own exact enrollment ACK request_id without an execution "
        +:+ "lifetime limit."));
    ("inputSchema", Obj [
      ("additionalProperties", Bool false);
      ("properties", Obj [
        ("after_seq", Obj [
          ("description",
            Str ("Return entries with a greater sequence; 0 starts from the beginning."));
          ("minimum", Num (PosInt 0));
          ("type", Str "integer")]);
        ("before_seq", Obj [
          ("description",
            Str ("Return older entries before this positive sequence; exclusive with after_seq."));
          ("minimum", Num (PosInt 1));
          ("type", Str "integer")]);
        ("limit", Obj [
          ("description", Str "Page size, 1-50; default 50.");
          ("maximum", Num (PosInt 50));
          ("minimum", Num (PosInt 1));
          ("type", Str "integer")]);
        ("wait_seconds", Obj [
          ("default", Num (PosInt 0));
          ("description",
            Str ("Hold this read until an entry exists beyond after_seq, at most 25 seconds; 0 "
              +:+ "returns immediately."));
          ("maximum", Num (PosInt 25));
          ("minimum", Num (PosInt 0));
          ("type", Str "number")])]);
      ("type", Str "object")]);
    ("name", Str "pool_read")].

Definition pool_propose_tool : Value :=
  Obj [
    ("annotations", Obj [
      ("destructiveHint", Bool true);
      ("idempotentHint", Bool true);
      ("openWorldHint", Bool false);
      ("readOnlyHint", Bool false)]);
    ("description",
      Str ("Propose one result snapshot the whole pool can agree on. Any member may propose; a "
        +:+ "new proposal supersedes the previous one and earlier votes no longer count against "
        +:+ "it. State what finished artifacts the snapshot names (for example a shared commit "
        +:+ "SHA, or a path with its sha256) so peers can verify it themselves. The receipt means "
        +:+ "the proposal is durably recorded and readable, not that any peer has seen or "
        +:+ "accepted it. Bounded: at most 20 proposals per pool."));
    ("inputSchema", Obj [
      ("additionalProperties", Bool false);
      ("properties", Obj [
        ("message", Obj [
          ("description", Str "Short statement of the proposal.");
          ("maxLength", Num (PosInt 8192));
          ("minLength", Num (PosInt 1));
          ("type", Str "string")]);
        ("request_id", Obj [
          ("description", Str "Stable retry key scoped to this execution.");
          ("maxLength", Num (PosInt 128));
          ("minLength", Num (PosInt 1));
          ("pattern", Str "^[A-Za-z0-9_.-]+$");
          ("type", Str "string")]);
        ("snapshot", Obj [
          ("description",
            Str ("Immutable snapshot of the proposed result; peers must echo exactly this "
              +:+ "snapshot when voting ready."));
          ("maxLength", Num (PosInt 65536));
          ("minLength", Num (PosInt 1));
          ("type", Str "string")])]);
      ("required", Arr [Str "request_id"; Str "message"; Str "snapshot"]);
      ("type", Str "object")]);
    ("name", Str "pool_propose")].

Definition pool_vote_tool : Value :=
  Obj [
    ("annotations", Obj [
      ("destructiveHint", Bool true);
      ("idempotentHint", Bool true);
      ("openWorldHint", Bool false);
      ("readOnlyHint", Bool false)]);
    ("description",
      Str ("Judge the pool's current proposal. decision ready means you verified the proposal's "
        +:+ "snapshot satisfies every acceptance criterion from your own role; attach one check "
        +:+ "per criterion with concrete evidence. decision block records an objection; decision "
        +:+ "revoke withdraws your earlier vote. Your vote only counts while it names the current "
        +:+ "proposal, the current roster and your current execution, and while that execution is "
        +:+ "running or succeeded — a resume, a new proposal, a roster change or a failure "
        +:+ "invalidates it, and you must vote again. Voting ready is not the pool's completion "
        +:+ "and does not end your run: keep coordinating until the pool completes or you must "
        +:+ "block."));
    ("inputSchema", Obj [
      ("additionalProperties", Bool false);
      ("properties", Obj [
        ("checks", Obj [
          ("description",
            Str ("Per-criterion verdicts; required for ready, covering every acceptance "
              +:+ "criterion exactly once."));
          ("items", Obj [
            ("additionalProperties", Bool false);
            ("properties", Obj [
              ("criterion_id", Obj [("type", Str "string")]);
              ("evidence", Obj [("maxLength", Num (PosInt 1024)); ("type", Str "string")]);
              ("status", Obj [("enum", Arr [Str "met"; Str "unmet"]); ("type", Str "string")])]);
            ("required", Arr [Str "criterion_id"; Str "status"; Str "evidence"]);
            ("type", Str "object")]);
          ("maxItems", Num (PosInt 10));
          ("type", Str "array")]);
        ("decision", Obj [
          ("enum", Arr [Str "ready"; Str "block"; Str "revoke"]);
          ("type", Str "string")]);
        ("message", Obj [
          ("description", Str "Optional note.");
          ("maxLength", Num (PosInt 8192));
          ("type", Str "string")]);
        ("proposal_seq", Obj [
          ("description",
            Str ("The proposal entry being voted on; must equal the current proposal shown by "
              +:+ "pool_read."));
          ("minimum", Num (PosInt 1));
          ("type", Str "integer")]);
        ("request_id", Obj [
          ("description", Str "Stable retry key scoped to this execution.");
          ("maxLength", Num (PosInt 128));
          ("minLength", Num (PosInt 1));
          ("pattern", Str "^[A-Za-z0-9_.-]+$");
          ("type", Str "string")])]);
      ("required", Arr [Str "request_id"; Str "proposal_seq"; Str "decision"]);
      ("type", Str "object")]);
    ("name", Str "pool_vote")].

Definition worker_tools_json : list Value :=
  [notify_orchestrator_tool; pool_post_tool; pool_read_tool; pool_propose_tool; pool_vote_tool].

(** The confined filesystem tool of the research surface. *)
Definition save_report_tool : Value :=
  Obj [
    ("annotations", Obj [
      ("destructiveHint", Bool false);
      ("idempotentHint", Bool false);
      ("openWorldHint", Bool false);
      ("readOnlyHint", Bool false)]);
    ("description",
      Str ("Save a UTF-8 research report in the assigned report directory (workdir). Accepts one "
        +:+ ".md, .txt or .json filename, no directory/path, traversal, symlink target, command "
        +:+ "or overwrite. Identical existing content is a duplicate. Returns filename, bytes and "
        +:+ "SHA-256; not proof of task completion."));
    ("inputSchema", Obj [
      ("additionalProperties", Bool false);
      ("properties", Obj [
        ("content", Obj [
          ("maxLength", Num (PosInt 65536));
          ("minLength", Num (PosInt 1));
          ("type", Str "string")]);
        ("filename", Obj [("maxLength", Num (PosInt 128)); ("type", Str "string")])]);
      ("required", Arr [Str "filename"; Str "content"]);
      ("type", Str "object")]);
    ("name", Str "save_report")].

Definition research_tools_json : list Value := worker_tools_json ++ [save_report_tool].

(** The reply to a health challenge. *)
Definition health_reply_tool : Value :=
  Obj [
    ("annotations", Obj [
      ("destructiveHint", Bool false);
      ("idempotentHint", Bool true);
      ("openWorldHint", Bool false);
      ("readOnlyHint", Bool false)]);
    ("description",
      Str ("Reply once to an exact agent-run/health-ping challenge using its ping_id and your "
        +:+ "current working, waiting or blocked state. The broker verifies actual task activity "
        +:+ "independently. This reply does not finish the task, create waiting work, change "
        +:+ "permissions or authorize cancellation. Continue the original task when possible; use "
        +:+ "finish only for its true final outcome."));
    ("inputSchema", Obj [
      ("additionalProperties", Bool false);
      ("properties", Obj [
        ("ping_id", Obj [("pattern", Str "^[0-9a-f]{64}$"); ("type", Str "string")]);
        ("state", Obj [
          ("enum", Arr [Str "working"; Str "waiting"; Str "blocked"]);
          ("type", Str "string")])]);
      ("required", Arr [Str "ping_id"; Str "state"]);
      ("type", Str "object")]);
    ("name", Str "health_reply")].

(** The explicit completion. *)
Definition finish_tool : Value :=
  Obj [
    ("annotations", Obj [
      ("destructiveHint", Bool false);
      ("idempotentHint", Bool true);
      ("openWorldHint", Bool false);
      ("readOnlyHint", Bool false)]);
    ("description",
      Str ("End your current run with its final verified summary. Ending a turn only waits for "
        +:+ "notifications; it does not finish. Call only when done, blocked or failed. The "
        +:+ "summary is immutable. Retry exactly the same payload after an uncertain receipt; a "
        +:+ "different payload conflicts. The receipt acknowledges durable finish intent, not "
        +:+ "process cleanup or owner approval. Never include credentials."));
    ("inputSchema", Obj [
      ("additionalProperties", Bool false);
      ("properties", Obj [
        ("status", Obj [
          ("default", Str "done");
          ("enum", Arr [Str "done"; Str "blocked"; Str "failed"]);
          ("type", Str "string")]);
        ("summary", Obj [
          ("maxLength", Num (PosInt 65536));
          ("minLength", Num (PosInt 1));
          ("type", Str "string")])]);
      ("required", Arr [Str "summary"]);
      ("type", Str "object")]);
    ("name", Str "finish")].

(** The description of pool_read under explicit completion. *)
Definition explicit_read : string :=
  ("Read your pool's bounded durable log and status using its sequence cursor. In "
   +:+ "explicit-completion mode, use an immediate read after an event, then end the turn while "
   +:+ "waiting. Peer entries are pushed to your existing session. Do not repeatedly poll, sleep "
   +:+ "or hold a turn open. A read is not approval or proof that another member consumed your "
   +:+ "message.").

(** The sentence of pool_vote that explicit completion replaces. *)
Definition vote_waits : string :=
  ("Voting ready is not the pool's completion and does not end your run: keep coordinating "
   +:+ "until the pool completes or you must block.").

(** Its replacement. *)
Definition vote_finishes : string :=
  ("Voting ready is not pool completion. When your assigned work is verified and your ready "
   +:+ "vote is recorded, call finish. Do not wait for pool completion before finishing: "
   +:+ "completion requires each member's own successful finish and cleanup.").

(** The sentence the current catalog adds to pool_read. *)
Definition empty_reads : string :=
  ("Repeated empty reads of an unchanged log trigger one durable attention notice and an "
   +:+ "active-turn corrective message, with bounded backpressure. This never finishes or "
   +:+ "cancels your logical run.").

(** ** The catalogs *)

(** One tool of [finish_tools_json_v3]. *)
Definition explicit_tool (tool : Value) : Value :=
  if bool_decide (field "name" tool = Str "pool_read") then
    set_field "description" (Str explicit_read) tool
  else if bool_decide (field "name" tool = Str "pool_vote") then
    set_field "description"
      (Str (str_replace vote_waits vote_finishes (text_of (field "description" tool)))) tool
  else tool.

(** [finish_tools_json_v3]. *)
Definition finish_tools_json_v3 (research : bool) : list Value :=
  map explicit_tool (if research then research_tools_json else worker_tools_json)
  ++ [health_reply_tool; finish_tool].

(** One tool of [finish_tools_json]. *)
Definition current_tool (tool : Value) : Value :=
  if bool_decide (field "name" tool = Str "pool_read") then
    let tool := set_field "annotations"
                  (set_field "readOnlyHint" (Bool false) (field "annotations" tool)) tool in
    set_field "description" (Str (text_of (field "description" tool) +:+ " " +:+ empty_reads)) tool
  else tool.

(** [finish_tools_json]. *)
Definition finish_tools_json (research : bool) : list Value :=
  map current_tool (finish_tools_json_v3 research).

Definition POOL_CATALOG_VERSION : Z := 1.
Definition FINISH_CATALOG_VERSION : Z := 4.

(** The catalog of version 2: version 3 without the health tool. *)
Definition finish_tools_json_v2 (research : bool) : list Value :=
  filter (λ tool, field "name" tool ≠ Str "health_reply") (finish_tools_json_v3 research).

Section digests.
Context `{Sha256}.

Definition pool_catalog_digest : string := sha256_hex (Arr worker_tools_json) true.
Definition research_catalog_digest : string := sha256_hex (Arr research_tools_json) true.
Definition finish_catalog_digest (research : bool) : string :=
  sha256_hex (Arr (finish_tools_json research)) true.

(** [known_pool_catalog]. *)
Definition known_pool_catalog (version : Z) (digest : string) : bool :=
  ((version =? POOL_CATALOG_VERSION)
   && (bool_decide (digest = pool_catalog_digest) || bool_decide (digest = research_catalog_digest)))
  || ((version =? 2)
      && existsb (λ research,
                    bool_decide (sha256_hex (Arr (finish_tools_json_v2 research)) true = digest))
           [false; true])
  || ((version =? 3)
      && existsb (λ research,
                    bool_decide (sha256_hex (Arr (finish_tools_json_v3 research)) true = digest))
           [false; true])
  || ((version =? FINISH_CATALOG_VERSION)
      && (bool_decide (digest = finish_catalog_digest false)
          || bool_decide (digest = finish_catalog_digest true))).
End digests.

(** ** The recorded digests *)

Lemma digest_v2 : @sha256_hex sha2 (Arr (finish_tools_json_v2 false)) true =
  "a7ca2499ed9d72fa957780418d2bd45674db3ca9394b5d97fe0270012e6a3089"%string.
Proof. vm_compute. reflexivity. Qed.

Lemma digest_v2_research : @sha256_hex sha2 (Arr (finish_tools_json_v2 true)) true =
  "6b2361e439c781a352e4fb578fe273727dc326c5bc5378854588b68620bd7f12"%string.
Proof. vm_compute. reflexivity. Qed.

Lemma digest_v3 : @sha256_hex sha2 (Arr (finish_tools_json_v3 false)) true =
  "57ba0c3ed7f3a689488e78456180031c8ca1df57e8a62e43466f5d0c5549a212"%string.
Proof. vm_compute. reflexivity. Qed.

Lemma digest_v3_research : @sha256_hex sha2 (Arr (finish_tools_json_v3 true)) true =
  "d8ffbe5925a0cb29b7d0ff1a0dcfeb3e5c610de586d3cb0fee40c1964d382a14"%string.
Proof. vm_compute. reflexivity. Qed.

(** The shape of [known_pool_catalog] over abstract digests. *)
Lemma known_iff version digest p r (v2 v3 : bool → string) d2 d2r d3 d3r f fr :
  v2 false = d2 → v2 true = d2r → v3 false = d3 → v3 true = d3r →
  ((version =? 1) && (bool_decide (digest = p) || bool_decide (digest = r)))
  || ((version =? 2) && existsb (λ research, bool_decide (v2 research = digest)) [false; true])
  || ((version =? 3) && existsb (λ research, bool_decide (v3 research = digest)) [false; true])
  || ((version =? 4) && (bool_decide (digest = f) || bool_decide (digest = fr))) = true ↔
  (version, digest) ∈
    [(1, p); (1, r); (2, d2); (2, d2r); (3, d3); (3, d3r); (4, f); (4, fr)].
Proof.
  intros <- <- <- <-. simpl. rewrite !orb_false_r, !orb_true_iff, !andb_true_iff, !orb_true_iff, !Z.eqb_eq.
  rewrite !bool_decide_eq_true, !elem_of_cons, elem_of_nil, !pair_equal_spec. naive_solver.
Qed.

(** With SHA-256, the catalogs a pool enrollment accepts are exactly the two
    ordinary ones of version 1, the two current ones of version 4, and the four
    frozen ones of versions 2 and 3 under the digests recorded in the repository's
    tests; the historical digests are recomputed here from the modelled catalogs
    through the canonical serializer. *)
Theorem known_catalogs_exact version digest :
  @known_pool_catalog sha2 version digest = true ↔
  (version, digest) ∈
    [(1, @pool_catalog_digest sha2); (1, @research_catalog_digest sha2);
     (2, "a7ca2499ed9d72fa957780418d2bd45674db3ca9394b5d97fe0270012e6a3089"%string);
     (2, "6b2361e439c781a352e4fb578fe273727dc326c5bc5378854588b68620bd7f12"%string);
     (3, "57ba0c3ed7f3a689488e78456180031c8ca1df57e8a62e43466f5d0c5549a212"%string);
     (3, "d8ffbe5925a0cb29b7d0ff1a0dcfeb3e5c610de586d3cb0fee40c1964d382a14"%string);
     (4, @finish_catalog_digest sha2 false); (4, @finish_catalog_digest sha2 true)].
Proof.
  exact (known_iff version digest _ _ (λ b, @sha256_hex sha2 (Arr (finish_tools_json_v2 b)) true)
           (λ b, @sha256_hex sha2 (Arr (finish_tools_json_v3 b)) true) _ _ _ _ _ _
           digest_v2 digest_v2_research digest_v3 digest_v3_research).
Qed.
