(* ===== verification/Lifecycle.v ===== *)
(** * The agent lifecycle state machine

    [domain.rs] [Status] and [fsm.rs]: the nine durable states, the frozen
    transition table, the wire spellings, and the two state groups.  The
    relation [lifecycle] is a history of accepted transitions. *)

From S2P Require Import Prelude Text.

(** [domain.rs] [Status]. *)
Inductive Status :=
  | Created | Starting | Running | Cancelling
  | Succeeded | Failed | TimedOut | Cancelled | Lost.

#[global] Instance status_eq_dec : EqDecision Status.
Proof. solve_decision. Defined.

Module Status.

Definition ALL : list Status :=
  [Created; Starting; Running; Cancelling; Succeeded; Failed; TimedOut; Cancelled; Lost].

Definition terminal (s : Status) : bool :=
  match s with
  | Succeeded | Failed | TimedOut | Cancelled | Lost => true
  | _ => false
  end.

Definition as_str (s : Status) : string :=
  match s with
  | Created => "created"
  | Starting => "starting"
  | Running => "running"
  | Cancelling => "cancelling"
  | Succeeded => "succeeded"
  | Failed => "failed"
  | TimedOut => "timed_out"
  | Cancelled => "cancelled"
  | Lost => "lost"
  end.

(** [Status::transition]: the accepted moves; the error names both states. *)
Definition transition (self to : Status) : result () :=
  let ok :=
    match self with
    | Created => match to with Starting | Cancelled | Failed | Lost => true | _ => false end
    | Starting => match to with Running | Cancelled | Failed | Lost => true | _ => false end
    | Running => match to with Succeeded | Failed | Cancelling | Lost => true | _ => false end
    | Cancelling => match to with Cancelled | Lost => true | _ => false end
    | _ => false
    end in
  if ok : bool then Ok () else Err (Transition (as_str self +:+ " -> " +:+ as_str to)).

(** [FromStr for Status]: the first state of [ALL] with this spelling. *)
Definition from_str (v : string) : result Status :=
  ok_or (invalid "unknown status") (first_where (λ s, as_str s = v) ALL).

End Status.

(** [fsm.rs]: the state groups and the persistence-boundary helpers. *)
Definition ACTIVE : list Status := [Created; Starting; Running; Cancelling].
Definition TERMINAL : list Status := [Succeeded; Failed; TimedOut; Cancelled; Lost].

Definition validate_transition (current target : Status) : result () :=
  Status.transition current target.

Definition illegal_transition (current target : Status) : Error :=
  Transition (Status.as_str current +:+ " -> " +:+ Status.as_str target).

(** [domain.rs] [Outcome] and its two constructors. *)
Record Outcome := mk_outcome {
  oc_status : Status;
  oc_exit_code : option Z;
  oc_failure_kind : option string;
  oc_failure_text : option string;
  oc_runtime_session_id : option string;
}.

Definition outcome_success (session : option string) : Outcome :=
  mk_outcome Succeeded (Some 0) None None session.
Definition outcome_failure (kind : string) : Outcome :=
  mk_outcome Failed None (Some kind) None None.

(** A history of accepted transitions: the states visited after [s]. *)
Inductive lifecycle : Status → list Status → Prop :=
  | lifecycle_stop s : lifecycle s []
  | lifecycle_move s t l :
      validate_transition s t = Ok () → lifecycle t l → lifecycle s (t :: l).

(** How many further transitions a state can still accept. *)
Definition fuel (s : Status) : nat :=
  match s with
  | Created => 4
  | Starting => 3
  | Running => 2
  | Cancelling => 1
  | _ => 0
  end.

Lemma transition_fuel s t : validate_transition s t = Ok () → (fuel t < fuel s)%nat.
Proof. destruct s, t; simpl; (done || lia). Qed.

Lemma transition_not_timed_out s t : validate_transition s t = Ok () → t ≠ TimedOut.
Proof. by destruct s, t. Qed.

Lemma terminal_no_transition s t : Status.terminal s = true → validate_transition s t ≠ Ok ().
Proof. by destruct s. Qed.

Lemma lifecycle_length s l : lifecycle s l → (length l ≤ fuel s)%nat.
Proof.
  induction 1 as [|s t l Ht _ IH]; simpl; [lia|]. apply transition_fuel in Ht. lia.
Qed.

Lemma lifecycle_split s l1 t l2 : lifecycle s (l1 ++ t :: l2) → lifecycle t l2.
Proof.
  revert s. induction l1 as [|u l1 IH]; intros s; simpl; inversion 1; naive_solver.
Qed.

Lemma terminal_ACTIVE s : Status.terminal s = false ↔ s ∈ ACTIVE.
Proof.
  split; [destruct s; intros; try done; unfold ACTIVE; set_solver|].
  unfold ACTIVE. intros Hs. repeat (apply elem_of_cons in Hs as [->|Hs]; [done|]).
  by apply elem_of_nil in Hs.
Qed.

Lemma terminal_TERMINAL s : Status.terminal s = true ↔ s ∈ TERMINAL.
Proof.
  split; [destruct s; intros; try done; unfold TERMINAL; set_solver|].
  unfold TERMINAL. intros Hs. repeat (apply elem_of_cons in Hs as [->|Hs]; [done|]).
  by apply elem_of_nil in Hs.
Qed.

Lemma lifecycle_snoc s l t :
  lifecycle s l → validate_transition (default s (last l)) t = Ok () → lifecycle s (l ++ [t]).
Proof.
  induction 1 as [s|s u l Hu Hl IH]; simpl; intros Ht.
  - apply lifecycle_move; [done|]. apply lifecycle_stop.
  - apply lifecycle_move; [done|]. apply IH. by rewrite last_cons in Ht; destruct (last l).
Qed.

Lemma lifecycle_last s l t :
  lifecycle s (l ++ [t]) → validate_transition (default s (last l)) t = Ok ().
Proof.
  revert s. induction l as [|u l IH]; intros s; simpl; inversion 1; subst; [done|].
  rewrite last_cons. match goal with H : lifecycle u _ |- _ => apply IH in H end. by destruct (last l).
Qed.

(** The states with no way out are the terminal ones. *)
Lemma terminal_no_exit s :
  Status.terminal s = true ↔ ∀ t, validate_transition s t ≠ Ok ().
Proof.
  split; [intros ? t; by apply terminal_no_transition|].
  intros Hs. destruct s; try done; [by destruct (Hs Starting)|by destruct (Hs Running)|
    by destruct (Hs Succeeded)|by destruct (Hs Cancelled)].
Qed.

(** C40: Every history of accepted transitions is finite
    (at most four moves, counted from [Created]), never reaches the historical
    status [TimedOut], and once it is at a terminal state it has no further
    move: terminal records are immutable.  A history that no transition can
    continue ends at a terminal state, and only such a one does: no execution
    is stuck on the way. *)
Theorem lifecycle_is_frozen s l :
  lifecycle s l →
  (length l ≤ 4)%nat ∧ TimedOut ∉ l ∧
  (∀ l1 t l2, l = (l1 ++ t :: l2) → Status.terminal t = true → l2 = []) ∧
  ((∀ t, ¬ lifecycle s (l ++ [t])) ↔ Status.terminal (default s (last l)) = true).
Proof.
  intros Hl. split; [|split; [|split]].
  - apply lifecycle_length in Hl. destruct s; simpl in Hl; lia.
  - induction Hl as [|s t l Ht _ IH]; [apply not_elem_of_nil|].
    apply not_elem_of_cons. split; [|done]. symmetry. by apply transition_not_timed_out with s.
  - intros l1 t l2 -> Ht. apply lifecycle_split in Hl.
    inversion Hl as [|? u ? Hu]; subst; [done|].
    by apply terminal_no_transition in Hu.
  - rewrite terminal_no_exit. split; intros Hs t Ht; apply (Hs t);
      [by apply lifecycle_snoc|by apply lifecycle_last].
Qed.

Lemma lifecycle_is_frozen_witness :
  (length [Starting; Running; Cancelling; Cancelled] ≤ 4)%nat ∧
  TimedOut ∉ [Starting; Running; Cancelling; Cancelled] ∧
  (∀ l1 t l2, [Starting; Running; Cancelling; Cancelled] = (l1 ++ t :: l2) →
    Status.terminal t = true → l2 = []) ∧
  ((∀ t, ¬ lifecycle Created ([Starting; Running; Cancelling; Cancelled] ++ [t])) ↔
    Status.terminal Cancelled = true).
Proof.
  apply (lifecycle_is_frozen Created).
  repeat (apply lifecycle_move; [reflexivity|]). apply lifecycle_stop.
Defined.

(** A status survives its durable spelling, an unknown spelling is a typed
    validation error, and the groups [ACTIVE] and [TERMINAL] split the states
    exactly as [Status::terminal] does. *)
Theorem status_roundtrip :
  (∀ s, Status.from_str (Status.as_str s) = Ok s) ∧
  (∀ v s, Status.from_str v = Ok s → Status.as_str s = v) ∧
  (∀ v, (∀ s, Status.as_str s ≠ v) → Status.from_str v = Err (Validation "unknown status")) ∧
  (∀ s, (s ∈ ACTIVE ↔ Status.terminal s = false) ∧ (s ∈ TERMINAL ↔ Status.terminal s = true)).
Proof.
  split; [by intros []|]. split; [|split].
  - unfold Status.from_str. intros v s. destruct (first_where _ _) eqn:E; [|done].
    apply first_where_Some in E as [? _]. intros [= <-]. done.
  - intros v Hv. unfold Status.from_str. destruct (first_where _ _) as [s|] eqn:E; [|done].
    apply first_where_Some in E as [? _]. by destruct (Hv s).
  - intros s. by rewrite terminal_ACTIVE, terminal_TERMINAL.
Qed.
