(* ===== verification/Requests.v ===== *)
(** * Validated public input

    The field validators of [domain.rs] and [worker.rs], the identities, the
    orchestrator reference, and the start requests with their normalization.
    Two external functions are parameters: [chrono]'s date-time parser (the
    middle of an identity) and the file system behind [existing_dir]. *)

From S2P Require Import Prelude Text Json Lifecycle.

(** ** Field validators *)

(** [domain.rs] [nonblank]. *)
Definition nonblank (label s : string) : result () :=
  fail? blank s || has_nul s with
    invalid (label +:+ " must be a nonblank NUL-free string");
  Ok ().

(** [domain.rs] [external_id]. *)
Definition external_id (label s : string) : result () :=
  try? nonblank label s;
  fail? 512 <? char_count s with invalid (label +:+ " exceeds 512 characters");
  Ok ().

Definition MAX_DISPLAY_NAME_CHARS : Z := 64.

(** [domain.rs] [is_unsafe_label_char]. *)
Definition is_unsafe_label_char (c : Z) : bool :=
  is_control c
  || (c =? 173)
  || ((8206 <=? c) && (c <=? 8207))
  || ((8232 <=? c) && (c <=? 8238))
  || ((8288 <=? c) && (c <=? 8303))
  || (c =? 65279).

(** [domain.rs] [display_name]: the trimmed label, or the first refusal. *)
Definition display_name (label : string) : result string :=
  let trimmed := trim label in
  fail? is_empty trimmed || has_nul trimmed with
    invalid "display name must be a nonblank NUL-free string";
  fail? MAX_DISPLAY_NAME_CHARS <? char_count trimmed with
    invalid "display name exceeds 64 characters";
  fail? existsb is_unsafe_label_char (chars trimmed) with
    invalid "display name must not contain control, bidi or format characters";
  Ok trimmed.

Definition MAX_TASK_BYTES : Z := 512 * 1024.

(** [domain.rs] [task_text]. *)
Definition task_text (task : string) : result () :=
  try? nonblank "task" task;
  fail? MAX_TASK_BYTES <? len task with invalid "task exceeds 512 KiB";
  Ok ().

(** The bytes [b"-_."] of an idempotency key, besides letters and digits. *)
Definition is_key_byte (b : Z) : bool :=
  is_ascii_alphanumeric b || (b =? 45) || (b =? 95) || (b =? 46).

(** [worker.rs] [request_key]. *)
Definition request_key (key : string) : result () :=
  fail? is_empty key || (128 <? len key) || negb (forallb is_key_byte (bytes key)) with
    Validation "request_id must be 1–128 safe ASCII bytes";
  Ok ().

(** A control other than newline and tab. *)
Definition is_bad_control (c : Z) : bool :=
  is_control c && negb (c =? 10) && negb (c =? 9).

(** [worker.rs] [bounded_text]. *)
Definition bounded_text (label text : string) (max : Z) : result () :=
  fail? blank text || (max <? len text) || existsb is_bad_control (chars text) with
    Validation (label +:+ " must be 1–" +:+ dec max
                +:+ " UTF-8 bytes without unsupported control characters");
  Ok ().

(** ** Worker requests, [worker.rs] *)

Inductive WorkerMessageKind := Notice | Risk | Question | Blocker.

Definition kind_str (k : WorkerMessageKind) : string :=
  match k with
  | Notice => "notice"
  | Risk => "risk"
  | Question => "question"
  | Blocker => "blocker"
  end.

Record NotifyRequest := mk_notify {
  nr_request_id : string;
  nr_kind : WorkerMessageKind;
  nr_message : string;
}.

Definition notify_validate (r : NotifyRequest) : result () :=
  try? request_key (nr_request_id r);
  try? bounded_text "message" (nr_message r) 2048;
  Ok ().

Inductive FinishStatus := Done | Blocked | FinishFailed.

Record FinishRequest := mk_finish { fr_summary : string; fr_status : FinishStatus }.

Definition finish_validate (r : FinishRequest) : result () :=
  bounded_text "finish summary" (fr_summary r) 65536.

(** The broker's pre-SQL verdict on a finish summary. *)
Inductive FinishGuard := Unavailable | Secret | Clean.

Record FinishReceipt := mk_finish_receipt { frc_sha256 : string; frc_duplicate : bool }.

Record SaveReportRequest := mk_report { sr_filename : string; sr_content : string }.

(** [SaveReportRequest::validate]; byte 92 is the backslash, 47 the slash. *)
Definition save_report_validate (r : SaveReportRequest) : result () :=
  let name := sr_filename r in
  fail? is_empty name
        || (128 <? len name)
        || starts_with "." name
        || bool_decide (47 ∈ bytes name)
        || bool_decide (92 ∈ bytes name)
        || existsb is_control (chars name)
        || negb (existsb (λ suffix, ends_with suffix name) [".md"; ".txt"; ".json"]%string) with
    Validation "report filename must be a single non-hidden .md, .txt or .json name inside the assigned directory";
  bounded_text "report content" (sr_content r) 65536.

Inductive WorkerTool :=
  | TFinish | THealthReply | TNotify | TSaveReport | TPoolPost | TPoolRead | TPoolPropose | TPoolVote.

Definition tool_str (t : WorkerTool) : string :=
  match t with
  | TFinish => "finish"
  | THealthReply => "health_reply"
  | TNotify => "notify_orchestrator"
  | TSaveReport => "save_report"
  | TPoolPost => "pool_post"
  | TPoolRead => "pool_read"
  | TPoolPropose => "pool_propose"
  | TPoolVote => "pool_vote"
  end.

#[global] Instance worker_message_kind_eq_dec : EqDecision WorkerMessageKind.
Proof. solve_decision. Defined.
#[global] Instance finish_status_eq_dec : EqDecision FinishStatus.
Proof. solve_decision. Defined.
#[global] Instance finish_request_eq_dec : EqDecision FinishRequest.
Proof. solve_decision. Defined.
#[global] Instance finish_guard_eq_dec : EqDecision FinishGuard.
Proof. solve_decision. Defined.
#[global] Instance worker_tool_eq_dec : EqDecision WorkerTool.
Proof. solve_decision. Defined.

(** [WorkerTool::parse]: the first pair of the table with this name. *)
Definition tool_parse (name : string) : option WorkerTool :=
  option_map snd
    (first_where (λ p : string * WorkerTool, fst p = name)
       [ (tool_str TFinish, TFinish); (tool_str THealthReply, THealthReply);
         (tool_str TNotify, TNotify); (tool_str TSaveReport, TSaveReport);
         (tool_str TPoolPost, TPoolPost); (tool_str TPoolRead, TPoolRead);
         (tool_str TPoolPropose, TPoolPropose); (tool_str TPoolVote, TPoolVote) ]).

(** The bytes [b"-_"] of a notice identity, besides letters and digits. *)
Definition is_notice_byte (b : Z) : bool :=
  is_ascii_alphanumeric b || (b =? 45) || (b =? 95).

(** [health.rs] *)
Inductive PingPolicy := POff | PObserve | PRecover.
#[global] Instance ping_policy_eq_dec : EqDecision PingPolicy.
Proof. solve_decision. Defined.

Inductive ReplyState := RWorking | RWaiting | RBlocked.
Record PingReply := mk_ping { pr_ping_id : string; pr_state : ReplyState }.

Definition ping_validate (r : PingReply) : result () :=
  fail? negb (len (pr_ping_id r) =? 64) || negb (forallb is_lower_hex (bytes (pr_ping_id r))) with
    invalid "ping_id must be a broker-issued lowercase SHA-256";
  Ok ().

(** ** Identities *)

(** [NaiveDateTime::parse_from_str(s, "%Y%m%d-%H%M%S").is_ok()], of [chrono]. *)
Class Chrono := { datetime_ok : string → bool }.

(** [PathBuf::canonicalize] and [Path::is_dir], of the operating system. *)
Class FileSystem := {
  canonicalize : string → option string;
  is_dir : string → bool;
}.

(** The shape shared by agent and pool identities: a prefix, the date-time of
    15 bytes, a dash and ten lowercase hex digits, [n] bytes in all. *)
Definition id_shape `{Chrono} (prefix : string) (n : Z) (s : string) : bool :=
  let start := String.length prefix in
  (len s =? n)
  && is_ascii s
  && starts_with prefix s
  && bool_decide (bytes s !! (start + 15)%nat = Some 45)
  && forallb is_lower_hex (bytes (slice s (start + 16) (String.length s)))
  && datetime_ok (slice s start (start + 15)).

(** [AgentId::from_str]. *)
Definition agent_id_from_str `{Chrono} (s : string) : result string :=
  fail? negb (id_shape "ag-" 29 s) with
    invalid "agent_id must match ag-YYYYMMDD-HHMMSS-<10 lowercase hex>";
  Ok s.

(** [PoolId::from_str]. *)
Definition pool_id_from_str `{Chrono} (s : string) : result string :=
  fail? negb (id_shape "pool-" 31 s) with
    invalid "pool_id must match pool-YYYYMMDD-HHMMSS-<10 lowercase hex>";
  Ok s.

(** ** Orchestrator references *)

Record OrchestratorRef := mk_orchestrator {
  transport : string;
  external_session_id : string;
  external_turn_id : option string;
}.

#[global] Instance orchestrator_eq_dec : EqDecision OrchestratorRef.
Proof. solve_decision. Defined.

Definition canonical_transport_name (transport : string) : result string :=
  if bool_decide (transport = "codex"%string ∨ transport = "codex_queue"%string)
  then Ok "codex_queue"%string
  else if bool_decide (transport = "claude"%string ∨ transport = "claude_uds"%string)
  then Ok "claude_uds"%string
  else if bool_decide (transport = "opencode"%string) then Ok "opencode"%string
  else Err (invalid "unsupported orchestrator transport").

Definition legacy_transport (r : OrchestratorRef) : result string :=
  let? canonical := canonical_transport_name (transport r) in
  Ok (if bool_decide (canonical = "codex_queue"%string) then "codex"%string
      else if bool_decide (canonical = "claude_uds"%string) then "claude"%string
      else canonical).

(** [if let Some(v) = o { f(v)?; }]. *)
Definition check_opt {A} (f : A → result ()) (o : option A) : result () :=
  match o with Some v => f v | None => Ok () end.

Definition orchestrator_validate (r : OrchestratorRef) : result () :=
  try? canonical_transport_name (transport r);
  try? external_id "external_session_id" (external_session_id r);
  try? check_opt (external_id "external_turn_id") (external_turn_id r);
  Ok ().

Definition orchestrator_normalize (r : OrchestratorRef) : result OrchestratorRef :=
  try? orchestrator_validate r;
  let? t := canonical_transport_name (transport r) in
  Ok (mk_orchestrator t (external_session_id r) (external_turn_id r)).

(** ** Paths *)

Fixpoint split_slash (s : string) : list string :=
  match s with
  | EmptyString => [""%string]
  | String a s' =>
      if (u8 a =? 47) then ""%string :: split_slash s'
      else match split_slash s' with
           | [] => [String a ""]
           | w :: ws => String a w :: ws
           end
  end.

(** [Path::components] of an absolute path: paths compare by components, so
    repeated or trailing slashes and [.] make no difference. *)
Definition components (p : string) : list string :=
  filter (λ c, c ≠ ""%string ∧ c ≠ "."%string) (split_slash p).

Definition is_absolute (p : string) : bool := starts_with "/" p.

(** [domain.rs] [existing_dir]. *)
Definition existing_dir `{FileSystem} (path : string) : result string :=
  fail? negb (is_absolute path) with invalid "path must be an absolute existing directory";
  let? p := ok_or (invalid "directory does not exist") (canonicalize path) in
  fail? negb (is_dir p) with invalid "path is not a directory";
  Ok p.

(** ** Start requests *)

Inductive Constraint :=
  | WebToolsDisabled | ExternalNetworkIsolation | LoopbackTcpIsolation | UnixIpcIsolation
  | McpIpcIsolation | FilesystemWriteIsolation | FilesystemReadIsolation | PluginImmutability
  | ResearchToolsOnly.
#[global] Instance constraint_eq_dec : EqDecision Constraint.
Proof. solve_decision. Defined.

Record StartRequest := mk_start {
  sq_runtime : string;
  sq_model : string;
  sq_profile : string;
  sq_task : string;
  sq_workdir : string;
  sq_write : bool;
  sq_fast : bool;
  sq_explicit_finish : bool;
  sq_idle_ping : PingPolicy;
  sq_effort : option string;
  sq_display_name : option string;
  sq_read_roots : list string;
  sq_output_schema : option (list (string * Value));
  sq_orchestrator : option OrchestratorRef;
  sq_request_id : option string;
  sq_account : option string;
  sq_required_constraints : list Constraint;
}.

Definition sq_set_intent (r : StartRequest) (name : option string)
  (o : option OrchestratorRef) : StartRequest :=
  mk_start (sq_runtime r) (sq_model r) (sq_profile r) (sq_task r) (sq_workdir r) (sq_write r)
    (sq_fast r) (sq_explicit_finish r) (sq_idle_ping r) (sq_effort r) name (sq_read_roots r)
    (sq_output_schema r) o (sq_request_id r) (sq_account r) (sq_required_constraints r).

Definition sq_set_paths (r : StartRequest) (workdir : string) (roots : list string)
  : StartRequest :=
  mk_start (sq_runtime r) (sq_model r) (sq_profile r) (sq_task r) workdir (sq_write r)
    (sq_fast r) (sq_explicit_finish r) (sq_idle_ping r) (sq_effort r) (sq_display_name r) roots
    (sq_output_schema r) (sq_orchestrator r) (sq_request_id r) (sq_account r)
    (sq_required_constraints r).

(** [match o { Some(v) => Some(f(v)?), None => None }]. *)
Definition map_opt {A B} (f : A → result B) (o : option A) : result (option B) :=
  match o with
  | None => Ok None
  | Some v => let? w := f v in Ok (Some w)
  end.

(** [StartRequest::validate_intent]. *)
Definition validate_intent (r : StartRequest) : result StartRequest :=
  try? nonblank "runtime" (sq_runtime r);
  try? nonblank "model" (sq_model r);
  try? nonblank "profile" (sq_profile r);
  try? task_text (sq_task r);
  fail? bool_decide (sq_idle_ping r = PRecover) && negb (sq_explicit_finish r) with
    invalid "recover ping requires explicit finish";
  try? check_opt (nonblank "effort") (sq_effort r);
  try? check_opt (nonblank "account") (sq_account r);
  let? name := map_opt display_name (sq_display_name r) in
  fail? negb (is_absolute (sq_workdir r))
        || existsb (λ path, negb (is_absolute path)) (sq_read_roots r) with
    invalid "paths must be absolute";
  fail? has_dup (map components (sq_read_roots r)) with
    invalid "read_roots must not contain duplicates";
  let? o := map_opt orchestrator_normalize (sq_orchestrator r) in
  try? check_opt (external_id "request_id") (sq_request_id r);
  Ok (sq_set_intent r name o).

(** [StartRequest::validate]. *)
Definition start_validate `{FileSystem} (r : StartRequest) : result StartRequest :=
  let? r := validate_intent r in
  let? workdir := existing_dir (sq_workdir r) in
  let? roots := traverse existing_dir (sq_read_roots r) in
  fail? has_dup (map components roots) with invalid "read_roots must not contain duplicates";
  Ok (sq_set_paths r workdir roots).

(** ** Provider start requests, [provider_start.rs] *)

Record ProviderStartRequest := mk_provider_start {
  ps_provider : string;
  ps_model : string;
  ps_profile : string;
  ps_task : string;
  ps_workdir : string;
  ps_write : bool;
  ps_read_roots : list string;
  ps_account : option string;
  ps_effort : option string;
  ps_display_name : option string;
  ps_fast : bool;
  ps_explicit_finish : bool;
  ps_idle_ping : PingPolicy;
  ps_output_schema : option (list (string * Value));
  ps_request_id : option string;
  ps_orchestrator : option OrchestratorRef;
  ps_required_constraints : list Constraint;
  ps_required_mcp : list (string * list string);
}.

(** The fields [validate] and [validate_intent] write back. *)
Definition ps_set (p : ProviderStartRequest) (workdir : string) (roots : list string)
  (name : option string) (o : option OrchestratorRef) (mcp : list (string * list string))
  : ProviderStartRequest :=
  mk_provider_start (ps_provider p) (ps_model p) (ps_profile p) (ps_task p) workdir
    (ps_write p) roots (ps_account p) (ps_effort p) name (ps_fast p) (ps_explicit_finish p)
    (ps_idle_ping p) (ps_output_schema p) (ps_request_id p) o (ps_required_constraints p) mcp.

(** The closure [name] of [normalize_required_mcp]; it accepts [b"_.-"] too. *)
Definition mcp_name (value : string) : bool :=
  (1 <=? len value) && (len value <=? 128) && forallb is_key_byte (bytes value).

(** One iteration of the loop: the grammar check, the sort, the duplicates. *)
Definition normalize_mcp_server (entry : string * list string) : result (string * list string) :=
  let '(server, tools) := entry in
  fail? negb (mcp_name server)
        || negb (match bytes server with b :: _ => is_ascii_alphanumeric b | [] => false end)
        || (32 <? Z.of_nat (length tools))
        || existsb (λ tool, negb (mcp_name tool)) tools with
    invalid "required_mcp requires bounded exact server and tool names";
  let tools := merge_sort String.le tools in
  fail? has_dup tools with invalid "duplicate required MCP tool";
  Ok (server, tools).

(** [normalize_required_mcp]; on a sorted list, equal neighbours are exactly
    the duplicates. *)
Definition normalize_required_mcp (requirements : list (string * list string))
  : result (list (string * list string)) :=
  fail? 8 <? Z.of_nat (length requirements) with invalid "required_mcp exceeds eight servers";
  traverse normalize_mcp_server requirements.

Definition storage_projection (p : ProviderStartRequest) : StartRequest :=
  mk_start (ps_provider p) (ps_model p) (ps_profile p) (ps_task p) (ps_workdir p) (ps_write p)
    (ps_fast p) (ps_explicit_finish p) (ps_idle_ping p) (ps_effort p) (ps_display_name p)
    (ps_read_roots p) (ps_output_schema p) (ps_orchestrator p) (ps_request_id p)
    (ps_account p) (ps_required_constraints p).

Definition provider_validate `{FileSystem} (p : ProviderStartRequest)
  : result ProviderStartRequest :=
  let? mcp := normalize_required_mcp (ps_required_mcp p) in
  let? projection := start_validate (storage_projection p) in
  Ok (ps_set p (sq_workdir projection) (sq_read_roots projection)
        (sq_display_name projection) (sq_orchestrator projection) mcp).

Definition provider_validate_intent (p : ProviderStartRequest) : result ProviderStartRequest :=
  let? mcp := normalize_required_mcp (ps_required_mcp p) in
  let? projection := validate_intent (storage_projection p) in
  Ok (ps_set p (ps_workdir p) (ps_read_roots p)
        (sq_display_name projection) (sq_orchestrator projection) mcp).

(** ** Lemmas *)

Lemma bounded_text_Ok label text max :
  bounded_text label text max = Ok () ↔
  blank text = false ∧ len text ≤ max ∧ existsb is_bad_control (chars text) = false.
Proof. unfold bounded_text. split; [inv_code | intros (->&?&->)]; [done|].
  by rewrite (proj2 (Z.ltb_ge _ _)).
Qed.

Lemma request_key_Ok key :
  request_key key = Ok () ↔
  1 ≤ len key ≤ 128 ∧ forallb is_key_byte (bytes key) = true.
Proof.
  unfold request_key. pose proof (len_zero key) as Hz. pose proof (len_nonneg key). split.
  - inv_code. rewrite is_empty_false in *. split; [|done]. split; [|done].
    destruct (decide (len key = 0)); [tauto | lia].
  - intros [? ->]. rewrite (proj2 (is_empty_false _)) by (intros E; apply Hz in E; lia).
    by rewrite (proj2 (Z.ltb_ge _ _)) by lia.
Qed.

Lemma display_name_Ok label t :
  display_name label = Ok t ↔
  t = trim label ∧ t ≠ ""%string ∧ has_nul t = false ∧ char_count t ≤ 64 ∧
  existsb is_unsafe_label_char (chars t) = false.
Proof.
  unfold display_name, MAX_DISPLAY_NAME_CHARS. split.
  - inv_code. repeat split; try done. by apply is_empty_false.
  - intros (-> & Hne & -> & Hc & ->). rewrite (proj2 (is_empty_false _)) by done.
    by rewrite (proj2 (Z.ltb_ge _ _)).
Qed.

(** A normalized label is a fixed point of the normalization. *)
Lemma display_name_fixed label t :
  utf8 label → display_name label = Ok t → display_name t = Ok t.
Proof.
  intros Hu. rewrite !display_name_Ok. intros (-> & ?). by rewrite trim_idemp.
Qed.

Lemma display_name_utf8 label t : utf8 label → display_name label = Ok t → utf8 t.
Proof. intros Hu. rewrite display_name_Ok. intros (-> & _). by apply utf8_trim. Qed.

Lemma canonical_transport_fixed t c :
  canonical_transport_name t = Ok c → canonical_transport_name c = Ok c.
Proof. unfold canonical_transport_name at 1. by inv_match. Qed.

Lemma orchestrator_normalize_fixed r r' :
  orchestrator_normalize r = Ok r' → orchestrator_normalize r' = Ok r'.
Proof.
  unfold orchestrator_normalize, orchestrator_validate. intros Hn.
  destruct (canonical_transport_name (transport r)) as [t|] eqn:Ht; [|done].
  pose proof (canonical_transport_fixed _ _ Ht). inv_match; congruence.
Qed.

Lemma map_opt_fixed {A} (f : A → result A) o o' :
  (∀ a b, o = Some a → f a = Ok b → f b = Ok b) → map_opt f o = Ok o' → map_opt f o' = Ok o'.
Proof.
  intros Hf. destruct o as [a|]; simpl; [|by intros [= <-]].
  destruct (f a) as [b|] eqn:E; [|done]. intros [= <-]. simpl. by rewrite (Hf a b).
Qed.

Lemma merge_sort_fixed (l : list string) :
  merge_sort String.le (merge_sort String.le l) = merge_sort String.le l.
Proof.
  apply (StronglySorted_unique String.le).
  - apply (StronglySorted_merge_sort String.le).
  - apply (StronglySorted_merge_sort String.le).
  - apply merge_sort_Permutation.
Qed.

Lemma existsb_Permutation {A} (f : A → bool) l1 l2 :
  l1 ≡ₚ l2 → existsb f l1 = existsb f l2.
Proof. induction 1; simpl; try congruence. by rewrite !orb_assoc, (orb_comm (f y)). Qed.

Lemma normalize_mcp_server_fixed e e' :
  normalize_mcp_server e = Ok e' → normalize_mcp_server e' = Ok e'.
Proof.
  destruct e as [server tools]. unfold normalize_mcp_server at 1.
  destruct (_ || _ || _ || _) eqn:Hg; [done|].
  destruct (has_dup _) eqn:Hd; [done|]. intros [= <-].
  unfold normalize_mcp_server. rewrite merge_sort_fixed, Hd.
  rewrite (existsb_Permutation _ _ tools) by apply merge_sort_Permutation.
  rewrite (Permutation_length (merge_sort_Permutation String.le tools)).
  by rewrite Hg.
Qed.

Lemma normalize_required_mcp_fixed m m' :
  normalize_required_mcp m = Ok m' → normalize_required_mcp m' = Ok m'.
Proof.
  unfold normalize_required_mcp. destruct (8 <? _) eqn:E; [done|].
  rewrite traverse_Ok. intros Hm. rewrite <-(Forall2_length _ _ _ Hm), E.
  apply traverse_Ok. apply Forall2_same_length_lookup. split; [done|].
  intros i x y Hx Hy. simplify_eq.
  destruct (Forall2_lookup_r _ _ _ _ _ Hm Hx) as (z & _ & Hz).
  by apply normalize_mcp_server_fixed with z.
Qed.

(** The label, when present, is a valid [str]. *)
Definition intent_utf8 (name : option string) : Prop :=
  match name with Some label => utf8 label | None => True end.

Lemma validate_intent_fixed r r' :
  intent_utf8 (sq_display_name r) → validate_intent r = Ok r' → validate_intent r' = Ok r'.
Proof.
  intros Hu H. unfold validate_intent in H. run H.
  match goal with En : map_opt display_name _ = Ok _, Eo : map_opt orchestrator_normalize _ = Ok _ |- _ =>
    apply map_opt_fixed in En;
      [|intros x y Ex ?; rewrite Ex in Hu; by apply display_name_fixed with x];
    apply map_opt_fixed in Eo; [|intros x y _ ?; by apply orchestrator_normalize_fixed with x]
  end.
  unfold validate_intent. simpl.
  repeat match goal with E : _ = _ |- _ => rewrite E end. done.
Qed.

(** Validation of a provider start is a normalization: validating an
    accepted request again succeeds and changes nothing, so a replay of the
    stored, normalized request has the identity it was admitted with.  The
    label, the transport name and the sorted tool sets are its normal form. *)
Theorem provider_validate_intent_idempotent p p' :
  intent_utf8 (ps_display_name p) →
  provider_validate_intent p = Ok p' → provider_validate_intent p' = Ok p'.
Proof.
  intros Hu. unfold provider_validate_intent.
  destruct (normalize_required_mcp _) as [mcp|] eqn:Em; [|done].
  destruct (validate_intent _) as [r|] eqn:Er; [|done]. intros [= <-]. simpl.
  rewrite (normalize_required_mcp_fixed _ _ Em).
  assert (storage_projection (ps_set p (ps_workdir p) (ps_read_roots p) (sq_display_name r)
            (sq_orchestrator r) mcp) = r) as ->.
  { unfold validate_intent in Er. by run Er. }
  by rewrite (validate_intent_fixed (storage_projection p) r Hu Er).
Qed.

(** A start that validation changes: label, alias and tool order. *)
Definition demo_start : ProviderStartRequest :=
  mk_provider_start "prov" "model" "review" "do it" "/w" false ["/w/a"; "/w/b"] None None
    (Some "  Ada ") false true PObserve None None
    (Some (mk_orchestrator "codex" "session" None)) [] [("srv", ["write"; "read"])]%string.

Lemma provider_validate_intent_idempotent_witness :
  ∃ p', provider_validate_intent demo_start = Ok p' ∧ p' ≠ demo_start ∧
        provider_validate_intent p' = Ok p'.
Proof.
  eexists. split; [vm_compute; reflexivity|]. split; [discriminate|].
  apply (provider_validate_intent_idempotent demo_start); [|vm_compute; reflexivity].
  exists [32; 32; 65; 100; 97; 32]. split; [|reflexivity].
  repeat (apply Forall_cons_2; [unfold scalar; lia|]). apply Forall_nil_2.
Defined.
