(* ===== verification/Tables.v ===== *)
(** * The durable state

    The SQLite tables the modelled transactions read and write, as typed row
    lists in insertion order ([sql/schema.sql], [sql/migrations]).  A text
    column that holds an enum holds the enum, a JSON column its decoded value,
    a REAL column an [f64].  Columns no modelled code reads are left out.

    [insert_entry] and [insert_member] evaluate every CHECK, UNIQUE and FOREIGN
    KEY of [pool_entries] and [pool_members], the tables the pool protocol rests
    on.  AUTOINCREMENT keys come from counters that never go back. *)

From S2P Require Import Prelude Text Float64 Json Lifecycle Requests PoolDomain.

(** ** Rows *)

Record AgentRow := mk_agent {
  ag_id : string;
  ag_root : string;                       (* '' for a root that names itself *)
  ag_sequence : Z;
  ag_created_at : f64;
  ag_status : Status;
  ag_finished_at : option f64;
  ag_session : option string;             (* orchestrator_session_id *)
  ag_request : StartRequest;              (* request_json *)
  ag_identity_v2 : bool;                  (* provider_identity_version = 2 *)
  ag_exit_code : option Z;
  ag_failure_kind : option string;
  ag_failure_text : option string;
  ag_runtime_session : option string;
  ag_answer : option (string * Z * string);   (* path, bytes, sha256 *)
  ag_display_name : option string;
  ag_pool_history : option bool;          (* pool_membership_ever *)
  ag_runtime : string;
  ag_model : string;
}.

Record AttemptRow := mk_attempt {
  at_id : string;
  at_agent : string;
  at_number : Z;
  at_state : string;
  at_finished_at : option f64;
  at_owned : bool;                        (* ownership_active *)
  at_phase : option string;
  at_cleanup_proof : option Value;        (* cleanup_proof_json *)
  at_process : bool;                      (* some process identity or member row *)
  at_account : option string;             (* selected_account_id *)
}.

Record CapabilityRow := mk_capability {
  wc_attempt : string;
  wc_token_sha256 : string;
  wc_catalog_version : option Z;
  wc_catalog_digest : option string;
}.

Inductive Phase := PRunning | PIdle | PClosing.

(** The immutable finish columns: [finish_json], [finish_sha256], [accepted_at]
    are all present or all absent. *)
Record FinishIntent := mk_intent {
  fi_request : FinishRequest;
  fi_sha256 : string;
  fi_accepted_at : f64;
}.

Record LifecycleRow := mk_lifecycle {
  wl_attempt : string;
  wl_phase : Phase;
  wl_turn_count : Z;
  wl_transition_at : f64;
  wl_idle_seconds : f64;
  wl_finish : option FinishIntent;
  wl_receipt_observed : bool;
}.

Inductive CommandState := CPending | CClaimed | CCompleted.

(** [kind] and [payload_json] of a command. *)
Inductive CommandKind :=
  | PoolPush (seq : Z)
  | CancelCommand
  | Steer (text : string) (pool_enrollment : option string) (native_completion : bool).

Record CommandRow := mk_command {
  cm_id : Z;
  cm_agent : string;
  cm_kind : CommandKind;
  cm_state : CommandState;
  cm_accepted : bool;                     (* result_json $.accepted *)
}.

(** The frozen completion document of a pool. *)
Record CompletionMember := mk_completion_member {
  cmp_agent : string;
  cmp_slot : Z;
  cmp_name : string;
  cmp_role : string;
  cmp_vote_seq : Z;
  cmp_checks : list CriterionCheck;
  cmp_tip : string;
}.

Record CompletionRecord := mk_completion_record {
  cr_pool : string;
  cr_revision : Z;
  cr_goal : string;
  cr_acceptance : list AcceptanceCriterion;
  cr_proposal : Z;
  cr_snapshot : string;
  cr_members : list CompletionMember;
  cr_notice : string;
}.

(** [kind], [from_status], [to_status] and [data_json] of an event. *)
Inductive EventData :=
  | EStatus (from to : Status) (failure_kind : option string) (service_restart : bool)
  | EPoolEntry (seq : Z) (kind : EntryKind)
  | EPoolCompleted (record : CompletionRecord)
  | EMemberReplaced (pool request_id request_sha256 replaces : string) (revision seq : Z)
  | EWorkerNotification (request_id : string) (kind : WorkerMessageKind)
  | EFinishAccepted (sha256 : string) (bytes : Z) (status : FinishStatus) (restart : option Z)
  | ETurnPhase (phase : Phase)
  | EJoinNeedsAction (pool member reason notice : string)
  | EUsage (updated : bool) (usage : Value)
  | EProcessSummary (summary : Value)
  | ENativeResumeAccepted
  | ECreated
  | EStartAccepted (resume_of : option string)
  | EAttemptAllocated (previous : string) (number : Z) (account : string)
  | ERecoveryObservation (original original_digest : string) (original_committed : option bool)
      (kind : string) (result evidence : Value).

Record EventRow := mk_event {
  ev_no : Z;
  ev_agent : string;
  ev_attempt : option string;
  ev_at : f64;
  ev_data : EventData;
}.

Inductive DeliveryState :=
  | WaitingBinding | DPending | DSending | DDelivered | DRetryWait | DFailed | DCancelled
  | DExpired.

Record DeliveryRow := mk_delivery_row {
  dl_id : string;
  dl_agent : option string;
  dl_session : option string;
  dl_event : option Z;                    (* terminal_event_seq *)
  dl_state : DeliveryState;
  dl_next_attempt_at : option f64;
  dl_attempts : Z;
  dl_lease_owner : option string;
  dl_lease_until : option f64;
  dl_last_error : option string;
  dl_ambiguous : bool;                    (* ambiguous_result *)
}.

(** A row with the column defaults: no attempt and no lease yet. *)
Definition mk_delivery (id : string) (agent session : option string) (event : option Z)
  (state : DeliveryState) (next : option f64) : DeliveryRow :=
  mk_delivery_row id agent session event state next 0 None None None false.

Record NotificationRow := mk_notification {
  wn_delivery : string;
  wn_agent : string;
  wn_attempt : string;
  wn_request_id : string;
  wn_kind : WorkerMessageKind;
  wn_message : string;
  wn_created_at : f64;
}.

Record SessionRow := mk_session {
  os_id : string;
  os_transport : string;
  os_external_session_id : string;
  os_external_turn_id : option string;
}.

Record PoolRow := mk_pool {
  pl_id : string;
  pl_session : option string;
  pl_goal : string;
  pl_acceptance : list AcceptanceCriterion;
  pl_state : PoolState;
  pl_revision : Z;                        (* roster_revision *)
  pl_delivery : option string;            (* completion_delivery_id *)
  pl_namespace : string;                  (* request_namespace *)
  pl_request_id : string;
  pl_request_sha256 : string;
}.

Record MemberRow := mk_member {
  mb_agent : string;
  mb_pool : string;
  mb_slot : Z;
  mb_name : string;
  mb_role : string;
  mb_task : string;
  mb_joined_revision : Z;
  mb_replaced_by : option string;
}.

Record EntryRow := mk_entry {
  en_seq : Z;
  en_pool : string;
  en_author_kind : AuthorKind;
  en_author_agent : option string;
  en_author_name : option string;
  en_author_role : option string;
  en_direction : Direction;
  en_kind : EntryKind;
  en_severity : option WorkerMessageKind;
  en_proposal_seq : option Z;
  en_revision : Z;
  en_decision : option VoteDecision;
  en_snapshot : option string;
  en_checks : option (list CriterionCheck);
  en_body : string;
  en_delivery : option string;
  en_sender_run : option string;
  en_sender_attempt : option string;
  en_scope : string;                      (* idem_scope *)
  en_request_id : string;
}.

Inductive EnrollmentState := EPending | EJoined | ENeedsAction.

Record EnrollmentRow := mk_enrollment {
  er_agent : string;
  er_run : string;
  er_attempt : string;
  er_challenge : string;
  er_state : EnrollmentState;
  er_ack_seq : option Z;
  er_failure_reason : option string;
  er_attention_delivery : option string;
  er_attention_issued : bool;
}.

Inductive RestartPhase := RPreparing | RReady | RRequesting | RRecovering | RComplete.

Record RestartRow := mk_restart {
  rs_id : Z;
  rs_request : string;                    (* request_id *)
  rs_phase : RestartPhase;
  rs_boot : string;                       (* boot_id *)
  rs_notice_wait : option Z;              (* notice_wait_started_ns *)
  rs_epoch : option Z;                    (* writer_epoch *)
  rs_finished_at : option f64;
}.

Inductive ResumeStatus := RsPending | RsStarted | RsFinished | RsCancelled | RsFailed | RsUnconfirmed.

Record RestartAgentRow := mk_restart_agent {
  ra_restart : Z;
  ra_agent : string;
  ra_session : option string;             (* orchestrator_session_id *)
  ra_cancelled_before : bool;             (* cancelled_before_restart *)
  ra_first_ns : option Z;                 (* first_notice_ns *)
  ra_second_ns : option Z;                (* second_notice_ns *)
  ra_force_ns : option Z;                 (* force_requested_ns *)
  ra_requested_ns : option Z;             (* resume_requested_ns *)
  ra_resumed_execution : option string;
  ra_resume_status : ResumeStatus;
  ra_error : option string;               (* resume_error *)
}.

#[global] Instance restart_phase_eq_dec : EqDecision RestartPhase.
Proof. solve_decision. Defined.

Definition rs_preparing (r : RestartRow) : bool := bool_decide (rs_phase r = RPreparing).
Definition rs_finished (r : RestartRow) : bool := is_some (rs_finished_at r).
Definition ra_first_notice (a : RestartAgentRow) : bool := is_some (ra_first_ns a).
Definition ra_force_requested (a : RestartAgentRow) : bool := is_some (ra_force_ns a).

#[global] Instance phase_eq_dec : EqDecision Phase.
Proof. solve_decision. Defined.
#[global] Instance command_state_eq_dec : EqDecision CommandState.
Proof. solve_decision. Defined.
#[global] Instance command_kind_eq_dec : EqDecision CommandKind.
Proof. solve_decision. Defined.
#[global] Instance delivery_state_eq_dec : EqDecision DeliveryState.
Proof. solve_decision. Defined.
#[global] Instance enrollment_state_eq_dec : EqDecision EnrollmentState.
Proof. solve_decision. Defined.
#[global] Instance resume_status_eq_dec : EqDecision ResumeStatus.
Proof. solve_decision. Defined.
#[global] Instance member_row_eq_dec : EqDecision MemberRow.
Proof. solve_decision. Defined.
#[global] Instance entry_row_eq_dec : EqDecision EntryRow.
Proof. solve_decision. Defined.

(** [selection_intent]. *)
Inductive SelectionKind := SkAuto | SkPinned.

(** The columns of [agents] that only admission and the launch of a process
    use, by agent. *)
Record LaunchRow := mk_launch {
  la_agent : string;
  la_request_id : option string;
  la_profile : string;
  la_task_summary : string;
  la_workdir : string;
  la_config_revision : string;
  la_parent : option string;              (* parent_agent_id *)
  la_resume_of : option string;           (* resume_of_runtime_session_id *)
  la_identity : option Value;             (* identity_json *)
  la_intent : option SelectionKind;       (* selection_intent *)
  la_requested_account : option string;
  la_owner : option (string * f64);       (* startup_owner_pid_identity, startup_owner_birth_time *)
  la_supervisor : option Z;               (* supervisor_pid *)
  la_process_group : option Z;
}.

(** The columns of [attempts] that only the launch of a process uses, by
    attempt. *)
Record LaunchEvidenceRow := mk_attempt_evidence {
  ae_attempt : string;
  ae_created_at : f64;
  ae_adapter_state : Value;               (* adapter_state_json *)
  ae_process_identity : option string;
  ae_process_birth : option f64;          (* process_birth_time *)
  ae_session_facts : option Value;        (* session_facts_json *)
}.

Record AccountRow := mk_account {
  ar_id : string;
  ar_family : string;
  ar_secret : string;                     (* secret_ref *)
  ar_enabled : bool;                      (* status *)
}.

Record QuotaKeyRow := mk_quota_key { qk_attempt : string; qk_key : string }.

Record CooldownRow := mk_cooldown {
  bc_provider : string;
  bc_account : string;
  bc_reason : BindingCooldownReason;
  bc_observed_at : f64;
  bc_blocked_until : f64;
  bc_attempt : string;
}.

Inductive GateState := GPending | GReady | GFailed.

Record GateRow := mk_gate { sg_agent : string; sg_state : GateState }.

(** An unreleased lease with whether its generation is ready. *)
Record LeaseRow := mk_lease { ml_agent : string; ml_released : bool; ml_ready : bool }.

(** The tables of accounts, reservations and launches. *)
Record LaunchTables := mk_launch_tables {
  lt_launches : list LaunchRow;
  lt_evidence : list LaunchEvidenceRow;
  lt_accounts : list AccountRow;
  lt_keys : list QuotaKeyRow;
  lt_cooldowns : list CooldownRow;
  lt_gates : list GateRow;
  lt_leases : list LeaseRow;
  lt_prepared_homes : list string;        (* runtime_storage_layouts in state prepared *)
}.

#[global] Instance selection_kind_eq_dec : EqDecision SelectionKind.
Proof. solve_decision. Defined.
#[global] Instance gate_state_eq_dec : EqDecision GateState.
Proof. solve_decision. Defined.

Definition no_launches : LaunchTables := mk_launch_tables [] [] [] [] [] [] [] [].

(** ** The database *)

Record Db := mk_db {
  db_agents : list AgentRow;
  db_attempts : list AttemptRow;
  db_capabilities : list CapabilityRow;
  db_lifecycles : list LifecycleRow;
  db_commands : list CommandRow;
  db_events : list EventRow;
  db_deliveries : list DeliveryRow;
  db_notifications : list NotificationRow;
  db_sessions : list SessionRow;
  db_pools : list PoolRow;
  db_members : list MemberRow;
  db_entries : list EntryRow;
  db_enrollments : list EnrollmentRow;
  db_restarts : list RestartRow;
  db_restart_agents : list RestartAgentRow;
  db_command_seq : Z;
  db_event_seq : Z;
  db_entry_seq : Z;
  db_capacity_revision : Z;
  db_launch : LaunchTables;
}.

(** Replacing one table. *)
Definition set_agents (x : list AgentRow) (db : Db) : Db :=
  mk_db x (db_attempts db) (db_capabilities db) (db_lifecycles db) (db_commands db)
    (db_events db) (db_deliveries db) (db_notifications db) (db_sessions db) (db_pools db)
    (db_members db) (db_entries db) (db_enrollments db) (db_restarts db) (db_restart_agents db)
    (db_command_seq db) (db_event_seq db) (db_entry_seq db) (db_capacity_revision db)
    (db_launch db).
Definition set_attempts (x : list AttemptRow) (db : Db) : Db :=
  mk_db (db_agents db) x (db_capabilities db) (db_lifecycles db) (db_commands db) (db_events db)
    (db_deliveries db) (db_notifications db) (db_sessions db) (db_pools db) (db_members db)
    (db_entries db) (db_enrollments db) (db_restarts db) (db_restart_agents db)
    (db_command_seq db) (db_event_seq db) (db_entry_seq db) (db_capacity_revision db)
    (db_launch db).
Definition set_capabilities (x : list CapabilityRow) (db : Db) : Db :=
  mk_db (db_agents db) (db_attempts db) x (db_lifecycles db) (db_commands db) (db_events db)
    (db_deliveries db) (db_notifications db) (db_sessions db) (db_pools db) (db_members db)
    (db_entries db) (db_enrollments db) (db_restarts db) (db_restart_agents db)
    (db_command_seq db) (db_event_seq db) (db_entry_seq db) (db_capacity_revision db)
    (db_launch db).
Definition set_lifecycles (x : list LifecycleRow) (db : Db) : Db :=
  mk_db (db_agents db) (db_attempts db) (db_capabilities db) x (db_commands db) (db_events db)
    (db_deliveries db) (db_notifications db) (db_sessions db) (db_pools db) (db_members db)
    (db_entries db) (db_enrollments db) (db_restarts db) (db_restart_agents db)
    (db_command_seq db) (db_event_seq db) (db_entry_seq db) (db_capacity_revision db)
    (db_launch db).
Definition set_commands (x : list CommandRow) (db : Db) : Db :=
  mk_db (db_agents db) (db_attempts db) (db_capabilities db) (db_lifecycles db) x (db_events db)
    (db_deliveries db) (db_notifications db) (db_sessions db) (db_pools db) (db_members db)
    (db_entries db) (db_enrollments db) (db_restarts db) (db_restart_agents db)
    (db_command_seq db) (db_event_seq db) (db_entry_seq db) (db_capacity_revision db)
    (db_launch db).
Definition set_events (x : list EventRow) (db : Db) : Db :=
  mk_db (db_agents db) (db_attempts db) (db_capabilities db) (db_lifecycles db) (db_commands db)
    x (db_deliveries db) (db_notifications db) (db_sessions db) (db_pools db) (db_members db)
    (db_entries db) (db_enrollments db) (db_restarts db) (db_restart_agents db)
    (db_command_seq db) (db_event_seq db) (db_entry_seq db) (db_capacity_revision db)
    (db_launch db).
Definition set_deliveries (x : list DeliveryRow) (db : Db) : Db :=
  mk_db (db_agents db) (db_attempts db) (db_capabilities db) (db_lifecycles db) (db_commands db)
    (db_events db) x (db_notifications db) (db_sessions db) (db_pools db) (db_members db)
    (db_entries db) (db_enrollments db) (db_restarts db) (db_restart_agents db)
    (db_command_seq db) (db_event_seq db) (db_entry_seq db) (db_capacity_revision db)
    (db_launch db).
Definition set_notifications (x : list NotificationRow) (db : Db) : Db :=
  mk_db (db_agents db) (db_attempts db) (db_capabilities db) (db_lifecycles db) (db_commands db)
    (db_events db) (db_deliveries db) x (db_sessions db) (db_pools db) (db_members db)
    (db_entries db) (db_enrollments db) (db_restarts db) (db_restart_agents db)
    (db_command_seq db) (db_event_seq db) (db_entry_seq db) (db_capacity_revision db)
    (db_launch db).
Definition set_sessions (x : list SessionRow) (db : Db) : Db :=
  mk_db (db_agents db) (db_attempts db) (db_capabilities db) (db_lifecycles db) (db_commands db)
    (db_events db) (db_deliveries db) (db_notifications db) x (db_pools db) (db_members db)
    (db_entries db) (db_enrollments db) (db_restarts db) (db_restart_agents db)
    (db_command_seq db) (db_event_seq db) (db_entry_seq db) (db_capacity_revision db)
    (db_launch db).
Definition set_pools (x : list PoolRow) (db : Db) : Db :=
  mk_db (db_agents db) (db_attempts db) (db_capabilities db) (db_lifecycles db) (db_commands db)
    (db_events db) (db_deliveries db) (db_notifications db) (db_sessions db) x (db_members db)
    (db_entries db) (db_enrollments db) (db_restarts db) (db_restart_agents db)
    (db_command_seq db) (db_event_seq db) (db_entry_seq db) (db_capacity_revision db)
    (db_launch db).
Definition set_members (x : list MemberRow) (db : Db) : Db :=
  mk_db (db_agents db) (db_attempts db) (db_capabilities db) (db_lifecycles db) (db_commands db)
    (db_events db) (db_deliveries db) (db_notifications db) (db_sessions db) (db_pools db) x
    (db_entries db) (db_enrollments db) (db_restarts db) (db_restart_agents db)
    (db_command_seq db) (db_event_seq db) (db_entry_seq db) (db_capacity_revision db)
    (db_launch db).
Definition set_entries (x : list EntryRow) (db : Db) : Db :=
  mk_db (db_agents db) (db_attempts db) (db_capabilities db) (db_lifecycles db) (db_commands db)
    (db_events db) (db_deliveries db) (db_notifications db) (db_sessions db) (db_pools db)
    (db_members db) x (db_enrollments db) (db_restarts db) (db_restart_agents db)
    (db_command_seq db) (db_event_seq db) (db_entry_seq db) (db_capacity_revision db)
    (db_launch db).
Definition set_enrollments (x : list EnrollmentRow) (db : Db) : Db :=
  mk_db (db_agents db) (db_attempts db) (db_capabilities db) (db_lifecycles db) (db_commands db)
    (db_events db) (db_deliveries db) (db_notifications db) (db_sessions db) (db_pools db)
    (db_members db) (db_entries db) x (db_restarts db) (db_restart_agents db)
    (db_command_seq db) (db_event_seq db) (db_entry_seq db) (db_capacity_revision db)
    (db_launch db).
Definition set_restarts (x : list RestartRow) (db : Db) : Db :=
  mk_db (db_agents db) (db_attempts db) (db_capabilities db) (db_lifecycles db) (db_commands db)
    (db_events db) (db_deliveries db) (db_notifications db) (db_sessions db) (db_pools db)
    (db_members db) (db_entries db) (db_enrollments db) x (db_restart_agents db)
    (db_command_seq db) (db_event_seq db) (db_entry_seq db) (db_capacity_revision db)
    (db_launch db).
Definition set_restart_agents (x : list RestartAgentRow) (db : Db) : Db :=
  mk_db (db_agents db) (db_attempts db) (db_capabilities db) (db_lifecycles db) (db_commands db)
    (db_events db) (db_deliveries db) (db_notifications db) (db_sessions db) (db_pools db)
    (db_members db) (db_entries db) (db_enrollments db) (db_restarts db) x (db_command_seq db)
    (db_event_seq db) (db_entry_seq db) (db_capacity_revision db) (db_launch db).
Definition set_command_seq (x : Z) (db : Db) : Db :=
  mk_db (db_agents db) (db_attempts db) (db_capabilities db) (db_lifecycles db) (db_commands db)
    (db_events db) (db_deliveries db) (db_notifications db) (db_sessions db) (db_pools db)
    (db_members db) (db_entries db) (db_enrollments db) (db_restarts db) (db_restart_agents db)
    x (db_event_seq db) (db_entry_seq db) (db_capacity_revision db) (db_launch db).
Definition set_event_seq (x : Z) (db : Db) : Db :=
  mk_db (db_agents db) (db_attempts db) (db_capabilities db) (db_lifecycles db) (db_commands db)
    (db_events db) (db_deliveries db) (db_notifications db) (db_sessions db) (db_pools db)
    (db_members db) (db_entries db) (db_enrollments db) (db_restarts db) (db_restart_agents db)
    (db_command_seq db) x (db_entry_seq db) (db_capacity_revision db) (db_launch db).
Definition set_entry_seq (x : Z) (db : Db) : Db :=
  mk_db (db_agents db) (db_attempts db) (db_capabilities db) (db_lifecycles db) (db_commands db)
    (db_events db) (db_deliveries db) (db_notifications db) (db_sessions db) (db_pools db)
    (db_members db) (db_entries db) (db_enrollments db) (db_restarts db) (db_restart_agents db)
    (db_command_seq db) (db_event_seq db) x (db_capacity_revision db) (db_launch db).
Definition set_capacity_revision (x : Z) (db : Db) : Db :=
  mk_db (db_agents db) (db_attempts db) (db_capabilities db) (db_lifecycles db) (db_commands db)
    (db_events db) (db_deliveries db) (db_notifications db) (db_sessions db) (db_pools db)
    (db_members db) (db_entries db) (db_enrollments db) (db_restarts db) (db_restart_agents db)
    (db_command_seq db) (db_event_seq db) (db_entry_seq db) x (db_launch db).
Definition set_launch (x : LaunchTables) (db : Db) : Db :=
  mk_db (db_agents db) (db_attempts db) (db_capabilities db) (db_lifecycles db) (db_commands db)
    (db_events db) (db_deliveries db) (db_notifications db) (db_sessions db) (db_pools db)
    (db_members db) (db_entries db) (db_enrollments db) (db_restarts db) (db_restart_agents db)
    (db_command_seq db) (db_event_seq db) (db_entry_seq db) (db_capacity_revision db) x.

(** ** Statements *)

(** The CHECK constraints of [pool_entries] that concern one row. *)
Definition entry_row_checks `{Serde} (e : EntryRow) : bool :=
  let member := bool_decide (en_author_kind e = AMember) in
  let stamped :=
    [is_some (en_author_agent e); is_some (en_author_name e); is_some (en_author_role e);
     is_some (en_sender_run e); is_some (en_sender_attempt e)] in
  let vote_or_revoke := match en_kind e with KVote | KRevoke => true | _ => false end in
  (1 <=? en_revision e)
  && match en_decision e with Some DRevoke => false | _ => true end
  && match en_snapshot e with Some s => len s <=? 65536 | None => true end
  && match en_checks e with
     | Some cs => match checks_json_len cs with Some n => n <=? 16384 | None => false end
     | None => true
     end
  && ((1 <=? len (en_body e)) && (len (en_body e) <=? 8192))
  && ((1 <=? char_count (en_scope e)) && (char_count (en_scope e) <=? 64))
  && ((1 <=? char_count (en_request_id e)) && (char_count (en_request_id e) <=? 128))
  && forallb (eqb member) stamped
  && (negb (bool_decide (en_author_kind e = AOperator))
      || (bool_decide (en_kind e = KMessage) && bool_decide (en_direction e = Team)))
  && (negb (bool_decide (en_author_kind e = ABroker))
      || (bool_decide (en_kind e = KRoster) && bool_decide (en_direction e = Team)))
  && (negb (bool_decide (en_kind e = KRoster)) || bool_decide (en_author_kind e = ABroker))
  && (bool_decide (en_direction e = Team) || bool_decide (en_kind e = KReport))
  && eqb (bool_decide (en_kind e = KReport)) (is_some (en_severity e))
  && (negb (is_some (en_delivery e)) || bool_decide (en_kind e = KReport))
  && eqb (bool_decide (en_kind e = KProposal)) (is_some (en_snapshot e))
  && eqb vote_or_revoke (is_some (en_proposal_seq e))
  && eqb (bool_decide (en_kind e = KVote)) (is_some (en_decision e))
  && (match en_kind e with KVote | KProposal => true | _ => false end
      || negb (is_some (en_checks e))).

(** [o IS NULL OR EXISTS(SELECT 1 FROM l WHERE f = o)]. *)
Definition references {A} (f : A → string) (l : list A) (o : option string) : bool :=
  match o with None => true | Some k => exists_where (λ x, f x = k) l end.

(** The UNIQUE and FOREIGN KEY constraints of [pool_entries]. *)
Definition entry_table_checks (db : Db) (e : EntryRow) : bool :=
  exists_where (λ p, pl_id p = en_pool e) (db_pools db)
  && match en_author_agent e with
     | None => true
     | Some a => exists_where (λ m, mb_pool m = en_pool e ∧ mb_agent m = a) (db_members db)
     end
  && match en_proposal_seq e with
     | None => true
     | Some p => exists_where (λ x, en_pool x = en_pool e ∧ en_seq x = p) (db_entries db)
     end
  && match en_delivery e with
     | None => true
     | Some d =>
         exists_where (λ x, dl_id x = d) (db_deliveries db)
         && negb (exists_where (λ x, en_delivery x = Some d) (db_entries db))
     end
  && references ag_id (db_agents db) (en_sender_run e)
  && references at_id (db_attempts db) (en_sender_attempt e)
  && negb (exists_where
             (λ x, en_pool x = en_pool e ∧ en_scope x = en_scope e
                   ∧ en_request_id x = en_request_id e) (db_entries db)).

Definition entry_with_seq (seq : Z) (e : EntryRow) : EntryRow :=
  mk_entry seq (en_pool e) (en_author_kind e) (en_author_agent e) (en_author_name e)
    (en_author_role e) (en_direction e) (en_kind e) (en_severity e) (en_proposal_seq e)
    (en_revision e) (en_decision e) (en_snapshot e) (en_checks e) (en_body e) (en_delivery e)
    (en_sender_run e) (en_sender_attempt e) (en_scope e) (en_request_id e).

(** [INSERT INTO pool_entries]: the fresh rowid, or the constraint failure. *)
Definition insert_entry `{Serde} (db : Db) (e : EntryRow) : result (Db * Z) :=
  let seq := db_entry_seq db + 1 in
  fail? negb (entry_row_checks e && entry_table_checks db e) with Sql ConstraintViolation;
  Ok (set_entry_seq seq (set_entries (db_entries db ++ [entry_with_seq seq e]) db), seq).

(** The CHECK constraints of [pool_members]. *)
Definition member_row_checks (m : MemberRow) : bool :=
  ((1 <=? mb_slot m) && (mb_slot m <=? 5))
  && ((1 <=? char_count (mb_name m)) && (char_count (mb_name m) <=? 256))
  && ((1 <=? len (mb_role m)) && (len (mb_role m) <=? 256))
  && (1 <=? mb_joined_revision m)
  && negb (bool_decide (mb_replaced_by m = Some (mb_agent m))).

(** The keys of [pool_members]: one row per agent, and among the current seats
    of a pool one per slot and one per name. *)
Definition member_table_checks (db : Db) (m : MemberRow) : bool :=
  exists_where (λ a, ag_id a = mb_agent m) (db_agents db)
  && exists_where (λ p, pl_id p = mb_pool m) (db_pools db)
  && negb (exists_where (λ x, mb_agent x = mb_agent m) (db_members db))
  && (is_some (mb_replaced_by m)
      || negb (exists_where
                 (λ x, mb_pool x = mb_pool m ∧ mb_replaced_by x = None ∧
                       (mb_slot x = mb_slot m ∨ mb_name x = mb_name m)) (db_members db))).

Definition remembered (a : AgentRow) : AgentRow :=
  mk_agent (ag_id a) (ag_root a) (ag_sequence a) (ag_created_at a) (ag_status a)
    (ag_finished_at a) (ag_session a) (ag_request a) (ag_identity_v2 a) (ag_exit_code a)
    (ag_failure_kind a) (ag_failure_text a) (ag_runtime_session a) (ag_answer a)
    (ag_display_name a) (Some true) (ag_runtime a) (ag_model a).

(** The trigger [pool_members_remember_history]. *)
Definition remember_history (agent : string) (db : Db) : Db :=
  set_agents (update_where (λ a, ag_id a = agent) remembered (db_agents db)) db.

(** [INSERT INTO pool_members]. *)
Definition insert_member (db : Db) (m : MemberRow) : result Db :=
  fail? negb (member_row_checks m && member_table_checks db m) with Sql ConstraintViolation;
  Ok (remember_history (mb_agent m) (set_members (db_members db ++ [m]) db)).

Definition insert_command (db : Db) (agent : string) (kind : CommandKind) : Db :=
  let id := db_command_seq db + 1 in
  set_command_seq id
    (set_commands (db_commands db ++ [mk_command id agent kind CPending false]) db).

(** The owned attempt an event without an explicit one is attached to. *)
Definition owned_attempt (db : Db) (agent : string) : option string :=
  option_map at_id
    (first_where (λ t, at_agent t = agent ∧ at_owned t = true) (db_attempts db)).

Definition insert_event (db : Db) (agent : string) (attempt : option string) (at_ : f64)
  (data : EventData) : Db * Z :=
  let seq := db_event_seq db + 1 in
  (set_event_seq seq (set_events (db_events db ++ [mk_event seq agent attempt at_ data]) db), seq).

(** [lib.rs] [tx_event]. *)
Definition tx_event (db : Db) (agent : string) (at_ : f64) (data : EventData) : Db * Z :=
  insert_event db agent (owned_attempt db agent) at_ data.

Definition insert_delivery (db : Db) (d : DeliveryRow) : Db :=
  set_deliveries (db_deliveries db ++ [d]) db.

(** [pool_log.rs] [entry_view]: the row as its public view. *)
Definition entry_view (e : EntryRow) : PoolEntryView :=
  mk_view (Z.max (en_seq e) 0) (en_revision e) (en_author_kind e) (en_author_agent e)
    (en_author_name e) (en_author_role e) (en_direction e) (en_kind e) (en_severity e)
    (option_map (λ p, Z.max p 0) (en_proposal_seq e)) (en_decision e) (en_body e).

(** [json_extract(data_json,'$.request_sha256')] of a replacement event. *)
Definition replaced_sha256 (d : EventData) : option string :=
  match d with EMemberReplaced _ _ sha _ _ _ => Some sha | _ => None end.

(** The record in a [pool_completed] event. *)
Definition completion_record (d : EventData) : option CompletionRecord :=
  match d with EPoolCompleted r => Some r | _ => None end.

(** An event that records neither a replacement nor a completion. *)
Definition plain_event (x : EventRow) : Prop :=
  replaced_sha256 (ev_data x) = None ∧ completion_record (ev_data x) = None.

(** The event table with its counter. *)
Definition journal (db : Db) : list EventRow * Z := (db_events db, db_event_seq db).

(** The counter is ahead of every event. *)
Definition numbered (j : list EventRow * Z) : Prop := Forall (λ x, ev_no x ≤ snd j) (fst j).

(** The event table grows by plain events. *)
Definition grows (j j' : list EventRow * Z) : Prop :=
  ∃ evs, fst j' = fst j ++ evs ∧ Forall plain_event evs ∧ (numbered j → numbered j').

#[global] Instance grows_preorder : PreOrder grows.
Proof.
  split; [intros j; exists []; by rewrite app_nil_r|]. intros j1 j2 j3 (e1 & E1 & F1 & N1) (e2 & E2 & F2 & N2).
  exists (e1 ++ e2). rewrite E2, E1, app_assoc. split; [done|]. split; [by apply Forall_app|auto].
Qed.

Lemma numbered_one db db' x :
  db_events db' = db_events db ++ [x] → db_event_seq db' = db_event_seq db + 1 →
  ev_no x = db_event_seq db + 1 → numbered (journal db) → numbered (journal db').
Proof.
  unfold numbered. simpl. intros -> -> Ex N. apply Forall_app. split.
  - eapply Forall_impl; [exact N|]. simpl. lia.
  - apply Forall_singleton. lia.
Qed.

Lemma grows_one db agent attempt at_ data :
  replaced_sha256 data = None → completion_record data = None →
  grows (journal db) (journal (fst (insert_event db agent attempt at_ data))).
Proof.
  intros. eexists [_]. split; [done|]. split; [by repeat constructor|].
  by apply (numbered_one db _ (mk_event (db_event_seq db + 1) agent attempt at_ data)).
Qed.

Lemma grows_prefix j j' : grows j j' → fst j `prefix_of` fst j'.
Proof. intros (evs & -> & _). by eexists. Qed.

(** A delivery no dispatcher has claimed yet. *)
Record unsent (d : DeliveryRow) : Prop := {
  us_attempts : dl_attempts d = 0;
  us_owner : dl_lease_owner d = None;
  us_lease : dl_lease_until d = None;
  us_state : dl_state d = WaitingBinding ∨ dl_state d = DPending ∨ dl_state d = DCancelled;
}.

(** The outbox grows by deliveries no one has claimed. *)
Definition queues (l l' : list DeliveryRow) : Prop := ∃ new, l' = l ++ new ∧ Forall unsent new.

#[global] Instance queues_preorder : PreOrder queues.
Proof.
  split; [intros l; exists []; by rewrite app_nil_r|]. intros l1 l2 l3 (n1 & -> & F1) (n2 & -> & F2).
  exists (n1 ++ n2). rewrite app_assoc. split; [done|by apply Forall_app].
Qed.

Lemma queues_one l id agent session event state next :
  state = WaitingBinding ∨ state = DPending → queues l (l ++ [mk_delivery id agent session event state next]).
Proof. intros Hs. eexists. split; [done|]. apply Forall_singleton. split; try done. destruct Hs; auto. Qed.

(** ** Invariants of the schema *)

(** Primary keys are unique; counters are at least every key handed out. *)
Record keys_ok (db : Db) : Prop := {
  keys_agents : NoDup (map ag_id (db_agents db));
  keys_attempts : NoDup (map at_id (db_attempts db));
  keys_capabilities : NoDup (map wc_attempt (db_capabilities db));
  keys_lifecycles : NoDup (map wl_attempt (db_lifecycles db));
  keys_pools : NoDup (map pl_id (db_pools db));
  keys_requests : NoDup (map (λ p, (pl_namespace p, pl_request_id p)) (db_pools db));
  keys_members : NoDup (map mb_agent (db_members db));
  keys_enrollments : NoDup (map er_agent (db_enrollments db));
  keys_entries : StronglySorted Z.lt (map en_seq (db_entries db));
  keys_entry_counter : ∀ e, e ∈ db_entries db → 0 < en_seq e ≤ db_entry_seq db;
}.

(** ** Lemmas *)

Lemma insert_entry_Ok `{Serde} db e db' seq :
  insert_entry db e = Ok (db', seq) →
  seq = db_entry_seq db + 1 ∧ entry_row_checks e = true ∧ entry_table_checks db e = true ∧
  db' = set_entry_seq seq (set_entries (db_entries db ++ [entry_with_seq seq e]) db).
Proof.
  unfold insert_entry. intros H0. run H0. to_prop. done.
Qed.

(** A condition on a keyed row selects that row alone. *)
Lemma count_where_key {A} (f : A → string) (P : A → Prop) `{∀ y, Decision (P y)} (l : list A) x :
  NoDup (map f l) → x ∈ l → P x → count_where (λ y, f y = f x ∧ P y) l = 1.
Proof.
  intros Hn Hx HP. apply list_elem_of_split in Hx as (l1 & l2 & ->).
  rewrite map_app in Hn. simpl in Hn. apply NoDup_app in Hn as (_ & Hd & [Hx2 _]%NoDup_cons).
  rewrite count_where_app. unfold count_where at 2. rewrite filter_cons, decide_True by done.
  assert (∀ l, (∀ y, y ∈ l → f y ≠ f x) → filter (λ y, f y = f x ∧ P y) l = []) as Hf.
  { intros l Hl. apply filter_none. intros y Hy [? _]. by apply (Hl y). }
  unfold count_where. rewrite !Hf; [done| |].
  - intros y Hy E. apply Hx2. rewrite <-E. by apply list_elem_of_fmap_2.
  - intros y Hy E. apply (Hd (f x)); [|left]. rewrite <-E. by apply list_elem_of_fmap_2.
Qed.
