(* ===== verification/Demo.v ===== *)
(** * A small concrete state

    Two running members of one open pool, and concrete instances of the
    external functions, for evaluating the definitions on real inputs. *)

From S2P Require Import Prelude Text Float64 Json Canonical Lifecycle Requests.
From S2P Require Import PoolDomain Tables.

(** A stand-in digest: the first 32 bytes, zero-padded. *)
#[export] Instance demo_sha256 : Sha256 :=
  {| digest := λ bs, take 32 (bs ++ repeat 0 32) |}.
#[export] Instance demo_serde : Serde :=
  {| checks_json_len := λ cs,
       Some (2 + sum_by (λ c, 60 + len (ck_criterion_id c) + len (ck_evidence c)) cs);
     acceptance_json_len := λ cs, 2 + sum_by (λ c, 20 + len (ac_id c) + len (ac_text c)) cs |}.
#[export] Instance demo_unicode : Unicode := {| to_lowercase := λ s, s |}.

Definition demo_request : StartRequest :=
  mk_start "prov" "model" "review" "do it" "/w" false false true PObserve None None [] None None
    None None [].

Definition demo_agent (id : string) (status : Status) : AgentRow :=
  mk_agent id id 1 (of_Z 100) status
    (if Status.terminal status then Some (of_Z 200) else None) None demo_request true
    None None None None None None (Some false) "codex" "model".

Definition demo_attempt (id agent : string) (status : Status) : AttemptRow :=
  let ended := Status.terminal status in
  mk_attempt id agent 1 (Status.as_str status) (if ended then Some (of_Z 200) else None) (negb ended)
    (Some (if ended then "cleanup_complete" else "spawned")%string)
    (if ended then Some (Obj [("confirmed", Bool true)]%string) else None) true None.

(** 64 lowercase hex digits. *)
Definition demo_token (n : Z) : string :=
  digits_str (repeat n 64).

Definition demo_capability (attempt : string) (n : Z) : CapabilityRow :=
  mk_capability attempt (sha256 (bytes (demo_token n))) None None.

Definition demo_lifecycle (attempt : string) : LifecycleRow :=
  mk_lifecycle attempt PRunning 1 (of_Z 100) (of_Z 0) None false.

Definition demo_pool (state : PoolState) : PoolRow :=
  mk_pool "pool-1" None "ship it" [mk_criterion "goal" "The stated goal is met."] state 1 None
    "global" "req-1" (demo_token 0).

Definition demo_member (agent : string) (slot : Z) (name role : string) : MemberRow :=
  mk_member agent "pool-1" slot name role "task" 1 None.

Definition demo_with (status : Status) (entries : list EntryRow) (seq : Z) : Db :=
  mk_db [demo_agent "ag-a" status; demo_agent "ag-b" status]
    [demo_attempt "t-a" "ag-a" status; demo_attempt "t-b" "ag-b" status]
    [demo_capability "t-a" 1; demo_capability "t-b" 2]
    [demo_lifecycle "t-a"; demo_lifecycle "t-b"]
    [] [] [] [] [] [demo_pool Open]
    [demo_member "ag-a" 1 "Ada" "lead"; demo_member "ag-b" 2 "Bob" "dev"]
    entries [] [] [] 0 0 seq 0 no_launches.

(** Both members run and the log is empty. *)
Definition demo_db : Db := demo_with Running [] 0.

(** Ada's proposal and the two ready votes on it. *)
Definition demo_check : CriterionCheck := mk_check "goal" Met "tests pass".

Definition demo_proposal : EntryRow :=
  mk_entry 1 "pool-1" AMember (Some "ag-a"%string) (Some "Ada"%string) (Some "lead"%string) Team
    KProposal None None 1 None (Some "the result"%string) None "please vote" None
    (Some "ag-a"%string) (Some "t-a"%string) "ag-a" "p1".

Definition demo_ready (seq : Z) (agent attempt name role : string) : EntryRow :=
  mk_entry seq "pool-1" AMember (Some agent) (Some name) (Some role) Team KVote None (Some 1) 1
    (Some Ready) None (Some [demo_check]) "(no note)" None (Some agent) (Some attempt) agent "v1".

Definition demo_agreed_log : list EntryRow :=
  [demo_proposal; demo_ready 2 "ag-a" "t-a" "Ada" "lead"; demo_ready 3 "ag-b" "t-b" "Bob" "dev"].

(** Both members voted ready and then succeeded with cleanup. *)
Definition demo_agreed : Db := demo_with Succeeded demo_agreed_log 3.
