(* ===== verification/Roster.v ===== *)
(** * Lineages, seats and votes

    The read helpers of [pool_log.rs] that decide who holds a seat, which
    execution speaks for it, and whether its vote counts; and the fan-out of a
    new entry to the peers' running executions. *)

From S2P Require Import Prelude Text Float64 Lifecycle Requests PoolDomain Tables.
From S2P Require Import Demo.

(** ** Lineage *)

(** The rows of a lineage: [root_agent_id=?1 OR id=?1]. *)
Definition in_lineage (root : string) (a : AgentRow) : Prop := ag_root a = root ∨ ag_id a = root.
#[global] Instance in_lineage_dec root a : Decision (in_lineage root a).
Proof. unfold in_lineage. apply _. Defined.

(** [ORDER BY sequence DESC,created_at DESC,id DESC]: [x] comes after [y]. *)
Definition agent_le (x y : AgentRow) : bool :=
  if ag_sequence x =? ag_sequence y then
    if feq (ag_created_at x) (ag_created_at y) then String.leb (ag_id x) (ag_id y)
    else fle (ag_created_at x) (ag_created_at y)
  else ag_sequence x <? ag_sequence y.

(** [tip_of]: the latest execution of the lineage. *)
Definition tip_row (db : Db) (root : string) : result AgentRow :=
  row (best_by agent_le (filter (in_lineage root) (db_agents db))).

Definition tip_of (db : Db) (root : string) : result string :=
  let? a := tip_row db root in Ok (ag_id a).

(** [SELECT status FROM agents WHERE id=?]. *)
Definition agent_status (db : Db) (id : string) : result Status :=
  let? a := row (first_where (λ a, ag_id a = id) (db_agents db)) in Ok (ag_status a).

(** An attempt without verified cleanup. *)
Definition uncleaned (t : AttemptRow) : Prop :=
  at_cleanup_proof t = None ∨
  is_some_and (λ phase, negb (bool_decide (phase = "cleanup_complete"%string))) (at_phase t) = true.
#[global] Instance uncleaned_dec t : Decision (uncleaned t).
Proof. unfold uncleaned. apply _. Defined.

(** [lineage_cleanup_complete]. *)
Definition lineage_cleanup_complete (db : Db) (root : string) : bool :=
  count_where
    (λ t, at_agent t ∈ map ag_id (filter (in_lineage root) (db_agents db)) ∧ uncleaned t)
    (db_attempts db) =? 0.

(** ** Seats *)

Record Membership := mk_membership {
  ms_seat : string;
  ms_pool : string;
  ms_name : string;
  ms_mrole : string;
  ms_revision : Z;
  ms_state : PoolState;
  ms_acceptance : list (string * string);
}.

(** [criteria_of], on the decoded column. *)
Definition criteria_of (acceptance : list AcceptanceCriterion) : list (string * string) :=
  map (λ c, (ac_id c, ac_text c)) acceptance.

(** [membership]: the current seat of a lineage root, joined with its pool. *)
Definition membership (db : Db) (root : string) : option Membership :=
  match first_where (λ m, mb_agent m = root ∧ mb_replaced_by m = None) (db_members db) with
  | None => None
  | Some m =>
      match first_where (λ p, pl_id p = mb_pool m) (db_pools db) with
      | None => None
      | Some p =>
          Some (mk_membership (mb_agent m) (pl_id p) (mb_name m) (mb_role m) (pl_revision p)
                  (pl_state p) (criteria_of (pl_acceptance p)))
      end
  end.

Definition current_seat (pool : string) (m : MemberRow) : Prop :=
  mb_pool m = pool ∧ mb_replaced_by m = None.
#[global] Instance current_seat_dec pool m : Decision (current_seat pool m).
Proof. unfold current_seat. apply _. Defined.

Definition slot_le (x y : MemberRow) : Prop := mb_slot x ≤ mb_slot y.
#[global] Instance slot_le_dec : RelDecision slot_le.
Proof. intros x y. unfold slot_le. apply _. Defined.

(** [... WHERE pool_id=? AND replaced_by IS NULL ORDER BY slot]. *)
Definition current_seats (db : Db) (pool : string) : list MemberRow :=
  merge_sort slot_le (filter (current_seat pool) (db_members db)).

(** ** Proposals and votes *)

Definition seq_le (x y : EntryRow) : bool := en_seq x <=? en_seq y.

Definition is_proposal (pool : string) (e : EntryRow) : Prop :=
  en_pool e = pool ∧ en_kind e = KProposal.
#[global] Instance is_proposal_dec pool e : Decision (is_proposal pool e).
Proof. unfold is_proposal. apply _. Defined.

(** [current_proposal]: the row of the latest proposal; its callers read the
    sequence, the snapshot and the roster revision. *)
Definition current_proposal (db : Db) (pool : string) : option EntryRow :=
  best_by seq_le (filter (is_proposal pool) (db_entries db)).

(** A vote-shaped entry of [member] on [proposal]. *)
Definition is_vote_on (pool member : string) (proposal : Z) (e : EntryRow) : Prop :=
  en_pool e = pool ∧ en_author_agent e = Some member ∧ en_proposal_seq e = Some proposal ∧
  (en_kind e = KVote ∨ en_kind e = KRevoke).
#[global] Instance is_vote_on_dec pool member proposal e : Decision (is_vote_on pool member proposal e).
Proof. unfold is_vote_on. apply _. Defined.

(** [latest_vote]; its callers read kind, decision, checks and sender. *)
Definition latest_vote (db : Db) (pool member : string) (proposal : Z) : option EntryRow :=
  best_by seq_le (filter (is_vote_on pool member proposal) (db_entries db)).

(** The reason word of [vote_validity]. *)
Inductive Why :=
  | Missing | Revoked | VBlocked | WStaleRoster | StaleTip | TipStatus (s : Status)
  | ChecksUnmet | Valid | NoProposal | JoinPending.
#[global] Instance why_eq_dec : EqDecision Why.
Proof. solve_decision. Defined.

Definition all_met (checks : option (list CriterionCheck)) : bool :=
  match checks with
  | Some items => forallb (λ c, bool_decide (ck_status c = Met)) items
  | None => false
  end.

(** [vote_validity]: the shown vote and why it counts or not. *)
Definition vote_validity (latest : option EntryRow) (roster_revision proposal_roster : Z)
  (tip : string) (tip_status : Status) : option VoteDecision * Why :=
  match latest with
  | None => (None, Missing)
  | Some v =>
      if bool_decide (en_kind v = KRevoke) then (Some DRevoke, Revoked)
      else if bool_decide (en_decision v = Some Block) then (Some Block, VBlocked)
      else if negb (proposal_roster =? roster_revision) then (en_decision v, WStaleRoster)
      else if negb (bool_decide (en_sender_run v = Some tip)) then (en_decision v, StaleTip)
      else if negb (bool_decide (tip_status = Running) || bool_decide (tip_status = Succeeded))
      then (en_decision v, TipStatus tip_status)
      else if negb (all_met (en_checks v)) then (en_decision v, ChecksUnmet)
      else (en_decision v, Valid)
  end.

(** ** Fan-out *)

(** One recipient of [fanout_entry]. *)
Definition fanout_seat (seq : Z) (db : Db) (seat : string) : result Db :=
  let? tip := tip_of db seat in
  let? status := agent_status db tip in
  Ok (if Status.terminal status then db else insert_command db tip (PoolPush seq)).

(** [fanout_entry]: every current seat of the pool except the sender's. *)
Definition fanout_entry (db : Db) (pool sender_seat : string) (seq : Z) : result Db :=
  let seats :=
    map mb_agent
      (filter (λ m, current_seat pool m ∧ mb_agent m ≠ sender_seat) (db_members db)) in
  try_fold (fanout_seat seq) db seats.

(** ** Lemmas *)

Lemma agent_status_Ok db id s :
  agent_status db id = Ok s → ∃ a, a ∈ db_agents db ∧ ag_id a = id ∧ ag_status a = s.
Proof.
  unfold agent_status. destruct (first_where _ _) as [a|] eqn:E; simpl; [|done].
  apply first_where_Some in E as [? ?]. intros [= <-]. eauto.
Qed.

Lemma tip_row_Ok db root a :
  tip_row db root = Ok a → a ∈ db_agents db ∧ in_lineage root a.
Proof.
  unfold tip_row. destruct (best_by _ _) as [b|] eqn:E; simpl; [|done].
  intros [= <-]. apply best_by_elem in E. by apply list_elem_of_filter in E as [? ?].
Qed.

Lemma membership_Some db root m :
  membership db root = Some m →
  ∃ r p, r ∈ db_members db ∧ p ∈ db_pools db ∧ mb_replaced_by r = None ∧ mb_agent r = root ∧
    mb_pool r = pl_id p ∧
    m = mk_membership root (pl_id p) (mb_name r) (mb_role r) (pl_revision p) (pl_state p)
          (criteria_of (pl_acceptance p)).
Proof.
  unfold membership. destruct (first_where _ _) as [r|] eqn:Er; [|done].
  destruct (first_where _ _) as [p|] eqn:Ep in |- *; [|done]. intros [= <-].
  apply first_where_Some in Er as [[<- ?] ?], Ep as [? ?]. exists r, p. auto 10.
Qed.

Lemma current_proposal_Some db pool e :
  current_proposal db pool = Some e → e ∈ db_entries db ∧ is_proposal pool e.
Proof. intros E%best_by_elem. by apply list_elem_of_filter in E as [? ?]. Qed.

Lemma latest_vote_Some db pool member p e :
  latest_vote db pool member p = Some e → e ∈ db_entries db ∧ is_vote_on pool member p e.
Proof. intros E%best_by_elem. by apply list_elem_of_filter in E as [? ?]. Qed.

Lemma seq_le_total x y : seq_le x y = true ∨ seq_le y x = true.
Proof. unfold seq_le. rewrite !Z.leb_le. lia. Qed.

Lemma seq_le_trans x y z : seq_le x y = true → seq_le y z = true → seq_le x z = true.
Proof. unfold seq_le. rewrite !Z.leb_le. lia. Qed.

(** The current proposal is the greatest. *)
Lemma current_proposal_max db pool e e' :
  current_proposal db pool = Some e → e' ∈ db_entries db → is_proposal pool e' →
  en_seq e' ≤ en_seq e.
Proof.
  intros E Hin Hp. apply Z.leb_le.
  apply (best_by_max seq_le _ _ seq_le_total seq_le_trans E). by apply list_elem_of_filter.
Qed.

Lemma current_seats_elem db pool m :
  m ∈ current_seats db pool ↔ m ∈ db_members db ∧ current_seat pool m.
Proof.
  unfold current_seats. rewrite merge_sort_Permutation, list_elem_of_filter. tauto.
Qed.

(** A vote counts exactly under the conditions of its reason word. *)
Lemma vote_validity_valid latest rev prev tip st d :
  vote_validity latest rev prev tip st = (d, Valid) →
  ∃ v, latest = Some v ∧ en_kind v ≠ KRevoke ∧ en_decision v ≠ Some Block ∧ prev = rev ∧
    en_sender_run v = Some tip ∧ (st = Running ∨ st = Succeeded) ∧ all_met (en_checks v) = true.
Proof.
  unfold vote_validity. intros H. destruct latest as [v|]; [|done]. run H; to_prop; try done.
  all: exists v; repeat split; try done; try congruence.
  all: match goal with E : _ || _ = true |- _ => apply orb_true_iff in E as [?|?] end; to_prop; auto.
Qed.

(** ** What the fan-out writes *)

Definition push_all (db : Db) (tips : list string) (seq : Z) : Db :=
  foldl (λ db tip, insert_command db tip (PoolPush seq)) db tips.

(** The recipients' executions: the tips of the seats, the ended ones left out. *)
Fixpoint live_tips (db : Db) (seats : list string) : result (list string) :=
  match seats with
  | [] => Ok []
  | seat :: seats =>
      let? tip := tip_of db seat in
      let? status := agent_status db tip in
      let? tips := live_tips db seats in
      Ok (if Status.terminal status then tips else tip :: tips)
  end.

Lemma push_all_frame db tips seq :
  push_all db tips seq =
  set_command_seq (db_command_seq db + Z.of_nat (length tips))
    (set_commands (db_commands db ++
       imap (λ i tip, mk_command (db_command_seq db + 1 + Z.of_nat i) tip (PoolPush seq) CPending false)
         tips) db).
Proof.
  unfold push_all. revert db. induction tips as [|tip tips IH]; intros db.
  - destruct db. unfold set_command_seq, set_commands. simpl. f_equal; [by rewrite app_nil_r | lia].
  - cbn [foldl]. rewrite IH. unfold insert_command, set_command_seq, set_commands. simpl.
    f_equal; [|lia]. rewrite <-app_assoc. simpl. f_equal. f_equal; [f_equal; lia|].
    apply imap_ext. intros i x _. simpl. f_equal. lia.
Qed.

Lemma live_tips_agents d d' seats :
  db_agents d = db_agents d' → live_tips d seats = live_tips d' seats.
Proof.
  intros E. induction seats as [|s seats IH]; simpl; [done|].
  unfold tip_of, tip_row, agent_status. by rewrite E, IH.
Qed.

Lemma fanout_try_fold db seats seq :
  try_fold (fanout_seat seq) db seats =
  (let? tips := live_tips db seats in Ok (push_all db tips seq)).
Proof.
  revert db. induction seats as [|seat seats IH]; intros db; simpl; [done|].
  unfold fanout_seat at 1. destruct (tip_of db seat) as [tip|]; [|done].
  destruct (agent_status db tip) as [st|]; [|done]. destruct (Status.terminal st).
  - rewrite IH. by destruct (live_tips db seats).
  - rewrite IH, (live_tips_agents (insert_command db tip (PoolPush seq)) db) by done.
    by destruct (live_tips db seats).
Qed.

Definition recipients (db : Db) (pool sender_seat : string) : list string :=
  map mb_agent (filter (λ m, current_seat pool m ∧ mb_agent m ≠ sender_seat) (db_members db)).

Lemma fanout_entry_eq db pool sender seq :
  fanout_entry db pool sender seq =
  (let? tips := live_tips db (recipients db pool sender) in Ok (push_all db tips seq)).
Proof. apply fanout_try_fold. Qed.

(** Everything but the command queue is untouched. *)
Lemma fanout_entry_frame db pool sender seq db' :
  fanout_entry db pool sender seq = Ok db' →
  ∃ c l, db' = set_command_seq c (set_commands l db).
Proof.
  rewrite fanout_entry_eq. destruct (live_tips _ _) as [tips|]; [|done].
  intros [= <-]. rewrite push_all_frame. eauto.
Qed.

(** A lineage with a row has a tip with a status. *)
Lemma tip_total db root a :
  NoDup (map ag_id (db_agents db)) → a ∈ db_agents db → in_lineage root a →
  ∃ t, tip_row db root = Ok t ∧ tip_of db root = Ok (ag_id t) ∧
       agent_status db (ag_id t) = Ok (ag_status t).
Proof.
  intros Hn Ha Hl. unfold tip_of, tip_row.
  destruct (best_by agent_le (filter (in_lineage root) (db_agents db))) as [t|] eqn:E.
  - exists t. simpl. repeat split; try done. unfold agent_status.
    apply best_by_elem in E. apply list_elem_of_filter in E as [_ E].
    by rewrite (first_where_key ag_id).
  - apply best_by_None in E. exfalso.
    assert (a ∈ filter (in_lineage root) (db_agents db)) as Hin by by apply list_elem_of_filter.
    rewrite E in Hin. by apply elem_of_nil in Hin.
Qed.

Lemma live_tips_total db seats :
  NoDup (map ag_id (db_agents db)) →
  (∀ s, s ∈ seats → ∃ a, a ∈ db_agents db ∧ in_lineage s a) →
  ∃ tips, live_tips db seats = Ok tips.
Proof.
  intros Hn. induction seats as [|s seats IH]; intros Hs; simpl; [eauto|].
  destruct (Hs s) as (a & Ha & Hl); [left|].
  destruct (tip_total db s a Hn Ha Hl) as (t & _ & -> & ->).
  destruct IH as [tips ->]; [intros; apply Hs; by right|]. eauto.
Qed.

(** The execution a push for [seat] goes to: its tip, unless it has ended. *)
Definition live_tip (db : Db) (seat : string) : option string :=
  match tip_row db seat with
  | Ok t => if Status.terminal (ag_status t) then None else Some (ag_id t)
  | Err _ => None
  end.

Lemma live_tips_omap db seats tips :
  NoDup (map ag_id (db_agents db)) → live_tips db seats = Ok tips →
  tips = omap (live_tip db) seats.
Proof.
  intros Hn. revert tips. induction seats as [|s seats IH]; intros tips H; simpl in H.
  { by injection H as <-. }
  change (omap (live_tip db) (s :: seats)) with
    (match live_tip db s with
     | Some tip => tip :: omap (live_tip db) seats
     | None => omap (live_tip db) seats
     end).
  unfold tip_of in H. unfold live_tip at 1.
  destruct (tip_row db s) as [t|] eqn:Et; [|done].
  apply tip_row_Ok in Et as [Ht _].
  unfold agent_status in H. rewrite (first_where_key ag_id) in H by done. simpl in H.
  destruct (live_tips db seats) as [tips'|]; [|done]. rewrite <-(IH tips') by done.
  destruct (Status.terminal (ag_status t)); by injection H as <-.
Qed.

(** Fan-out enqueues one pending push, holding only the sequence number,
    for the latest execution of every current seat of the pool except the
    sender's, skips the executions that have ended, and changes nothing else. *)
Theorem fanout_exact db pool sender seq db' :
  NoDup (map ag_id (db_agents db)) → fanout_entry db pool sender seq = Ok db' →
  ∃ pushes,
    db' = set_command_seq (db_command_seq db + Z.of_nat (length pushes))
            (set_commands (db_commands db ++ pushes) db) ∧
    map cm_agent pushes =
      omap (live_tip db)
        (map mb_agent (filter (λ m, current_seat pool m ∧ mb_agent m ≠ sender) (db_members db))) ∧
    Forall (λ c, cm_kind c = PoolPush seq ∧ cm_state c = CPending) pushes.
Proof.
  intros Hn. rewrite fanout_entry_eq. destruct (live_tips _ _) as [tips|] eqn:E; [|done].
  intros [= <-]. rewrite push_all_frame.
  exists (imap (λ i tip, mk_command (db_command_seq db + 1 + Z.of_nat i) tip (PoolPush seq)
                           CPending false) tips).
  split; [by rewrite length_imap|].
  apply live_tips_omap in E; [|done]. split.
  - unfold recipients in E. rewrite <-E. clear. apply list_eq. intros i.
    rewrite list_lookup_fmap, list_lookup_imap. by destruct (tips !! i).
  - apply Forall_lookup. intros i c Hc. rewrite list_lookup_imap in Hc.
    destruct (tips !! i); simplify_eq/=. done.
Qed.

Lemma fanout_exact_witness :
  ∃ db', fanout_entry demo_db "pool-1" "ag-a" 7 = Ok db' ∧
    ∃ pushes, db_commands db' = db_commands demo_db ++ pushes ∧
      map cm_agent pushes = ["ag-b"%string].
Proof.
  eexists. split; [vm_compute; reflexivity|].
  destruct (fanout_exact demo_db "pool-1" "ag-a" 7 _ ltac:(apply (bool_decide_unpack _); exact I)
              ltac:(vm_compute; reflexivity)) as (pushes & E & Ha & _).
  exists pushes. split; [|exact Ha]. exact (f_equal db_commands E).
Defined.
