(* ===== verification/World.v ===== *)
(** * Well-formed states

    The invariant the transactions rely on and keep: keys are unique, every
    seat belongs to an admitted execution of an existing pool under normalized
    labels, and every log entry is legal.  [entry_insertable] is the bridge to
    the schema: an entry with these properties passes every constraint of
    [pool_entries]. *)

From S2P Require Import Prelude Text Float64 Canonical Lifecycle Requests PoolDomain.
From S2P Require Import Tables Demo Roster.

(** An identity as [AgentId] admits it: a short key with its prefix. *)
Definition identity_ok (id : string) : Prop :=
  request_key id = Ok () ∧ len id ≤ 57 ∧ starts_with "ag-" id = true.
#[global] Instance identity_ok_dec id : Decision (identity_ok id).
Proof. unfold identity_ok. apply _. Defined.

(** A label as admission stores it. *)
Definition label_ok (label : string) : Prop := utf8 label ∧ display_name label = Ok label.

(** A seat: its pool and its execution exist, its labels are normalized. *)
Record seat_ok (db : Db) (m : MemberRow) : Prop := {
  seat_pool : ∃ p, p ∈ db_pools db ∧ pl_id p = mb_pool m;
  seat_agent : ∃ a, a ∈ db_agents db ∧ ag_id a = mb_agent m;
  seat_name : label_ok (mb_name m);
  seat_role : label_ok (mb_role m);
  seat_slot : 1 ≤ mb_slot m ≤ 5;
}.

(** Two current seats of a pool differ in slot and in name. *)
Definition distinct_seats (members : list MemberRow) : Prop :=
  ∀ x y, x ∈ members → y ∈ members → mb_pool x = mb_pool y → mb_replaced_by x = None →
    mb_replaced_by y = None → mb_slot x = mb_slot y ∨ mb_name x = mb_name y → x = y.

(** A vote or a revoke points back to a proposal of its own pool. *)
Definition points_back (db : Db) (e : EntryRow) : Prop :=
  ∀ q, en_proposal_seq e = Some q →
    ∃ x, x ∈ db_entries db ∧ is_proposal (en_pool e) x ∧ en_seq x = q ∧ q < en_seq e.

Record wf `{Serde} (db : Db) : Prop := {
  wf_keys : keys_ok db;
  wf_counter : 0 ≤ db_entry_seq db;
  wf_agents : ∀ a, a ∈ db_agents db → identity_ok (ag_id a);
  wf_pools : ∀ p, p ∈ db_pools db → 1 ≤ pl_revision p < 2 ^ 32;
  wf_members : ∀ m, m ∈ db_members db → seat_ok db m;
  wf_homes : ∀ e, e ∈ db_entries db → ∃ p, p ∈ db_pools db ∧ pl_id p = en_pool e;
  wf_rows : ∀ e, e ∈ db_entries db → entry_row_checks e = true;
  wf_views : ∀ e, e ∈ db_entries db → legal_view (entry_view e);
  wf_votes : ∀ e, e ∈ db_entries db → points_back db e;
  wf_revisions : ∀ e p, e ∈ db_entries db → p ∈ db_pools db → pl_id p = en_pool e →
                   en_revision e ≤ pl_revision p;
  wf_joined : ∀ m p, m ∈ db_members db → p ∈ db_pools db → pl_id p = mb_pool m →
                1 ≤ mb_joined_revision m ≤ pl_revision p;
  wf_distinct : distinct_seats (db_members db);
}.

(** ** Inserting an entry *)

(** What a caller establishes before it inserts. *)
Record insertable `{Serde} (db : Db) (e : EntryRow) : Prop := {
  ins_pool : ∃ p, p ∈ db_pools db ∧ pl_id p = en_pool e;
  ins_revision : 1 ≤ en_revision e;
  ins_roster : ∀ p, p ∈ db_pools db → pl_id p = en_pool e → en_revision e ≤ pl_revision p;
  ins_stamp : author_stamp (en_author_kind e) (en_author_agent e) (en_author_name e)
                (en_author_role e);
  ins_author : ∀ a, en_author_agent e = Some a →
                 ∃ m, m ∈ db_members db ∧ mb_pool m = en_pool e ∧ mb_agent m = a;
  ins_sender : match en_author_kind e with
               | AMember =>
                   ∃ run attempt, en_sender_run e = Some run ∧ en_sender_attempt e = Some attempt ∧
                     (∃ a, a ∈ db_agents db ∧ ag_id a = run) ∧
                     (∃ t, t ∈ db_attempts db ∧ at_id t = attempt)
               | _ => en_sender_run e = None ∧ en_sender_attempt e = None
               end;
  ins_shape : entry_shape (en_author_kind e) (en_direction e) (en_kind e) (en_severity e)
                (en_proposal_seq e) (en_decision e);
  ins_body : bounded_text "body" (en_body e) MAX_BODY_BYTES = Ok ();
  ins_snapshot : match en_snapshot e with
                 | Some s => en_kind e = KProposal ∧ len s ≤ 65536
                 | None => en_kind e ≠ KProposal
                 end;
  ins_checks : ∀ cs, en_checks e = Some cs →
                 en_kind e = KVote ∧ ∃ n, checks_json_len cs = Some n ∧ n ≤ 16384;
  ins_delivery : ∀ d, en_delivery e = Some d →
                   en_kind e = KReport ∧ (∃ x, x ∈ db_deliveries db ∧ dl_id x = d) ∧
                   (∀ x, x ∈ db_entries db → en_delivery x ≠ Some d);
  ins_scope : utf8 (en_scope e) ∧ 1 ≤ len (en_scope e) ≤ 64;
  ins_request : request_key (en_request_id e) = Ok ();
  ins_fresh : ∀ x, x ∈ db_entries db →
                ¬ (en_pool x = en_pool e ∧ en_scope x = en_scope e ∧
                   en_request_id x = en_request_id e);
  ins_vote : ∀ q, en_proposal_seq e = Some q →
               ∃ x, x ∈ db_entries db ∧ is_proposal (en_pool e) x ∧ en_seq x = q;
}.

Lemma bounded_char_count s n : utf8 s → 1 ≤ len s ≤ n → 1 ≤ char_count s ≤ n.
Proof. intros Hu ?. pose proof (len_chars s Hu). lia. Qed.

Lemma is_ascii_bytes s : (∀ b, b ∈ bytes s → b < 128) → is_ascii s = true.
Proof.
  intros Hb. unfold is_ascii. apply forallb_forall. intros b Hin%list_elem_of_In.
  apply Z.ltb_lt. by apply Hb.
Qed.

(** ** Text without control characters *)

Definition clean (s : string) : Prop := utf8 s ∧ existsb is_bad_control (chars s) = false.

Lemma clean_app s1 s2 : clean s1 → clean s2 → clean (s1 +:+ s2).
Proof.
  intros [H1 C1] [H2 C2]. split; [by apply utf8_app|].
  by rewrite chars_app, existsb_app, C1, C2 by done.
Qed.

Lemma clean_ascii s :
  is_ascii s = true → forallb (λ b, negb (is_bad_control b)) (bytes s) = true → clean s.
Proof.
  intros Ha Hb. split; [by apply ascii_utf8|]. rewrite ascii_chars by done.
  apply not_true_iff_false. intros (b & Hin & Hc)%existsb_exists. rewrite forallb_forall in Hb.
  specialize (Hb b Hin). by rewrite Hc in Hb.
Qed.

Lemma key_bytes key b : request_key key = Ok () → b ∈ bytes key → 45 ≤ b ≤ 122.
Proof.
  rewrite request_key_Ok, forallb_forall. intros [_ Hb] Hin.
  specialize (Hb b ltac:(by apply list_elem_of_In)).
  unfold is_key_byte, is_ascii_alphanumeric, is_ascii_digit, is_ascii_lowercase,
    is_ascii_uppercase in Hb.
  repeat (apply orb_true_iff in Hb as [Hb|Hb]); to_prop; lia.
Qed.

Lemma key_ascii key : request_key key = Ok () → is_ascii key = true.
Proof. intros Hk. apply is_ascii_bytes. intros b Hb. apply (key_bytes key) in Hb; [lia|done]. Qed.

Lemma key_utf8 key : request_key key = Ok () → utf8 key.
Proof. intros. by apply ascii_utf8, key_ascii. Qed.

Lemma key_clean key : request_key key = Ok () → clean key.
Proof.
  intros Hk. apply clean_ascii; [by apply key_ascii|]. apply forallb_forall.
  intros b Hb%list_elem_of_In. apply (key_bytes key) in Hb; [|done].
  unfold is_bad_control, is_control.
  by rewrite (proj2 (Z.ltb_ge b 32)), (proj2 (Z.leb_gt 127 b)) by lia.
Qed.

Lemma label_clean label : label_ok label → clean label.
Proof.
  intros [Hu (_ & _ & _ & _ & Hc)%display_name_Ok]. split; [done|].
  apply not_true_iff_false. intros (c & Hin & Hb)%existsb_exists.
  unfold is_bad_control in Hb. apply andb_true_iff in Hb as [[Hb _]%andb_true_iff _].
  apply not_true_iff_false in Hc. apply Hc. apply existsb_exists. exists c. split; [done|].
  unfold is_unsafe_label_char. by rewrite Hb.
Qed.

Lemma dec_clean n : clean (dec n).
Proof.
  apply clean_ascii; [apply is_ascii_bytes|apply forallb_forall].
  - intros b Hb%dec_bytes. lia.
  - intros b Hb%list_elem_of_In%dec_bytes. unfold is_bad_control, is_control.
    by rewrite (proj2 (Z.ltb_ge b 32)), (proj2 (Z.leb_gt 127 b)) by lia.
Qed.

(** A key is a legal external identity. *)
Lemma key_external label key : request_key key = Ok () → external_id label key = Ok ().
Proof.
  intros Hk. pose proof (proj1 (request_key_Ok key) Hk) as [Hl _].
  unfold external_id, nonblank.
  assert (blank key = false) as ->.
  { destruct (bytes key) as [|b bs] eqn:Eb.
    - pose proof (length_bytes key) as E. rewrite Eb in E. unfold len in Hl. simpl in E. lia.
    - apply (visible_not_blank key b).
      + rewrite ascii_chars, Eb by (by apply key_ascii). left.
      + assert (45 ≤ b ≤ 122) by (apply (key_bytes key); [done|rewrite Eb; left]).
        unfold is_whitespace. repeat (apply orb_false_iff; split);
          (apply Z.eqb_neq; lia) || (apply andb_false_iff; (left; apply Z.leb_gt; lia) || (right; apply Z.leb_gt; lia)). }
  assert (has_nul key = false) as ->.
  { apply bool_decide_eq_false. intros H0. apply (key_bytes key) in H0; [lia|done]. }
  pose proof (bounded_char_count key 128 (key_utf8 key Hk) ltac:(lia)).
  by rewrite (proj2 (Z.ltb_ge 512 _)) by lia.
Qed.

Lemma label_is_ok label : label_ok label → is_ok (display_name label) = true.
Proof. by intros [_ ->]. Qed.

Section insertion.
Context `{Serde}.

(** The bounds of the text columns. *)
Lemma insertable_bounds db e :
  insertable db e →
  ((1 <=? en_revision e) && ((1 <=? len (en_body e)) && (len (en_body e) <=? 8192))
   && ((1 <=? char_count (en_scope e)) && (char_count (en_scope e) <=? 64))
   && ((1 <=? char_count (en_request_id e)) && (char_count (en_request_id e) <=? 128))) = true.
Proof.
  intros Hi. destruct (ins_scope _ _ Hi) as [Hu Hs].
  pose proof (bounded_char_count _ _ Hu Hs). pose proof (ins_revision _ _ Hi).
  pose proof (ins_request _ _ Hi) as Hk.
  pose proof (bounded_char_count _ 128 (key_utf8 _ Hk) (proj1 (proj1 (request_key_Ok _) Hk))).
  destruct (proj1 (bounded_text_Ok _ _ _) (ins_body _ _ Hi)) as (Hb%not_blank_len & Hl & _).
  unfold MAX_BODY_BYTES in Hl. rewrite !andb_true_iff, !Z.leb_le. lia.
Qed.

Lemma insertable_row db e : insertable db e → entry_row_checks e = true.
Proof.
  intros Hi. pose proof (insertable_bounds db e Hi) as Hb.
  destruct Hi as [_ _ _ Hst _ Hse Hsh _ Hsn Hck Hd _ _ _ _].
  destruct e as [sq pool a id name role d k sev p rev dcs sn cs body dl run att scope key].
  simpl in *. to_prop. unfold entry_row_checks; simpl.
  repeat match goal with E : _ ≤ _ |- _ => rewrite (proj2 (Z.leb_le _ _) E); clear E end. simpl.
  assert (match cs with
          | Some cs => match checks_json_len cs with Some n => n <=? 16384 | None => false end
          | None => true end = true) as ->.
  { destruct cs as [cs|]; [|done]. destruct (Hck cs eq_refl) as (_ & n & -> & ?). by apply Z.leb_le. }
  assert (match sn with Some s => len s <=? 65536 | None => true end = true) as ->.
  { destruct sn; [|done]. apply Z.leb_le, Hsn. }
  assert (cs = None ∨ k = KVote) as Hc.
  { destruct cs as [cs|]; [right; by apply (Hck cs)|by left]. }
  assert (dl = None ∨ k = KReport) as Hdl.
  { destruct dl as [x|]; [right; by apply (Hd x)|by left]. }
  destruct a; simpl in *; destruct id, name, role; try done;
    [destruct Hse as (? & ? & -> & -> & _) | destruct Hse as (-> & ->)..];
    inversion Hsh; subst; destruct sn; try (by destruct Hsn);
    destruct Hc as [->|], Hdl as [->|]; try done; repeat case_match; try done.
  all: by destruct d; repeat match goal with x : option _ |- _ => destruct x end.
Qed.

Lemma insertable_table db e : insertable db e → entry_table_checks db e = true.
Proof.
  intros Hi. unfold entry_table_checks. rewrite !andb_true_iff. repeat split.
  - apply exists_where_true. destruct (ins_pool _ _ Hi) as (p & ? & ?). eauto.
  - destruct (en_author_agent e) as [a|] eqn:E; [|done]. apply exists_where_true.
    destruct (ins_author _ _ Hi a E) as (m & ? & ? & ?). eauto.
  - destruct (en_proposal_seq e) as [q|] eqn:E; [|done]. apply exists_where_true.
    destruct (ins_vote _ _ Hi q E) as (x & ? & [? _] & ?). eauto.
  - destruct (en_delivery e) as [d|] eqn:E; [|done].
    destruct (ins_delivery _ _ Hi d E) as (_ & (x & ? & ?) & Hn). apply andb_true_iff. split.
    + apply exists_where_true. eauto.
    + apply negb_true_iff, exists_where_false. done.
  - pose proof (ins_sender _ _ Hi) as Hs. destruct (en_author_kind e).
    + destruct Hs as (r & t & -> & _ & (a & ? & ?) & _). simpl. apply exists_where_true. eauto.
    + by destruct Hs as [-> _].
    + by destruct Hs as [-> _].
  - pose proof (ins_sender _ _ Hi) as Hs. destruct (en_author_kind e).
    + destruct Hs as (r & t & _ & -> & _ & x & ? & ?). simpl. apply exists_where_true. eauto.
    + by destruct Hs as [_ ->].
    + by destruct Hs as [_ ->].
  - apply negb_true_iff, exists_where_false. apply (ins_fresh _ _ Hi).
Qed.

(** The database after the insert. *)
Definition with_entry (db : Db) (e : EntryRow) : Db :=
  let seq := db_entry_seq db + 1 in
  set_entry_seq seq (set_entries (db_entries db ++ [entry_with_seq seq e]) db).

Lemma insert_insertable db e :
  insertable db e → insert_entry db e = Ok (with_entry db e, db_entry_seq db + 1).
Proof.
  intros Hi. unfold insert_entry. by rewrite (insertable_row db), insertable_table by done.
Qed.

Lemma insertable_view db e seq :
  insertable db e → 0 < seq → legal_view (entry_view (entry_with_seq seq e)).
Proof.
  intros Hi Hs. pose proof (ins_revision _ _ Hi). pose proof (ins_shape _ _ Hi) as Hsh.
  unfold legal_view. simpl. repeat split; [lia|lia|by apply (ins_stamp db)| |by apply (ins_body db)].
  inversion Hsh; simpl; constructor; auto; lia.
Qed.

Lemma keys_with_entry db e : keys_ok db → 0 ≤ db_entry_seq db → keys_ok (with_entry db e).
Proof.
  intros Hk Hc. destruct Hk as [? ? ? ? ? ? ? ? Hs Hr]. split; try done; simpl.
  - rewrite map_app. apply StronglySorted_app_2; [|done|repeat constructor].
    intros x y (z & -> & Hz)%list_elem_of_fmap ->%list_elem_of_singleton. simpl.
    specialize (Hr z Hz). lia.
  - intros x [Hx| ->%list_elem_of_singleton]%elem_of_app; simpl; [|lia].
    specialize (Hr x Hx). lia.
Qed.

Lemma wf_with_entry db e : wf db → insertable db e → wf (with_entry db e).
Proof.
  intros Hw Hi. destruct Hw as [Hk Hc Ha Hp Hm Hh Hr Hv Hb Hl Hj Hd]. pose proof (insertable_row _ _ Hi) as Hrow.
  split; try done.
  - by apply keys_with_entry.
  - simpl. lia.
  - intros m Hin. by destruct (Hm m Hin).
  - intros x [Hx| ->%list_elem_of_singleton]%elem_of_app; [by apply Hh|]. apply (ins_pool _ _ Hi).
  - intros x [Hx| ->%list_elem_of_singleton]%elem_of_app; [by apply Hr|]. done.
  - intros x [Hx| ->%list_elem_of_singleton]%elem_of_app; [by apply Hv|].
    apply (insertable_view db); [done|lia].
  - intros x [Hx| ->%list_elem_of_singleton]%elem_of_app q Hq.
    + destruct (Hb x Hx q Hq) as (y & Hy & ? & ?). exists y. split; [|done].
      apply elem_of_app. by left.
    + destruct (ins_vote _ _ Hi q Hq) as (y & Hy & ? & ?). exists y.
      split; [apply elem_of_app; by left|]. split; [done|]. split; [done|].
      destruct (keys_entry_counter _ Hk y Hy). simpl. lia.
  - intros x p [Hx| ->%list_elem_of_singleton]%elem_of_app Hpin Hid; [by apply Hl|].
    by apply (ins_roster _ _ Hi).
Qed.
End insertion.

(** A column of a table determines membership of its values. *)
Lemma elem_of_column {A B} (f : A → B) (l l' : list A) x :
  map f l' = map f l → x ∈ l → ∃ y, y ∈ l' ∧ f y = f x.
Proof.
  intros E Hx. apply (list_elem_of_fmap_2 f) in Hx. change (f <$> l) with (map f l) in Hx.
  rewrite <-E in Hx. apply list_elem_of_fmap in Hx as (y & ? & ?). eauto.
Qed.

(** Well-formedness looks at the log, the seats, the identities and the
    revisions only. *)
Lemma wf_frame `{Serde} db db' :
  wf db → keys_ok db' → db_entry_seq db' = db_entry_seq db → db_entries db' = db_entries db →
  db_members db' = db_members db → map ag_id (db_agents db') = map ag_id (db_agents db) →
  map (λ p, (pl_id p, pl_revision p)) (db_pools db') =
    map (λ p, (pl_id p, pl_revision p)) (db_pools db) →
  wf db'.
Proof.
  intros [Hk Hc Ha Hp Hm Hh Hr Hv Hb Hl Hj Hd] Hk' Ec Ee Em Ea Ep. split; try done.
  - by rewrite Ec.
  - intros a Hin. destruct (elem_of_column ag_id (db_agents db') (db_agents db) a) as (b & ? & <-); auto.
  - intros p Hin.
    destruct (elem_of_column (λ p, (pl_id p, pl_revision p)) (db_pools db') (db_pools db) p)
      as (q & ? & [= _ <-]); auto.
  - rewrite Em. intros m Hin. destruct (Hm m Hin) as [(p & Hpin & Epid) (a & Hain & Eaid) ? ? ?].
    split; try done.
    + destruct (elem_of_column (λ p, (pl_id p, pl_revision p)) (db_pools db) (db_pools db') p)
        as (q & ? & [= Eq _]); [done..|]. exists q. by rewrite Eq.
    + destruct (elem_of_column ag_id (db_agents db) (db_agents db') a) as (b & ? & Eb); [done..|].
      exists b. by rewrite Eb.
  - rewrite Ee. intros e He. destruct (Hh e He) as (p & Hpin & Epid).
    destruct (elem_of_column (λ p, (pl_id p, pl_revision p)) (db_pools db) (db_pools db') p)
      as (q & ? & [= Eq _]); [done..|]. exists q. by rewrite Eq.
  - by rewrite Ee.
  - by rewrite Ee.
  - unfold points_back. by rewrite Ee.
  - rewrite Ee. intros e p He Hin Hid.
    destruct (elem_of_column (λ p, (pl_id p, pl_revision p)) (db_pools db') (db_pools db) p)
      as (q & ? & [= Eq <-]); [done..|]. apply (Hl e q); [done..|]. congruence.
  - rewrite Em. intros m p Hin Hpin Hid.
    destruct (elem_of_column (λ p, (pl_id p, pl_revision p)) (db_pools db') (db_pools db) p)
      as (q & ? & [= Eq <-]); [done..|]. apply (Hj m q); [done..|]. congruence.
  - by rewrite Em.
Qed.

Lemma demo_seats (db : Db) :
  db_members db = db_members demo_db ∧ map pl_revision (db_pools db) = [1] →
  ∀ m p, m ∈ db_members db → p ∈ db_pools db → pl_id p = mb_pool m →
    1 ≤ mb_joined_revision m ≤ pl_revision p.
Proof.
  intros [-> Hp] m p Hm Hin _. apply (list_elem_of_fmap_2 pl_revision) in Hin.
  change (pl_revision <$> db_pools db) with (map pl_revision (db_pools db)) in Hin. rewrite Hp in Hin.
  apply list_elem_of_singleton in Hin as ->.
  repeat (apply elem_of_cons in Hm as [->|Hm]; [simpl; lia|]). by apply elem_of_nil in Hm.
Qed.

Lemma demo_distinct (ms : list MemberRow) : ms = db_members demo_db → distinct_seats ms.
Proof.
  intros -> x y Hx Hy _ _ _ Hor.
  repeat (apply elem_of_cons in Hx as [->|Hx]); repeat (apply elem_of_cons in Hy as [->|Hy]);
    try done; try (by apply elem_of_nil in Hx); try (by apply elem_of_nil in Hy); by destruct Hor.
Qed.

(** The small concrete state is well formed. *)
Lemma demo_wf : wf demo_db.
Proof.
  split.
  - split; try (apply (bool_decide_unpack _); exact I); try constructor.
    all: intros; by match goal with He : _ ∈ _ |- _ => apply elem_of_nil in He end.
  - done.
  - intros a Ha. repeat (apply elem_of_cons in Ha as [->|Ha]; [apply (bool_decide_unpack _); exact I|]).
    by apply elem_of_nil in Ha.
  - intros p Hp. apply list_elem_of_singleton in Hp as ->. done.
  - intros m Hm. repeat (apply elem_of_cons in Hm as [->|Hm];
      [split; [exists (demo_pool Open); split; [left|done] |
        first [exists (demo_agent "ag-a" Running); split; [left|done] |
               exists (demo_agent "ag-b" Running); split; [right; left|done]] |
        split; [by apply ascii_utf8|done] | split; [by apply ascii_utf8|done] | done]|]).
    by apply elem_of_nil in Hm.
  - intros e He. by apply elem_of_nil in He.
  - intros e He. by apply elem_of_nil in He.
  - intros e He. by apply elem_of_nil in He.
  - intros e He. by apply elem_of_nil in He.
  - intros e p He. by apply elem_of_nil in He.
  - apply demo_seats. done.
  - apply demo_distinct. done.
Qed.

Lemma demo_agreed_wf : wf demo_agreed.
Proof.
  assert (∀ (P : EntryRow → Prop) , P demo_proposal → P (demo_ready 2 "ag-a" "t-a" "Ada" "lead") →
            P (demo_ready 3 "ag-b" "t-b" "Bob" "dev") → ∀ e, e ∈ db_entries demo_agreed → P e) as Hall.
  { intros P H1 H2 H3 e He. repeat (apply elem_of_cons in He as [->|He]; [done|]).
    by apply elem_of_nil in He. }
  split.
  - split; try (apply (bool_decide_unpack _); exact I).
    apply Hall; simpl; lia.
  - done.
  - intros a Ha. repeat (apply elem_of_cons in Ha as [->|Ha]; [apply (bool_decide_unpack _); exact I|]).
    by apply elem_of_nil in Ha.
  - intros p Hp. apply list_elem_of_singleton in Hp as ->. done.
  - intros m Hm. repeat (apply elem_of_cons in Hm as [->|Hm];
      [split; [exists (demo_pool Open); split; [left|done] |
        first [exists (demo_agent "ag-a" Succeeded); split; [left|done] |
               exists (demo_agent "ag-b" Succeeded); split; [right; left|done]] |
        split; [by apply ascii_utf8|done] | split; [by apply ascii_utf8|done] | done]|]).
    by apply elem_of_nil in Hm.
  - apply Hall; (exists (demo_pool Open); split; [left|done]).
  - by apply Hall.
  - apply Hall; apply view_validate_legal; by vm_compute.
  - apply Hall; intros q [= <-]; exists demo_proposal; (split; [left|done]).
  - intros e p He ->%list_elem_of_singleton _. revert e He. by apply Hall.
  - apply demo_seats. done.
  - apply demo_distinct. done.
Qed.
