(* ===== verification/History.v ===== *)
(** * Later states

    What a committed transaction may do to the durable history: rows are never
    removed, the log and the events grow at their end, a seat is retired once,
    a pool only moves to a later roster and completes once, and an execution
    moves along accepted transitions.  [later] is a preorder; the transactions
    of the library are steps of it. *)

From stdpp Require Import relations.
From S2P Require Import Prelude Text Float64 Lifecycle Requests PoolDomain Tables.
From S2P Require Import Roster World.

(** A sequence of accepted transitions leads from one status to the other. *)
Definition moves : Status → Status → Prop := rtc (λ s t, validate_transition s t = Ok ()).

Record agent_kept (a a' : AgentRow) : Prop := {
  ak_id : ag_id a' = ag_id a;
  ak_root : ag_root a' = ag_root a;
  ak_status : moves (ag_status a) (ag_status a');
}.

Record pool_kept (p p' : PoolRow) : Prop := {
  pk_id : pl_id p' = pl_id p;
  pk_goal : pl_goal p' = pl_goal p ∧ pl_acceptance p' = pl_acceptance p;
  pk_request : pl_namespace p' = pl_namespace p ∧ pl_request_id p' = pl_request_id p ∧
    pl_request_sha256 p' = pl_request_sha256 p;
  pk_revision : pl_revision p ≤ pl_revision p';
  pk_session : ∀ s, pl_session p = Some s → pl_session p' = Some s;
  pk_completed : pl_state p = Completed →
    pl_state p' = Completed ∧ pl_revision p' = pl_revision p ∧ pl_delivery p' = pl_delivery p;
}.

Record seat_kept (m m' : MemberRow) : Prop := {
  sk_agent : mb_agent m' = mb_agent m;
  sk_pool : mb_pool m' = mb_pool m;
  sk_labels : mb_slot m' = mb_slot m ∧ mb_name m' = mb_name m ∧ mb_role m' = mb_role m;
  sk_task : mb_task m' = mb_task m;
  sk_joined : mb_joined_revision m' = mb_joined_revision m;
  sk_retired : ∀ n, mb_replaced_by m = Some n → mb_replaced_by m' = Some n;
}.

(** Every row of a table has its successor. *)
Definition kept {A} (R : A → A → Prop) (l l' : list A) : Prop :=
  ∀ x, x ∈ l → ∃ x', x' ∈ l' ∧ R x x'.

(** The log of a pool. *)
Definition log_of (db : Db) (pool : string) : list EntryRow :=
  filter (λ e, en_pool e = pool) (db_entries db).

(** The pool has completed. *)
Definition is_completed (db : Db) (pool : string) : Prop :=
  ∃ p, p ∈ db_pools db ∧ pl_id p = pool ∧ pl_state p = Completed.

(** Seats are kept in place; a seat that joins an existing pool joins it at a
    later revision than the first. *)
Definition seats_grow (db db' : Db) : Prop :=
  ∃ old new,
    db_members db' = old ++ new ∧ Forall2 seat_kept (db_members db) old ∧
    ∀ m p, m ∈ new → p ∈ db_pools db → pl_id p = mb_pool m → 2 ≤ mb_joined_revision m.

(** Rows are kept in place and new ones follow. *)
Definition rows_grow {A} (R : A → A → Prop) (l l' : list A) : Prop :=
  ∃ old new, l' = old ++ new ∧ Forall2 R l old.

#[global] Instance rows_grow_preorder {A} (R : A → A → Prop) : PreOrder R → PreOrder (rows_grow R).
Proof.
  intros HR. split; [intros l; exists l, []; by rewrite app_nil_r|].
  intros l1 l2 l3 (o1 & n1 & -> & F1) (o2 & n2 & -> & F2).
  apply Forall2_app_inv_l in F2 as (oa & ob & Fa & Fb & ->). exists oa, (ob ++ n2).
  split; [by rewrite app_assoc|by etrans].
Qed.

Lemma rows_grow_app {A} (R : A → A → Prop) `{!Reflexive R} l l' : rows_grow R l (l ++ l').
Proof. by exists l, l'. Qed.

Lemma rows_grow_same {A} (R : A → A → Prop) l l' : Forall2 R l l' → rows_grow R l l'.
Proof. intros F. exists l', []. by rewrite app_nil_r. Qed.

(** A delivery keeps its identity and the event it announces. *)
Definition delivery_kept (d d' : DeliveryRow) : Prop :=
  dl_id d' = dl_id d ∧ dl_event d' = dl_event d.
#[global] Instance delivery_kept_preorder : PreOrder delivery_kept.
Proof. split; [done|]. intros x y z [] []. split; congruence. Qed.

(** What a transaction other than those of the dispatcher does to a delivery: it may
    schedule or withdraw one that waits, and leaves claims alone. *)
Definition waits (s : DeliveryState) : Prop := s = WaitingBinding ∨ s = DPending ∨ s = DRetryWait.

Record rescheduled (d d' : DeliveryRow) : Prop := {
  rs_kept : delivery_kept d d';
  rs_attempts : dl_attempts d' = dl_attempts d;
  rs_owner : dl_lease_owner d' = dl_lease_owner d;
  rs_lease : dl_lease_until d' = dl_lease_until d;
  rs_state : dl_state d' = dl_state d ∨
             (waits (dl_state d) ∧ (dl_state d' = DPending ∨ dl_state d' = DCancelled));
}.

#[global] Instance rescheduled_preorder : PreOrder rescheduled.
Proof.
  split; [intros d; split; try done; by left|]. intros x y z [] []. split; try congruence; [by etrans|].
  unfold waits in *. destruct rs_state0 as [E|[? ?]], rs_state1 as [E'|[? ?]]; rewrite ?E' in *; rewrite ?E in *; auto.
Qed.

Definition queue_moves (l l' : list DeliveryRow) : Prop :=
  ∃ old new, l' = old ++ new ∧ Forall2 rescheduled l old ∧ Forall unsent new.

Lemma unsent_rescheduled d d' : unsent d → rescheduled d d' → unsent d'.
Proof.
  intros [A O L S] [_ ? ? ? R]. split; try congruence. destruct R as [->|[_ [->| ->]]]; auto.
Qed.

#[global] Instance queue_moves_preorder : PreOrder queue_moves.
Proof.
  split; [intros l; exists l, []; by rewrite app_nil_r|].
  intros l1 l2 l3 (o1 & n1 & -> & F1 & U1) (o2 & n2 & -> & F2 & U2).
  apply Forall2_app_inv_l in F2 as (oa & ob & Fa & Fb & ->). exists oa, (ob ++ n2).
  split; [by rewrite app_assoc|]. split; [by etrans|]. apply Forall_app. split; [|done].
  clear -U1 Fb. induction Fb as [|x y l l' R _ IH]; [constructor|]. inversion U1; subst.
  constructor; [by eapply unsent_rescheduled|auto].
Qed.

Lemma queues_moves l l' : queues l l' → queue_moves l l'.
Proof. intros (new & -> & U). by exists l, new. Qed.

Lemma rescheduled_moves l l' : Forall2 rescheduled l l' → queue_moves l l'.
Proof. intros F. exists l', []. by rewrite app_nil_r. Qed.

Lemma queue_moves_grow l l' : queue_moves l l' → rows_grow delivery_kept l l'.
Proof.
  intros (old & new & -> & F & _). exists old, new. split; [done|].
  eapply Forall2_impl; [exact F|]. intros x y R. apply (rs_kept _ _ R).
Qed.

(** The seats a pool ever had. *)
Definition seats_of (db : Db) (pool : string) : list MemberRow :=
  filter (λ m, mb_pool m = pool) (db_members db).

Record later (db db' : Db) : Prop := {
  lt_entries : db_entries db `prefix_of` db_entries db';
  lt_events : db_events db `prefix_of` db_events db';
  lt_agents : kept agent_kept (db_agents db) (db_agents db');
  lt_pools : kept pool_kept (db_pools db) (db_pools db');
  lt_members : seats_grow db db';
  lt_deliveries : rows_grow delivery_kept (db_deliveries db) (db_deliveries db');
  lt_frozen : ∀ pool, is_completed db pool → log_of db' pool = log_of db pool;
  lt_roster : ∀ pool, is_completed db pool → seats_of db' pool = seats_of db pool;
}.

#[global] Instance agent_kept_preorder : PreOrder agent_kept.
Proof.
  split; [intros a; by split|]. intros a b c [? ? ?] [? ? ?].
  split; [congruence..|by etrans].
Qed.
#[global] Instance pool_kept_preorder : PreOrder pool_kept.
Proof.
  split; [intros p; by split|]. intros p q r [? [] (? & ? & ?) ? ? Hc] [? [] (? & ? & ?) ? ? Hc'].
  split; [congruence|split; congruence|split_and!; congruence|lia|auto|].
  intros (Hq & ? & ?)%Hc. destruct (Hc' Hq) as (? & ? & ?). split; [done|]. split; congruence.
Qed.
#[global] Instance seat_kept_preorder : PreOrder seat_kept.
Proof.
  split; [intros m; by split|]. intros x y z [? ? (? & ? & ?) ? ? ?] [? ? (? & ? & ?) ? ? ?].
  split; [congruence|congruence|split_and!; congruence|congruence|congruence|auto].
Qed.

#[global] Instance kept_refl {A} (R : A → A → Prop) : Reflexive R → Reflexive (kept R).
Proof. intros HR l x Hx. by exists x. Qed.
#[global] Instance kept_trans {A} (R : A → A → Prop) : Transitive R → Transitive (kept R).
Proof.
  intros HR l1 l2 l3 H1 H2 x Hx. destruct (H1 x Hx) as (y & Hy & ?).
  destruct (H2 y Hy) as (z & Hz & ?). exists z. split; [done|by etrans].
Qed.

Lemma completed_later db db' pool :
  kept pool_kept (db_pools db) (db_pools db') → is_completed db pool → is_completed db' pool.
Proof.
  intros Hk (p & Hp & Hid & Hc). destruct (Hk p Hp) as (p' & Hp' & [? ? ? ? ? Hs]).
  exists p'. split; [done|]. split; [congruence|]. by apply Hs.
Qed.

Lemma seats_grow_refl db : seats_grow db db.
Proof.
  exists (db_members db), []. rewrite app_nil_r. split; [done|]. split; [done|].
  intros m p Hm. by apply elem_of_nil in Hm.
Qed.

Lemma seats_grow_trans d1 d2 d3 :
  kept pool_kept (db_pools d1) (db_pools d2) → seats_grow d1 d2 → seats_grow d2 d3 → seats_grow d1 d3.
Proof.
  intros Hp (o1 & n1 & E1 & F1 & G1) (o2 & n2 & E2 & F2 & G2). rewrite E1 in F2.
  apply Forall2_app_inv_l in F2 as (o2a & o2b & Fa & Fb & ->).
  exists o2a, (o2b ++ n2). split; [by rewrite E2, <-app_assoc|]. split; [by etrans|].
  intros m p [Hm|Hm]%elem_of_app Hpin Hid.
  - apply list_elem_of_lookup in Hm as [i Hi].
    destruct (Forall2_lookup_r _ _ _ _ _ Fb Hi) as (x & Hx & [_ Sp _ _ Sj _]). rewrite Sj.
    apply (G1 x p); [by eapply list_elem_of_lookup_2|done|congruence].
  - destruct (Hp p Hpin) as (q & Hq & Kq). apply (G2 m q Hm Hq). by rewrite (pk_id _ _ Kq).
Qed.

#[global] Instance later_preorder : PreOrder later.
Proof.
  split; [intros db; split; try done; apply seats_grow_refl|]. intros d1 d2 d3 [] [].
  split; [by etrans|by etrans|by etrans|by etrans|by apply (seats_grow_trans d1 d2)|by etrans| |]; intros pool Hc.
  - rewrite lt_frozen1 by (by apply (completed_later d1)). by apply lt_frozen0.
  - rewrite lt_roster1 by (by apply (completed_later d1)). by apply lt_roster0.
Qed.

(** ** Rows of a later table *)

Lemma kept_app {A} (R : A → A → Prop) `{!Reflexive R} l l' : kept R l (l ++ l').
Proof. intros x Hx. exists x. split; [apply elem_of_app; by left|done]. Qed.

Lemma kept_update {A} (R : A → A → Prop) `{!Reflexive R} (P : A → Prop) `{∀ x, Decision (P x)} f l :
  (∀ x, x ∈ l → P x → R x (f x)) → kept R l (update_where P f l).
Proof.
  intros Hf x Hx. exists (if decide (P x) then f x else x). split.
  - apply elem_of_update_where. eauto.
  - case_decide; [by apply Hf|done].
Qed.

Lemma moves_terminal s t : Status.terminal s = true → moves s t → t = s.
Proof.
  intros Hs. destruct 1 as [|s u t Hu _]; [done|]. by apply terminal_no_transition in Hu.
Qed.

Lemma lifecycle_moves s l t : lifecycle s (l ++ [t]) → moves s t.
Proof.
  revert s. induction l as [|u l IH]; intros s; simpl; inversion 1 as [|? ? ? Hu Hl]; subst.
  - by apply rtc_once.
  - eapply rtc_l; [exact Hu|by apply IH].
Qed.

(** A state that differs in no kept table. *)
Lemma later_same db db' :
  db_entries db' = db_entries db → db_events db `prefix_of` db_events db' →
  kept agent_kept (db_agents db) (db_agents db') → kept pool_kept (db_pools db) (db_pools db') →
  db_members db' = db_members db → rows_grow delivery_kept (db_deliveries db) (db_deliveries db') →
  later db db'.
Proof.
  intros Ee ? ? ? Em ?. split; try done; [by rewrite Ee| |unfold log_of; by rewrite Ee|unfold seats_of; by rewrite Em].
  unfold seats_grow. rewrite Em. apply (seats_grow_refl db).
Qed.

Lemma Forall2_update {A} (R : A → A → Prop) `{!Reflexive R} (P : A → Prop) `{∀ x, Decision (P x)} f l :
  (∀ x, x ∈ l → P x → R x (f x)) → Forall2 R l (update_where P f l).
Proof.
  intros Hf. unfold update_where. induction l as [|x l IH]; simpl; constructor.
  - case_decide; [apply Hf; [left|done]|done].
  - apply IH. intros y Hy. apply Hf. by right.
Qed.

(** The successor of a seat. *)
Lemma later_seat db db' m :
  later db db' → m ∈ db_members db → ∃ m', m' ∈ db_members db' ∧ seat_kept m m'.
Proof.
  intros [_ _ _ _ (o & n & E & F & _) _ _ _] [i Hi]%list_elem_of_lookup.
  destruct (Forall2_lookup_l _ _ _ _ _ F Hi) as (m' & Hm' & ?). exists m'. split; [|done].
  rewrite E. apply elem_of_app. left. by eapply list_elem_of_lookup_2.
Qed.

(** One more entry for an open pool. *)
Lemma log_of_other db db' e pool :
  db_entries db' = db_entries db ++ [e] → en_pool e ≠ pool → log_of db' pool = log_of db pool.
Proof.
  intros E Hne. unfold log_of. rewrite E, filter_app, filter_cons, decide_False by done.
  by rewrite filter_nil, app_nil_r.
Qed.

#[export] Hint Resolve kept_app kept_update completed_later : agentrun.
