(* ===== verification/WorkerStore.v ===== *)
(** * Worker capabilities and reports

    [agent-run-store] [worker.rs]: authentication of the exact live attempt
    behind a bearer token, the issue of capabilities, the catalog proof, and
    the report to the orchestrator with its team copy.  A transaction takes
    the database and returns the committed one; an error commits nothing.
    [now()] and fresh UUIDs are arguments. *)

From S2P Require Import Prelude Text Float64 Canonical Catalogs Lifecycle Requests PoolDomain.
From S2P Require Import Tables Demo Roster.

Section worker_store.
Context `{Sha256, Serde}.

Definition MAX_MESSAGES : Z := 20.
Definition MIN_INTERVAL : f64 := of_Z 30.

(** [valid_token]: 32 bytes in lowercase hex. *)
Definition valid_token (token : string) : bool :=
  (len token =? 64) && forallb is_lower_hex (bytes token).

(** [!at.is_finite() || at < 0.0]. *)
Definition bad_time (at_ : f64) : bool := negb (is_finite at_) || flt at_ (of_Z 0).

Record AttemptAuth := mk_auth {
  au_root : string;
  au_session : option string;
  au_running : bool;
}.

(** [resolve_root]. *)
Definition root_of (a : AgentRow) : string := if is_empty (ag_root a) then ag_id a else ag_root a.

Definition resolve_root (db : Db) (run_id : string) : result string :=
  let? a := row (first_where (λ a, ag_id a = run_id) (db_agents db)) in Ok (root_of a).

(** The rows of the live attempt: owned and unfinished, of an unfinished agent. *)
Definition live_attempt (run_id attempt_id : string) (t : AttemptRow) : Prop :=
  at_id t = attempt_id ∧ at_agent t = run_id ∧ at_owned t = true ∧ at_finished_at t = None.
#[global] Instance live_attempt_dec run_id attempt_id t : Decision (live_attempt run_id attempt_id t).
Proof. unfold live_attempt. apply _. Defined.

(** An accepted finish closes the attempt for every other worker tool. *)
Definition closing (db : Db) (attempt_id : string) : bool :=
  exists_where (λ l, wl_attempt l = attempt_id ∧ wl_phase l = PClosing) (db_lifecycles db).

(** [authenticate_attempt]. *)
Definition authenticate_attempt (db : Db) (run_id attempt_id token : string) (at_ : f64)
  : result (option AttemptAuth) :=
  if negb (valid_token token) || bad_time at_ then Ok None
  else
    match first_where (live_attempt run_id attempt_id) (db_attempts db),
          first_where (λ c, wc_attempt c = attempt_id) (db_capabilities db),
          first_where (λ a, ag_id a = run_id ∧ ag_finished_at a = None) (db_agents db) with
    | Some t, Some c, Some a =>
        if negb (bool_decide (wc_token_sha256 c = sha256 (bytes token))) then Ok None
        else
          let? root := resolve_root db run_id in
          Ok (Some (mk_auth root (ag_session a)
                (bool_decide (at_state t = "running"%string) && bool_decide (ag_status a = Running)
                 && negb (closing db attempt_id))))
    | _, _, _ => Ok None
    end.

(** [issue_worker_capability]. *)
Definition issue_worker_capability (db : Db) (run_id attempt_id token : string) (at_ : f64)
  : result (Db * ()) :=
  fail? negb (valid_token token) || bad_time at_ with Validation "invalid worker capability";
  fail? negb (exists_where (live_attempt run_id attempt_id) (db_attempts db)) with
    Validation "worker attempt is not active";
  let digest := sha256 (bytes token) in
  match first_where (λ c, wc_attempt c = attempt_id) (db_capabilities db) with
  | Some existing =>
      fail? negb (bool_decide (wc_token_sha256 existing = digest)) with Conflict;
      Ok (db, ())
  | None =>
      Ok (set_capabilities
            (db_capabilities db ++ [mk_capability attempt_id digest None None]) db, ())
  end.

(** [register_worker_catalog]. *)
Definition register_worker_catalog (db : Db) (run_id attempt_id token : string)
  (version : Z) (catalog : string) (at_ : f64) : result (Db * ()) :=
  fail? negb (known_pool_catalog version catalog) with Unsupported "worker pool catalog is not supported";
  let? auth := authenticate_attempt db run_id attempt_id token at_ in
  fail? negb (is_some auth) with Validation "invalid worker capability";
  let? c := row (first_where (λ c, wc_attempt c = attempt_id) (db_capabilities db)) in
  if is_some (wc_catalog_version c) || is_some (wc_catalog_digest c) then
    fail? negb (bool_decide (wc_catalog_version c = Some version))
          || negb (bool_decide (wc_catalog_digest c = Some catalog)) with Conflict;
    Ok (db, ())
  else
    Ok (set_capabilities
          (update_where (λ c, wc_attempt c = attempt_id)
             (λ c, mk_capability (wc_attempt c) (wc_token_sha256 c) (Some version) (Some catalog))
             (db_capabilities db)) db, ()).

Record NotifyReceipt := mk_receipt {
  nr_notification_id : string;
  nr_state : DeliveryState;
  nr_duplicate : bool;
}.

(** The binding a report needs: a session on a supported transport. *)
Definition report_session (db : Db) (auth : AttemptAuth) : option string :=
  match au_session auth with
  | None => None
  | Some session =>
      match first_where (λ s, os_id s = session) (db_sessions db) with
      | None => None
      | Some s => if is_ok (canonical_transport_name (os_transport s)) then Some session else None
      end
  end.

(** The report already accepted under this key, joined with its delivery. *)
Definition prior_report (db : Db) (run_id request_id : string)
  : option (NotificationRow * DeliveryRow) :=
  match first_where (λ n, wn_agent n = run_id ∧ wn_request_id n = request_id)
          (db_notifications db) with
  | None => None
  | Some n =>
      match first_where (λ d, dl_id d = wn_delivery n) (db_deliveries db) with
      | None => None
      | Some d => Some (n, d)
      end
  end.

Definition latest_report (db : Db) (run_id : string) : option f64 :=
  match map wn_created_at (filter (λ n, wn_agent n = run_id) (db_notifications db)) with
  | [] => None
  | t :: ts => Some (foldl fmax t ts)
  end.

(** The team copy of a report, in the scope [notify:<run>]. *)
Definition report_entry (m : MemberRow) (p : PoolRow) (root run_id attempt_id : string)
  (input : NotifyRequest) (notification_id : string) : EntryRow :=
  mk_entry 0 (pl_id p) AMember (Some root) (Some (mb_name m)) (Some (mb_role m))
    OrchestratorCopy KReport (Some (nr_kind input)) None (Z.max (pl_revision p) 1) None None None
    (nr_message input) (Some notification_id) (Some run_id) (Some attempt_id)
    ("notify:" +:+ run_id) (nr_request_id input).

(** The reporter's current seat in an open pool. *)
Definition open_seat (db : Db) (root : string) : option (MemberRow * PoolRow) :=
  match first_where (λ m, mb_agent m = root ∧ mb_replaced_by m = None) (db_members db) with
  | None => None
  | Some m =>
      match first_where (λ p, pl_id p = mb_pool m ∧ pl_state p = Open) (db_pools db) with
      | None => None
      | Some p => Some (m, p)
      end
  end.

(** [notify_orchestrator]; [fresh] is the new UUID. *)
Definition notify_orchestrator (db : Db) (run_id attempt_id token : string) (input : NotifyRequest)
  (at_ : f64) (fresh : string) : result (Db * NotifyReceipt) :=
  try? notify_validate input;
  fail? negb (valid_token token) || bad_time at_ || contains token (nr_message input) with
    Validation "invalid worker report";
  let? auth := authenticate_attempt db run_id attempt_id token at_ in
  let? bound :=
    ok_or (Validation "worker attempt is not active or bound")
      (match auth with
       | Some auth =>
           if au_running auth then
             match report_session db auth with Some s => Some (auth, s) | None => None end
           else None
       | None => None
       end) in
  let '(auth, session) := bound in
  match prior_report db run_id (nr_request_id input) with
  | Some (n, d) =>
      fail? negb (bool_decide (wn_kind n = nr_kind input))
            || negb (bool_decide (wn_message n = nr_message input)) with Conflict;
      Ok (db, mk_receipt (wn_delivery n) (dl_state d) true)
  | None =>
      fail? MAX_MESSAGES <=? count_where (λ n, wn_agent n = run_id) (db_notifications db) with
        Validation "worker report limit reached (20 per run)";
      fail? match latest_report db run_id with
            | Some latest => flt at_ (fadd latest MIN_INTERVAL)
            | None => false
            end with Validation "worker reports require 30 seconds between messages";
      let '(db, event) :=
        insert_event db run_id (Some attempt_id) at_
          (EWorkerNotification (nr_request_id input) (nr_kind input)) in
      let id := "ntf_" +:+ fresh in
      let db := insert_delivery db
                  (mk_delivery id (Some run_id) (Some session) (Some event) DPending (Some at_)) in
      let db := set_notifications
                  (db_notifications db ++
                     [mk_notification id run_id attempt_id (nr_request_id input) (nr_kind input)
                        (nr_message input) at_]) db in
      let? db :=
        match open_seat db (au_root auth) with
        | None => Ok db
        | Some (m, p) =>
            let? (db, seq) :=
              insert_entry db (report_entry m p (au_root auth) run_id attempt_id input id) in
            fanout_entry db (pl_id p) (au_root auth) seq
        end in
      Ok (db, mk_receipt id DPending false)
  end.

(** ** Authentication *)

(** What an accepted credential proves. *)
Lemma authenticate_attempt_Some db run_id attempt_id token at_ auth :
  authenticate_attempt db run_id attempt_id token at_ = Ok (Some auth) →
  valid_token token = true ∧
  ∃ t c a,
    t ∈ db_attempts db ∧ live_attempt run_id attempt_id t ∧
    c ∈ db_capabilities db ∧ wc_attempt c = attempt_id ∧
    wc_token_sha256 c = sha256 (bytes token) ∧
    a ∈ db_agents db ∧ ag_id a = run_id ∧ ag_finished_at a = None ∧
    resolve_root db run_id = Ok (au_root auth) ∧ au_session auth = ag_session a ∧
    au_running auth = (bool_decide (at_state t = "running"%string) && bool_decide (ag_status a = Running)
                       && negb (closing db attempt_id)).
Proof.
  unfold authenticate_attempt. intros E.
  destruct (negb (valid_token token) || bad_time at_) eqn:Eg; [done|]. to_prop. split; [done|].
  destruct (first_where (live_attempt _ _) _) as [t|] eqn:Et; [|done].
  destruct (first_where (λ c, wc_attempt c = attempt_id) _) as [c|] eqn:Ec; [|done].
  destruct (first_where (λ a, ag_id a = run_id ∧ _) _) as [a|] eqn:Ea; [|done].
  apply first_where_Some in Et as [??], Ec as [??], Ea as [[??]?].
  run E. to_prop. exists t, c, a. auto 20.
Qed.

Lemma authenticate_running db run_id attempt_id token at_ auth :
  authenticate_attempt db run_id attempt_id token at_ = Ok (Some auth) → au_running auth = true →
  closing db attempt_id = false.
Proof.
  intros (_ & t & c & a & _ & _ & _ & _ & _ & _ & _ & _ & _ & _ & ->)%authenticate_attempt_Some.
  intros Hr. to_prop. done.
Qed.
End worker_store.
