(* ===== verification/Sessions.v ===== *)
(** * Orchestrator sessions and terminal notices

    The session helpers of [agent-run-store] [lib.rs] and the completion
    notices of [delivery.rs] that the binding of a pool and the terminal commit
    share.  They run inside the caller's transaction. *)

From S2P Require Import Prelude Text Float64 Canonical Lifecycle Requests PoolDomain.
From S2P Require Import Tables Roster WorkerStore.

(** [ORDER BY (transport=canonical) DESC,id]. *)
Definition session_le (canonical : string) (x y : SessionRow) : Prop :=
  let cx := bool_decide (os_transport x = canonical) in
  let cy := bool_decide (os_transport y = canonical) in
  (cx = true ∧ cy = false) ∨ (cx = cy ∧ String.le (os_id x) (os_id y)).
#[global] Instance session_le_dec canonical : RelDecision (session_le canonical).
Proof. intros x y. unfold session_le. apply _. Defined.

(** [session_ids_for_reference]. *)
Definition session_ids_for_reference (db : Db) (r : OrchestratorRef) : result (list string) :=
  try? orchestrator_validate r;
  let? canonical := canonical_transport_name (transport r) in
  let? legacy := legacy_transport r in
  Ok (map os_id
        (merge_sort (session_le canonical)
           (filter (λ s, os_external_session_id s = external_session_id r ∧
                         (os_transport s = canonical ∨ os_transport s = legacy))
              (db_sessions db)))).

(** [session_matches_reference]. *)
Definition session_matches_reference (db : Db) (session : string) (r : OrchestratorRef)
  : result bool :=
  try? orchestrator_validate r;
  let? canonical := canonical_transport_name (transport r) in
  Ok (match first_where (λ s, os_id s = session) (db_sessions db) with
      | None => false
      | Some s =>
          bool_decide (canonical_transport_name (os_transport s) = Ok canonical)
          && bool_decide (os_external_session_id s = external_session_id r)
      end).

Definition with_turn (turn : option string) (s : SessionRow) : SessionRow :=
  mk_session (os_id s) (os_transport s) (os_external_session_id s) turn.

Definition touch_row (db : Db) (session : string) (r : OrchestratorRef) : Db :=
  set_sessions
    (update_where (λ s, os_id s = session) (with_turn (external_turn_id r)) (db_sessions db)) db.

(** [touch_session_reference]. *)
Definition touch_session_reference (db : Db) (session : string) (r : OrchestratorRef)
  : result Db :=
  let? matches := session_matches_reference db session r in
  fail? negb matches with invalid "orchestrator session identity changed";
  Ok (touch_row db session r).

(** [session_for_reference]; [fresh] is the new UUID. *)
Definition session_for_reference (db : Db) (r : OrchestratorRef) (fresh : string)
  : result (Db * string) :=
  try? orchestrator_validate r;
  let? t := canonical_transport_name (transport r) in
  let? sessions := session_ids_for_reference db r in
  match sessions with
  | session :: _ => Ok (touch_row db session r, session)
  | [] =>
      let candidate := "os-" +:+ fresh in
      Ok (set_sessions
            (db_sessions db ++ [mk_session candidate t (external_session_id r) (external_turn_id r)])
            db, candidate)
  end.

(** ** Completion notices *)

(** A success of a current pool member has no notice of its own. *)
Definition suppress_member_success (db : Db) (id : string) : bool :=
  exists_where
    (λ a, ag_id a = id ∧ ag_status a = Succeeded ∧
          exists_where
            (λ m, mb_agent m = root_of a ∧ mb_replaced_by m = None ∧
                  exists_where (λ p, pl_id p = mb_pool m) (db_pools db) = true)
            (db_members db) = true)
    (db_agents db).

(** [insert_terminal_notice]; [fresh] is the new UUID. *)
Definition insert_terminal_notice (db : Db) (id : string) (session : option string) (event : Z)
  (at_ : f64) (fresh : string) : Db * option string :=
  if suppress_member_success db id then (db, None)
  else
    match session with
    | None => (db, None)
    | Some session =>
        match first_where (λ d, dl_agent d = Some id ∧ dl_event d = Some event)
                (db_deliveries db) with
        | Some previous => (db, Some (dl_id previous))
        | None =>
            let notification := "ntf_" +:+ fresh in
            (insert_delivery db
               (mk_delivery notification (Some id) (Some session) (Some event) DPending (Some at_)),
             Some notification)
        end
    end.

(** The status event [to_status = status] that no service restart caused. *)
Definition plain_status_event (status : Status) (d : EventData) : bool :=
  match d with EStatus _ to _ restart => bool_decide (to = status) && negb restart | _ => false end.

(** The newest durable event of the agent's terminal status. *)
Definition terminal_event (db : Db) (id : string) : option Z :=
  let events :=
    filter
      (λ e, ev_agent e = id ∧
            exists_where
              (λ a, ag_id a = id ∧ Status.terminal (ag_status a) = true ∧
                    plain_status_event (ag_status a) (ev_data e) = true)
              (db_agents db) = true)
      (db_events db) in
  option_map ev_no (best_by (λ x y, ev_no x <=? ev_no y) events).

(** [ensure_bound_terminal_notice]. *)
Definition ensure_bound_terminal_notice (db : Db) (id session : string) (at_ : f64)
  (fresh : string) : Db :=
  match terminal_event db id with
  | Some event => fst (insert_terminal_notice db id (Some session) event at_ fresh)
  | None => db
  end.
