(* ===== verification/ServiceRestart.v ===== *)
(** * The service restart barrier

    The reads of [service_restart.rs] the modelled transactions make: the open
    restart that blocks admissions, the request behind a technical finish, and
    whether a stopped execution is a technical stop. *)

From S2P Require Import Prelude Text Lifecycle Tables.

Definition BLOCKED_PREFIX : string :=
  "Agent Run is restarting. New agent starts are temporarily blocked; please wait. [agent-run-restart:".

Definition finish_marker (restart_id : Z) : string :=
  "[agent-run-restart-finish:" +:+ dec restart_id +:+ "]".

Definition blocked_message (restart_id : Z) : string := BLOCKED_PREFIX +:+ dec restart_id +:+ "]".

(** [active_service_restart]. *)
Definition active_service_restart (db : Db) : option Z :=
  option_map rs_id (first_where (λ r, rs_finished r = false) (db_restarts db)).

(** [require_admissions_open]. *)
Definition require_admissions_open (db : Db) : result () :=
  match active_service_restart db with
  | Some id => Err (Transition (blocked_message id))
  | None => Ok ()
  end.

(** A preparing, unfinished restart. *)
Definition preparing (db : Db) (id : Z) : bool :=
  exists_where (λ r, rs_id r = id ∧ rs_preparing r = true ∧ rs_finished r = false) (db_restarts db).

(** [finish_restart]: the restart that warned this owned worker. *)
Definition finish_restart (db : Db) (agent attempt : string) : option Z :=
  if exists_where (λ t, at_agent t = agent ∧ at_id t = attempt ∧ at_owned t = true) (db_attempts db)
  then option_map ra_restart
         (first_where
            (λ a, ra_agent a = agent ∧ preparing db (ra_restart a) = true
                  ∧ ra_cancelled_before a = false ∧ ra_resume_status a = RsPending
                  ∧ ra_first_notice a = true) (db_restart_agents db))
  else None.

Definition is_stop_event (agent : string) (e : EventRow) : Prop :=
  ev_agent e = agent ∧ match ev_data e with EStatus _ _ _ true => True | _ => False end.
#[global] Instance is_stop_event_dec agent e : Decision (is_stop_event agent e).
Proof. unfold is_stop_event. repeat case_match; apply _. Defined.

(** [is_restart_stop]. *)
Definition is_restart_stop (db : Db) (agent : string) : bool :=
  exists_where (is_stop_event agent) (db_events db).

(** The restart a row belongs to has not finished. *)
Definition restart_open (db : Db) (id : Z) : bool :=
  exists_where (λ r, rs_id r = id ∧ rs_finished r = false) (db_restarts db).

Definition visible_restart (db : Db) (agent : string) (a : RestartAgentRow) : Prop :=
  ra_agent a = agent ∧
  ((restart_open db (ra_restart a) = true ∧ ra_resume_status a = RsPending) ∨
   ra_resume_status a = RsFailed ∨ ra_resume_status a = RsUnconfirmed ∨
   (ra_resume_status a = RsCancelled ∧ ra_cancelled_before a = false)) ∧
  is_restart_stop db agent = true.
#[global] Instance visible_restart_dec db agent a : Decision (visible_restart db agent a).
Proof. unfold visible_restart. apply _. Defined.

(** [restart_view(..).is_some_and(|(status, _)| status == "pending")]: the
    latest visible row is pending.  The displayed [cancelling] refines the
    cancelled status only. *)
Definition restart_pending (db : Db) (agent : string) : bool :=
  match best_by (λ x y, ra_restart x <=? ra_restart y)
          (filter (visible_restart db agent) (db_restart_agents db)) with
  | Some a => bool_decide (ra_resume_status a = RsPending)
  | None => false
  end.
