(* ===== verification/PoolEnrollment.v ===== *)
(** * Enrollment of attached members

    [pool_enrollment.rs]: the acknowledgement key pinned to one attempt, the
    acknowledgement itself, and the convergence of attachments whose worker
    ended or was never reached.  The preflight that reads a live process
    ([existing_member]) is outside the model. *)

From S2P Require Import Prelude Text Float64 Lifecycle Requests PoolDomain Tables.
From S2P Require Import Roster ServiceRestart.

(** [view]: the state of a seat's enrollment, absent for new members. *)
Definition enrollment_view (db : Db) (root : string) : option EnrollmentState :=
  option_map er_state (first_where (λ j, er_agent j = root) (db_enrollments db)).

(** A seat that still has to acknowledge. *)
Definition join_pending (db : Db) (root : string) : bool :=
  match enrollment_view db root with Some s => negb (bool_decide (s = EJoined)) | None => false end.

(** [validate_ack_replay]. *)
Definition validate_ack_replay (db : Db) (root run attempt key : string) (is_message : bool)
  : result () :=
  match first_where (λ j, er_challenge j = key) (db_enrollments db) with
  | Some j =>
      fail? negb is_message || negb (bool_decide (er_agent j = root))
            || negb (bool_decide (er_run j = run)) || negb (bool_decide (er_attempt j = attempt)) with
        invalid "enrollment ACK key is pinned to a different worker attempt";
      Ok ()
  | None => Ok ()
  end.

(** [ack_allowed]. *)
Definition ack_allowed (db : Db) (root run attempt : string) (request : option string)
  : result bool :=
  match first_where (λ j, er_agent j = root) (db_enrollments db) with
  | None => Ok false
  | Some j =>
      if bool_decide (er_state j = EJoined) then Ok false
      else
        fail? negb (bool_decide (er_run j = run)) || negb (bool_decide (er_attempt j = attempt)) with
          invalid "pool enrollment attempt ended or changed";
        fail? negb (bool_decide (request = Some (er_challenge j))) with
          invalid "pool enrollment requires its exact broker-issued ACK request_id";
        Ok true
  end.

Definition joined (seq : Z) (j : EnrollmentRow) : EnrollmentRow :=
  mk_enrollment (er_agent j) (er_run j) (er_attempt j) (er_challenge j) EJoined (Some seq) None
    (er_attention_delivery j) (er_attention_issued j).

Definition cancelled_delivery (d : DeliveryRow) : DeliveryRow :=
  mk_delivery_row (dl_id d) (dl_agent d) (dl_session d) (dl_event d) DCancelled None (dl_attempts d)
    (dl_lease_owner d) (dl_lease_until d) (dl_last_error d) (dl_ambiguous d).

(** [acknowledge]: joins the seat and withdraws its attention notice. *)
Definition acknowledge (db : Db) (root : string) (seq : Z) : result Db :=
  fail? negb (count_where (λ j, er_agent j = root ∧ er_state j ≠ EJoined) (db_enrollments db) =? 1) with
    Conflict;
  let db := set_enrollments
              (update_where (λ j, er_agent j = root ∧ er_state j ≠ EJoined) (joined seq)
                 (db_enrollments db)) db in
  let attention :=
    match first_where (λ j, er_agent j = root) (db_enrollments db) with
    | Some j => er_attention_delivery j
    | None => None
    end in
  Ok (set_deliveries
        (update_where
           (λ d, Some (dl_id d) = attention ∧
                 (dl_state d = DPending ∨ dl_state d = WaitingBinding ∨ dl_state d = DRetryWait))
           cancelled_delivery (db_deliveries db)) db).

(** ** Convergence *)

(** [failure_reason]. *)
Definition failure_reason (db : Db) (root run attempt : string) : result (option string) :=
  let state := option_map ag_status (first_where (λ a, ag_id a = run) (db_agents db)) in
  if negb (bool_decide (state = Some Running)) then Ok (Some "worker_ended"%string)
  else
    let owned :=
      exists_where
        (λ t, at_id t = attempt ∧ at_agent t = run ∧ at_owned t = true ∧ at_finished_at t = None
              ∧ at_state t = "running"%string) (db_attempts db) in
    let? tip := tip_of db root in
    Ok (if negb owned || negb (bool_decide (tip = run)) then Some "attempt_changed"%string
        else None).

(** [json_extract(payload_json,'$.pool_enrollment')] of a steer command. *)
Definition steer_enrollment (k : CommandKind) : option string :=
  match k with Steer _ e _ => e | _ => None end.

(** The introduction was completed without being accepted. *)
Definition delivery_failed (db : Db) (root run : string) : bool :=
  exists_where
    (λ c, cm_agent c = run ∧
          steer_enrollment (cm_kind c) = Some root ∧
          cm_state c = CCompleted ∧ cm_accepted c = false) (db_commands db).

(** One row of the loop of [enrollment_changes]. *)
Definition enrollment_change (db : Db) (j : EnrollmentRow) : result (option (string * string)) :=
  if restart_pending db (er_run j) then Ok None
  else
    let? failed := failure_reason db (er_agent j) (er_run j) (er_attempt j) in
    let reason :=
      match failed with
      | Some r => Some r
      | None =>
          if delivery_failed db (er_agent j) (er_run j) then Some "delivery_unconfirmed"%string
          else None
      end in
    Ok (match reason with
        | None => None
        | Some reason =>
            if negb (bool_decide (er_state j = EJoined))
               && (negb (bool_decide (er_state j = ENeedsAction))
                   || negb (bool_decide (er_failure_reason j = Some reason))
                   || negb (er_attention_issued j))
            then Some (er_agent j, reason) else None
        end).

(** [enrollment_changes]. *)
Definition enrollment_changes (db : Db) (pool : string) : result (list (string * string)) :=
  let rows :=
    filter
      (λ j, er_state j ≠ EJoined ∧
            exists_where (λ m, mb_agent m = er_agent j ∧ current_seat pool m) (db_members db) = true)
      (db_enrollments db) in
  let? changes := traverse (enrollment_change db) rows in
  Ok (omap id changes).

Definition needs_action (reason : string) (j : EnrollmentRow) : EnrollmentRow :=
  mk_enrollment (er_agent j) (er_run j) (er_attempt j) (er_challenge j) ENeedsAction (er_ack_seq j)
    (Some reason) (er_attention_delivery j) (er_attention_issued j).

Definition attention (delivery : option string) (j : EnrollmentRow) : EnrollmentRow :=
  mk_enrollment (er_agent j) (er_run j) (er_attempt j) (er_challenge j) (er_state j) (er_ack_seq j)
    (er_failure_reason j)
    (match delivery with Some d => Some d | None => er_attention_delivery j end) true.

Definition needs_action_message (pool root reason : string) : string :=
  "Pool " +:+ pool +:+ " needs action: existing member " +:+ root
  +:+ " did not acknowledge enrollment (" +:+ reason
  +:+ "). Its work was not restarted or cancelled by enrollment. Inspect pool status; use explicit existing recovery controls.".

(** [to_status] of a status event. *)
Definition status_to (d : EventData) : option Status :=
  match d with
  | EStatus _ to _ _ => Some to
  | ECreated => Some Created
  | EStartAccepted _ => Some Starting
  | _ => None
  end.

(** A terminal notice of the worker already covers the failure. *)
Definition covered (db : Db) (run : string) : bool :=
  exists_where
    (λ d, dl_agent d = Some run ∧
          exists_where
            (λ a, ag_id a = run ∧
                  (ag_status a = Failed ∨ ag_status a = Lost ∨ ag_status a = TimedOut
                   ∨ ag_status a = Cancelled) ∧
                  exists_where
                    (λ e, Some (ev_no e) = dl_event d ∧
                          status_to (ev_data e) = Some (ag_status a))
                    (db_events db) = true) (db_agents db) = true)
    (db_deliveries db).

(** One change of [reconcile_pool_enrollments]; [fresh] is the new UUID. *)
Definition reconcile_change (pool : string) (at_ : f64) (fresh : string → string) (db : Db)
  (change : string * string) : result Db :=
  let '(root, reason) := change in
  let? j := row (first_where (λ j, er_agent j = root) (db_enrollments db)) in
  let db := set_enrollments
              (update_where
                 (λ j, er_agent j = root ∧ er_state j ≠ EJoined ∧
                       (er_state j ≠ ENeedsAction ∨ er_failure_reason j ≠ Some reason))
                 (needs_action reason) (db_enrollments db)) db in
  let covered := covered db (er_run j) in
  let already := er_attention_issued j in
  if covered && negb already then
    Ok (set_enrollments (update_where (λ j, er_agent j = root) (attention None) (db_enrollments db)) db)
  else if negb covered && negb already then
    let message := needs_action_message pool root reason in
    let '(db, event) :=
      insert_event db (er_run j) (Some (er_attempt j)) at_
        (EJoinNeedsAction pool root reason message) in
    let? p := row (first_where (λ p, pl_id p = pool) (db_pools db)) in
    let id := "ntf_" +:+ fresh root in
    let db := insert_delivery db
                (mk_delivery id (Some (er_run j)) (pl_session p) (Some event)
                   (if is_some (pl_session p) then DPending else WaitingBinding)
                   (if is_some (pl_session p) then Some at_ else None)) in
    Ok (set_enrollments
          (update_where (λ j, er_agent j = root) (attention (Some id)) (db_enrollments db)) db)
  else Ok db.

(** [reconcile_pool_enrollments]: the preflight, then the same reads again
    inside the transaction. *)
Definition reconcile_pool_enrollments (db : Db) (pool : string) (at_ : f64)
  (fresh : string → string) : result Db :=
  let? preflight := enrollment_changes db pool in
  match preflight with
  | [] => Ok db
  | _ =>
      let? changes := enrollment_changes db pool in
      try_fold (reconcile_change pool at_ fresh) db changes
  end.
