(* ===== verification/PoolLog.v ===== *)
(** * The shared log

    [pool_log.rs]: authenticated pool writes with their budgets, idempotency
    and fan-out; the operator's post; pages of the log; the derived status and
    its activity word.  A transaction returns [Accepted] with the committed
    database, [Denied] with a typed refusal, or an error; neither of the last
    two carries a database, because the transaction rolls back. *)

From S2P Require Import Prelude Text Float64 Canonical Lifecycle Requests PoolDomain.
From S2P Require Import Tables Demo Roster WorkerStore ServiceRestart PoolEnrollment.

Inductive verdict (A : Type) :=
  | Accepted (db : Db) (a : A)
  | Denied (d : PoolDenial).
Arguments Accepted {A} db a.
Arguments Denied {A} d.

Definition CHAT_ROW_BUDGET : Z := 200.
Definition CHAT_BYTE_BUDGET : Z := 256 * 1024.
Definition PROPOSAL_BUDGET : Z := 20.
Definition VOTE_ROW_BUDGET : Z := 8.

(** ** Writes *)

Inductive PoolWrite :=
  | WMessage (input : PoolMessage)
  | WProposal (input : PoolPropose)
  | WVote (input : PoolVote).

Definition write_kind (w : PoolWrite) : EntryKind :=
  match w with
  | WMessage _ => KMessage
  | WProposal _ => KProposal
  | WVote vote => match vo_decision vote with DRevoke => KRevoke | _ => KVote end
  end.

Definition write_request_id (w : PoolWrite) : string :=
  match w with
  | WMessage input => pm_request_id input
  | WProposal input => pr_request_id input
  | WVote input => vo_request_id input
  end.

(** The durable fields compared for a replay of the same key. *)
Inductive ReplayShape :=
  | ShapeMessage (body : string)
  | ShapeProposal (body : string) (snapshot : option string)
  | ShapeVote (decision : option VoteDecision) (proposal_seq : option Z)
      (checks : option (list CriterionCheck)) (body : string).
#[global] Instance replay_shape_eq_dec : EqDecision ReplayShape.
Proof. solve_decision. Defined.

Definition NO_NOTE : string := "(no note)".

(** [(!input.checks.is_empty()).then_some(&input.checks)]. *)
Definition checks_column (checks : list CriterionCheck) : option (list CriterionCheck) :=
  match checks with [] => None | _ => Some checks end.

Definition decision_column (d : VoteDecision) : option VoteDecision :=
  match d with DRevoke => None | d => Some d end.

Definition write_shape (w : PoolWrite) : ReplayShape :=
  match w with
  | WMessage input => ShapeMessage (pm_message input)
  | WProposal input => ShapeProposal (pr_message input) (Some (pr_snapshot input))
  | WVote input =>
      ShapeVote (decision_column (vo_decision input)) (Some (vo_proposal_seq input))
        (checks_column (vo_checks input)) (default NO_NOTE (vo_message input))
  end.

(** [replay_shape_of]. *)
Definition entry_shape_of (e : EntryRow) : ReplayShape :=
  match en_kind e with
  | KMessage => ShapeMessage (en_body e)
  | KProposal => ShapeProposal (en_body e) (en_snapshot e)
  | _ => ShapeVote (en_decision e) (en_proposal_seq e) (en_checks e) (en_body e)
  end.

Record PoolWriteReceipt := mk_write_receipt {
  wr_pool : string;
  wr_seq : Z;
  wr_duplicate : bool;
}.

(** The entry already stored under an idempotency key. *)
Definition prior_entry (db : Db) (pool scope request_id : string) : option EntryRow :=
  first_where (λ e, en_pool e = pool ∧ en_scope e = scope ∧ en_request_id e = request_id)
    (db_entries db).

Section pool_log.
Context `{Sha256, Serde}.

Definition write_validate (w : PoolWrite) : result () :=
  match w with
  | WMessage input => pool_message_validate input
  | WProposal input => pool_propose_validate input
  | WVote input => pool_vote_validate input
  end.

(** [input_credentials]. *)
Definition input_credentials (run_id attempt_id token : string) : result () :=
  fail? is_empty attempt_id || (128 <? len attempt_id) || negb (len token =? 64)
        || is_empty run_id with Validation "invalid worker capability";
  Ok ().

(** [authenticated_member]; the refusal is [NotPoolMember]. *)
Definition authenticated_member (db : Db) (run_id attempt_id token : string) (now : f64)
  : result (option Membership) :=
  try? input_credentials run_id attempt_id token;
  let? auth := authenticate_attempt db run_id attempt_id token now in
  let? auth := ok_or (Validation "invalid worker capability") auth in
  fail? negb (au_running auth) with Validation "worker attempt is not running";
  Ok (membership db (au_root auth)).

(** The row [append_entry] inserts, its author stamped from the membership. *)
Definition member_entry (m : Membership) (run_id attempt_id : string) (kind : EntryKind)
  (proposal_seq : option Z) (decision : option VoteDecision)
  (checks : option (list CriterionCheck)) (snapshot : option string) (body request_id : string)
  : EntryRow :=
  mk_entry 0 (ms_pool m) AMember (Some (ms_seat m)) (Some (ms_name m)) (Some (ms_mrole m)) Team
    kind None proposal_seq (ms_revision m) decision snapshot checks body None (Some run_id)
    (Some attempt_id) run_id request_id.

(** [append_entry]: a constraint failure is reported as [Conflict]. *)
Definition append_entry (db : Db) (e : EntryRow) : result (Db * Z) :=
  match insert_entry db e with
  | Err (Sql ConstraintViolation) => Err Conflict
  | r => r
  end.

Definition is_chat (pool : string) (e : EntryRow) : Prop := en_pool e = pool ∧ en_kind e = KMessage.
#[global] Instance is_chat_dec pool e : Decision (is_chat pool e).
Proof. unfold is_chat. apply _. Defined.

Definition chat_rows (db : Db) (pool : string) : Z := count_where (is_chat pool) (db_entries db).
Definition chat_bytes (db : Db) (pool : string) : Z :=
  sum_by (λ e, len (en_body e)) (filter (is_chat pool) (db_entries db)).

(** The prospective chat budget, shared by members and the operator. *)
Definition chat_exhausted (db : Db) (pool message : string) : bool :=
  (CHAT_ROW_BUDGET <=? chat_rows db pool)
  || (CHAT_BYTE_BUDGET <? chat_bytes db pool + len message).

(** A refusal, or the entry appended. *)
Definition append_result := result (PoolDenial + Db * Z).
Definition appended (r : result (Db * Z)) : append_result := let? x := r in Ok (inr x).

Definition append_message (db : Db) (m : Membership) (run_id attempt_id : string)
  (input : PoolMessage) : append_result :=
  if chat_exhausted db (ms_pool m) (pm_message input) then Ok (inl ChatBudgetExhausted)
  else appended (append_entry db
         (member_entry m run_id attempt_id KMessage None None None None (pm_message input)
            (pm_request_id input))).

Definition append_proposal (db : Db) (m : Membership) (run_id attempt_id : string)
  (input : PoolPropose) : append_result :=
  if PROPOSAL_BUDGET <=? count_where (is_proposal (ms_pool m)) (db_entries db)
  then Ok (inl ProposalBudgetExhausted)
  else appended (append_entry db
         (member_entry m run_id attempt_id KProposal None None None (Some (pr_snapshot input))
            (pr_message input) (pr_request_id input))).

(** The sorted criterion ids a ready vote must cover. *)
Definition covers (acceptance : list (string * string)) (checks : list CriterionCheck) : bool :=
  bool_decide (merge_sort String.le (map fst acceptance)
               = merge_sort String.le (map ck_criterion_id checks)).

Definition append_vote (db : Db) (m : Membership) (run_id attempt_id : string) (input : PoolVote)
  : append_result :=
  match current_proposal db (ms_pool m) with
  | None => Ok (inl (StaleProposal None))
  | Some proposal =>
      let current := Z.max (en_seq proposal) 0 in
      if negb (vo_proposal_seq input =? current) then Ok (inl (StaleProposal (Some current)))
      else if bool_decide (vo_decision input = Ready)
              && negb (covers (ms_acceptance m) (vo_checks input))
      then Ok (inl MalformedChecks)
      else
        let spent := count_where (is_vote_on (ms_pool m) (ms_seat m) current) (db_entries db) in
        if (VOTE_ROW_BUDGET <=? spent)
           || ((spent =? VOTE_ROW_BUDGET - 1) && bool_decide (vo_decision input = Ready))
        then Ok (inl VoteBudgetExhausted)
        else
          appended (append_entry db
            (member_entry m run_id attempt_id
               (match vo_decision input with DRevoke => KRevoke | _ => KVote end)
               (Some current) (decision_column (vo_decision input))
               (checks_column (vo_checks input)) None
               (default NO_NOTE (vo_message input)) (vo_request_id input)))
  end.

(** The append step of [pool_write]: an acknowledgement bypasses the budgets. *)
Definition append_write (db : Db) (m : Membership) (run_id attempt_id : string) (ack : bool)
  (w : PoolWrite) : append_result :=
  match w with
  | WMessage input =>
      if ack
      then appended (append_entry db
             (member_entry m run_id attempt_id KMessage None None None None (pm_message input)
                (pm_request_id input)))
      else append_message db m run_id attempt_id input
  | WProposal input => append_proposal db m run_id attempt_id input
  | WVote input => append_vote db m run_id attempt_id input
  end.

(** The transaction of [pool_write]; the settlement that follows a committed
    vote is composed with it in [PoolSettle]. *)
Definition pool_write_tx (db : Db) (run_id attempt_id token : string) (w : PoolWrite) (now : f64)
  : result (verdict PoolWriteReceipt) :=
  let? member := authenticated_member db run_id attempt_id token now in
  match member with
  | None => Ok (Denied NotPoolMember)
  | Some m =>
      try? validate_ack_replay db (ms_seat m) run_id attempt_id (write_request_id w)
             (match w with WMessage _ => true | _ => false end);
      match prior_entry db (ms_pool m) run_id (write_request_id w) with
      | Some e =>
          if bool_decide (entry_shape_of e = write_shape w)
          then Ok (Accepted db (mk_write_receipt (ms_pool m) (Z.max (en_seq e) 0) true))
          else Ok (Denied DConflict)
      | None =>
          if bool_decide (ms_state m = Completed) then Ok (Denied PoolCompleted)
          else
            try? write_validate w;
            let? ack :=
              ack_allowed db (ms_seat m) run_id attempt_id
                (match w with WMessage input => Some (pm_request_id input) | _ => None end) in
            let? r := append_write db m run_id attempt_id ack w in
            match r with
            | inl reason => Ok (Denied reason)
            | inr (db, seq) =>
                let? db := if ack then acknowledge db (ms_seat m) seq else Ok db in
                let '(db, _) := tx_event db run_id now (EPoolEntry seq (write_kind w)) in
                let? db := fanout_entry db (ms_pool m) (ms_seat m) seq in
                Ok (Accepted db (mk_write_receipt (ms_pool m) seq false))
            end
      end
  end.

(** [pool_operator_post]. *)
Definition operator_entry (p : PoolRow) (message request_id : string) : EntryRow :=
  mk_entry 0 (pl_id p) AOperator None None None Team KMessage None None (pl_revision p) None None
    None message None None None "op" request_id.

Definition pool_operator_post (db : Db) (pool request_id message : string)
  : result (verdict PoolWriteReceipt) :=
  match first_where (λ p, pl_id p = pool) (db_pools db) with
  | None => Ok (Denied PoolNotFound)
  | Some p =>
      match prior_entry db pool "op" request_id with
      | Some e =>
          if bool_decide (entry_shape_of e = ShapeMessage message)
          then Ok (Accepted db (mk_write_receipt pool (Z.max (en_seq e) 0) true))
          else Ok (Denied DConflict)
      | None =>
          if bool_decide (pl_state p = Completed) then Ok (Denied PoolCompleted)
          else if chat_exhausted db pool message then Ok (Denied ChatBudgetExhausted)
          else
            let? (db, seq) := insert_entry db (operator_entry p message request_id) in
            let? db := fanout_entry db pool "" seq in
            Ok (Accepted db (mk_write_receipt pool seq false))
      end
  end.

(** ** Reads *)

(** [x as i64] of a [u64]. *)
Definition as_i64 (x : Z) : Z := if x <? 2 ^ 63 then x else x - 2 ^ 64.

Definition by_seq (x y : EntryRow) : Prop := en_seq x ≤ en_seq y.
#[global] Instance by_seq_dec : RelDecision by_seq.
Proof. intros x y. unfold by_seq. apply _. Defined.

(** The rows of one cursor page, one more than the limit, in query order. *)
Definition page_rows (db : Db) (pool : string) (after_seq : Z) (before_seq : option Z) (limit : Z)
  : list EntryRow :=
  take (Z.to_nat (limit + 1))
    (match before_seq with
     | Some before =>
         reverse (merge_sort by_seq
                    (filter (λ e, en_pool e = pool ∧ en_seq e < as_i64 before) (db_entries db)))
     | None =>
         merge_sort by_seq
           (filter (λ e, en_pool e = pool ∧ as_i64 after_seq < en_seq e) (db_entries db))
     end).

(** One member of the derived status. *)
Record MemberStatus := mk_member_status {
  mt_name : string;
  mt_role : string;
  mt_agent : string;
  mt_slot : Z;
  mt_tip_status : Status;
  mt_cleanup : bool;
  mt_vote : option VoteDecision;
  mt_why : Why;
  mt_enrollment : option EnrollmentState;
}.

Definition mt_counts (m : MemberStatus) : bool := bool_decide (mt_why m = Valid).

Record PoolStatus := mk_status {
  st_state : PoolState;
  st_revision : Z;
  st_goal : string;
  st_criteria : list (string * string);
  st_proposal : option (Z * string * Z);      (* seq, snapshot, roster revision *)
  st_members : list MemberStatus;
  st_replaced : list MemberRow;
  st_agreed : bool;
}.

Definition retired_le (x y : MemberRow) : Prop :=
  mb_slot x < mb_slot y ∨ (mb_slot x = mb_slot y ∧ mb_joined_revision x ≤ mb_joined_revision y).
#[global] Instance retired_le_dec : RelDecision retired_le.
Proof. intros x y. unfold retired_le. apply _. Defined.

(** The seats that were replaced. *)
Definition retired_seats (db : Db) (pool : string) : list MemberRow :=
  merge_sort retired_le
    (filter (λ m, mb_pool m = pool ∧ mb_replaced_by m ≠ None) (db_members db)).

(** A member as the completion record froze it. *)
Definition frozen_member (m : CompletionMember) : MemberStatus :=
  mk_member_status (cmp_name m) (cmp_role m) (cmp_agent m) (cmp_slot m) Succeeded true (Some Ready)
    Valid None.

(** [frozen_status]: the record behind the pool's completion delivery.  That
    delivery is only ever linked to a [pool_completed] event, so an event of
    another kind is not distinguished from a missing one. *)
Definition frozen_status (db : Db) (pool : string) : option PoolStatus :=
  match first_where (λ p, pl_id p = pool) (db_pools db) with
  | None => None
  | Some p =>
      match first_where (λ d, Some (dl_id d) = pl_delivery p) (db_deliveries db) with
      | None => None
      | Some d =>
          match first_where (λ e, Some (ev_no e) = dl_event d) (db_events db) with
          | None => None
          | Some e =>
              match completion_record (ev_data e) with
              | None => None
              | Some r =>
                  Some (mk_status Completed (cr_revision r) (cr_goal r)
                          (criteria_of (cr_acceptance r))
                          (Some (cr_proposal r, cr_snapshot r, cr_revision r))
                          (map frozen_member (cr_members r)) (retired_seats db pool) true)
              end
          end
      end
  end.

(** One seat of the loop of [pool_status]. *)
Definition member_status (db : Db) (p : PoolRow) (proposal : option EntryRow) (m : MemberRow)
  : result MemberStatus :=
  let? tip := tip_of db (mb_agent m) in
  let? tip_status := agent_status db tip in
  let '(vote, why) :=
    match proposal with
    | None => (None, NoProposal)
    | Some e =>
        vote_validity (latest_vote db (pl_id p) (mb_agent m) (Z.max (en_seq e) 0)) (pl_revision p)
          (en_revision e) tip tip_status
    end in
  Ok (mk_member_status (mb_name m) (mb_role m) (mb_agent m) (mb_slot m) tip_status
        (lineage_cleanup_complete db (mb_agent m)) vote
        (if join_pending db (mb_agent m) then JoinPending else why)
        (enrollment_view db (mb_agent m))).

(** [pool_status]. *)
Definition pool_status (db : Db) (pool : string) : result PoolStatus :=
  let? p := row (first_where (λ p, pl_id p = pool) (db_pools db)) in
  match (if bool_decide (pl_state p = Completed) then frozen_status db pool else None) with
  | Some frozen => Ok frozen
  | None =>
      let proposal := current_proposal db pool in
      let? members := traverse (member_status db p proposal) (current_seats db pool) in
      Ok (mk_status (pl_state p) (pl_revision p) (pl_goal p) (criteria_of (pl_acceptance p))
            (option_map (λ e, (Z.max (en_seq e) 0, default ""%string (en_snapshot e), en_revision e))
               proposal)
            members (retired_seats db pool)
            (is_some proposal && forallb mt_counts members))
  end.

Inductive Activity :=
  | ActCompleted | ActRunning | ActStopping | ActCancelled | ActSettling | ActNeedsAction.
#[global] Instance activity_eq_dec : EqDecision Activity.
Proof. solve_decision. Defined.

(** [pool_activity]. *)
Definition pool_activity (s : PoolStatus) : Activity :=
  let tips := map mt_tip_status (st_members s) in
  if existsb (λ m, bool_decide (mt_enrollment m = Some ENeedsAction)) (st_members s)
  then ActNeedsAction
  else if bool_decide (st_state s = Completed) then ActCompleted
  else if bool_decide (st_members s = []) then ActNeedsAction
  else if existsb (λ t, negb (Status.terminal t)) tips then ActRunning
  else if existsb (λ m, negb (mt_cleanup m)) (st_members s) then ActStopping
  else if forallb (λ t, bool_decide (t = Cancelled)) tips then ActCancelled
  else if forallb (λ t, bool_decide (t = Succeeded)) tips && st_agreed s then ActSettling
  else ActNeedsAction.

(** A page: the delivery projection ([pool_delivery_view]) is left out. *)
Record Page := mk_page {
  pg_pool : string;
  pg_log_revision : Z;
  pg_entries : list PoolEntryView;
  pg_next_cursor : option Z;
  pg_last_seq : option Z;
  pg_complete : bool;
  pg_activity : Activity;
  pg_status : PoolStatus;
}.

(** [COALESCE(MAX(seq),0)]. *)
Definition log_revision (db : Db) (pool : string) : Z :=
  match best_by seq_le (filter (λ e, en_pool e = pool) (db_entries db)) with
  | Some e => en_seq e
  | None => 0
  end.

(** One entry of a page must satisfy the domain contract. *)
Definition check_view (v : PoolEntryView) : result () :=
  match view_validate v with
  | Ok _ => Ok ()
  | Err e => Err (Integrity ("pool entry is invalid: " +:+ display e))
  end.

(** [read_page]. *)
Definition read_page (db : Db) (pool : string) (after_seq : Z) (before_seq : option Z) (limit : Z)
  : result Page :=
  let? status := pool_status db pool in
  let rows := map entry_view (page_rows db pool after_seq before_seq limit) in
  let complete := Z.of_nat (length rows) <=? limit in
  let entries := take (Z.to_nat limit) rows in
  let entries := if is_some before_seq then reverse entries else entries in
  try? traverse check_view entries;
  let next_cursor :=
    if complete then None
    else if is_some before_seq then option_map ev_seq (head entries)
    else option_map ev_seq (last entries) in
  Ok (mk_page pool (log_revision db pool) entries next_cursor (option_map ev_seq (last entries))
        complete (pool_activity status) status).

(** [pool_read]: a page of the caller's own pool, with the acknowledgement key
    of the caller's enrollment when it has one. *)
Definition pool_read (db : Db) (run_id attempt_id token : string) (after_seq : Z)
  (before_seq : option Z) (limit : Z) (now : f64)
  : result (PoolDenial + Page * option (EnrollmentState * string)) :=
  let? member := authenticated_member db run_id attempt_id token now in
  match member with
  | None => Ok (inl NotPoolMemberRead)
  | Some m =>
      let? page := read_page db (ms_pool m) after_seq before_seq limit in
      let challenge :=
        first_where (λ j, er_agent j = ms_seat m ∧ er_run j = run_id ∧ er_attempt j = attempt_id)
          (db_enrollments db) in
      Ok (inr (page, option_map (λ j, (er_state j, er_challenge j)) challenge))
  end.

(** [pool_operator_read]. *)
Definition pool_operator_read (db : Db) (pool : string) (after_seq : Z) (before_seq : option Z)
  (limit : Z) : result (PoolDenial + Page) :=
  if negb (exists_where (λ p, pl_id p = pool) (db_pools db)) then Ok (inl PoolNotFound)
  else let? page := read_page db pool after_seq before_seq limit in Ok (inr page).

(** [pool_has_entries_after]. *)
Definition pool_has_entries_after (db : Db) (run_id attempt_id token : string) (after_seq : Z)
  (now : f64) : result (PoolDenial + bool) :=
  let? member := authenticated_member db run_id attempt_id token now in
  match member with
  | None => Ok (inl NotPoolMemberRead)
  | Some m =>
      Ok (inr (exists_where (λ e, en_pool e = ms_pool m ∧ as_i64 after_seq < en_seq e)
                 (db_entries db)))
  end.
End pool_log.
