(* ===== verification/PoolWrites.v ===== *)
(** * What a pool write does

    Theorems on [pool_write]: one stamped entry per accepted write, exact
    replay, the budgets, and the absence of storage failures on a well-formed
    state. *)

From S2P Require Import Prelude Text Float64 Canonical Lifecycle Requests PoolDomain.
From S2P Require Import Tables Demo Roster World WorkerStore ServiceRestart PoolEnrollment.
From S2P Require Import History PoolLog.

Section pool_writes.
Context `{Sha256, Serde}.

(** ** Authentication *)

(** What an authenticated membership rests on. *)
Record acting (db : Db) (run_id attempt_id : string) (m : Membership) : Prop := {
  act_agent : ∃ a, a ∈ db_agents db ∧ ag_id a = run_id;
  act_attempt : ∃ t, t ∈ db_attempts db ∧ live_attempt run_id attempt_id t ∧ at_state t = "running"%string;
  act_open : closing db attempt_id = false;
  act_seat : ∃ r p, r ∈ db_members db ∧ p ∈ db_pools db ∧ mb_replaced_by r = None ∧
               mb_pool r = pl_id p ∧
               m = mk_membership (mb_agent r) (pl_id p) (mb_name r) (mb_role r) (pl_revision p)
                     (pl_state p) (criteria_of (pl_acceptance p));
}.

Lemma authenticated_member_acting db run_id attempt_id token now m :
  authenticated_member db run_id attempt_id token now = Ok (Some m) →
  acting db run_id attempt_id m.
Proof.
  unfold authenticated_member. intros E. run E.
  rename select (authenticate_attempt _ _ _ _ _ = _) into Ea.
  rename select (ok_or _ _ = _) into Eo. match type of Eo with ok_or _ ?o = _ => destruct o as [auth|]; [|done] end.
  injection Eo as ->. to_prop.
  pose proof (authenticate_running _ _ _ _ _ _ Ea) as Hopen.
  apply authenticate_attempt_Some in Ea
    as (_ & t & c & x & ? & ? & _ & _ & _ & ? & ? & _ & _ & _ & Er).
  apply membership_Some in E as (r & p & ? & ? & ? & <- & ? & ->).
  rewrite Er in Hopen. rename select (au_running _ = true) into Hr. rewrite Er in Hr. 
  pose proof Hr as Hr'. to_prop. split; eauto 10.
Qed.

Lemma authenticated_member_root db run_id attempt_id token now m :
  authenticated_member db run_id attempt_id token now = Ok (Some m) →
  resolve_root db run_id = Ok (ms_seat m).
Proof.
  unfold authenticated_member. intros E. run E.
  rename select (authenticate_attempt _ _ _ _ _ = _) into Ea.
  rename select (ok_or _ _ = _) into Eo.
  match type of Eo with ok_or _ ?o = _ => destruct o as [auth|]; [|done] end.
  injection Eo as ->.
  apply authenticate_attempt_Some in Ea as (_ & t & c & x & _ & _ & _ & _ & _ & _ & _ & _ & -> & _).
  by apply membership_Some in E as (r & p & _ & _ & _ & <- & _ & ->).
Qed.

(** ** The entry of a write *)

Definition write_entry (m : Membership) (run_id attempt_id : string) (w : PoolWrite) : EntryRow :=
  match w with
  | WMessage input =>
      member_entry m run_id attempt_id KMessage None None None None (pm_message input)
        (pm_request_id input)
  | WProposal input =>
      member_entry m run_id attempt_id KProposal None None None (Some (pr_snapshot input))
        (pr_message input) (pr_request_id input)
  | WVote input =>
      member_entry m run_id attempt_id (write_kind w) (Some (vo_proposal_seq input))
        (decision_column (vo_decision input)) (checks_column (vo_checks input)) None
        (default NO_NOTE (vo_message input)) (vo_request_id input)
  end.

(** The budget a write was admitted under. *)
Definition admitted (db : Db) (m : Membership) (ack : bool) (w : PoolWrite) : Prop :=
  match w with
  | WMessage input =>
      ack = true ∨ (chat_rows db (ms_pool m) < CHAT_ROW_BUDGET ∧
                    chat_bytes db (ms_pool m) + len (pm_message input) ≤ CHAT_BYTE_BUDGET)
  | WProposal _ => count_where (is_proposal (ms_pool m)) (db_entries db) < PROPOSAL_BUDGET
  | WVote input =>
      ∃ e, current_proposal db (ms_pool m) = Some e ∧
        vo_proposal_seq input = Z.max (en_seq e) 0 ∧
        (vo_decision input = Ready → covers (ms_acceptance m) (vo_checks input) = true) ∧
        let spent := count_where (is_vote_on (ms_pool m) (ms_seat m) (vo_proposal_seq input))
                       (db_entries db) in
        spent < VOTE_ROW_BUDGET ∧ (spent = VOTE_ROW_BUDGET - 1 → vo_decision input ≠ Ready)
  end.

Lemma append_write_cases db m run_id attempt_id ack w :
  (∃ d, append_write db m run_id attempt_id ack w = Ok (inl d)) ∨
  admitted db m ack w ∧
  append_write db m run_id attempt_id ack w =
    appended (append_entry db (write_entry m run_id attempt_id w)).
Proof.
  destruct w as [i|i|i]; cbn [append_write write_entry admitted].
  - destruct ack; [right; auto|]. unfold append_message.
    destruct (chat_exhausted _ _ _) eqn:E; [left; eauto|]. unfold chat_exhausted in E. to_prop.
    right. split; [right; lia|done].
  - unfold append_proposal. destruct (_ <=? _) eqn:E; [left; eauto|]. to_prop. right. done.
  - unfold append_vote. destruct (current_proposal _ _) as [e|] eqn:Ec; [|left; eauto].
    destruct (negb _) eqn:E; [left; eauto|]. to_prop. rewrite <-E.
    destruct (bool_decide _ && _) eqn:E2; [left; eauto|].
    destruct (_ || _) eqn:E3; [left; eauto|]. to_prop. right. split; [|done].
    exists e. split; [done|]. split; [done|]. split; [|split; [done|]].
    + intros Hr. apply andb_false_iff in E2 as [E2|E2]; to_prop; done.
    + intros Hs Hr. match goal with E : _ && _ = false |- _ =>
        apply andb_false_iff in E as [?|?]; to_prop; done end.
Qed.

Lemma bounded_text_label l1 l2 text max :
  bounded_text l1 text max = Ok () → bounded_text l2 text max = Ok ().
Proof. by rewrite !bounded_text_Ok. Qed.

Lemma vote_validate_Ok v :
  pool_vote_validate v = Ok () →
  request_key (vo_request_id v) = Ok () ∧
  (vo_decision v = DRevoke → vo_checks v = []) ∧
  (vo_decision v = Ready → vo_checks v ≠ []) ∧
  (∃ n, checks_json_len (vo_checks v) = Some n ∧ n ≤ 16384) ∧
  bounded_text "body" (default NO_NOTE (vo_message v)) MAX_BODY_BYTES = Ok ().
Proof.
  unfold pool_vote_validate. intros E. run E. repeat match goal with x : () |- _ => destruct x end.
  destruct (checks_json_len (vo_checks v)) as [n|]; [|done].
  rename select (ok_or _ _ = _) into Ej. injection Ej as ->. to_prop.
  split; [done|]. split; [|split; [|split]].
  - intros Hd. rename select (bool_decide _ && negb _ = false) into Ed.
    apply andb_false_iff in Ed as [?|?]; to_prop; done.
  - intros Hd. rename select (bool_decide _ && bool_decide _ = false) into Ed.
    apply andb_false_iff in Ed as [?|?]; to_prop; done.
  - eexists. split; [done|]. unfold MAX_CHECKS_JSON_BYTES in *. lia.
  - destruct (vo_message v) as [note|]; simpl in *; [by eapply bounded_text_label|].
    by vm_compute.
Qed.

(** The fields every member entry shares. *)
Lemma member_insertable db run_id attempt_id m kind proposal decision checks snapshot body key :
  wf db → acting db run_id attempt_id m →
  prior_entry db (ms_pool m) run_id key = None →
  request_key key = Ok () → bounded_text "body" body MAX_BODY_BYTES = Ok () →
  entry_shape AMember Team kind None proposal decision →
  match snapshot with
  | Some s => kind = KProposal ∧ len s ≤ 65536
  | None => kind ≠ KProposal
  end →
  (∀ cs, checks = Some cs → kind = KVote ∧ ∃ n, checks_json_len cs = Some n ∧ n ≤ 16384) →
  (∀ q, proposal = Some q →
     ∃ x, x ∈ db_entries db ∧ is_proposal (ms_pool m) x ∧ en_seq x = q) →
  insertable db
    (member_entry m run_id attempt_id kind proposal decision checks snapshot body key).
Proof.
  intros Hw [(a & Ha & <-) (t & Ht & [Hid _] & _) _ (r & p & Hr & Hp & Hn & Hrp & ->)] Hprior Hk Hb Hsh
    Hsn Hck Hv.
  pose proof (wf_members _ Hw r Hr) as [_ (a' & Ha' & Ea') Hname Hrole _].
  pose proof (wf_agents _ Hw a Ha) as [Hkey Hlen].
  pose proof (wf_agents _ Hw a' Ha') as [Hkey' _]. rewrite Ea' in Hkey'.
  split; simpl; eauto; try done.
  - by apply (wf_pools _ Hw).
  - intros q Hq Eq. by rewrite (primary_key pl_id _ q p (keys_pools _ (wf_keys _ Hw)) Hq Hp Eq).
  - split; [by apply label_is_ok|]. split; [by apply label_is_ok|by apply key_external].
  - intros ? [= <-]. eauto.
  - exists (ag_id a), attempt_id. repeat split; eauto.
  - split; [by apply key_utf8|]. apply request_key_Ok in Hkey. lia.
  - exact (proj1 (first_where_None _ _) Hprior).
Qed.

Lemma write_insertable db run_id attempt_id m ack w :
  wf db → acting db run_id attempt_id m → write_validate w = Ok () →
  prior_entry db (ms_pool m) run_id (write_request_id w) = None → admitted db m ack w →
  insertable db (write_entry m run_id attempt_id w).
Proof.
  intros Hw Hact Hval Hprior Hadm. destruct w as [i|i|i]; cbn [write_entry write_kind].
  - cbn in Hval. unfold pool_message_validate in Hval. run Hval.
    apply member_insertable; eauto; try done; [by destruct a|by eapply bounded_text_label|].
    by constructor.
  - cbn in Hval. unfold pool_propose_validate in Hval. run Hval.
    repeat match goal with x : () |- _ => destruct x end.
    apply member_insertable; eauto; try done; [by eapply bounded_text_label|by constructor|].
    split; [done|]. by apply bounded_text_Ok in Hval as (_ & ? & _).
  - apply vote_validate_Ok in Hval as (Hk & Hrev & Hready & Hjson & Hbody).
    destruct Hadm as (e & He & Hseq & _). apply current_proposal_Some in He as [Hin Hprop].
    destruct (keys_entry_counter _ (wf_keys _ Hw) e Hin) as [Hpos _].
    assert (en_seq e = vo_proposal_seq i) as Eseq by lia.
    apply member_insertable; try done.
    + destruct (vo_decision i) eqn:Ed; simpl; constructor; try done; lia.
    + by destruct (vo_decision i).
    + intros cs Hcs. unfold checks_column in Hcs.
      destruct (vo_checks i) as [|c cs'] eqn:Ec; simplify_eq.
      split; [|done]. destruct (vo_decision i); [done..|]. by discriminate Hrev.
    + intros ? [= <-]. eauto.
Qed.

(** ** Accepted writes *)

Lemma append_entry_Ok db e db' seq :
  append_entry db e = Ok (db', seq) → seq = db_entry_seq db + 1 ∧ db' = with_entry db e.
Proof.
  unfold append_entry. destruct (insert_entry db e) as [[d q]|[]] eqn:E; try done.
  - intros [= <- <-]. by apply insert_entry_Ok in E as (-> & _ & _ & ->).
  - intros Hx. by run Hx.
Qed.

(** Withdrawing a notice that waits. *)
Lemma withdrawn_rescheduled P `{∀ d, Decision (P d)} l :
  Forall2 rescheduled l
    (update_where (λ d, P d ∧ (dl_state d = DPending ∨ dl_state d = WaitingBinding ∨ dl_state d = DRetryWait))
       cancelled_delivery l).
Proof.
  apply Forall2_update; [apply _|]. intros d _ [_ Hs]. split; try done. right. split; [|by right].
  unfold waits. tauto.
Qed.

Lemma acknowledge_frame db root seq db' :
  acknowledge db root seq = Ok db' →
  ∃ ds, db' = set_deliveries ds
                (set_enrollments
                   (update_where (λ j, er_agent j = root ∧ er_state j ≠ EJoined) (joined seq)
                      (db_enrollments db)) db) ∧
        Forall2 rescheduled (db_deliveries db) ds.
Proof.
  unfold acknowledge. intros E. run E. eexists. split; [done|]. apply withdrawn_rescheduled.
Qed.

(** The committed effect of a fresh write. *)
Record fresh_write (db : Db) (run_id attempt_id : string) (w : PoolWrite) (now : f64)
  (m : Membership) (ack : bool) (db' : Db) : Prop := {
  fw_state : ms_state m = Open;
  fw_valid : write_validate w = Ok ();
  fw_prior : prior_entry db (ms_pool m) run_id (write_request_id w) = None;
  fw_ack : ack_allowed db (ms_seat m) run_id attempt_id
             (match w with WMessage input => Some (pm_request_id input) | _ => None end) = Ok ack;
  fw_admitted : admitted db m ack w;
  fw_tables :
    ∃ js ds commands counter,
      (if ack
       then js = update_where (λ j, er_agent j = ms_seat m ∧ er_state j ≠ EJoined)
                   (joined (db_entry_seq db + 1)) (db_enrollments db) ∧
            Forall2 rescheduled (db_deliveries db) ds
       else js = db_enrollments db ∧ ds = db_deliveries db) ∧
      db' = set_command_seq counter (set_commands commands
              (fst (tx_event
                 (set_deliveries ds (set_enrollments js
                    (with_entry db (write_entry m run_id attempt_id w))))
                 run_id now (EPoolEntry (db_entry_seq db + 1) (write_kind w)))));
}.

Lemma pool_write_tx_Accepted db run_id attempt_id token w now db' r :
  pool_write_tx db run_id attempt_id token w now = Ok (Accepted db' r) →
  ∃ m, authenticated_member db run_id attempt_id token now = Ok (Some m) ∧
    wr_pool r = ms_pool m ∧
    ((wr_duplicate r = true ∧ db' = db ∧
      ∃ e, prior_entry db (ms_pool m) run_id (write_request_id w) = Some e ∧
           entry_shape_of e = write_shape w ∧ wr_seq r = Z.max (en_seq e) 0) ∨
     (wr_duplicate r = false ∧ wr_seq r = db_entry_seq db + 1 ∧
      ∃ ack, fresh_write db run_id attempt_id w now m ack db')).
Proof.
  unfold pool_write_tx. intros E.
  destruct (authenticated_member _ _ _ _ _) as [[m|]|] eqn:Ea; try done. exists m. split; [done|].
  destruct (validate_ack_replay _ _ _ _ _ _); [|done].
  destruct (prior_entry _ _ _ _) as [e|] eqn:Ep.
  { destruct (bool_decide _) eqn:Es; [|done]. injection E as <- <-. to_prop. split; [done|].
    left. eauto 10. }
  destruct (bool_decide (ms_state m = Completed)) eqn:Est; [done|]. to_prop.
  destruct (write_validate w) as [[]|] eqn:Ev; [|done].
  destruct (ack_allowed _ _ _ _ _) as [ack|] eqn:Eack; [|done].
  destruct (append_write_cases db m run_id attempt_id ack w) as [[d Ed]|[Hadm Eapp]].
  { by rewrite Ed in E. }
  rewrite Eapp in E. unfold appended in E.
  destruct (append_entry _ _) as [[d seq]|] eqn:Ei; [|done].
  apply append_entry_Ok in Ei as [-> ->].
  match type of E with match ?x with _ => _ end = _ => destruct x as [d2|] eqn:Eacked; [|done] end.
  simpl in E. destruct (fanout_entry _ _ _ _) as [d3|] eqn:Ef; [|done].
  injection E as <- <-. split; [done|]. right. do 2 (split; [done|]). exists ack.
  apply fanout_entry_frame in Ef as (c & l & ->). split; try done.
  { by destruct (ms_state m). }
  destruct ack.
  - apply acknowledge_frame in Eacked as (ds & -> & Hds). eexists _, ds, l, c. by split.
  - injection Eacked as <-. exists (db_enrollments db), (db_deliveries db), l, c. done.
Qed.

(** ** No storage failures *)

Lemma authenticated_member_Err db run_id attempt_id token now e :
  authenticated_member db run_id attempt_id token now = Err e → ∃ msg, e = Validation msg.
Proof.
  unfold authenticated_member, input_credentials. intros E. run E; eauto.
  - rename select (ok_or _ _ = _) into Eo. destruct a0; simplify_eq/=. eauto.
  - rename select (authenticate_attempt _ _ _ _ _ = _) into Ea. unfold authenticate_attempt in Ea.
    run Ea. unfold resolve_root in *.
    rename select (first_where (λ a, ag_id a = _ ∧ _) _ = Some _) into Ef.
    apply first_where_Some in Ef as [[Ei _] Hin].
    destruct (first_where_is_Some (λ a, ag_id a = run_id) (db_agents db) _ Hin Ei) as [x Ex].
    rewrite Ex in *. done.
  - destruct (_ || _); simplify_eq. eauto.
Qed.

Lemma ack_allowed_true db root run attempt request :
  ack_allowed db root run attempt request = Ok true →
  ∃ j, j ∈ db_enrollments db ∧ er_agent j = root ∧ er_state j ≠ EJoined ∧ er_run j = run ∧
    er_attempt j = attempt ∧ request = Some (er_challenge j).
Proof.
  unfold ack_allowed. intros E. run E.
  rename select (first_where _ _ = _) into Ef. apply first_where_Some in Ef as [? ?].
  to_prop. eauto 10.
Qed.

Lemma acknowledge_total db root seq j :
  NoDup (map er_agent (db_enrollments db)) → j ∈ db_enrollments db → er_agent j = root →
  er_state j ≠ EJoined → ∃ db', acknowledge db root seq = Ok db'.
Proof.
  intros Hn Hj <- Hs. unfold acknowledge.
  rewrite (count_where_key er_agent (λ j, er_state j ≠ EJoined)) by done. simpl. eauto.
Qed.

Lemma fanout_total db pool sender seq :
  wf db → ∃ db', fanout_entry db pool sender seq = Ok db'.
Proof.
  intros Hw. rewrite fanout_entry_eq.
  destruct (live_tips_total db (recipients db pool sender)) as [tips ->]; [| |eauto].
  - apply (keys_agents _ (wf_keys _ Hw)).
  - intros s (m & -> & [_ Hin]%list_elem_of_filter)%list_elem_of_fmap.
    destruct (seat_agent _ _ (wf_members _ Hw m Hin)) as (a & ? & ?).
    exists a. split; [done|]. by right.
Qed.

Lemma ack_is_message db root run attempt w ack :
  ack_allowed db root run attempt
    (match w with WMessage input => Some (pm_request_id input) | _ => None end) = Ok ack →
  ack = true → ∃ input, w = WMessage input.
Proof.
  intros E ->. apply ack_allowed_true in E as (j & _ & _ & _ & _ & _ & E). destruct w; eauto; done.
Qed.

(** An acknowledged state is still well formed. *)
Lemma wf_tables db js ds :
  wf db → NoDup (map er_agent js) → wf (set_deliveries ds (set_enrollments js db)).
Proof.
  intros [[] ? ? ? Hm ? ? ? ? ? ? ?] Hj. split; try done. intros m Hin. by destruct (Hm m Hin).
Qed.

Lemma wf_event db agent now data : wf db → wf (fst (tx_event db agent now data)).
Proof.
  intros [[] ? ? ? Hm ? ? ? ? ? ? ?]. split; try done. intros m Hin. by destruct (Hm m Hin).
Qed.

Lemma wf_commands db c l : wf db → wf (set_command_seq c (set_commands l db)).
Proof.
  intros [[] ? ? ? Hm ? ? ? ? ? ? ?]. split; try done. intros m Hin. by destruct (Hm m Hin).
Qed.

Lemma joined_keys P `{∀ j, Decision (P j)} seq js :
  map er_agent (update_where P (joined seq) js) = map er_agent js.
Proof. by apply map_update_where. Qed.

Lemma bounded_text_Err label text max e : bounded_text label text max = Err e → ∃ msg, e = Validation msg.
Proof. unfold bounded_text. intros E. run E. eauto. Qed.

Lemma request_key_Err key e : request_key key = Err e → ∃ msg, e = Validation msg.
Proof. unfold request_key. intros E. run E. eauto. Qed.

Lemma check_loop_Err ids cs e : try_fold check_step ids cs = Err e → ∃ msg, e = Validation msg.
Proof.
  revert ids. induction cs as [|c cs IH]; intros ids; simpl; [done|].
  destruct (check_step ids c) as [ids'|e'] eqn:Ec; [by apply IH|]. intros [= ->].
  unfold check_step, invalid in Ec. run Ec; eauto using bounded_text_Err, request_key_Err.
Qed.

Lemma write_validate_Err w e : write_validate w = Err e → ∃ msg, e = Validation msg.
Proof.
  destruct w as [i|i|i]; simpl; unfold pool_message_validate, pool_propose_validate,
    pool_vote_validate, invalid; intros E; run E;
    eauto using bounded_text_Err, request_key_Err, check_loop_Err.
  - destruct (vo_message i); simpl in *; [eauto using bounded_text_Err|done].
  - destruct (checks_json_len _); simplify_eq/=. eauto.
Qed.

(** C28: On a well-formed state a pool write never fails in storage: every
    error it returns is the refusal of an invalid credential, an invalid input
    or a foreign acknowledgement key.  No constraint of the log table is ever
    reported as a conflict, and the fan-out reaches every seat's execution. *)
Theorem pool_write_errors_are_refusals db run_id attempt_id token w now e :
  wf db → pool_write_tx db run_id attempt_id token w now = Err e → ∃ msg, e = Validation msg.
Proof.
  intros Hw. unfold pool_write_tx. intros E.
  destruct (authenticated_member _ _ _ _ _) as [[m|]|] eqn:Ea; [|done|].
  2: { injection E as ->. by eapply authenticated_member_Err. }
  apply authenticated_member_acting in Ea.
  destruct (validate_ack_replay _ _ _ _ _ _) eqn:Er.
  2: { injection E as <-. unfold validate_ack_replay in Er. run Er. unfold invalid in *. eauto. }
  destruct (prior_entry _ _ _ _) as [x|] eqn:Ep; [by run E|].
  destruct (bool_decide _); [done|].
  destruct (write_validate w) as [[]|] eqn:Ev.
  2: { injection E as ->. by apply write_validate_Err in Ev. }
  destruct (ack_allowed _ _ _ _ _) as [ack|] eqn:Eack.
  2: { injection E as <-. unfold ack_allowed in Eack. run Eack; unfold invalid in *; eauto. }
  destruct (append_write_cases db m run_id attempt_id ack w) as [[d Ed]|[Hadm Eapp]].
  { by rewrite Ed in E. }
  pose proof (write_insertable _ _ _ _ _ _ Hw Ea Ev Ep Hadm) as Hi.
  rewrite Eapp in E. unfold appended, append_entry in E. rewrite insert_insertable in E by done.
  pose proof (wf_with_entry _ _ Hw Hi) as Hw1.
  exfalso. destruct ack.
  - apply ack_allowed_true in Eack as (j & Hj & Hja & Hjs & _).
    destruct (acknowledge_total (with_entry db (write_entry m run_id attempt_id w)) (ms_seat m)
                (db_entry_seq db + 1) j) as [d2 Ed2]; [apply (keys_enrollments _ (wf_keys _ Hw1))|done..|].
    rewrite Ed2 in E. apply acknowledge_frame in Ed2 as (ds & -> & _).
    match type of E with context [tx_event ?d ?a ?n ?x] =>
      destruct (fanout_total (fst (tx_event d a n x)) (ms_pool m) (ms_seat m)
                  (db_entry_seq db + 1)) as [d3 Ed3]
    end.
    + apply wf_event, wf_tables; [done|]. rewrite joined_keys. apply (keys_enrollments _ (wf_keys _ Hw1)).
    + rewrite (surjective_pairing (tx_event _ _ _ _)), Ed3 in E. done.
  - destruct (fanout_total (fst (tx_event (with_entry db (write_entry m run_id attempt_id w)) run_id now
                (EPoolEntry (db_entry_seq db + 1) (write_kind w)))) (ms_pool m) (ms_seat m)
                (db_entry_seq db + 1)) as [d3 Ed3]; [by apply wf_event|].
    rewrite (surjective_pairing (tx_event _ _ _ _)), Ed3 in E. done.
Qed.

Lemma fresh_write_wf db run_id attempt_id w now m ack db' :
  wf db → acting db run_id attempt_id m → fresh_write db run_id attempt_id w now m ack db' → wf db'.
Proof.
  intros Hw Hact [Hst Hval Hprior Hack Hadm (js & ds & l & c & Hjs & ->)].
  pose proof (write_insertable _ _ _ _ _ _ Hw Hact Hval Hprior Hadm) as Hi.
  apply wf_commands, wf_event, wf_tables; [by apply wf_with_entry|].
  pose proof (keys_enrollments _ (wf_keys _ Hw)) as Hn.
  destruct ack; destruct Hjs as [-> _]; by rewrite ?joined_keys.
Qed.

Lemma pool_write_tx_wf db run_id attempt_id token w now db' r :
  wf db → pool_write_tx db run_id attempt_id token w now = Ok (Accepted db' r) → wf db'.
Proof.
  intros Hw (m & Ha & _ & [(_ & -> & _)|(_ & _ & ack & Hf)])%pool_write_tx_Accepted; [done|].
  apply authenticated_member_acting in Ha. by eapply fresh_write_wf.
Qed.

(** ** Attribution *)

Definition write_body (w : PoolWrite) : string :=
  match w with
  | WMessage i => pm_message i
  | WProposal i => pr_message i
  | WVote i => default NO_NOTE (vo_message i)
  end.

(** An accepted fresh write appends exactly one entry, at the end of the
    log and under the next sequence number, to the open pool in which the
    caller's lineage holds a current seat; author, name, role and roster
    revision come from that seat and pool, never from the request.  Agents,
    attempts, capabilities, seats and pools stay as they are. *)
Theorem pool_write_stamps_author db run_id attempt_id token w now db' r :
  pool_write_tx db run_id attempt_id token w now = Ok (Accepted db' r) → wr_duplicate r = false →
  ∃ seat p e,
    seat ∈ db_members db ∧ mb_replaced_by seat = None ∧ p ∈ db_pools db ∧ mb_pool seat = pl_id p ∧
    resolve_root db run_id = Ok (mb_agent seat) ∧ pl_state p = Open ∧
    db_entries db' = db_entries db ++ [e] ∧
    en_seq e = db_entry_seq db + 1 ∧ wr_seq r = en_seq e ∧ wr_pool r = pl_id p ∧
    en_pool e = pl_id p ∧ en_author_kind e = AMember ∧ en_author_agent e = Some (mb_agent seat) ∧
    en_author_name e = Some (mb_name seat) ∧ en_author_role e = Some (mb_role seat) ∧
    en_revision e = pl_revision p ∧ en_sender_run e = Some run_id ∧
    en_sender_attempt e = Some attempt_id ∧ en_kind e = write_kind w ∧ en_body e = write_body w ∧
    db_agents db' = db_agents db ∧ db_attempts db' = db_attempts db ∧
    db_capabilities db' = db_capabilities db ∧ db_members db' = db_members db ∧
    db_pools db' = db_pools db.
Proof.
  intros (m & Ha & Hp & [(? & _)|(_ & Hs & ack & Hf)])%pool_write_tx_Accepted Hd; [congruence|].
  pose proof (authenticated_member_root _ _ _ _ _ _ Ha) as Hroot.
  apply authenticated_member_acting in Ha as [_ _ _ (seat & p & Hin & Hpin & Hcur & Hmp & ->)].
  destruct Hf as [Hst _ _ _ _ (js & ds & l & c & _ & ->)]. simpl in *.
  exists seat, p, (entry_with_seq (db_entry_seq db + 1)
                     (write_entry (mk_membership (mb_agent seat) (pl_id p) (mb_name seat)
                        (mb_role seat) (pl_revision p) (pl_state p)
                        (criteria_of (pl_acceptance p))) run_id attempt_id w)).
  destruct w; simpl; repeat split; auto.
Qed.

(** ** Replay *)

Definition is_message (w : PoolWrite) : bool := match w with WMessage _ => true | _ => false end.

Lemma write_entry_shape m run_id attempt_id w seq :
  entry_shape_of (entry_with_seq seq (write_entry m run_id attempt_id w)) = write_shape w.
Proof. by destruct w as [| |[? ? [] ? ?]]. Qed.

Lemma prior_entry_prefix db db' pool scope key e :
  prior_entry db pool scope key = Some e → db_entries db `prefix_of` db_entries db' →
  prior_entry db' pool scope key = Some e.
Proof. unfold prior_entry. intros E [l ->]. by rewrite first_where_app, E. Qed.

(** The entry behind an accepted receipt. *)
Lemma accepted_prior db run_id attempt_id token w now db' r :
  0 ≤ db_entry_seq db → pool_write_tx db run_id attempt_id token w now = Ok (Accepted db' r) →
  ∃ e, prior_entry db' (wr_pool r) run_id (write_request_id w) = Some e ∧
       entry_shape_of e = write_shape w ∧ Z.max (en_seq e) 0 = wr_seq r.
Proof.
  intros Hc (m & _ & -> & [(_ & -> & e & ? & ? & ?)|(_ & -> & ack & Hf)])%pool_write_tx_Accepted;
    [eauto|].
  destruct Hf as [_ _ Hp _ _ (js & ds & l & c & _ & ->)].
  exists (entry_with_seq (db_entry_seq db + 1) (write_entry m run_id attempt_id w)).
  split; [|split; [apply write_entry_shape|simpl; lia]].
  unfold prior_entry in *. simpl. rewrite first_where_app, Hp, first_where_cons, decide_True; [done|].
  by destruct w.
Qed.

(** C27: An idempotency key answers for good.  Once a write is accepted, every
    later call of the same execution under the same key, at any later state of
    the log and with any live attempt, returns the original sequence number and
    changes nothing when the content is the same, and is refused as a conflict
    when it differs, also after the pool has completed. *)
Theorem pool_write_replay db run_id attempt_id token w now db1 r db2 attempt' token' w' now' m :
  0 ≤ db_entry_seq db →
  pool_write_tx db run_id attempt_id token w now = Ok (Accepted db1 r) →
  db_entries db1 `prefix_of` db_entries db2 →
  authenticated_member db2 run_id attempt' token' now' = Ok (Some m) → ms_pool m = wr_pool r →
  write_request_id w' = write_request_id w →
  validate_ack_replay db2 (ms_seat m) run_id attempt' (write_request_id w') (is_message w') = Ok () →
  pool_write_tx db2 run_id attempt' token' w' now' =
    Ok (if bool_decide (write_shape w' = write_shape w)
        then Accepted db2 (mk_write_receipt (wr_pool r) (wr_seq r) true)
        else Denied DConflict).
Proof.
  intros Hc Hacc Hpre Ha Hm Hk Hv. destruct (accepted_prior _ _ _ _ _ _ _ _ Hc Hacc) as (e & Hp & Hs & Hq).
  unfold pool_write_tx. rewrite Ha. unfold is_message in Hv. rewrite Hv.
  rewrite Hm, Hk, (prior_entry_prefix _ _ _ _ _ _ Hp Hpre), Hs, Hq.
  rewrite (bool_decide_ext (write_shape w = write_shape w') (write_shape w' = write_shape w)) by done.
  by case_bool_decide.
Qed.

(** ** Budgets *)

(** The seats of the pool that have acknowledged their enrollment. *)
Definition acknowledged (db : Db) (pool : string) : Z :=
  count_where
    (λ j, er_state j = EJoined ∧
          exists_where (λ m, mb_agent m = er_agent j ∧ mb_pool m = pool) (db_members db) = true)
    (db_enrollments db).

Definition votes_on (db : Db) (pool seat : string) (q : Z) : Z :=
  count_where (is_vote_on pool seat q) (db_entries db).

Definition readies_on (db : Db) (pool seat : string) (q : Z) : Z :=
  count_where (λ e, is_vote_on pool seat q e ∧ en_decision e = Some Ready) (db_entries db).

Record within_budgets (db : Db) (pool : string) : Prop := {
  wb_proposals : count_where (is_proposal pool) (db_entries db) ≤ PROPOSAL_BUDGET;
  wb_votes : ∀ seat q, votes_on db pool seat q ≤ VOTE_ROW_BUDGET;
  wb_readies : ∀ seat q, readies_on db pool seat q ≤ VOTE_ROW_BUDGET - 1;
  wb_rows : chat_rows db pool ≤ CHAT_ROW_BUDGET + acknowledged db pool;
  wb_bytes : chat_bytes db pool ≤ CHAT_BYTE_BUDGET + MAX_BODY_BYTES * acknowledged db pool;
}.

(** The condition under which one more entry stays within the budgets. *)
Record affordable (db db' : Db) (pool : string) (e : EntryRow) : Prop := {
  af_proposal : is_proposal pool e →
                count_where (is_proposal pool) (db_entries db) < PROPOSAL_BUDGET;
  af_vote : ∀ seat q, is_vote_on pool seat q e →
              votes_on db pool seat q < VOTE_ROW_BUDGET ∧
              (en_decision e = Some Ready → votes_on db pool seat q < VOTE_ROW_BUDGET - 1);
  af_acks : acknowledged db pool ≤ acknowledged db' pool;
  af_chat : is_chat pool e →
              chat_rows db pool < CHAT_ROW_BUDGET ∧
              chat_bytes db pool + len (en_body e) ≤ CHAT_BYTE_BUDGET ∨
              acknowledged db pool + 1 ≤ acknowledged db' pool ∧ len (en_body e) ≤ MAX_BODY_BYTES;
}.

Lemma readies_votes db pool seat q : readies_on db pool seat q ≤ votes_on db pool seat q.
Proof.
  unfold readies_on, votes_on. generalize (db_entries db) as l. induction l as [|e l IH]; [done|].
  rewrite (count_where_app _ [e] l), (count_where_app (is_vote_on pool seat q) [e] l), !count_where_one.
  repeat case_decide; try lia. tauto.
Qed.

Lemma within_append db db' pool e :
  db_entries db' = db_entries db ++ [e] → affordable db db' pool e →
  within_budgets db pool → within_budgets db' pool.
Proof.
  intros He [Hp Hv Hk Hc] [Wp Wv Wr Ww Wb].
  assert (∀ seat q, votes_on db' pool seat q =
            votes_on db pool seat q + if decide (is_vote_on pool seat q e) then 1 else 0) as Ev.
  { intros. unfold votes_on. by rewrite He, count_where_app, count_where_one. }
  assert (0 ≤ acknowledged db' pool) by apply count_where_nonneg.
  split.
  - rewrite He, count_where_app, count_where_one. case_decide; [|lia].
    match goal with E : is_proposal _ _ |- _ => specialize (Hp E) end. lia.
  - intros seat q. rewrite Ev. specialize (Wv seat q). case_decide as Hd; [|lia].
    destruct (Hv _ _ Hd). lia.
  - intros seat q. unfold readies_on. rewrite He, count_where_app, count_where_one.
    fold (readies_on db pool seat q). pose proof (readies_votes db pool seat q).
    specialize (Wr seat q). case_decide as Hd; [|lia]. destruct Hd as [Hd Hr].
    destruct (Hv _ _ Hd) as [_ Hlt]. specialize (Hlt Hr). lia.
  - unfold chat_rows in *. rewrite He, count_where_app, count_where_one.
    case_decide as Hd; [|lia]. destruct (Hc Hd) as [[? _]|[? _]]; lia.
  - unfold chat_bytes in *. rewrite He, filter_app, sum_by_app, filter_cons, filter_nil.
    unfold MAX_BODY_BYTES in *. case_decide as Hd; simpl; [|lia].
    destruct (Hc Hd) as [[_ ?]|[? ?]]; lia.
Qed.

Lemma acknowledged_mono db db' pool P `{∀ j, Decision (P j)} seq :
  db_members db' = db_members db →
  db_enrollments db' = update_where P (joined seq) (db_enrollments db) →
  acknowledged db pool ≤ acknowledged db' pool.
Proof.
  intros Hm Hj. unfold acknowledged. rewrite Hm, Hj. apply count_where_update_mono.
  intros j [_ ?] _. done.
Qed.

Lemma acknowledged_more db db' pool seat seq m j :
  db_members db' = db_members db →
  db_enrollments db' = update_where (λ j, er_agent j = seat ∧ er_state j ≠ EJoined) (joined seq)
                         (db_enrollments db) →
  m ∈ db_members db → mb_agent m = seat → mb_pool m = pool →
  j ∈ db_enrollments db → er_agent j = seat → er_state j ≠ EJoined →
  acknowledged db pool + 1 ≤ acknowledged db' pool.
Proof.
  intros Hm Hj Hin <- <- Hjin Hja Hjs. unfold acknowledged. rewrite Hm, Hj.
  apply count_where_update_more with j; try done.
  - intros x [_ ?] _. done.
  - by intros [? _].
  - split; [done|]. apply exists_where_true. eauto.
Qed.

(** The effect of a fresh write on the tables the budgets count. *)
Lemma fresh_write_tables db run_id attempt_id w now m ack db' :
  fresh_write db run_id attempt_id w now m ack db' →
  db_entries db' =
    db_entries db ++ [entry_with_seq (db_entry_seq db + 1) (write_entry m run_id attempt_id w)] ∧
  db_members db' = db_members db ∧ db_pools db' = db_pools db ∧ db_agents db' = db_agents db ∧
  db_enrollments db' =
    if ack
    then update_where (λ j, er_agent j = ms_seat m ∧ er_state j ≠ EJoined)
           (joined (db_entry_seq db + 1)) (db_enrollments db)
    else db_enrollments db.
Proof.
  intros [_ _ _ _ _ (js & ds & l & c & Hjs & ->)]. simpl. repeat split.
  destruct ack; by destruct Hjs.
Qed.

Lemma fresh_write_affordable db run_id attempt_id w now m ack db' pool :
  acting db run_id attempt_id m → fresh_write db run_id attempt_id w now m ack db' →
  affordable db db' pool
    (entry_with_seq (db_entry_seq db + 1) (write_entry m run_id attempt_id w)).
Proof.
  intros Hact Hf. destruct (fresh_write_tables _ _ _ _ _ _ _ _ Hf) as (_ & Hm & _ & _ & Hj).
  destruct Hf as [_ Hval _ Hack Hadm _]. split.
  - destruct w as [i|i|[? ? [] ? ?]]; intros [<- Hk]; try done.
  - intros seat q (Hp & Hs & Hq & Hk). destruct w as [i|i|i]; try done.
    destruct Hadm as (e & _ & Eq & _ & Hlt & Hlast). simpl in Hp, Hs, Hq. simplify_eq.
    unfold votes_on. split; [done|]. intros Hr. cbn in Hr.
    assert (vo_decision i = Ready) as Hd by (by destruct (vo_decision i)).
    specialize (λ E, Hlast E Hd). unfold VOTE_ROW_BUDGET in *. lia.
  - destruct ack; [by eapply acknowledged_mono|]. unfold acknowledged. by rewrite Hm, Hj.
  - intros [Hp Hk]. destruct w as [i|i|[? ? [] ? ?]]; try done. simpl in Hp. subst pool.
    destruct Hadm as [->|[? ?]]; [right|left; done].
    apply ack_allowed_true in Hack as (j & Hjin & Hja & Hjs & _).
    destruct Hact as [_ _ _ (r & p & Hr & _ & _ & Hrp & ->)]. split.
    + by eapply acknowledged_more.
    + simpl in Hval |- *. unfold pool_message_validate in Hval. run Hval.
      by apply bounded_text_Ok in Hval as (_ & ? & _).
Qed.
End pool_writes.

(** ** Concrete runs *)

Definition demo_note (key text : string) : PoolWrite := WMessage (mk_message key text).

(** Ada's first message on the empty log. *)
Definition demo_posted_db : Db :=
  match pool_write_tx demo_db "ag-a" "t-a" (demo_token 1) (demo_note "k1" "hello") (of_Z 150) with
  | Ok (Accepted db _) => db
  | _ => demo_db
  end.

Lemma demo_posted_Ok :
  pool_write_tx demo_db "ag-a" "t-a" (demo_token 1) (demo_note "k1" "hello") (of_Z 150)
  = Ok (Accepted demo_posted_db (mk_write_receipt "pool-1" 1 false)).
Proof. vm_compute. reflexivity. Qed.

Lemma pool_write_errors_are_refusals_witness :
  ∃ msg, Validation "invalid worker capability" = Validation msg.
Proof.
  apply (pool_write_errors_are_refusals demo_db "ag-a" "t-a" (demo_token 3)
           (demo_note "k1" "hello") (of_Z 150)); [exact demo_wf|].
  vm_compute. reflexivity.
Defined.

Lemma pool_write_stamps_author_witness :
  ∃ seat e, seat ∈ db_members demo_db ∧ db_entries demo_posted_db = [e] ∧
    en_author_name e = Some (mb_name seat).
Proof.
  destruct (pool_write_stamps_author demo_db "ag-a" "t-a" (demo_token 1) (demo_note "k1" "hello")
              (of_Z 150) demo_posted_db _ demo_posted_Ok eq_refl)
    as (seat & p & e & Hin & _ & _ & _ & _ & _ & He & _ & _ & _ & _ & _ & _ & Hn & _).
  exists seat, e. repeat split; assumption.
Defined.

Lemma pool_write_replay_witness :
  pool_write_tx demo_posted_db "ag-a" "t-a" (demo_token 1) (demo_note "k1" "hello") (of_Z 160)
    = Ok (Accepted demo_posted_db (mk_write_receipt "pool-1" 1 true)) ∧
  pool_write_tx demo_posted_db "ag-a" "t-a" (demo_token 1) (demo_note "k1" "other") (of_Z 160)
    = Ok (Denied DConflict).
Proof.
  split.
  - refine (eq_trans (pool_write_replay demo_db "ag-a" "t-a" (demo_token 1) (demo_note "k1" "hello")
             (of_Z 150) demo_posted_db _ demo_posted_db "t-a" (demo_token 1)
             (demo_note "k1" "hello") (of_Z 160)
             (mk_membership "ag-a" "pool-1" "Ada" "lead" 1 Open
                [("goal", "The stated goal is met.")%string])
             ltac:(done) demo_posted_Ok (PreOrder_Reflexive _) _ eq_refl eq_refl _) _);
      vm_compute; reflexivity.
  - refine (eq_trans (pool_write_replay demo_db "ag-a" "t-a" (demo_token 1) (demo_note "k1" "hello")
             (of_Z 150) demo_posted_db _ demo_posted_db "t-a" (demo_token 1)
             (demo_note "k1" "other") (of_Z 160)
             (mk_membership "ag-a" "pool-1" "Ada" "lead" 1 Open
                [("goal", "The stated goal is met.")%string])
             ltac:(done) demo_posted_Ok (PreOrder_Reflexive _) _ eq_refl eq_refl _) _);
      vm_compute; reflexivity.
Defined.
