(* ===== verification/PoolSettle.v ===== *)
(** * Verified common completion

    [pool_settle.rs]: the deciding read of a pool, the completion it freezes,
    the sweep over the open pools, and the late binding of a pool to its
    orchestrator.  [settle_pool] runs two transactions, so it returns the
    database it leaves next to its result: an error of the second does not
    undo the first. *)

From S2P Require Import Prelude Text Float64 Canonical Lifecycle Requests PoolDomain.
From S2P Require Import Tables Demo Roster WorkerStore Sessions ServiceRestart PoolEnrollment.
From S2P Require Import PoolLog.

(** The length of the completion event as [serde_json] prints it. *)
Class EventJson := { record_json_len : CompletionRecord → Z }.

Definition NOTICE_BYTES : Z := 4096.
Definition EVENT_BYTES : Z := 256 * 1024.

Record PoolCompletion := mk_completion {
  pc_pool : string;
  pc_delivery : string;
  pc_bound : bool;
  pc_created : bool;
}.

(** ** The notice *)

(** The loop of [cut], from [end]. *)
Fixpoint boundary_below (text : string) (end_ : nat) : nat :=
  if is_char_boundary text end_ then end_
  else match end_ with O => O | S end_ => boundary_below text end_ end.

(** [cut]. *)
Definition cut (text : string) (max : Z) : string :=
  slice text 0 (boundary_below text (Z.to_nat (Z.min max (len text)))).

Definition goal_text (goal : string) : string :=
  let excerpt := cut goal 512 in
  if len excerpt <? len goal
  then excerpt +:+ " [goal excerpt; the full goal is in the pool record]"
  else excerpt.

(** [roster.iter().map(format!).collect().join("; ")]; a row is id, name, role. *)
Definition roster_text (roster : list (string * string * string)) : string :=
  String.concat "; "
    (map (λ '(id, name, role), name +:+ " (" +:+ role +:+ ", " +:+ id +:+ ")") roster).

Definition notice_head (pool goal : string) (roster : list (string * string * string))
  (proposal revision : Z) : string :=
  "Pool " +:+ pool +:+ " is complete: every current member voted ready on the same proposal, "
  +:+ "finished successfully and was cleaned up. Only these formal checks were verified; "
  +:+ "whether the result is right is for the orchestrator to judge." +:+ NL
  +:+ "Goal: " +:+ goal_text goal +:+ NL
  +:+ "Members: " +:+ roster_text roster +:+ NL
  +:+ "Accepted result (proposal #" +:+ dec proposal +:+ ", roster revision " +:+ dec revision
  +:+ "):" +:+ NL.

Definition notice_marker (proposal : Z) : string :=
  NL +:+ "[truncated; the full result is proposal entry #" +:+ dec proposal
  +:+ " in the pool log]".

(** [notice_text]. *)
Definition notice_text (pool goal : string) (roster : list (string * string * string))
  (proposal revision : Z) (snapshot : string) : string :=
  let head := notice_head pool goal roster proposal revision in
  let marker := notice_marker proposal in
  if len head + len snapshot <=? NOTICE_BYTES then head +:+ snapshot
  else
    let room := Z.max 0 (NOTICE_BYTES - (len head + len marker)) in
    head +:+ cut snapshot room +:+ marker.

(** ** The deciding read *)

Record ReadyPool := mk_ready {
  rp_pool : PoolRow;
  rp_proposal : EntryRow;
  rp_members : list CompletionMember;
}.

Inductive Evaluation :=
  | EvMissing
  | EvCompleted (done : PoolCompletion)
  | EvNotReady
  | EvReady (ready : ReadyPool).

(** Every criterion is judged exactly once and met. *)
Definition exact_checks (acceptance : list (string * string))
  (checks : option (list CriterionCheck)) : bool :=
  match checks with
  | None => false
  | Some items =>
      covers acceptance items && forallb (λ c, bool_decide (ck_status c = Met)) items
  end.

(** One seat of the loop of [evaluate]; [None] is [NotReady]. *)
Definition ready_seat (db : Db) (p : PoolRow) (proposal : EntryRow) (m : MemberRow)
  : result (option CompletionMember) :=
  if join_pending db (mb_agent m) then Ok None
  else
    let? tip := tip_of db (mb_agent m) in
    if is_restart_stop db tip then Ok None
    else
      let? tip_status := agent_status db tip in
      let current := Z.max (en_seq proposal) 0 in
      let latest := latest_vote db (pl_id p) (mb_agent m) current in
      let checks := match latest with Some v => en_checks v | None => None end in
      let '(_, why) := vote_validity latest (pl_revision p) (en_revision proposal) tip tip_status in
      if negb (bool_decide (why = Valid)) || negb (bool_decide (tip_status = Succeeded))
         || negb (exact_checks (criteria_of (pl_acceptance p)) checks)
         || negb (lineage_cleanup_complete db (mb_agent m))
      then Ok None
      else
        let? vote := row latest in
        Ok (Some (mk_completion_member (mb_agent m) (mb_slot m) (mb_name m) (mb_role m)
                    (en_seq vote) (default [] checks) tip)).

Fixpoint ready_seats (db : Db) (p : PoolRow) (proposal : EntryRow) (seats : list MemberRow)
  : result (option (list CompletionMember)) :=
  match seats with
  | [] => Ok (Some [])
  | m :: seats =>
      let? x := ready_seat db p proposal m in
      match x with
      | None => Ok None
      | Some x =>
          let? xs := ready_seats db p proposal seats in
          Ok (option_map (cons x) xs)
      end
  end.

(** [evaluate]. *)
Definition evaluate (db : Db) (pool : string) : result Evaluation :=
  match first_where (λ p, pl_id p = pool) (db_pools db) with
  | None => Ok EvMissing
  | Some p =>
      if bool_decide (pl_state p = Completed) then
        Ok (match pl_delivery p with
            | Some delivery =>
                EvCompleted (mk_completion pool delivery (is_some (pl_session p)) false)
            | None => EvNotReady
            end)
      else
        match current_proposal db pool with
        | None => Ok EvNotReady
        | Some proposal =>
            if negb (en_revision proposal =? pl_revision p) then Ok EvNotReady
            else
              let seats := current_seats db pool in
              if (length seats <? 2)%nat then Ok EvNotReady
              else
                let? members := ready_seats db p proposal seats in
                Ok (match members with
                    | None => EvNotReady
                    | Some members => EvReady (mk_ready p proposal members)
                    end)
        end
  end.

(** ** Completing a pool *)

Definition roster_of (members : list CompletionMember) : list (string * string * string) :=
  map (λ m, (cmp_agent m, cmp_name m, cmp_role m)) members.

(** The frozen completion document. *)
Definition completion_of (pool : string) (r : ReadyPool) : CompletionRecord :=
  let p := rp_pool r in
  let proposal := Z.max (en_seq (rp_proposal r)) 0 in
  let snapshot := default ""%string (en_snapshot (rp_proposal r)) in
  mk_completion_record pool (pl_revision p) (pl_goal p) (pl_acceptance p) proposal snapshot
    (rp_members r)
    (notice_text pool (pl_goal p) (roster_of (rp_members r)) proposal (pl_revision p) snapshot).

Definition completed (delivery : string) (p : PoolRow) : PoolRow :=
  mk_pool (pl_id p) (pl_session p) (pl_goal p) (pl_acceptance p) Completed (pl_revision p)
    (Some delivery) (pl_namespace p) (pl_request_id p) (pl_request_sha256 p).

(** [tips[0]["tip"]]. *)
Definition anchor_of (members : list CompletionMember) : string :=
  match members with m :: _ => cmp_tip m | [] => "" end.

Section settle.
Context `{EventJson}.

(** [settle_in_tx]; [fresh] is the new UUID. *)
Definition settle_in_tx (db : Db) (pool : string) (at_ : f64) (fresh : string)
  : result (Db * option PoolCompletion) :=
  let? evaluation := evaluate db pool in
  match evaluation with
  | EvMissing | EvNotReady => Ok (db, None)
  | EvCompleted done => Ok (db, Some done)
  | EvReady r =>
      let data := completion_of pool r in
      fail? EVENT_BYTES <? record_json_len data with
        Integrity "pool completion record exceeds its bound";
      let session := pl_session (rp_pool r) in
      let anchor := anchor_of (rp_members r) in
      let '(db, event) := tx_event db anchor at_ (EPoolCompleted data) in
      let id := "ntf_" +:+ fresh in
      let db := insert_delivery db
                  (mk_delivery id (Some anchor) session (Some event)
                     (if is_some session then DPending else WaitingBinding)
                     (if is_some session then Some at_ else None)) in
      fail? negb (count_where (λ p, pl_id p = pool ∧ pl_state p = Open) (db_pools db) =? 1) with
        Conflict;
      Ok (set_pools
            (update_where (λ p, pl_id p = pool ∧ pl_state p = Open) (completed id) (db_pools db)) db,
          Some (mk_completion pool id (is_some session) true))
  end.

(** The clock and the UUID source of one call. *)
Record Env := mk_env {
  env_now : f64;
  env_attention : string → string;
  env_uuid : string;
}.

(** [settle_pool]. *)
Definition settle_pool (db : Db) (pool : string) (env : Env)
  : Db * result (option PoolCompletion) :=
  match reconcile_pool_enrollments db pool (env_now env) (env_attention env) with
  | Err e => (db, Err e)
  | Ok db =>
      match evaluate db pool with
      | Err e => (db, Err e)
      | Ok EvMissing | Ok EvNotReady => (db, Ok None)
      | Ok (EvCompleted done) => (db, Ok (Some done))
      | Ok (EvReady _) =>
          match settle_in_tx db pool (env_now env) (env_uuid env) with
          | Err e => (db, Err e)
          | Ok (db, r) => (db, Ok r)
          end
      end
  end.

(** The open pool in which the execution's lineage holds a current seat. *)
Definition open_pool_of (db : Db) (agent : string) : option string :=
  match first_where (λ a, ag_id a = agent) (db_agents db) with
  | None => None
  | Some a =>
      option_map mb_pool
        (first_where
           (λ m, mb_agent m = root_of a ∧ mb_replaced_by m = None ∧
                 exists_where (λ p, pl_id p = mb_pool m ∧ pl_state p = Open) (db_pools db) = true)
           (db_members db))
  end.

(** [settle_pool_of]. *)
Definition settle_pool_of (db : Db) (agent : string) (env : Env)
  : Db * result (option PoolCompletion) :=
  match open_pool_of db agent with
  | Some pool => settle_pool db pool env
  | None => (db, Ok None)
  end.

(** ** The sweep *)

(** [OPEN]: an open pool with a proposal or an unfinished enrollment. *)
Definition settle_candidate (db : Db) (p : PoolRow) : Prop :=
  pl_state p = Open ∧
  (exists_where (is_proposal (pl_id p)) (db_entries db) = true ∨
   exists_where
     (λ j, er_state j ≠ EJoined ∧
           exists_where (λ m, mb_agent m = er_agent j ∧ current_seat (pl_id p) m) (db_members db)
           = true) (db_enrollments db) = true).
#[global] Instance settle_candidate_dec db p : Decision (settle_candidate db p).
Proof. unfold settle_candidate. apply _. Defined.

(** All candidates, [ORDER BY id]. *)
Definition settle_candidates (db : Db) : list string :=
  merge_sort String.le (map pl_id (filter (settle_candidate db) (db_pools db))).

(** The window one sweep looks at: [usize] is 64 bits wide. *)
Definition window_offset (limit seed total : Z) : Z := (seed * limit) mod 2 ^ 64 mod total.

(** [open_pool_candidates]. *)
Definition open_pool_candidates (db : Db) (limit seed : Z) : list string :=
  let all := settle_candidates db in
  let total := Z.of_nat (length all) in
  if (total =? 0) || (limit =? 0) then []
  else take (Z.to_nat limit) (drop (Z.to_nat (window_offset limit seed total)) all).

(** [settle_open_pools]; the environment of each call is its pool's. *)
Fixpoint settle_each (db : Db) (pools : list string) (env : string → Env) (completed : Z)
  : Db * result Z :=
  match pools with
  | [] => (db, Ok completed)
  | pool :: pools =>
      match settle_pool db pool (env pool) with
      | (db, Err e) => (db, Err e)
      | (db, Ok r) =>
          settle_each db pools env
            (if match r with Some c => pc_created c | None => false end
             then completed + 1 else completed)
      end
  end.

Definition settle_open_pools (db : Db) (limit seed : Z) (env : string → Env) : Db * result Z :=
  settle_each db (open_pool_candidates db limit seed) env 0.

(** [pool_settlement_pending]. *)
Fixpoint any_pending (db : Db) (pools : list string) : result bool :=
  match pools with
  | [] => Ok false
  | pool :: pools =>
      let? changes := enrollment_changes db pool in
      if negb (bool_decide (changes = [])) then Ok true
      else
        let? evaluation := evaluate db pool in
        match evaluation with EvReady _ => Ok true | _ => any_pending db pools end
  end.

Definition pool_settlement_pending (db : Db) (limit seed : Z) : result bool :=
  any_pending db (open_pool_candidates db limit seed).

(** ** Writing and settling *)

(** [pool_write]: a fresh committed vote is followed by a settlement whose
    failure is ignored. *)
Definition pool_write `{Sha256, Serde} (db : Db) (run_id attempt_id token : string)
  (w : PoolWrite) (env : Env) : result (verdict PoolWriteReceipt) :=
  let? v := pool_write_tx db run_id attempt_id token w (env_now env) in
  match v with
  | Denied d => Ok (Denied d)
  | Accepted db receipt =>
      if match w with WVote _ => true | _ => false end && negb (wr_duplicate receipt)
      then Ok (Accepted (fst (settle_pool db (wr_pool receipt) env)) receipt)
      else Ok (Accepted db receipt)
  end.

(** ** Late binding *)

(** [seat_tips]. *)
Definition seat_tips (db : Db) (pool : string) : result (list string) :=
  traverse (λ m, tip_of db (mb_agent m)) (current_seats db pool).

Definition agent_session (db : Db) (id : string) : result (option string) :=
  let? a := row (first_where (λ a, ag_id a = id) (db_agents db)) in Ok (ag_session a).

(** The sessions the tips are already bound to, all of the same reference. *)
Definition bound_sessions_step (db : Db) (r : OrchestratorRef) (bound : list string) (tip : string)
  : result (list string) :=
  let? session := agent_session db tip in
  match session with
  | None => Ok bound
  | Some existing =>
      let? matches := session_matches_reference db existing r in
      fail? negb matches with
        Validation "a pool member is bound to a different orchestrator";
      Ok (bound ++ [existing])
  end.

Definition with_session (session : string) (a : AgentRow) : AgentRow :=
  mk_agent (ag_id a) (ag_root a) (ag_sequence a) (ag_created_at a) (ag_status a)
    (ag_finished_at a) (Some session) (ag_request a) (ag_identity_v2 a) (ag_exit_code a)
    (ag_failure_kind a) (ag_failure_text a) (ag_runtime_session a) (ag_answer a)
    (ag_display_name a) (ag_pool_history a) (ag_runtime a) (ag_model a).

Definition pool_with_session (session : string) (p : PoolRow) : PoolRow :=
  mk_pool (pl_id p) (Some session) (pl_goal p) (pl_acceptance p) (pl_state p) (pl_revision p)
    (pl_delivery p) (pl_namespace p) (pl_request_id p) (pl_request_sha256 p).

(** One tip of the binding loop. *)
Definition bind_tip (session : string) (at_ : f64) (fresh : string → string) (db : Db)
  (tip : string) : result Db :=
  let? bound := agent_session db tip in
  let db :=
    match bound with
    | None =>
        set_agents (update_where (λ a, ag_id a = tip) (with_session session) (db_agents db)) db
    | Some _ => db
    end in
  Ok (ensure_bound_terminal_notice db tip (default session bound) at_ (fresh tip)).

(** The waiting common notice becomes deliverable. *)
Definition activated (session : string) (at_ : f64) (d : DeliveryRow) : DeliveryRow :=
  mk_delivery_row (dl_id d) (dl_agent d)
    (match dl_session d with Some s => Some s | None => Some session end) (dl_event d) DPending
    (Some at_) (dl_attempts d) (dl_lease_owner d) (dl_lease_until d) (dl_last_error d)
    (dl_ambiguous d).

(** [bind_pool]; [fresh] yields the new UUIDs. *)
Definition bind_pool (db : Db) (pool : string) (r : OrchestratorRef) (at_ : f64)
  (fresh_session : string) (fresh : string → string) : result (Db * string) :=
  try? orchestrator_validate r;
  let? p := ok_or (NotFound pool) (first_where (λ p, pl_id p = pool) (db_pools db)) in
  let current := pl_session p in
  let? matches :=
    match current with Some existing => session_matches_reference db existing r | None => Ok true end in
  fail? negb matches with Validation "pool orchestration binding is immutable";
  let? seats := seat_tips db pool in
  let? bound := try_fold (bound_sessions_step db r) [] seats in
  let? (db, session) :=
    match current with
    | Some existing => Ok (db, existing)
    | None => session_for_reference db r fresh_session
    end in
  let? db := if is_some current then touch_session_reference db session r else Ok db in
  let? db :=
    try_fold (λ db existing,
                if bool_decide (existing = session) then Ok db
                else touch_session_reference db existing r) db bound in
  let db :=
    match current with
    | None => set_pools (update_where (λ p, pl_id p = pool) (pool_with_session session) (db_pools db)) db
    | Some _ => db
    end in
  let? db := try_fold (bind_tip session at_ fresh) db seats in
  let delivery :=
    match first_where (λ p, pl_id p = pool) (db_pools db) with
    | Some p => pl_delivery p
    | None => None
    end in
  Ok (set_deliveries
        (update_where (λ d, dl_state d = WaitingBinding ∧ Some (dl_id d) = delivery)
           (activated session at_) (db_deliveries db)) db, session).
End settle.
