(* ===== verification/Settlement.v ===== *)
(** * What a settlement certifies

    The deciding read of [pool_settle.rs] against an abstract statement of
    unanimity, the exactly-once completion, the bound of the notice and the
    fairness of the sweep. *)

From S2P Require Import Prelude Text Float64 Canonical Lifecycle Requests PoolDomain.
From S2P Require Import Tables Demo Roster World WorkerStore Sessions ServiceRestart.
From S2P Require Import PoolEnrollment PoolLog PoolWrites PoolSettle.

(** ** Unanimity *)

(** Every attempt of the lineage has its cleanup recorded: the proof is there,
    and no phase that precedes it. *)
Definition lineage_clean (db : Db) (root : string) : Prop :=
  ∀ a t, a ∈ db_agents db → in_lineage root a → t ∈ db_attempts db → at_agent t = ag_id a →
    at_cleanup_proof t ≠ None ∧ ∀ phase, at_phase t = Some phase → phase = "cleanup_complete"%string.

(** The latest vote of the seat on the proposal. *)
Definition last_vote (db : Db) (pool seat : string) (q : Z) (v : EntryRow) : Prop :=
  v ∈ db_entries db ∧ is_vote_on pool seat q v ∧
  ∀ v', v' ∈ db_entries db → is_vote_on pool seat q v' → en_seq v' ≤ en_seq v.

(** A seat agrees: it has joined; its latest execution succeeded, was not a
    technical stop and itself cast the latest vote, a ready one that judges
    every criterion exactly once and finds it met; its lineage is clean. *)
Definition seat_agrees (db : Db) (p : PoolRow) (proposal : EntryRow) (m : MemberRow) : Prop :=
  join_pending db (mb_agent m) = false ∧
  lineage_clean db (mb_agent m) ∧
  ∃ tip vote checks,
    tip_row db (mb_agent m) = Ok tip ∧ ag_status tip = Succeeded ∧
    is_restart_stop db (ag_id tip) = false ∧
    last_vote db (pl_id p) (mb_agent m) (en_seq proposal) vote ∧
    en_kind vote = KVote ∧ en_decision vote = Some Ready ∧ en_sender_run vote = Some (ag_id tip) ∧
    en_checks vote = Some checks ∧
    map ck_criterion_id checks ≡ₚ map ac_id (pl_acceptance p) ∧
    Forall (λ c, ck_status c = Met) checks.

Record unanimous (db : Db) (pool : string) (p : PoolRow) (proposal : EntryRow) : Prop := {
  un_pool : p ∈ db_pools db ∧ pl_id p = pool;
  un_open : pl_state p = Open;
  un_proposal : proposal ∈ db_entries db ∧ is_proposal pool proposal;
  un_current : ∀ e, e ∈ db_entries db → is_proposal pool e → en_seq e ≤ en_seq proposal;
  un_revision : en_revision proposal = pl_revision p;
  un_team : (2 ≤ length (filter (current_seat pool) (db_members db)))%nat;
  un_seats : ∀ m, m ∈ db_members db → current_seat pool m → seat_agrees db p proposal m;
}.

(** ** The deciding read is exact *)

Lemma entry_key db e1 e2 :
  keys_ok db → e1 ∈ db_entries db → e2 ∈ db_entries db → en_seq e1 = en_seq e2 → e1 = e2.
Proof.
  intros Hk [i Hi]%list_elem_of_lookup [j Hj]%list_elem_of_lookup E.
  pose proof (keys_entries _ Hk) as Hs.
  assert (NoDup (map en_seq (db_entries db))) as Hn.
  { clear Hi Hj. induction (map en_seq (db_entries db)) as [|x l IH]; [constructor|].
    apply StronglySorted_inv in Hs as [Hs Hf]. constructor; [|by apply IH].
    intros Hx. rewrite Forall_forall in Hf. specialize (Hf x Hx). lia. }
  assert (i = j) as <-; [|congruence].
  eapply (NoDup_lookup (map en_seq (db_entries db))); [done|rewrite list_lookup_fmap, Hi; done|].
  rewrite list_lookup_fmap, Hj. simpl. by rewrite E.
Qed.

Lemma covers_Permutation acceptance checks :
  covers (criteria_of acceptance) checks = true ↔
  map ck_criterion_id checks ≡ₚ map ac_id acceptance.
Proof.
  unfold covers, criteria_of. rewrite bool_decide_eq_true, map_map. simpl.
  change (map (λ x, ac_id x) acceptance) with (map ac_id acceptance). split.
  - intros E. rewrite <-(merge_sort_Permutation String.le (map ck_criterion_id checks)), <-E.
    apply merge_sort_Permutation.
  - intros Hp. apply (StronglySorted_unique String.le).
    + apply (StronglySorted_merge_sort String.le).
    + apply (StronglySorted_merge_sort String.le).
    + by rewrite !merge_sort_Permutation, Hp.
Qed.

Lemma lineage_clean_iff db root : lineage_cleanup_complete db root = true ↔ lineage_clean db root.
Proof.
  unfold lineage_cleanup_complete, lineage_clean, count_where. rewrite Z.eqb_eq. split.
  - intros E a t Ha Hl Ht Hat.
    assert (¬ uncleaned t) as Hu.
    { intros Hu. assert (filter (λ t, at_agent t ∈ map ag_id (filter (in_lineage root) (db_agents db))
                                       ∧ uncleaned t) (db_attempts db) = []) as Hf.
      { apply nil_length_inv. lia. }
      apply (filter_nil_not_elem_of _ _ t Hf); [|done]. split; [|done].
      rewrite Hat. apply list_elem_of_fmap_2. by apply list_elem_of_filter. }
    split; [intros E'; apply Hu; by left|]. intros phase Ep.
    destruct (decide (phase = "cleanup_complete"%string)) as [|Hne]; [done|]. destruct Hu. right.
    rewrite Ep. simpl. by rewrite bool_decide_false.
  - intros Hc. rewrite filter_none; [done|]. intros t Ht [(a & Ea & Hin)%list_elem_of_fmap Hu].
    apply list_elem_of_filter in Hin as [Hl Ha]. destruct (Hc a t Ha Hl Ht Ea) as [? ?].
    destruct Hu as [Hu|Hu]; [done|]. destruct (at_phase t) as [phase|]; [|done]. simpl in Hu.
    rewrite bool_decide_true in Hu; [done|]. eauto.
Qed.

Lemma last_vote_iff db pool seat q v :
  keys_ok db → latest_vote db pool seat q = Some v ↔ last_vote db pool seat q v.
Proof.
  intros Hk. split.
  - intros E. destruct (latest_vote_Some _ _ _ _ _ E) as [? ?]. split; [done|]. split; [done|].
    intros v' ? ?. apply Z.leb_le. apply (best_by_max seq_le _ _ seq_le_total seq_le_trans E).
    by apply list_elem_of_filter.
  - intros (Hin & Hv & Hmax). destruct (latest_vote db pool seat q) as [v'|] eqn:E.
    + destruct (latest_vote_Some _ _ _ _ _ E) as [Hin' Hv']. f_equal. apply (entry_key db); [done..|].
      assert (en_seq v ≤ en_seq v') as Hle.
      { apply Z.leb_le, (best_by_max seq_le _ _ seq_le_total seq_le_trans E).
        by apply list_elem_of_filter. }
      specialize (Hmax v' Hin' Hv'). lia.
    + apply best_by_None in E. exfalso.
      assert (v ∈ filter (is_vote_on pool seat q) (db_entries db)) as Hf by by apply list_elem_of_filter.
      rewrite E in Hf. by apply elem_of_nil in Hf.
Qed.

Section deciding.
Context `{Serde}.

(** A vote row that is neither a revoke nor a block is a ready vote. *)
Lemma ready_vote db v pool seat q :
  wf db → v ∈ db_entries db → is_vote_on pool seat q v → en_kind v ≠ KRevoke →
  en_decision v ≠ Some Block → en_kind v = KVote ∧ en_decision v = Some Ready.
Proof.
  intros Hw Hin (_ & _ & _ & [Hk|Hk]) Hr Hb; [|done]. split; [done|].
  destruct (wf_views _ Hw v Hin) as (_ & _ & _ & Hs & _). simpl in Hs. rewrite Hk in Hs.
  inversion Hs as [| | |? d ? Hd Ed| |]. destruct d; congruence.
Qed.

Lemma vote_validity_Valid v rev tip status :
  en_kind v = KVote → en_decision v = Some Ready → en_sender_run v = Some tip →
  status = Succeeded → all_met (en_checks v) = true →
  vote_validity (Some v) rev rev tip status = (Some Ready, Valid).
Proof.
  intros Hk Hd Hs -> Hm. unfold vote_validity. rewrite Hk, Hd, Hs, Hm, Z.eqb_refl.
  by rewrite (bool_decide_eq_true_2 (Some tip = Some tip)) by done.
Qed.

Lemma forallb_met checks :
  forallb (λ c, bool_decide (ck_status c = Met)) checks = true ↔ Forall (λ c, ck_status c = Met) checks.
Proof.
  rewrite forallb_forall, Forall_forall. setoid_rewrite list_elem_of_In.
  setoid_rewrite bool_decide_eq_true. done.
Qed.

(** The loop body of [evaluate] accepts exactly the seats that agree. *)
Lemma ready_seat_iff db p proposal m :
  wf db → m ∈ db_members db → proposal ∈ db_entries db → en_revision proposal = pl_revision p →
  ∃ o, ready_seat db p proposal m = Ok o ∧ (is_Some o ↔ seat_agrees db p proposal m).
Proof.
  intros Hw Hm Hpin Hrev. unfold ready_seat, seat_agrees.
  destruct (join_pending db (mb_agent m)); [exists None; split; [done|]; split; [by intros []|by intros [? _]]|].
  destruct (seat_agent _ _ (wf_members _ Hw m Hm)) as (a & Ha & Hid).
  destruct (tip_total db (mb_agent m) a) as (t & Ht & Hto & Hst);
    [apply (keys_agents _ (wf_keys _ Hw))|done|by right|].
  rewrite Hto. destruct (is_restart_stop db (ag_id t)) eqn:Estop.
  { exists None. split; [done|]. split; [by intros []|].
    intros (_ & _ & tip & ? & ? & Htip & _ & ? & _). congruence. }
  rewrite Hst, Hrev.
  destruct (keys_entry_counter _ (wf_keys _ Hw) proposal Hpin) as [Hpos _].
  rewrite Z.max_l by lia.
  destruct (latest_vote db (pl_id p) (mb_agent m) (en_seq proposal)) as [v|] eqn:Ev.
  - destruct (vote_validity (Some v) _ _ _ _) as [d why] eqn:Ew.
    match goal with |- context [if ?b then _ else _] => destruct b eqn:Eb end.
    + exists None. split; [done|]. split; [by intros []|].
      intros (_ & Hcl & tip & vote & checks & Htip & Hs & _ & Hl & Hk & Hd & Hsend & Hck & Hperm & Hmet).
      apply last_vote_iff in Hl; [|apply (wf_keys _ Hw)].
      assert (tip = t) as -> by congruence. assert (vote = v) as -> by congruence.
      rewrite vote_validity_Valid in Ew; [|done..|rewrite Hck; by apply forallb_met]. simplify_eq.
      rewrite Hck, Hs in Eb. simpl in Eb. apply covers_Permutation in Hperm.
      apply lineage_clean_iff in Hcl. apply forallb_met in Hmet.
      by rewrite Hperm, Hmet, Hcl in Eb.
    + to_prop. subst why. simpl. eexists. split; [done|]. split; [|eauto]. intros _.
      apply vote_validity_valid in Ew as (v' & [= <-] & Hk & Hd & _ & Hsend & _ & _).
      pose proof (proj1 (last_vote_iff _ _ _ _ _ (wf_keys _ Hw)) Ev) as Hl.
      pose proof Hl as (Hin & Hv & _).
      destruct (ready_vote db v _ _ _ Hw Hin Hv Hk Hd) as [Hk' Hd'].
      rename select (exact_checks _ _ = true) into Hx. unfold exact_checks in Hx.
      destruct (en_checks v) as [checks|] eqn:Eck; [|done]. to_prop.
      split; [done|]. split; [by apply lineage_clean_iff|].
      exists t, v, checks. repeat (split; [by (done || apply covers_Permutation)|]).
      by apply forallb_met.
  - exists None. split.
    + simpl. done.
    + split; [by intros []|]. intros (_ & _ & tip & vote & checks & _ & _ & _ & Hl & _).
      apply last_vote_iff in Hl; [congruence|apply (wf_keys _ Hw)].
Qed.

Lemma ready_seats_iff db p proposal seats :
  wf db → (∀ m, m ∈ seats → m ∈ db_members db) → proposal ∈ db_entries db →
  en_revision proposal = pl_revision p →
  ∃ o, ready_seats db p proposal seats = Ok o ∧
       (is_Some o ↔ ∀ m, m ∈ seats → seat_agrees db p proposal m).
Proof.
  intros Hw Hs Hp Hr. induction seats as [|m seats IH]; simpl.
  { exists (Some []). split; [done|]. split; [|eauto]. intros _ m Hm. by apply elem_of_nil in Hm. }
  destruct (ready_seat_iff db p proposal m Hw (Hs m ltac:(left)) Hp Hr) as ([x|] & -> & Hx).
  - destruct IH as (o & -> & Ho); [intros; apply Hs; by right|].
    eexists. split; [done|]. split.
    + destruct o as [xs|]; [|by intros []]. intros _ y [->|Hy]%elem_of_cons; [by apply Hx; eauto|].
      apply Ho; eauto.
    + intros Hall. destruct (proj2 Ho) as [xs ->]; [|eauto]. intros y Hy. apply Hall. by right.
  - exists None. split; [done|]. split; [by intros []|]. intros Hall.
    exfalso. destruct (proj2 Hx (Hall m ltac:(left))) as [? ?]. done.
Qed.

Lemma current_proposal_iff db pool e :
  keys_ok db →
  current_proposal db pool = Some e ↔
  e ∈ db_entries db ∧ is_proposal pool e ∧
  ∀ e', e' ∈ db_entries db → is_proposal pool e' → en_seq e' ≤ en_seq e.
Proof.
  intros Hk. split.
  - intros E. destruct (current_proposal_Some _ _ _ E). split; [done|]. split; [done|].
    intros e' ? ?. by eapply current_proposal_max.
  - intros (Hin & Hp & Hmax). destruct (current_proposal db pool) as [e'|] eqn:E.
    + destruct (current_proposal_Some _ _ _ E) as [Hin' Hp']. f_equal. apply (entry_key db); [done..|].
      pose proof (current_proposal_max _ _ _ e E Hin Hp). specialize (Hmax e' Hin' Hp'). lia.
    + apply best_by_None in E. exfalso.
      assert (e ∈ filter (is_proposal pool) (db_entries db)) as Hf by by apply list_elem_of_filter.
      rewrite E in Hf. by apply elem_of_nil in Hf.
Qed.

Lemma length_current_seats db pool :
  length (current_seats db pool) = length (filter (current_seat pool) (db_members db)).
Proof. unfold current_seats. by rewrite merge_sort_Permutation. Qed.

Lemma evaluate_open db pool p e :
  wf db → p ∈ db_pools db → pl_id p = pool → pl_state p = Open →
  current_proposal db pool = Some e → en_revision e = pl_revision p →
  (2 ≤ length (filter (current_seat pool) (db_members db)))%nat →
  ∃ o, evaluate db pool = Ok (match o with Some ms => EvReady (mk_ready p e ms) | None => EvNotReady end) ∧
       (is_Some o ↔ ∀ m, m ∈ db_members db → current_seat pool m → seat_agrees db p e m).
Proof.
  intros Hw Hp <- Ho He Hr Hn. unfold evaluate.
  rewrite (first_where_key pl_id) by (done || apply (keys_pools _ (wf_keys _ Hw))).
  rewrite Ho, He, Hr, Z.eqb_refl. simpl.
  destruct (Nat.ltb_spec (length (current_seats db (pl_id p))) 2) as [Hlt|_];
    [rewrite length_current_seats in Hlt; lia|].
  destruct (ready_seats_iff db p e (current_seats db (pl_id p)) Hw) as (o & -> & Hiff); [|by apply (current_proposal_Some db (pl_id p))|done|].
  { intros m Hm. by apply current_seats_elem in Hm as [? _]. }
  exists o. split; [by destruct o|]. rewrite Hiff. setoid_rewrite current_seats_elem. naive_solver.
Qed.

(** A ready verdict comes from a unanimous pool and lists its seats in order. *)
Lemma ready_seats_agents db p e seats ms :
  ready_seats db p e seats = Ok (Some ms) → map cmp_agent ms = map mb_agent seats.
Proof.
  revert ms. induction seats as [|m seats IH]; intros ms; simpl; [by intros [= <-]|].
  destruct (ready_seat db p e m) as [[x|]|] eqn:Ex; [|done..].
  destruct (ready_seats db p e seats) as [[xs|]|]; [|done..]. intros [= <-]. simpl.
  rewrite (IH xs) by done. f_equal. unfold ready_seat in Ex. run Ex.
Qed.

Lemma evaluate_decides db pool p e ms :
  wf db → evaluate db pool = Ok (EvReady (mk_ready p e ms)) →
  unanimous db pool p e ∧ map cmp_agent ms = map mb_agent (current_seats db pool).
Proof.
  intros Hw Ee. pose proof (wf_keys _ Hw) as Hk. pose proof Ee as Ee'.
  unfold evaluate in Ee'. run Ee'. to_prop.
  rename select (ready_seats _ _ _ _ = _) into Es. apply ready_seats_agents in Es.
  rename select (first_where _ _ = Some _) into Ep.
  pose proof Ep as Ep'. apply first_where_Some in Ep' as [Hid Hin].
  rename select (current_proposal _ _ = Some _) into Ec.
  rename select ((_ <? _)%nat = false) into Hlen. apply Nat.ltb_ge in Hlen.
  rewrite length_current_seats in Hlen.
  assert (pl_state p = Open) as Ho by (by destruct (pl_state p)).
  destruct (evaluate_open db pool p e Hw Hin Hid Ho Ec) as (o & Eo & Hiff); [done|done|].
  apply (proj1 (current_proposal_iff _ _ _ Hk)) in Ec as (? & ? & ?).
  split; [|done]. split; try done. apply Hiff. rewrite Eo in Ee. destruct o; [eauto|done].
Qed.

(** C1: The deciding read is exact.  On a well-formed state it always returns,
    and it reports a pool as ready with proposal [e] if and only if the pool is
    open, [e] is its newest proposal and was made under the current roster, at
    least two seats are current, and every current seat agrees: it has joined,
    its latest execution succeeded and cast the seat's latest vote, a ready
    vote that judges each acceptance criterion exactly once and finds it met,
    and every attempt of its lineage has verified cleanup. *)
Theorem evaluate_decides_unanimity db pool :
  wf db →
  (∃ ev, evaluate db pool = Ok ev) ∧
  ∀ p e, (∃ members, evaluate db pool = Ok (EvReady (mk_ready p e members))) ↔
         unanimous db pool p e.
Proof.
  intros Hw. pose proof (wf_keys _ Hw) as Hk. split; [|intros p e; split].
  - destruct (first_where (λ p, pl_id p = pool) (db_pools db)) as [p|] eqn:Ep;
      [|unfold evaluate; rewrite Ep; eauto].
    destruct (evaluate db pool) as [ev|err] eqn:Ee; [eauto|]. exfalso.
    pose proof Ee as Ee'. unfold evaluate in Ee'. rewrite Ep in Ee'. run Ee'. to_prop.
    apply first_where_Some in Ep as [Hid Hin].
    rename select (current_proposal _ _ = Some _) into Ec.
    rename select ((_ <? _)%nat = false) into Hlen. apply Nat.ltb_ge in Hlen.
    rewrite length_current_seats in Hlen.
    destruct (evaluate_open db pool p _ Hw Hin Hid ltac:(by destruct (pl_state p)) Ec)
      as (o & Ho & _); [done|done|]. congruence.
  - intros (ms & Ee). by apply (evaluate_decides _ _ _ _ ms).
  - intros [[Hin Hid] Ho [He Hp] Hmax Hr Hn Hs].
    assert (current_proposal db pool = Some e) as Ec by (by apply current_proposal_iff).
    destruct (evaluate_open db pool p e Hw Hin Hid Ho Ec Hr Hn) as (o & Eo & Hiff).
    destruct (proj2 Hiff Hs) as [ms ->]. eauto.
Qed.
End deciding.

(** ** Exactly once *)

Section completing.
Context `{EventJson, Serde}.

(** The tables a fresh completion writes. *)
Definition completed_db (db : Db) (pool : string) (r : ReadyPool) (at_ : f64) (id : string) : Db :=
  let anchor := anchor_of (rp_members r) in
  let session := pl_session (rp_pool r) in
  let d := fst (tx_event db anchor at_ (EPoolCompleted (completion_of pool r))) in
  let d := insert_delivery d
             (mk_delivery id (Some anchor) session (Some (db_event_seq db + 1))
                (if is_some session then DPending else WaitingBinding)
                (if is_some session then Some at_ else None)) in
  set_pools (update_where (λ p, pl_id p = pool ∧ pl_state p = Open) (completed id) (db_pools db)) d.

Lemma settle_in_tx_Ok db pool at_ fresh db' o :
  settle_in_tx db pool at_ fresh = Ok (db', o) →
  match o with
  | Some c =>
      if pc_created c then
        ∃ r, evaluate db pool = Ok (EvReady r) ∧
          db' = completed_db db pool r at_ ("ntf_" +:+ fresh) ∧
          c = mk_completion pool ("ntf_" +:+ fresh) (is_some (pl_session (rp_pool r))) true
      else db' = db ∧ evaluate db pool = Ok (EvCompleted c)
  | None => db' = db
  end.
Proof.
  unfold settle_in_tx. intros E. destruct (evaluate db pool) as [[|c| |r]|] eqn:Ee; try (by simplify_eq).
  - injection E as <- <-. assert (pc_created c = false) as ->; [|done]. unfold evaluate in Ee. run Ee.
  - destruct (_ <? _); [done|]. rewrite (surjective_pairing (tx_event _ _ _ _)) in E.
    destruct (negb _); [done|]. injection E as <- <-. simpl pc_created. cbv iota. eauto.
Qed.

(** C2: A pool completes at most once, and only on unanimity.  A call that
    reports a fresh completion found the pool unanimous; it wrote one event
    with the frozen record, one delivery linked to that event, and the state of
    that one pool, and nothing else.  Every later call on the result, at any
    time, reports the same delivery and writes nothing. *)
Theorem settle_exactly_once db pool at_ fresh db' c :
  wf db → settle_in_tx db pool at_ fresh = Ok (db', Some c) → pc_created c = true →
  ∃ p e members,
    unanimous db pool p e ∧
    db' = completed_db db pool (mk_ready p e members) at_ (pc_delivery c) ∧
    map cmp_agent members = map mb_agent (current_seats db pool) ∧
    ∀ at' fresh', settle_in_tx db' pool at' fresh' =
      Ok (db', Some (mk_completion pool (pc_delivery c) (pc_bound c) false)).
Proof.
  intros Hw E Hc. apply settle_in_tx_Ok in E. rewrite Hc in E.
  destruct E as ([p e members] & Ee & -> & ->). simpl pc_delivery. simpl pc_bound.
  exists p, e, members. pose proof (evaluate_decides db pool p e members Hw Ee) as [Hu Hm].
  do 3 (split; [done|]). intros at' fresh'. unfold settle_in_tx.
  destruct Hu as [[Hin Hid] Ho _ _ _ _ _].
  assert (evaluate (completed_db db pool (mk_ready p e members) at_ ("ntf_" +:+ fresh)) pool =
          Ok (EvCompleted (mk_completion pool ("ntf_" +:+ fresh) (is_some (pl_session p)) false)))
    as ->; [|done].
  unfold evaluate, completed_db. cbn [db_pools set_pools].
  rewrite first_where_update by done. subst pool.
  rewrite (first_where_key pl_id) by (done || apply (keys_pools _ (wf_keys _ Hw))).
  simpl option_map. by rewrite decide_True by done.
Qed.
End completing.

(** ** The sweep is fair *)

Lemma window_covers limit total seed0 i :
  0 < limit → 0 < total → 0 ≤ seed0 → (seed0 + total) * limit < 2 ^ 64 → 0 ≤ i < total →
  ∃ seed, seed0 ≤ seed < seed0 + total ∧
    window_offset limit seed total ≤ i < window_offset limit seed total + limit.
Proof.
  intros Hl Ht Hs Hb Hi.
  destruct (Z.gcd_bezout limit total _ eq_refl) as (u & v & Huv).
  pose proof (Z.gcd_divide_l limit total) as Hg. set (g := Z.gcd limit total) in *.
  assert (0 < g) as Hgpos.
  { pose proof (Z.gcd_nonneg limit total). destruct (Z.eq_dec g 0) as [E|]; [|subst g; lia].
    apply Z.gcd_eq_0_l in E. lia. }
  assert (g ≤ limit) as Hgl by (by apply Z.divide_pos_le).
  set (s := u * (i / g)). exists (seed0 + (s - seed0) mod total).
  pose proof (Z.mod_pos_bound (s - seed0) total Ht) as Hm. split; [lia|].
  unfold window_offset. rewrite (Z.mod_small _ (2 ^ 64)) by nia.
  assert ((seed0 + (s - seed0) mod total) * limit mod total = g * (i / g)) as ->.
  { rewrite <-Z.mul_mod_idemp_l, Z.add_mod_idemp_r by lia.
    replace (seed0 + (s - seed0)) with s by lia. rewrite Z.mul_mod_idemp_l by lia.
    replace (s * limit) with (g * (i / g) + (- v * (i / g)) * total) by (unfold s; nia).
    rewrite Z.mod_add by lia. apply Z.mod_small. pose proof (Z.div_mod i g ltac:(lia)).
    pose proof (Z.mod_pos_bound i g Hgpos). pose proof (Z.div_pos i g). nia. }
  pose proof (Z.div_mod i g ltac:(lia)). pose proof (Z.mod_pos_bound i g Hgpos). lia.
Qed.

Lemma elem_of_window {A} (l : list A) (off limit i : nat) x :
  l !! i = Some x → (off ≤ i < off + limit)%nat → x ∈ take limit (drop off l).
Proof.
  intros Hx Hi. apply list_elem_of_lookup. exists (i - off)%nat.
  rewrite lookup_take_lt by lia. rewrite lookup_drop. by replace (off + (i - off))%nat with i by lia.
Qed.

(** C34: The sweep never starves a pool: for any page limit and any starting
    seed, every open pool that may need convergence is on the page of some seed
    among as many consecutive ones as there are candidates, as long as the
    products of that range fit the machine word. *)
Theorem sweep_reaches_every_pool db limit seed0 pool :
  0 < limit → 0 ≤ seed0 →
  (seed0 + Z.of_nat (length (settle_candidates db))) * limit < 2 ^ 64 →
  pool ∈ settle_candidates db →
  ∃ seed, seed0 ≤ seed < seed0 + Z.of_nat (length (settle_candidates db)) ∧
    pool ∈ open_pool_candidates db limit seed.
Proof.
  intros Hl Hs Hb Hin. unfold open_pool_candidates.
  apply list_elem_of_lookup in Hin as [i Hi]. pose proof (lookup_lt_Some _ _ _ Hi) as Hlt.
  destruct (window_covers limit (Z.of_nat (length (settle_candidates db))) seed0 (Z.of_nat i))
    as (seed & Hr & Hw); [lia..|].
  exists seed. split; [done|].
  rewrite (proj2 (Z.eqb_neq _ 0)), (proj2 (Z.eqb_neq limit 0)) by lia. simpl.
  apply elem_of_window with i; [done|].
  assert (0 ≤ window_offset limit seed (Z.of_nat (length (settle_candidates db)))).
  { unfold window_offset. apply Z.mod_pos_bound. lia. }
  lia.
Qed.

Lemma sweep_reaches_every_pool_witness :
  ∃ seed, 5 ≤ seed < 5 + 1 ∧
    ("pool-1"%string) ∈ open_pool_candidates
      (demo_with Running [mk_entry 1 "pool-1" AMember (Some "ag-a"%string) (Some "Ada"%string)
         (Some "lead"%string) Team KProposal None None 1 None (Some "done"%string) None "result" None
         (Some "ag-a"%string) (Some "t-a"%string) "ag-a" "k"] 1) 20 seed.
Proof.
  apply (sweep_reaches_every_pool
    (demo_with Running [mk_entry 1 "pool-1" AMember (Some "ag-a"%string) (Some "Ada"%string)
         (Some "lead"%string) Team KProposal None None 1 None (Some "done"%string) None "result" None
         (Some "ag-a"%string) (Some "t-a"%string) "ag-a" "k"] 1) 20 5 "pool-1"); [lia|lia|done|].
  left.
Defined.

(** ** The notice *)

Lemma slice_prefix s n : ∃ rest, s = slice s 0 n +:+ rest ∧ (String.length (slice s 0 n) ≤ n)%nat.
Proof.
  unfold slice. rewrite Nat.sub_0_r. revert n. induction s as [|a s IH]; intros n.
  - exists ""%string. destruct n; simpl; (split; [done|lia]).
  - destruct n as [|n]; simpl; [exists (String a s); split; [done|lia]|].
    destruct (IH n) as (rest & E & Hl). exists rest. split; [|lia].
    exact (f_equal (String a) E).
Qed.

Lemma boundary_below_le text n : (boundary_below text n ≤ n)%nat.
Proof. induction n as [|n IH]; simpl; try case_match; lia. Qed.

(** A cut is a prefix of at most [max] bytes that ends on a boundary. *)
Lemma cut_prefix text max :
  0 ≤ max → ∃ rest, text = cut text max +:+ rest ∧ len (cut text max) ≤ max.
Proof.
  intros Hm. unfold cut. set (n := Z.to_nat (Z.min max (len text))).
  destruct (slice_prefix text (boundary_below text n)) as (rest & E & Hl). exists rest.
  split; [done|]. pose proof (boundary_below_le text n). pose proof (len_nonneg text).
  unfold len at 1. lia.
Qed.

Lemma len_concat sep l n :
  (∀ s, s ∈ l → len s ≤ n) → 0 ≤ n →
  len (String.concat sep l) ≤ (n + len sep) * Z.of_nat (length l).
Proof.
  intros Hl Hn. pose proof (len_nonneg sep). induction l as [|s l IH]; [unfold len; simpl; lia|].
  assert (len s ≤ n) by (apply Hl; left).
  assert (len (String.concat sep l) ≤ (n + len sep) * Z.of_nat (length l)).
  { apply IH. intros. apply Hl. by right. }
  destruct l as [|s' l']; [simpl in *; lia|].
  change (String.concat sep (s :: s' :: l')) with (s +:+ sep +:+ String.concat sep (s' :: l')).
  rewrite !len_app. simpl length in *. lia.
Qed.

Lemma label_len label : utf8 label → display_name label = Ok label → len label ≤ 256.
Proof.
  intros Hu (_ & _ & _ & Hc & _)%display_name_Ok. pose proof (len_chars label Hu). lia.
Qed.

(** A row of the roster as admission leaves it. *)
Definition roster_row_ok (row : string * string * string) : Prop :=
  let '(id, name, role) := row in
  len id ≤ 57 ∧ utf8 name ∧ display_name name = Ok name ∧ utf8 role ∧ display_name role = Ok role.

Lemma len_roster_text roster :
  Forall roster_row_ok roster → (length roster ≤ 5)%nat → len (roster_text roster) ≤ 2880.
Proof.
  intros Hr Hl. unfold roster_text.
  pose proof (len_concat "; " (map (λ '(id, name, role), name +:+ " (" +:+ role +:+ ", " +:+ id +:+ ")")
    roster) 574) as Hc. rewrite length_map in Hc. change (len "; ") with 2 in Hc.
  apply Z.le_trans with (1 := Hc ltac:(
    intros s ([[id name] role] & -> & Hin)%list_elem_of_fmap;
    rewrite Forall_forall in Hr; destruct (Hr _ Hin) as (Hi & Hn & Hn' & Ho & Ho');
    pose proof (label_len _ Hn Hn'); pose proof (label_len _ Ho Ho');
    rewrite !len_app; change (len " (") with 2; change (len ", ") with 2; change (len ")") with 1; lia)
    ltac:(lia)). lia.
Qed.

Lemma len_goal_text goal : len (goal_text goal) ≤ 570.
Proof.
  unfold goal_text. destruct (cut_prefix goal 512) as (_ & _ & Hc); [lia|].
  destruct (_ <? _); [|lia]. rewrite len_app.
  change (len " [goal excerpt; the full goal is in the pool record]") with 52. lia.
Qed.

Lemma len_notice_frame pool goal roster proposal revision :
  len pool ≤ 57 → Forall roster_row_ok roster → (length roster ≤ 5)%nat →
  0 ≤ proposal < 2 ^ 63 → 0 ≤ revision < 2 ^ 32 →
  len (notice_head pool goal roster proposal revision) + len (notice_marker proposal)
    ≤ NOTICE_BYTES.
Proof.
  intros Hp Hr Hl Hq Hv. unfold notice_head, notice_marker, NOTICE_BYTES.
  pose proof (len_roster_text _ Hr Hl). pose proof (len_goal_text goal).
  pose proof (len_dec proposal 19 ltac:(lia) ltac:(lia)).
  pose proof (len_dec revision 10 ltac:(lia) ltac:(lia)).
  rewrite !len_app.
  repeat match goal with |- context [len ?s] =>
    let n := eval vm_compute in (len s) in
    match n with Z0 => idtac | Zpos _ => idtac end; change (len s) with n end.
  lia.
Qed.

(** C35: The common notice fits its bound whenever the roster is one that
    admission produces, and it is honest about truncation: it holds the whole
    accepted result, or a proper prefix of it followed by the marker that says
    where the full text stays. *)
Theorem notice_fits pool goal roster proposal revision snapshot :
  len pool ≤ 57 → Forall roster_row_ok roster → (length roster ≤ 5)%nat →
  0 ≤ proposal < 2 ^ 63 → 0 ≤ revision < 2 ^ 32 →
  let head := notice_head pool goal roster proposal revision in
  let notice := notice_text pool goal roster proposal revision snapshot in
  len notice ≤ NOTICE_BYTES ∧
  (notice = head +:+ snapshot ∨
   ∃ kept rest, snapshot = kept +:+ rest ∧ rest ≠ ""%string ∧
     notice = head +:+ kept +:+ notice_marker proposal).
Proof.
  intros Hp Hr Hl Hq Hv head notice.
  pose proof (len_notice_frame pool goal roster proposal revision Hp Hr Hl Hq Hv) as Hf.
  subst notice. unfold notice_text. fold head in Hf |- *.
  destruct (_ <=? _) eqn:E; to_prop; [split; [rewrite len_app; lia|by left]|].
  destruct (cut_prefix snapshot (Z.max 0 (NOTICE_BYTES - (len head + len (notice_marker proposal)))))
    as (rest & Es & Hc); [lia|].
  set (kept := cut snapshot _) in *. split; [rewrite !len_app; lia|].
  right. exists kept, rest. split; [done|]. split; [|done]. intros ->. rewrite app_empty in Es.
  rewrite Es in E. pose proof (len_nonneg (notice_marker proposal)). lia.
Qed.

#[export] Instance demo_event_json : EventJson := {| record_json_len := λ _, 1024 |}.

Lemma notice_fits_witness :
  len (notice_text "pool-1" "ship it" [("ag-a", "Ada", "lead")]%string 1 1 "the result")
  ≤ NOTICE_BYTES.
Proof.
  apply (notice_fits "pool-1" "ship it" [("ag-a", "Ada", "lead")]%string 1 1 "the result").
  - vm_compute. discriminate.
  - apply Forall_singleton. split; [vm_compute; discriminate|].
    split; [by apply ascii_utf8|]. split; [vm_compute; reflexivity|].
    split; [by apply ascii_utf8|]. vm_compute; reflexivity.
  - simpl. lia.
  - lia.
  - lia.
Defined.

Lemma evaluate_decides_unanimity_witness :
  unanimous demo_agreed "pool-1" (demo_pool Open) demo_proposal.
Proof.
  apply (proj2 (evaluate_decides_unanimity demo_agreed "pool-1" demo_agreed_wf)).
  eexists. vm_compute. reflexivity.
Defined.

Definition demo_completed : Db :=
  match settle_in_tx demo_agreed "pool-1" (of_Z 300) "u" with
  | Ok (db, _) => db
  | Err _ => demo_agreed
  end.

Lemma demo_completed_Ok :
  settle_in_tx demo_agreed "pool-1" (of_Z 300) "u" =
    Ok (demo_completed, Some (mk_completion "pool-1" "ntf_u" false true)).
Proof. vm_compute. reflexivity. Qed.

Lemma settle_exactly_once_witness :
  settle_in_tx demo_completed "pool-1" (of_Z 400) "w" =
    Ok (demo_completed, Some (mk_completion "pool-1" "ntf_u" false false)).
Proof.
  destruct (settle_exactly_once demo_agreed "pool-1" (of_Z 300) "u" demo_completed
              (mk_completion "pool-1" "ntf_u" false true) demo_agreed_wf
              demo_completed_Ok eq_refl) as (p & e & ms & _ & _ & _ & Hagain).
  apply (Hagain (of_Z 400) "w"%string).
Defined.
