(* ===== verification/PoolReplace.v ===== *)
(** * Replacing a pool member

    [pool_replace.rs]: the refusals, the replay of a committed replacement, the
    context a caller composes the new task from, and the replacement itself.
    The admission of the new execution ([admit_in_tx]) is the interface
    [Admission]: an operation and what it promises to its callers. *)

From S2P Require Import Prelude Text Float64 Canonical Lifecycle Requests PoolDomain.
From S2P Require Import Tables Demo Roster World WorkerStore Sessions ServiceRestart.
From S2P Require Import PoolEnrollment PoolLog PoolWrites PoolSettle Settlement.

(** What the admission of one execution promises: it appends one agent under
    the given identity and some attempts, events and deliveries of that agent,
    and leaves the pools, the seats and the log alone. *)
Record admission_frame (db : Db) (id : string) (db' : Db) : Prop := {
  adm_agent : ∃ a, db_agents db' = db_agents db ++ [a] ∧ ag_id a = id ∧
                Status.terminal (ag_status a) = false;
  adm_keys : keys_ok db → keys_ok db';
  adm_pools : db_pools db' = db_pools db;
  adm_members : db_members db' = db_members db;
  adm_entries : db_entries db' = db_entries db ∧ db_entry_seq db' = db_entry_seq db;
  adm_enrollments : db_enrollments db' = db_enrollments db;
  adm_events : ∃ es, db_events db' = db_events db ++ es ∧
                 Forall (λ e, ev_agent e = id ∧ plain_event e) es;
  adm_numbers : numbered (journal db) → numbered (journal db');
  adm_deliveries : queues (db_deliveries db) (db_deliveries db');
  adm_attempts : ∃ ts, db_attempts db' = db_attempts db ++ ts ∧ Forall (λ t, at_agent t = id) ts;
}.

Class Admission (Inputs : Type) := {
  effective_orchestrator : Inputs → option OrchestratorRef;
  admit_in_tx : Db → string → Inputs → result Db;
  admit_promise : ∀ db id i db', admit_in_tx db id i = Ok db' → admission_frame db id db';
}.

Record PoolMemberRecord := mk_record {
  pmr_agent : string;
  pmr_slot : Z;
  pmr_name : string;
  pmr_role : string;
}.

Record PoolReplaceContext := mk_context {
  rc_pool : string;
  rc_goal : string;
  rc_acceptance : list AcceptanceCriterion;
  rc_revision : Z;
  rc_seats : list PoolMemberRecord;
  rc_old : PoolMemberRecord;
  rc_personal_task : string;
  rc_last_seq : Z;
  rc_proposal : option Z;
}.

Record PoolReplacement := mk_replacement {
  rp_pool_id : string;
  rp_old : PoolMemberRecord;
  rp_new : PoolMemberRecord;
  rp_revision : Z;
  rp_created : bool;
}.

Record PoolReplaceInput (Inputs : Type) := mk_replace_input {
  ri_pool : string;
  ri_old : string;
  ri_request_id : string;
  ri_request_sha256 : string;
  ri_expected_revision : Z;
  ri_new_id : string;
  ri_name : string;
  ri_personal_task : string;
  ri_inputs : Inputs;
}.
Arguments mk_replace_input {Inputs}.
Arguments ri_pool {Inputs}.
Arguments ri_old {Inputs}.
Arguments ri_request_id {Inputs}.
Arguments ri_request_sha256 {Inputs}.
Arguments ri_expected_revision {Inputs}.
Arguments ri_new_id {Inputs}.
Arguments ri_name {Inputs}.
Arguments ri_personal_task {Inputs}.
Arguments ri_inputs {Inputs}.

(** The member row of a pool. *)
Definition seat_row (db : Db) (pool agent : string) : option MemberRow :=
  first_where (λ m, mb_pool m = pool ∧ mb_agent m = agent) (db_members db).

(** [record_of]. *)
Definition record_of (db : Db) (pool agent : string) : result PoolMemberRecord :=
  let? m := row (seat_row db pool agent) in
  Ok (mk_record agent (mb_slot m) (mb_name m) (mb_role m)).

(** [refusal]. *)
Definition refusal (db : Db) (pool old : string) : result (option PoolDenial) :=
  match first_where (λ p, pl_id p = pool) (db_pools db) with
  | None => Ok (Some PoolNotFound)
  | Some p =>
      match seat_row db pool old with
      | None => Ok (Some NotPoolMember)
      | Some m =>
          if is_some (mb_replaced_by m) then Ok (Some MemberNotCurrent)
          else if bool_decide (pl_state p = Completed) then Ok (Some PoolCompleted)
          else
            let? tip := tip_of db old in
            let? status := agent_status db tip in
            Ok (if negb (Status.terminal status) || negb (lineage_cleanup_complete db old)
                then Some MemberBusy else None)
      end
  end.

(** [replayed]. *)
Definition replayed (db : Db) (pool request_id request_sha256 : string)
  : result (option (PoolDenial + PoolReplacement)) :=
  match prior_entry db pool "replace" request_id with
  | None => Ok None
  | Some e =>
      let? new := row (first_where (λ m, mb_pool m = pool ∧ mb_joined_revision m = en_revision e)
                         (db_members db)) in
      let? event :=
        row (first_where (λ x, ev_agent x = mb_agent new ∧ is_some (replaced_sha256 (ev_data x)) = true)
               (db_events db)) in
      if negb (bool_decide (replaced_sha256 (ev_data event) = Some request_sha256))
      then Ok (Some (inl DConflict))
      else
        let? old := row (first_where (λ m, mb_pool m = pool ∧ mb_replaced_by m = Some (mb_agent new))
                           (db_members db)) in
        let? old_record := record_of db pool (mb_agent old) in
        let? new_record := record_of db pool (mb_agent new) in
        Ok (Some (inr (mk_replacement pool old_record new_record (en_revision e) false)))
  end.

(** [current_name_taken]. *)
Definition current_name_taken `{Unicode} (db : Db) (pool old name : string) : bool :=
  existsb (λ m, bool_decide (to_lowercase (mb_name m) = to_lowercase name))
    (filter (λ m, current_seat pool m ∧ mb_agent m ≠ old) (db_members db)).

(** [pool_binding]. *)
Definition pool_binding (db : Db) (pool : string) : option OrchestratorRef :=
  match first_where (λ p, pl_id p = pool) (db_pools db) with
  | None => None
  | Some p =>
      match first_where (λ s, Some (os_id s) = pl_session p) (db_sessions db) with
      | None => None
      | Some s =>
          Some (mk_orchestrator (os_transport s) (os_external_session_id s) (os_external_turn_id s))
      end
  end.

(** [member_pool_binding]. *)
Definition member_pool_binding (db : Db) (root : string) : option OrchestratorRef :=
  match first_where (λ m, mb_agent m = root) (db_members db) with
  | Some m => pool_binding db (mb_pool m)
  | None => None
  end.

(** [pool_replace_context]. *)
Definition pool_replace_context (db : Db) (pool old : string)
  : result (PoolDenial + PoolReplaceContext) :=
  let? denied := refusal db pool old in
  match denied with
  | Some d => Ok (inl d)
  | None =>
      let? p := row (first_where (λ p, pl_id p = pool) (db_pools db)) in
      let? seats := traverse (λ m, record_of db pool (mb_agent m)) (current_seats db pool) in
      let? m := row (seat_row db pool old) in
      let? old_record :=
        ok_or (Integrity "replaced seat missing from roster")
          (first_where (λ r, pmr_agent r = old) seats) in
      Ok (inr (mk_context pool (pl_goal p) (pl_acceptance p) (pl_revision p) seats old_record
                 (mb_task m) (Z.max (log_revision db pool) 0)
                 (option_map (λ e, Z.max (en_seq e) 0) (current_proposal db pool))))
  end.

(** ** The replacement *)

Definition replaced_with (new : string) (m : MemberRow) : MemberRow :=
  mk_member (mb_agent m) (mb_pool m) (mb_slot m) (mb_name m) (mb_role m) (mb_task m)
    (mb_joined_revision m) (Some new).

Definition with_revision (revision : Z) (p : PoolRow) : PoolRow :=
  mk_pool (pl_id p) (pl_session p) (pl_goal p) (pl_acceptance p) (pl_state p) revision
    (pl_delivery p) (pl_namespace p) (pl_request_id p) (pl_request_sha256 p).

Definition roster_body (old : PoolMemberRecord) (name new_id : string) (revision : Z) : string :=
  "Slot " +:+ dec (pmr_slot old) +:+ " changed: " +:+ name +:+ " (" +:+ pmr_role old
  +:+ ") now runs as " +:+ new_id +:+ ", replacing " +:+ pmr_agent old +:+ ". Roster revision "
  +:+ dec revision
  +:+ "; votes cast before this change no longer count. Re-read the log with pool_read.".

Definition roster_entry (pool : string) (revision : Z) (body request_id : string) : EntryRow :=
  mk_entry 0 pool ABroker None None None Team KRoster None None revision None None None body None
    None None "replace" request_id.

(** [advance_quota_capacity_revision]. *)
Definition advance_capacity (db : Db) : result Db :=
  fail? negb (db_capacity_revision db <? i64_MAX) with
    invalid "quota capacity revision cannot advance";
  Ok (set_capacity_revision (db_capacity_revision db + 1) db).

(** [UPDATE pool_members SET replaced_by=new]: a seat does not replace itself
    and a retired seat keeps its successor. *)
Definition retire_seat (db : Db) (pool old new : string) : result Db :=
  fail? exists_where
          (λ m, mb_pool m = pool ∧ mb_agent m = old ∧
                (old = new ∨ (mb_replaced_by m ≠ None ∧ mb_replaced_by m ≠ Some new)))
          (db_members db) with Sql ConstraintViolation;
  Ok (set_members
        (update_where (λ m, mb_pool m = pool ∧ mb_agent m = old) (replaced_with new)
           (db_members db)) db).

(** The seat swap: the old seat retires, the new one takes its slot, the
    revision advances. *)
Definition swap_seat (db : Db) (pool old : string) (seat : MemberRow) (revision : Z) : result Db :=
  let? db := retire_seat db pool old (mb_agent seat) in
  let? db := insert_member db seat in
  fail? negb (1 <=? revision) with Sql ConstraintViolation;
  Ok (set_pools (update_where (λ p, pl_id p = pool) (with_revision revision) (db_pools db)) db).

(** [u32] addition in a release build. *)
Definition u32_add (x y : Z) : Z := (x + y) mod 2 ^ 32.

Section replace.
Context {Inputs : Type} `{Admission Inputs, Serde, Unicode}.

(** The seat of the new execution: the slot and the role of the old one. *)
Definition seat_for (input : PoolReplaceInput Inputs) (old : PoolMemberRecord) (revision : Z)
  : MemberRow :=
  mk_member (ri_new_id input) (ri_pool input) (pmr_slot old) (ri_name input) (pmr_role old)
    (ri_personal_task input) revision None.

(** The writes of [replace_pool_member] after the admission. *)
Definition install_replacement (db : Db) (input : PoolReplaceInput Inputs) (old : PoolMemberRecord)
  (revision : Z) (now : f64) : result (Db * PoolReplacement) :=
  let? db := swap_seat db (ri_pool input) (ri_old input) (seat_for input old revision) revision in
  let? (db, seq) :=
    insert_entry db
      (roster_entry (ri_pool input) revision
         (roster_body old (ri_name input) (ri_new_id input) revision) (ri_request_id input)) in
  let? db := fanout_entry db (ri_pool input) (ri_new_id input) seq in
  let? db :=
    advance_capacity
      (fst (tx_event db (ri_new_id input) now
              (EMemberReplaced (ri_pool input) (ri_request_id input) (ri_request_sha256 input)
                 (pmr_agent old) revision seq))) in
  let? new := record_of db (ri_pool input) (ri_new_id input) in
  Ok (db, mk_replacement (ri_pool input) old new revision true).

(** [replace_pool_member]. *)
Definition replace_pool_member (db : Db) (input : PoolReplaceInput Inputs) (now : f64)
  : result (verdict PoolReplacement) :=
  let? found := replayed db (ri_pool input) (ri_request_id input) (ri_request_sha256 input) in
  match found with
  | Some (inl d) => Ok (Denied d)
  | Some (inr r) => Ok (Accepted db r)
  | None =>
      try? require_admissions_open db;
      let? denied := refusal db (ri_pool input) (ri_old input) in
      match denied with
      | Some d => Ok (Denied d)
      | None =>
          let? p := row (first_where (λ p, pl_id p = ri_pool input) (db_pools db)) in
          if negb (pl_revision p =? ri_expected_revision input)
          then Ok (Denied (StaleRoster (pl_revision p)))
          else
            fail? current_name_taken db (ri_pool input) (ri_old input) (ri_name input) with
              Validation "member names must be unique";
            let? db := admit_in_tx db (ri_new_id input) (ri_inputs input) in
            let? old := record_of db (ri_pool input) (ri_old input) in
            let? (db, r) := install_replacement db input old (u32_add (pl_revision p) 1) now in
            Ok (Accepted db r)
      end
  end.
End replace.
