(* ===== verification/PoolAdmit.v ===== *)
(** * Admitting a pool

    [pool_admission.rs] and the eligibility read of [pool_enrollment.rs]: one
    transaction admits every member, the pool and its roster, or nothing; a
    repeated request returns the original pool.  A member is a new execution,
    admitted through the interface [Admission], or a running worker that is
    enrolled without being restarted. *)

From S2P Require Import Prelude Text Float64 Json Canonical Catalogs Lifecycle Requests.
From S2P Require Import PoolDomain Tables Demo Roster World History WorkerStore.
From S2P Require Import Sessions ServiceRestart PoolEnrollment PoolLog PoolWrites PoolSettle.
From S2P Require Import Settlement PoolReplace.


(** What the eligibility read asks of the host: whether the recorded supervisor
    process is alive ([process::observe]), and the launch facts as JSON. *)
Class Host := {
  supervisor_alive : AgentRow → bool;
  launch_facts : AgentRow → option string → Value;
}.

(** ** A running worker *)

Record ExistingMember := mk_existing {
  em_agent : string;
  em_run : string;
  em_attempt : string;
  em_name : option string;
  em_task : string;
  em_orchestrator : option OrchestratorRef;
  em_fingerprint : string;
}.

(** [same_binding]. *)
Definition same_binding (left right : option OrchestratorRef) : result bool :=
  match left, right with
  | None, None => Ok true
  | Some a, Some b =>
      let? ta := canonical_transport_name (transport a) in
      let? tb := canonical_transport_name (transport b) in
      Ok (bool_decide (ta = tb) && bool_decide (external_session_id a = external_session_id b))
  | _, _ => Ok false
  end.

(** The owned, running, unfinished attempt of an execution. *)
Definition running_attempt (run : string) (t : AttemptRow) : Prop :=
  at_agent t = run ∧ at_state t = "running"%string ∧ at_owned t = true ∧ at_finished_at t = None.
#[global] Instance running_attempt_dec run t : Decision (running_attempt run t).
Proof. unfold running_attempt. apply _. Defined.

(** The catalog an attempt has registered is one this build reviews. *)
Definition catalog_known `{Sha256} (c : option CapabilityRow) : bool :=
  match c with
  | Some c =>
      match wc_catalog_version c, wc_catalog_digest c with
      | Some version, Some digest =>
          (0 <=? version) && (version <? 2 ^ 32) && known_pool_catalog version digest
      | _, _ => false
      end
  | None => false
  end.

(** The binding of an execution: a dangling session is a storage failure. *)
Definition bound_reference (db : Db) (a : AgentRow) : result (option OrchestratorRef) :=
  match ag_session a with
  | None => Ok None
  | Some sid =>
      let? s := row (first_where (λ s, os_id s = sid) (db_sessions db)) in
      Ok (Some (mk_orchestrator (os_transport s) (os_external_session_id s) (os_external_turn_id s)))
  end.

(** [existing_member]. *)
Definition existing_member `{Host, Sha256} (db : Db) (root : string) : result ExistingMember :=
  let? original := ok_or (NotFound root) (first_where (λ a, ag_id a = root) (db_agents db)) in
  fail? bool_decide (ag_pool_history original = Some true) with
    invalid "existing agent already has pool membership history";
  fail? negb (bool_decide (ag_pool_history original = Some false)) with
    Unsupported "existing agent independence history is unknown";
  fail? negb (bool_decide (root_of original = root)) with
    invalid "existing_agent_id must name the stable agent root";
  fail? exists_where (λ m, mb_agent m = root) (db_members db) with
    invalid "existing agent already has pool membership";
  let? r := tip_row db root in
  fail? negb (bool_decide (ag_status r = Running)) || is_some (ag_finished_at r) with
    invalid "existing pool member must be RUNNING with an unfinished execution";
  fail? negb (supervisor_alive r) with
    Unsupported "existing worker ownership is not verifiably alive";
  let? t := ok_or (invalid "existing worker attempt is not owned and RUNNING")
              (first_where (running_attempt (ag_id r)) (db_attempts db)) in
  fail? negb (catalog_known (first_where (λ c, wc_attempt c = at_id t) (db_capabilities db))) with
    Unsupported "existing worker pool catalog is unknown or unsupported";
  let? orchestrator := bound_reference db r in
  Ok (mk_existing root (ag_id r) (at_id t) (ag_display_name r) (sq_task (ag_request r)) orchestrator
        (sha256_hex (launch_facts r (at_account t)) true)).

(** ** The admission *)

Inductive PoolAdmissionSource (Inputs : Type) :=
  | New (inputs : Inputs)
  | Existing (pin : ExistingMember).
Arguments New {Inputs}.
Arguments Existing {Inputs}.

Record PoolMemberAdmission (Inputs : Type) := mk_member_admission {
  pa_id : string;
  pa_slot : Z;
  pa_name : string;
  pa_role : string;
  pa_task : string;
  pa_source : PoolAdmissionSource Inputs;
}.
Arguments mk_member_admission {Inputs}.
Arguments pa_id {Inputs}.
Arguments pa_slot {Inputs}.
Arguments pa_name {Inputs}.
Arguments pa_role {Inputs}.
Arguments pa_task {Inputs}.
Arguments pa_source {Inputs}.

Record PoolAdmissionInput (Inputs : Type) := mk_pool_input {
  pi_pool : string;
  pi_namespace : string;
  pi_request_id : string;
  pi_request_sha256 : string;
  pi_goal : string;
  pi_acceptance : list AcceptanceCriterion;
  pi_members : list (PoolMemberAdmission Inputs);
  pi_orchestrator : option OrchestratorRef;
}.
Arguments mk_pool_input {Inputs}.
Arguments pi_pool {Inputs}.
Arguments pi_namespace {Inputs}.
Arguments pi_request_id {Inputs}.
Arguments pi_request_sha256 {Inputs}.
Arguments pi_goal {Inputs}.
Arguments pi_acceptance {Inputs}.
Arguments pi_members {Inputs}.
Arguments pi_orchestrator {Inputs}.

Record PoolAdmission := mk_pool_admission {
  pd_pool : string;
  pd_created : bool;
  pd_members : list PoolMemberRecord;
}.

(** [members_of]: the roster of revision one in slot order. *)
Definition members_of (db : Db) (pool : string) : list PoolMemberRecord :=
  map (λ m, mk_record (mb_agent m) (mb_slot m) (mb_name m) (mb_role m))
    (merge_sort slot_le
       (filter (λ m, mb_pool m = pool ∧ mb_joined_revision m = 1) (db_members db))).

(** [replay_pool]. *)
Definition replay_pool (db : Db) (namespace request_id request_sha256 : string)
  : result (option PoolAdmission) :=
  match first_where (λ p, pl_namespace p = namespace ∧ pl_request_id p = request_id)
          (db_pools db) with
  | None => Ok None
  | Some p =>
      fail? negb (bool_decide (pl_request_sha256 p = request_sha256)) with Conflict;
      Ok (Some (mk_pool_admission (pl_id p) false (members_of db (pl_id p))))
  end.

(** The CHECK constraints of [pools] on a new row; [LIKE] ignores case. *)
Definition pool_row_checks `{Serde} (p : PoolRow) : bool :=
  starts_with "pool-" (to_ascii_lowercase (pl_id p))
  && ((6 <=? char_count (pl_id p)) && (char_count (pl_id p) <=? 64))
  && ((1 <=? char_count (pl_namespace p)) && (char_count (pl_namespace p) <=? 512))
  && ((1 <=? char_count (pl_request_id p)) && (char_count (pl_request_id p) <=? 512))
  && (char_count (pl_request_sha256 p) =? 64)
  && ((1 <=? len (pl_goal p)) && (len (pl_goal p) <=? 8192))
  && (acceptance_json_len (pl_acceptance p) <=? 32768)
  && (1 <=? pl_revision p).

(** The keys of [pools]. *)
Definition pool_table_checks (db : Db) (p : PoolRow) : bool :=
  negb (exists_where
          (λ q, pl_id q = pl_id p ∨
                (pl_namespace q = pl_namespace p ∧ pl_request_id q = pl_request_id p))
          (db_pools db))
  && references os_id (db_sessions db) (pl_session p).

(** [INSERT INTO pools]. *)
Definition insert_pool `{Serde} (db : Db) (p : PoolRow) : result Db :=
  fail? negb (pool_row_checks p && pool_table_checks db p) with Sql ConstraintViolation;
  Ok (set_pools (db_pools db ++ [p]) db).

(** [INSERT INTO pool_enrollments]. *)
Definition insert_enrollment (db : Db) (agent run attempt challenge : string) : result Db :=
  fail? negb (exists_where (λ m, mb_agent m = agent) (db_members db)
              && exists_where (λ a, ag_id a = run) (db_agents db)
              && exists_where (λ t, at_id t = attempt) (db_attempts db)
              && ((1 <=? char_count challenge) && (char_count challenge <=? 128))
              && negb (exists_where (λ r, er_agent r = agent ∨ er_challenge r = challenge)
                         (db_enrollments db))) with Sql ConstraintViolation;
  Ok (set_enrollments
        (db_enrollments db
         ++ [mk_enrollment agent run attempt challenge EPending None None None false]) db).

Section admission.
Context {Inputs : Type} `{Admission Inputs, Serde, Unicode, Host, Sha256}.

(** The pinned facts of a running worker still hold. *)
Definition pin_holds (db : Db) (orchestrator : option OrchestratorRef) (id : string)
  (pin : ExistingMember) : result () :=
  let? actual := existing_member db id in
  fail? negb (bool_decide (em_run actual = em_run pin))
        || negb (bool_decide (em_attempt actual = em_attempt pin))
        || negb (bool_decide (em_fingerprint actual = em_fingerprint pin)) with
    invalid "existing worker changed during pool admission";
  let? same := same_binding (em_orchestrator actual) (em_orchestrator pin) in
  fail? negb same with invalid "existing worker changed during pool admission";
  if is_some (em_orchestrator actual) then
    let? shared := same_binding (em_orchestrator actual) orchestrator in
    fail? negb shared with invalid "existing worker is bound to a different orchestrator";
    Ok ()
  else Ok ().

(** One member of the admission loop; the state carries the names seen. *)
Definition admit_member (orchestrator : option OrchestratorRef) (st : Db * list string)
  (m : PoolMemberAdmission Inputs) : result (Db * list string) :=
  let '(db, names) := st in
  let name := to_lowercase (pa_name m) in
  fail? bool_decide (name ∈ names) with invalid "member names must be unique";
  match pa_source m with
  | New inputs =>
      fail? negb (bool_decide (effective_orchestrator inputs = orchestrator)) with
        invalid "pool members must share one orchestrator binding";
      let? db := admit_in_tx db (pa_id m) inputs in
      Ok (db, name :: names)
  | Existing pin =>
      try? pin_holds db orchestrator (pa_id m) pin;
      Ok (db, name :: names)
  end.

Definition seat_of (input : PoolAdmissionInput Inputs) (m : PoolMemberAdmission Inputs) : MemberRow :=
  mk_member (pa_id m) (pi_pool input) (pa_slot m) (pa_name m) (pa_role m) (pa_task m) 1 None.

Definition challenge_of (fresh : string) : string := "pool-join-v1-" +:+ fresh.

(** The introduction steered into a running worker. *)
Definition enrollment_intro (input : PoolAdmissionInput Inputs) (m : PoolMemberAdmission Inputs)
  (challenge : string) : string :=
  "Pool " +:+ pi_pool input +:+ " enrollment pending. Seat: " +:+ pa_name m +:+ " ("
  +:+ pa_role m +:+ "). Goal brief: " +:+ of_chars (take 96 (chars (pi_goal input)))
  +:+ ". Roster: " +:+ roster_text (map (λ m, (pa_id m, pa_name m, pa_role m)) (pi_members input))
  +:+ ". Your current work, permissions, session and original deadline remain unchanged. "
  +:+ "Read pool_read for the authoritative full goal and acceptance criteria; then acknowledge "
  +:+ "awareness with pool_post request_id=" +:+ challenge
  +:+ " and a brief current-work summary. Transport receipt is not acknowledgement.".

(** The enrollment of a running worker; a new member needs none. *)
Definition enroll_member (input : PoolAdmissionInput Inputs) (session : option string)
  (uuid : string → string) (db : Db) (m : PoolMemberAdmission Inputs) : result Db :=
  match pa_source m with
  | New _ => Ok db
  | Existing pin =>
      let db :=
        match session with
        | Some session =>
            set_agents (update_where (λ a, ag_id a = em_run pin ∧ ag_session a = None)
                          (with_session session) (db_agents db)) db
        | None => db
        end in
      let challenge := challenge_of (uuid (pa_id m)) in
      let? db := insert_enrollment db (pa_id m) (em_run pin) (em_attempt pin) challenge in
      let intro := enrollment_intro input m challenge in
      fail? 4096 <? len intro with invalid "pool enrollment introduction exceeds bounded message size";
      Ok (insert_command db (em_run pin) (Steer intro (Some (pa_id m)) false))
  end.

Definition is_new (m : PoolMemberAdmission Inputs) : bool :=
  match pa_source m with New _ => true | Existing _ => false end.

Definition new_pool (input : PoolAdmissionInput Inputs) (session : option string) : PoolRow :=
  mk_pool (pi_pool input) session (pi_goal input) (pi_acceptance input) Open 1 None
    (pi_namespace input) (pi_request_id input) (pi_request_sha256 input).

(** The shared session of the pool, when the request names an orchestrator. *)
Definition pool_session (db : Db) (orchestrator : option OrchestratorRef) (fresh : string)
  : result (Db * option string) :=
  match orchestrator with
  | None => Ok (db, None)
  | Some reference =>
      let? (db, session) := session_for_reference db reference fresh in
      Ok (db, Some session)
  end.

(** [Store::admit_pool]. *)
Definition admit_pool (db : Db) (input : PoolAdmissionInput Inputs) (fresh : string)
  (uuid : string → string) : result (Db * PoolAdmission) :=
  let? found := replay_pool db (pi_namespace input) (pi_request_id input) (pi_request_sha256 input) in
  match found with
  | Some found => Ok (db, found)
  | None =>
      try? require_admissions_open db;
      fail? bool_decide (length (pi_members input) = 0%nat) with
        invalid "pool members must share one orchestrator binding";
      let? (db, _) := try_fold (admit_member (pi_orchestrator input)) (db, []) (pi_members input) in
      let? (db, session) := pool_session db (pi_orchestrator input) fresh in
      let? db := insert_pool db (new_pool input session) in
      let? db := try_fold insert_member db (map (seat_of input) (pi_members input)) in
      let? db := try_fold (enroll_member input session uuid) db (pi_members input) in
      let? db := if existsb is_new (pi_members input) then advance_capacity db else Ok db in
      Ok (db, mk_pool_admission (pi_pool input) true (members_of db (pi_pool input)))
  end.
End admission.
