(* ===== verification/Replacement.v ===== *)
(** * What a replacement does

    Theorems on [replace_pool_member]: the exact seat swap, the votes it voids,
    the absence of storage failures of its own, and the replay of a committed
    replacement at any later state. *)

From S2P Require Import Prelude Text Float64 Canonical Lifecycle Requests PoolDomain.
From S2P Require Import Tables Demo Roster World WorkerStore Sessions ServiceRestart.
From S2P Require Import PoolEnrollment PoolLog PoolWrites PoolSettle Settlement PoolReplace.

Section replacement.
Context {Inputs : Type} `{Admission Inputs, Serde, Unicode}.
Implicit Types (db : Db) (input : PoolReplaceInput Inputs).

(** ** The refusals *)

(** What stands when a replacement is not refused. *)
Record replaceable (db : Db) (pool old : string) (p : PoolRow) (m : MemberRow) : Prop := {
  rb_pool : first_where (λ p, pl_id p = pool) (db_pools db) = Some p;
  rb_open : pl_state p = Open;
  rb_seat : seat_row db pool old = Some m;
  rb_current : mb_replaced_by m = None;
  rb_ended : ∃ tip, tip_of db old = Ok tip ∧
               ∃ s, agent_status db tip = Ok s ∧ Status.terminal s = true;
  rb_clean : lineage_clean db old;
}.

Lemma refusal_None db pool old :
  refusal db pool old = Ok None → ∃ p m, replaceable db pool old p m.
Proof.
  unfold refusal. intros E. destruct (first_where _ _) as [p|] eqn:Ep; [|done].
  destruct (seat_row db pool old) as [m|] eqn:Em; [|done].
  destruct (mb_replaced_by m) eqn:Er; [done|]. simpl in E.
  destruct (bool_decide _) eqn:Es; [done|]. to_prop.
  destruct (tip_of db old) as [tip|] eqn:Et; [|done].
  destruct (agent_status db tip) as [s|] eqn:Ea; [|done].
  destruct (_ || _) eqn:Eb; [done|]. to_prop. exists p, m. split; eauto.
  - by destruct (pl_state p).
  - by apply lineage_clean_iff.
Qed.

Lemma seat_row_Some db pool old m :
  seat_row db pool old = Some m → m ∈ db_members db ∧ mb_pool m = pool ∧ mb_agent m = old.
Proof. by intros [[? ?] ?]%first_where_Some. Qed.

(** ** The committed effect *)

Definition swapped (db : Db) (pool old : string) (seat : MemberRow) (revision : Z) : Db :=
  set_pools (update_where (λ p, pl_id p = pool) (with_revision revision) (db_pools db))
    (remember_history (mb_agent seat)
       (set_members
          (update_where (λ m, mb_pool m = pool ∧ mb_agent m = old) (replaced_with (mb_agent seat))
             (db_members db) ++ [seat]) db)).

Definition announcement (input : PoolReplaceInput Inputs) (old : PoolMemberRecord) (revision : Z)
  : EntryRow :=
  roster_entry (ri_pool input) revision
    (roster_body old (ri_name input) (ri_new_id input) revision) (ri_request_id input).

(** The state after the writes. *)
Definition replaced_db (db : Db) (input : PoolReplaceInput Inputs) (old : PoolMemberRecord)
  (revision : Z) (now : f64) (commands : list CommandRow) (counter : Z) : Db :=
  let d1 := swapped db (ri_pool input) (ri_old input) (seat_for input old revision) revision in
  let d2 := with_entry d1 (announcement input old revision) in
  let d3 := set_command_seq counter (set_commands commands d2) in
  let d4 := fst (tx_event d3 (ri_new_id input) now
                   (EMemberReplaced (ri_pool input) (ri_request_id input) (ri_request_sha256 input)
                      (pmr_agent old) revision (db_entry_seq d1 + 1))) in
  set_capacity_revision (db_capacity_revision d4 + 1) d4.

Definition old_record (input : PoolReplaceInput Inputs) (m : MemberRow) : PoolMemberRecord :=
  mk_record (ri_old input) (mb_slot m) (mb_name m) (mb_role m).

(** A created replacement. *)
Record fresh_replacement (db : Db) (input : PoolReplaceInput Inputs) (now : f64) (p : PoolRow)
  (m : MemberRow) (db1 db' : Db) : Prop := {
  fr_replaceable : replaceable db (ri_pool input) (ri_old input) p m;
  fr_prior : prior_entry db (ri_pool input) "replace" (ri_request_id input) = None;
  fr_revision : pl_revision p = ri_expected_revision input;
  fr_name : current_name_taken db (ri_pool input) (ri_old input) (ri_name input) = false;
  fr_admitted : admit_in_tx db (ri_new_id input) (ri_inputs input) = Ok db1;
  fr_effect :
    ∃ commands counter,
      db' = replaced_db db1 input (old_record input m) (u32_add (pl_revision p) 1) now commands counter;
}.

Lemma replayed_None db pool request_id sha :
  replayed db pool request_id sha = Ok None → prior_entry db pool "replace" request_id = None.
Proof.
  unfold replayed. destruct (prior_entry _ _ _ _); [|done]. intros E. by walk E.
Qed.

Lemma swap_seat_Ok db pool old seat revision db' :
  swap_seat db pool old seat revision = Ok db' →
  1 ≤ revision ∧ db' = swapped db pool old seat revision.
Proof.
  unfold swap_seat, retire_seat, insert_member. intros E.
  destruct (exists_where _ _); [discriminate E|].
  destruct (negb (member_row_checks _ && _)); [discriminate E|].
  destruct (1 <=? revision) eqn:Er; [|discriminate E]. to_prop. by injection E as <-.
Qed.

Lemma record_of_Some db pool agent r :
  record_of db pool agent = Ok r →
  ∃ m, seat_row db pool agent = Some m ∧ r = mk_record agent (mb_slot m) (mb_name m) (mb_role m).
Proof.
  unfold record_of. destruct (seat_row db pool agent) as [m|]; [|done]. intros [= <-]. eauto.
Qed.

(** The tables a reader of seats looks at are untouched by the admission. *)
Lemma seat_row_admitted db id i db1 pool agent :
  admit_in_tx db id i = Ok db1 → seat_row db1 pool agent = seat_row db pool agent.
Proof. intros Ha%admit_promise. unfold seat_row. by rewrite (adm_members _ _ _ Ha). Qed.

Lemma accepted_inj {A} db db' (a a' : A) :
  Ok (Accepted db a) = Ok (Accepted db' a') → db = db' ∧ a = a'.
Proof. by intros [= -> ->]. Qed.

Lemma advance_capacity_Ok db db' :
  advance_capacity db = Ok db' → db' = set_capacity_revision (db_capacity_revision db + 1) db.
Proof. unfold advance_capacity. destruct (negb _); [done|]. by intros [= <-]. Qed.

Lemma install_Ok db input old revision now db' r :
  install_replacement db input old revision now = Ok (db', r) →
  1 ≤ revision ∧
  (∃ commands counter, db' = replaced_db db input old revision now commands counter) ∧
  ∃ new, record_of db' (ri_pool input) (ri_new_id input) = Ok new ∧
    r = mk_replacement (ri_pool input) old new revision true.
Proof.
  unfold install_replacement. intros E.
  destruct (swap_seat _ _ _ _ _) as [db2|] eqn:Es; [|discriminate E].
  apply swap_seat_Ok in Es as [Hrv ->]. split; [exact Hrv|].
  destruct (insert_entry _ _) as [[db3 seq]|] eqn:Ei; [|discriminate E].
  apply insert_entry_Ok in Ei as (-> & _ & _ & ->).
  fold (announcement input old revision) in E.
  match type of E with context [set_entry_seq (db_entry_seq ?d + 1) (set_entries _ ?d)] =>
    fold (with_entry d (announcement input old revision)) in E end.
  destruct (fanout_entry _ _ _ _) as [db4|] eqn:Eout; [|discriminate E].
  apply fanout_entry_frame in Eout as (counter & commands & ->).
  destruct (advance_capacity _) as [db5|] eqn:Ec; [|discriminate E].
  apply advance_capacity_Ok in Ec as ->.
  destruct (record_of _ _ (ri_new_id input)) as [new|] eqn:En2; [|discriminate E].
  apply ok_pair_inj in E as [<- <-]. split; [exists commands, counter; reflexivity|eauto].
Qed.

Lemma replace_Accepted db input now db' r :
  replace_pool_member db input now = Ok (Accepted db' r) →
  if rp_created r
  then ∃ p m db1, fresh_replacement db input now p m db1 db' ∧
         1 ≤ u32_add (pl_revision p) 1 ∧
         ∃ new, record_of db' (ri_pool input) (ri_new_id input) = Ok new ∧
           r = mk_replacement (ri_pool input) (old_record input m) new (u32_add (pl_revision p) 1) true
  else db' = db ∧
       replayed db (ri_pool input) (ri_request_id input) (ri_request_sha256 input) = Ok (Some (inr r)).
Proof.
  unfold replace_pool_member. intros E.
  destruct (replayed _ _ _ _) as [[[d|r']|]|] eqn:Er; [discriminate E| | |discriminate E].
  { injection E as <- <-. assert (rp_created r' = false) as ->; [|done].
    unfold replayed in Er. walk Er. by injection Er as <-. }
  apply replayed_None in Er.
  destruct (require_admissions_open db); [|discriminate E].
  destruct (refusal _ _ _) as [[d|]|] eqn:Ef; [discriminate E| |discriminate E].
  apply refusal_None in Ef as (p & m & Hrep). rewrite (rb_pool _ _ _ _ _ Hrep) in E. cbn [row ok_or] in E.
  destruct (negb _) eqn:Erev; [discriminate E|]. to_prop.
  destruct (current_name_taken _ _ _ _) eqn:En; [discriminate E|].
  destruct (admit_in_tx _ _ _) as [db1|] eqn:Ea; [|discriminate E].
  destruct (record_of db1 _ _) as [old|] eqn:Eo; [|discriminate E].
  apply record_of_Some in Eo as (m' & Em & ->). rewrite (seat_row_admitted _ _ _ _ _ _ Ea) in Em.
  rewrite (rb_seat _ _ _ _ _ Hrep) in Em. injection Em as <-. fold (old_record input m) in E.
  destruct (install_replacement _ _ _ _ _) as [[db2 r2]|] eqn:Ei; [|discriminate E].
  apply accepted_inj in E as [<- <-]. apply install_Ok in Ei as (Hrv & Heff & new & Hnew & ->).
  cbn [rp_created]. exists p, m, db1. split; [|eauto]. by split.
Qed.
(** ** Well-formedness *)

Lemma admitted_wf db id db1 : identity_ok id → wf db → admission_frame db id db1 → wf db1.
Proof.
  intros Hok [Hk Hc Ha Hp Hm Hh Hr Hv Hb Hl Hj Hd] Hf.
  destruct Hf as [(a & Ea & Hid & _) Fk Fp Fm [Fe Fs] _ _ _ _]. split.
  - by apply Fk.
  - by rewrite Fs.
  - rewrite Ea. intros x [Hx| ->%list_elem_of_singleton]%elem_of_app; [by apply Ha|by rewrite Hid].
  - by rewrite Fp.
  - rewrite Fm. intros m Hin. destruct (Hm m Hin) as [? (b & Hb' & Eb) ? ? ?].
    split; [by rewrite Fp| |done..]. exists b. rewrite Ea. split; [|done]. apply elem_of_app. by left.
  - by rewrite Fe, Fp.
  - by rewrite Fe.
  - by rewrite Fe.
  - unfold points_back. by rewrite Fe.
  - by rewrite Fe, Fp.
  - by rewrite Fm, Fp.
  - by rewrite Fm.
Qed.

(** A fresh execution holds no seat. *)
Lemma admitted_no_seat db id db1 m :
  wf db → admission_frame db id db1 → m ∈ db_members db → mb_agent m ≠ id.
Proof.
  intros Hw Hf Hm Hid. destruct (adm_agent _ _ _ Hf) as (a & Ea & Eid & _).
  pose proof (keys_agents _ (adm_keys _ _ _ Hf (wf_keys _ Hw))) as Hn. rewrite Ea, map_app in Hn.
  apply NoDup_app in Hn as (_ & Hn & _).
  destruct (seat_agent _ _ (wf_members _ Hw m Hm)) as (b & Hb & Eb).
  apply (Hn (ag_id b)); [by apply list_elem_of_fmap_2|]. rewrite Eb, Hid, <-Eid. left.
Qed.

Lemma u32_succ rev : 1 ≤ rev < 2 ^ 32 → 1 ≤ u32_add rev 1 → u32_add rev 1 = rev + 1 ∧ rev + 1 < 2 ^ 32.
Proof.
  unfold u32_add. intros Hr Hu. destruct (Z.eq_dec (rev + 1) (2 ^ 32)) as [E|].
  - rewrite E, Z.mod_same in Hu; lia.
  - rewrite Z.mod_small by lia. lia.
Qed.

Lemma name_free db pool old name m :
  current_name_taken db pool old name = false → m ∈ db_members db → current_seat pool m →
  mb_agent m ≠ old → mb_name m ≠ name.
Proof.
  unfold current_name_taken. intros E Hm Hc Ho Hn. apply not_true_iff_false in E. apply E.
  apply existsb_exists. exists m. split; [|apply bool_decide_eq_true; by rewrite Hn].
  apply list_elem_of_In, list_elem_of_filter. done.
Qed.

Section swap.
Variables (db : Db) (pool old : string) (m : MemberRow) (p : PoolRow) (seat : MemberRow) (rev : Z).
Hypothesis Hw : wf db.
Hypothesis Hm : m ∈ db_members db ∧ mb_pool m = pool ∧ mb_agent m = old ∧ mb_replaced_by m = None.
Hypothesis Hp : p ∈ db_pools db ∧ pl_id p = pool.
Hypothesis Hrev : rev = pl_revision p + 1 ∧ rev < 2 ^ 32.
Hypothesis Hfresh : ∀ x, x ∈ db_members db → mb_agent x ≠ mb_agent seat.
Hypothesis Hagent : ∃ a, a ∈ db_agents db ∧ ag_id a = mb_agent seat.
Hypothesis Hseat : mb_pool seat = pool ∧ mb_slot seat = mb_slot m ∧ mb_role seat = mb_role m ∧
  mb_joined_revision seat = rev ∧ mb_replaced_by seat = None ∧ label_ok (mb_name seat).
Hypothesis Hname : ∀ x, x ∈ db_members db → current_seat pool x → mb_agent x ≠ old →
  mb_name x ≠ mb_name seat.

(** The rows of the seats after the swap. *)
Lemma swapped_member x :
  x ∈ db_members (swapped db pool old seat rev) ↔
  x = seat ∨ x = replaced_with (mb_agent seat) m ∨ (x ∈ db_members db ∧ x ≠ m).
Proof.
  destruct Hm as (Hin & Hmp & Hmo & Hmc). simpl. rewrite elem_of_app, list_elem_of_singleton, elem_of_update_where.
  split.
  - intros [(y & Hy & ->)| ->]; [right|by left]. destruct (decide (mb_pool y = pool ∧ mb_agent y = old)) as [[_ Ey]|Hn].
    + rewrite (primary_key mb_agent _ y m (keys_members _ (wf_keys _ Hw)) Hy Hin) by congruence. by left.
    + right. split; [done|]. intros ->. by apply Hn.
  - intros [->|[->|[Hx Hne]]]; [by right|left..].
    + exists m. split; [done|]. by rewrite decide_True.
    + exists x. split; [done|]. rewrite decide_False; [done|]. intros [_ Ex]. apply Hne.
      apply (primary_key mb_agent _ x m (keys_members _ (wf_keys _ Hw))); congruence.
Qed.

Lemma swapped_pool q :
  q ∈ db_pools (swapped db pool old seat rev) ↔
  q = with_revision rev p ∨ (q ∈ db_pools db ∧ pl_id q ≠ pool).
Proof.
  destruct Hp as (Hin & Hid). simpl. rewrite elem_of_update_where. split.
  - intros (y & Hy & ->). destruct (decide (pl_id y = pool)) as [Ey|Hn]; [left|by right].
    by rewrite (primary_key pl_id _ y p (keys_pools _ (wf_keys _ Hw)) Hy Hin) by congruence.
  - intros [->|[Hq Hne]]; [exists p|exists q]; (split; [done|]);
      [by rewrite decide_True|by rewrite decide_False].
Qed.

Lemma swapped_ids : map ag_id (db_agents (swapped db pool old seat rev)) = map ag_id (db_agents db).
Proof. simpl. by apply map_update_where. Qed.

Lemma swapped_keys : keys_ok (swapped db pool old seat rev).
Proof.
  destruct (wf_keys _ Hw). split; try done.
  - by rewrite swapped_ids.
  - simpl. by rewrite map_update_where.
  - simpl. by rewrite map_update_where.
  - simpl. rewrite map_app, map_update_where by done. apply NoDup_app. split; [done|].
    split; [|apply NoDup_singleton].
    intros x (y & -> & Hy)%list_elem_of_fmap E%list_elem_of_singleton. by apply (Hfresh y).
Qed.

Lemma swapped_distinct : distinct_seats (db_members (swapped db pool old seat rev)).
Proof.
  destruct Hm as (Hin & Hmp & Hmo & Hmc), Hseat as (Sp & Ss & _ & _ & _ & _).
  assert (∀ x, x ∈ db_members db → x ≠ m → mb_pool x = mb_pool seat → mb_replaced_by x = None →
            ¬ (mb_slot x = mb_slot seat ∨ mb_name x = mb_name seat)) as Hnew.
  { intros x Hx Hne Hxp Hxc [E|E].
    - apply Hne. apply (wf_distinct _ Hw); try done; [congruence|left; congruence].
    - apply (Hname x); [done|split; congruence| |done]. intros Eo. apply Hne.
      apply (primary_key mb_agent _ x m (keys_members _ (wf_keys _ Hw))); congruence. }
  intros x y [->|[->|[Hx Hxm]]]%swapped_member [->|[->|[Hy Hym]]]%swapped_member Hxy Hxc Hyc Hor; try done.
  - exfalso. apply (Hnew y); try done. destruct Hor; auto.
  - exfalso. by apply (Hnew x).
  - by apply (wf_distinct _ Hw).
Qed.

(** The team keeps its size. *)
Lemma swapped_count :
  length (filter (current_seat pool) (db_members (swapped db pool old seat rev))) =
  length (filter (current_seat pool) (db_members db)).
Proof.
  destruct Hm as (Hin & Hmp & Hmo & Hmc), Hseat as (Sp & _ & _ & _ & Sc & _). simpl.
  pose proof (keys_members _ (wf_keys _ Hw)) as Hn.
  apply list_elem_of_split in Hin as (l1 & l2 & E). rewrite E in Hn |- *. rewrite map_app in Hn. simpl in Hn.
  apply NoDup_app in Hn as (_ & Hd & [Hx2 _]%NoDup_cons).
  unfold update_where. rewrite map_app. simpl map. rewrite decide_True by done.
  fold (update_where (λ m, mb_pool m = pool ∧ mb_agent m = old) (replaced_with (mb_agent seat)) l1).
  fold (update_where (λ m, mb_pool m = pool ∧ mb_agent m = old) (replaced_with (mb_agent seat)) l2).
  rewrite !update_where_id.
  - rewrite !filter_app, !filter_cons, !length_app.
    rewrite (decide_False (P := current_seat pool (replaced_with _ m))) by (by intros [_ ?]).
    rewrite !decide_True by done. rewrite filter_nil. simpl. lia.
  - intros y Hy [_ Ey]. apply Hx2. rewrite Hmo, <-Ey. by apply list_elem_of_fmap_2.
  - intros y Hy [_ Ey]. apply (Hd (mb_agent y)); [by apply list_elem_of_fmap_2|]. rewrite Ey, <-Hmo. left.
Qed.

Lemma swapped_wf : wf (swapped db pool old seat rev).
Proof.
  pose proof Hw as [_ Hc Ha Hpl Hmb Hh Hr Hv Hb Hl Hj _].
  destruct Hm as (Hin & Hmp & Hmo & Hmc), Hp as (Hpin & Hpid), Hseat as (Sp & Ss & Sr & Sj & _ & Sn).
  pose proof (Hpl p Hpin) as Hrng. split; try done.
  - apply swapped_keys.
  - intros a Hin'. destruct (elem_of_column ag_id _ _ a (eq_sym swapped_ids) Hin') as (b & ? & <-). by apply Ha.
  - intros q [->|[Hq _]]%swapped_pool; [simpl; lia|by apply Hpl].
  - assert (∀ id, (∃ a, a ∈ db_agents db ∧ ag_id a = id) →
              ∃ a, a ∈ db_agents (swapped db pool old seat rev) ∧ ag_id a = id) as Hids.
    { intros id (a & Hain & <-). by apply (elem_of_column ag_id _ _ a swapped_ids). }
    assert (∀ x, x ∈ db_members db → seat_ok (swapped db pool old seat rev) x) as Hold.
    { intros x Hx. destruct (Hmb x Hx) as [(q & Hq & Eq) Hax ? ? ?]. split; [|by apply Hids|done..].
      destruct (decide (pl_id q = pool)) as [E|E].
      - exists (with_revision rev p). split; [apply swapped_pool; by left|]. simpl. congruence.
      - exists q. split; [apply swapped_pool; by right|done]. }
    intros x [->|[->|[Hx _]]]%swapped_member; [| |by apply Hold].
    + destruct (Hmb m Hin) as [_ _ _ Hro Hsl]. split; [|by apply Hids|done|by rewrite Sr|by rewrite Ss].
      exists (with_revision rev p). split; [apply swapped_pool; by left|]. simpl. congruence.
    + by destruct (Hold m Hin).
  - intros e He. destruct (Hh e He) as (q & Hq & Eq). destruct (decide (pl_id q = pool)) as [E|E].
    + exists (with_revision rev p). split; [apply swapped_pool; by left|]. simpl. congruence.
    + exists q. split; [apply swapped_pool; by right|done].
  - intros e q He [->|[Hq _]]%swapped_pool Hid; [|by apply Hl]. simpl in Hid |- *.
    specialize (Hl e p He Hpin Hid). lia.
  - assert (∀ x q, x ∈ db_members db → q ∈ db_pools (swapped db pool old seat rev) → pl_id q = mb_pool x →
              1 ≤ mb_joined_revision x ≤ pl_revision q) as Hold.
    { intros x q Hx [->|[Hq _]]%swapped_pool Hid; [|by apply Hj]. simpl in Hid |- *.
      specialize (Hj x p Hx Hpin Hid). lia. }
    intros x q [->|[->|[Hx _]]]%swapped_member Hq Hid; [|by apply (Hold m)|by apply Hold].
    apply swapped_pool in Hq as [->|[_ Hne]]; [simpl; lia|congruence].
  - apply swapped_distinct.
Qed.

(** The row of the new seat satisfies the column checks. *)
Lemma seat_row_ok : member_row_checks seat = true.
Proof.
  destruct Hm as (Hin & _), Hp as (Hpin & _), Hseat as (_ & Ss & Sr & Sj & Sc & Sn).
  destruct (wf_members _ Hw m Hin) as [_ _ _ Hro Hsl]. pose proof (wf_pools _ Hw p Hpin).
  unfold member_row_checks. rewrite Ss, Sr, Sj, Sc.
  pose proof (proj2 Hro) as (_ & Hne & _)%display_name_Ok. pose proof (label_len _ (proj1 Hro) (proj2 Hro)).
  pose proof (proj2 Sn) as (_ & Hne' & _ & Hc & _)%display_name_Ok.
  assert (1 ≤ len (mb_role m)).
  { pose proof (len_nonneg (mb_role m)). destruct (Z.eq_dec (len (mb_role m)) 0) as [E|]; [|lia].
    by apply len_zero in E. }
  assert (1 ≤ char_count (mb_name seat)).
  { unfold char_count. destruct (chars (mb_name seat)) eqn:E; [|simpl; lia].
    destruct Hne'. rewrite <-(of_chars_chars (mb_name seat)), E by apply Sn. done. }
  rewrite !andb_true_iff, !Z.leb_le. split_and!; try lia. by apply negb_true_iff.
Qed.

Lemma seat_table_ok :
  member_table_checks
    (set_members (update_where (λ m, mb_pool m = pool ∧ mb_agent m = old) (replaced_with (mb_agent seat))
                    (db_members db)) db) seat = true.
Proof.
  pose proof swapped_distinct as Hd. destruct Hseat as (Sp & _ & _ & _ & Sc & _).
  unfold member_table_checks. rewrite Sc. simpl. rewrite !andb_true_iff, !negb_true_iff, !exists_where_true, !exists_where_false.
  assert (∀ x, x ∈ update_where (λ m, mb_pool m = pool ∧ mb_agent m = old) (replaced_with (mb_agent seat)) (db_members db) →
            mb_agent x ≠ mb_agent seat) as Hne.
  { intros x (y & Hy & ->)%elem_of_update_where. case_decide; exact (Hfresh y Hy). }
  split_and!; [done|destruct Hp as [? ?]; exists p; split; congruence|done|].
  intros x Hx (Ep & Ec & Eor). apply (Hne x Hx). f_equal.
  apply Hd; try done; simpl; apply elem_of_app; [by left|right; left].
Qed.

Lemma swap_seat_total : swap_seat db pool old seat rev = Ok (swapped db pool old seat rev).
Proof.
  pose proof seat_row_ok as Hrow. pose proof seat_table_ok as Htab.
  unfold swap_seat, retire_seat, insert_member.
  assert (exists_where (λ m, mb_pool m = pool ∧ mb_agent m = old ∧
            (old = mb_agent seat ∨ mb_replaced_by m ≠ None ∧ mb_replaced_by m ≠ Some (mb_agent seat)))
            (db_members db) = false) as ->.
  { destruct Hm as (Hin & _ & Hmo & Hmc). apply exists_where_false. intros x Hx (_ & Ex & [E|[Hn _]]).
    - apply (Hfresh x Hx). congruence.
    - apply Hn. rewrite (primary_key mb_agent _ x m (keys_members _ (wf_keys _ Hw)) Hx Hin) by congruence. done. }
  rewrite Hrow, Htab. simpl negb. cbv iota. destruct Hp as [Hpin _]. pose proof (wf_pools _ Hw p Hpin).
  rewrite (proj2 (Z.leb_le 1 rev)) by lia. done.
Qed.
End swap.
(** ** The roster entry is legal *)

Ltac clean_text :=
  repeat apply clean_app;
  first [apply label_clean; assumption | apply key_clean; assumption | apply dec_clean
        |apply clean_ascii; vm_compute; reflexivity].

Lemma roster_body_bounded slot old_id old_name role name new_id rev :
  1 ≤ slot ≤ 5 → label_ok role → label_ok name → identity_ok old_id → identity_ok new_id →
  0 ≤ rev < 2 ^ 32 →
  bounded_text "body" (roster_body (mk_record old_id slot old_name role) name new_id rev)
    MAX_BODY_BYTES = Ok ().
Proof.
  intros Hs Hr Hn (Hok & Hol & _) (Hnk & Hnl & _) Hv. unfold roster_body. cbn [pmr_slot pmr_role pmr_agent].
  pose proof (label_len name (proj1 Hn) (proj2 Hn)). pose proof (label_len role (proj1 Hr) (proj2 Hr)).
  pose proof (len_dec slot 1 ltac:(lia) ltac:(lia)). pose proof (len_dec rev 10 ltac:(lia) ltac:(lia)).
  apply bounded_text_Ok. match goal with |- context [blank ?s] => assert (clean s) as Hc end.
  { clean_text. }
  split; [|split; [|apply Hc]].
  - apply (visible_not_blank _ 83); [|done]. rewrite chars_app.
    + apply elem_of_app. left. by vm_compute; left.
    + by apply ascii_utf8.
    + match goal with |- utf8 ?s => assert (clean s) as [? _]; [clean_text|done] end.
  - unfold MAX_BODY_BYTES. rewrite !len_app.
    repeat match goal with |- context [len ?s] =>
      let n := eval vm_compute in (len s) in
      match n with Z0 => idtac | Zpos _ => idtac end; change (len s) with n end.
    lia.
Qed.

(** What a caller of [replace_pool_member] has validated. *)
Record valid_input (input : PoolReplaceInput Inputs) : Prop := {
  vi_key : request_key (ri_request_id input) = Ok ();
  vi_name : label_ok (ri_name input);
  vi_id : identity_ok (ri_new_id input);
}.

Lemma wf_capacity db c : wf db → wf (set_capacity_revision c db).
Proof.
  intros [[] ? ? ? Hm ? ? ? ? ? ? ?]. split; try done. intros m Hin. by destruct (Hm m Hin).
Qed.

Section fresh.
Variables (db : Db) (input : PoolReplaceInput Inputs) (now : f64) (p : PoolRow) (m : MemberRow)
  (db1 db' : Db).
Hypothesis Hw : wf db.
Hypothesis Hin : valid_input input.
Hypothesis Hfr : fresh_replacement db input now p m db1 db'.
Hypothesis Hpos : 1 ≤ u32_add (pl_revision p) 1.

Lemma fresh_rows :
  (p ∈ db_pools db1 ∧ pl_id p = ri_pool input) ∧
  (m ∈ db_members db1 ∧ mb_pool m = ri_pool input ∧ mb_agent m = ri_old input ∧ mb_replaced_by m = None) ∧
  (u32_add (pl_revision p) 1 = pl_revision p + 1 ∧ u32_add (pl_revision p) 1 < 2 ^ 32).
Proof.
  destruct Hfr as [[Hp _ Hs Hc _ _] _ _ _ Ha%admit_promise _].
  apply first_where_Some in Hp as [Hid Hpin]. apply seat_row_Some in Hs as (? & ? & ?).
  rewrite (adm_pools _ _ _ Ha), (adm_members _ _ _ Ha). repeat (split; [done|]).
  destruct (u32_succ (pl_revision p)); [by apply (wf_pools _ Hw)|done|lia].
Qed.

Lemma fresh_swap :
  let rev := u32_add (pl_revision p) 1 in
  let seat := seat_for input (old_record input m) rev in
  let d := swapped db1 (ri_pool input) (ri_old input) seat rev in
  wf d ∧ swap_seat db1 (ri_pool input) (ri_old input) seat rev = Ok d.
Proof.
  destruct fresh_rows as (Hp & Hm & Hr). cbv zeta. set (rev := u32_add (pl_revision p) 1) in *.
  set (seat := seat_for input (old_record input m) rev). destruct Hfr as [_ _ _ Hn Ha%admit_promise _].
  pose proof (admitted_wf _ _ _ (vi_id _ Hin) Hw Ha) as Hw1.
  assert (∀ x, x ∈ db_members db1 → mb_agent x ≠ mb_agent seat).
  { rewrite (adm_members _ _ _ Ha). intros x Hx. by apply (admitted_no_seat db _ db1). }
  assert (∃ a, a ∈ db_agents db1 ∧ ag_id a = mb_agent seat).
  { destruct (adm_agent _ _ _ Ha) as (a & -> & Eid & _). exists a. split; [|done].
    apply elem_of_app. right. left. }
  assert (mb_pool seat = ri_pool input ∧ mb_slot seat = mb_slot m ∧ mb_role seat = mb_role m ∧
          mb_joined_revision seat = rev ∧ mb_replaced_by seat = None ∧ label_ok (mb_name seat)).
  { repeat (split; [done|]). apply Hin. }
  assert (∀ x, x ∈ db_members db1 → current_seat (ri_pool input) x → mb_agent x ≠ ri_old input →
            mb_name x ≠ mb_name seat).
  { rewrite (adm_members _ _ _ Ha). intros x Hx Hc Ho. by apply (name_free db (ri_pool input) (ri_old input)). }
  split; [by apply (swapped_wf db1 _ _ m p)|by apply (swap_seat_total db1 _ _ m p)].
Qed.

Lemma fresh_swapped_wf :
  wf (swapped db1 (ri_pool input) (ri_old input)
        (seat_for input (old_record input m) (u32_add (pl_revision p) 1))
        (u32_add (pl_revision p) 1)).
Proof. apply fresh_swap. Qed.

Lemma fresh_insertable :
  insertable (swapped db1 (ri_pool input) (ri_old input)
                (seat_for input (old_record input m) (u32_add (pl_revision p) 1))
                (u32_add (pl_revision p) 1))
    (announcement input (old_record input m) (u32_add (pl_revision p) 1)).
Proof.
  pose proof fresh_swapped_wf as Hw2. destruct fresh_rows as (Hp & Hm & Hr & Hlt).
  destruct Hfr as [_ Hprior _ _ Ha%admit_promise _]. pose proof (admitted_wf _ _ _ (vi_id _ Hin) Hw Ha) as Hw1.
  pose proof (wf_members _ Hw1 m (proj1 Hm)) as [_ (a & Hain & Eaid) _ Hrole Hslot].
  pose proof (wf_agents _ Hw1 a Hain) as Hold. pose proof (vi_id _ Hin) as Hnew.
  destruct (adm_entries _ _ _ Ha) as [Ee _].
  split; try done; cbn [announcement roster_entry en_pool en_revision en_body en_request_id en_scope].
  - exists (with_revision (u32_add (pl_revision p) 1) p). split; [|by apply Hp].
    apply (swapped_pool db1 (ri_pool input) (ri_old input) p); [done..|by left].
  - intros q Hq Hid. apply (swapped_pool db1 (ri_pool input) (ri_old input) p) in Hq; [|done..].
    destruct Hq as [->|[_ Hne]]; [done|congruence].
  - apply shape_roster.
  - apply roster_body_bounded; try done; [apply Hin| |lia].
    destruct Hm as (_ & _ & <- & _). by rewrite <-Eaid.
  - split; [by apply ascii_utf8|done].
  - apply Hin.
  - simpl. rewrite Ee. intros x Hx Hkey. exact (proj1 (first_where_None _ _) Hprior x Hx Hkey).
Qed.

Lemma fresh_wf : wf db'.
Proof.
  pose proof (wf_with_entry _ _ fresh_swapped_wf fresh_insertable) as Hw3.
  pose proof (fr_effect _ _ _ _ _ _ _ Hfr) as (commands & counter & ->).
  apply (wf_commands _ counter commands) in Hw3.
  unfold replaced_db. cbv zeta. apply wf_capacity, wf_event. exact Hw3.
Qed.

Lemma fresh_tables :
  let rev := u32_add (pl_revision p) 1 in
  let d := swapped db1 (ri_pool input) (ri_old input) (seat_for input (old_record input m) rev) rev in
  db_members db' = db_members d ∧ db_pools db' = db_pools d ∧
  db_entries db' =
    db_entries db ++ [entry_with_seq (db_entry_seq db + 1) (announcement input (old_record input m) rev)].
Proof.
  destruct Hfr as [_ _ _ _ Ha%admit_promise (commands & counter & ->)]. cbv zeta.
  destruct (adm_entries _ _ _ Ha) as [<- <-]. done.
Qed.
End fresh.

(** C30: A created replacement swaps exactly one seat.  The pool was open at
    the roster revision the caller expected; the old seat was current, its
    latest execution had ended and its lineage was cleaned up.  The old row
    keeps everything but its successor, the new row takes its slot and role
    under the next revision, the team keeps its size, no other seat or pool
    changes, and the log gains one broker entry that announces the swap.  The
    state stays well formed. *)
Theorem replacement_swaps_one_seat db input now db' r :
  wf db → valid_input input →
  replace_pool_member db input now = Ok (Accepted db' r) → rp_created r = true →
  ∃ p m e,
    replaceable db (ri_pool input) (ri_old input) p m ∧
    pl_revision p = ri_expected_revision input ∧ rp_revision r = pl_revision p + 1 ∧
    let seat := mk_member (ri_new_id input) (ri_pool input) (mb_slot m) (ri_name input) (mb_role m)
                  (ri_personal_task input) (pl_revision p + 1) None in
    (∀ x, x ∈ db_members db' ↔
            x = seat ∨ x = replaced_with (ri_new_id input) m ∨ (x ∈ db_members db ∧ x ≠ m)) ∧
    (∀ q, q ∈ db_pools db' ↔
            q = with_revision (pl_revision p + 1) p ∨ (q ∈ db_pools db ∧ pl_id q ≠ ri_pool input)) ∧
    length (current_seats db' (ri_pool input)) = length (current_seats db (ri_pool input)) ∧
    db_entries db' = db_entries db ++ [e] ∧ en_pool e = ri_pool input ∧
    en_author_kind e = ABroker ∧ en_kind e = KRoster ∧ en_revision e = pl_revision p + 1 ∧
    wf db'.
Proof.
  intros Hw Hi E Hc. apply replace_Accepted in E. rewrite Hc in E.
  destruct E as (p & m & db1 & Hfr & Hpos & new & _ & ->).
  pose proof (fresh_rows db input now p m db1 db' Hw Hfr Hpos) as (Hp & Hm & Hr & Hlt).
  pose proof (fresh_tables db input now p m db1 db' Hfr) as (Em & Ep & Ee).
  pose proof (fr_admitted _ _ _ _ _ _ _ Hfr) as Ha%admit_promise.
  pose proof (admitted_wf _ _ _ (vi_id _ Hi) Hw Ha) as Hw1.
  exists p, m, (entry_with_seq (db_entry_seq db + 1)
                  (announcement input (old_record input m) (pl_revision p + 1))).
  rewrite Hr in *. cbv zeta. split; [apply Hfr|]. split; [apply Hfr|]. split; [done|].
  rewrite !length_current_seats, Em, Ep. split_and!; try done.
  - intros x. rewrite (swapped_member db1 _ _ m _ _ Hw1 Hm). by rewrite (adm_members _ _ _ Ha).
  - intros q. rewrite (swapped_pool db1 _ _ p _ _ Hw1 Hp). by rewrite (adm_pools _ _ _ Ha).
  - rewrite (swapped_count db1 _ _ m _ _ Hw1 Hm); [by rewrite (adm_members _ _ _ Ha)|].
    cbn. repeat (split; [done|]). apply Hi.
  - apply (fresh_wf db input now p m db1 db'); try done. by rewrite Hr.
Qed.

(** Every proposal of the pool is of an earlier roster than its own. *)
Definition outdated (db : Db) (pool : string) : Prop :=
  ∃ p, p ∈ db_pools db ∧ pl_id p = pool ∧ pl_state p = Open ∧
    ∀ e, e ∈ db_entries db → is_proposal pool e → en_revision e < pl_revision p.

Lemma replacement_outdates `{EventJson} db input now db' r :
  wf db → valid_input input →
  replace_pool_member db input now = Ok (Accepted db' r) → rp_created r = true →
  wf db' ∧ outdated db' (ri_pool input).
Proof.
  intros Hw Hi E Hc. apply replace_Accepted in E. rewrite Hc in E.
  destruct E as (p & m & db1 & Hfr & Hpos & new & _ & ->).
  pose proof (fresh_wf db input now p m db1 db' Hw Hi Hfr Hpos) as Hw'. split; [done|].
  pose proof (fresh_rows db input now p m db1 db' Hw Hfr Hpos) as (Hp & Hm & Hr & Hlt).
  pose proof (fresh_tables db input now p m db1 db' Hfr) as (_ & Ep & Ee).
  pose proof (fr_admitted _ _ _ _ _ _ _ Hfr) as Ha%admit_promise.
  destruct Hp as [Hp Hid]. exists (with_revision (pl_revision p + 1) p). split_and!.
  - rewrite Ep, Hr. apply (swapped_pool db1 _ _ p); [by apply (admitted_wf db (ri_new_id input)); [apply (vi_id _ Hi)|..]|done|by left].
  - done.
  - apply (rb_open _ _ _ _ _ (fr_replaceable _ _ _ _ _ _ _ Hfr)).
  - intros e He [Hpe Hk]. assert (en_revision e ≤ pl_revision p); [|simpl; lia].
    rewrite Ee in He. apply elem_of_app in He as [He|He].
    + rewrite (adm_pools _ _ _ Ha) in Hp. apply (wf_revisions _ Hw); [done..|congruence].
    + by apply list_elem_of_singleton in He as ->.
Qed.

Lemma outdated_not_ready `{EventJson} db pool :
  wf db → outdated db pool → evaluate db pool = Ok EvNotReady.
Proof.
  intros Hw (p & Hp & <- & Ho & Hlt). unfold evaluate.
  rewrite (first_where_key pl_id _ _ (keys_pools _ (wf_keys _ Hw)) Hp). simpl. rewrite Ho. simpl.
  destruct (current_proposal db (pl_id p)) as [e|] eqn:Ecp; [|done].
  apply current_proposal_Some in Ecp as [He Hpe]. specialize (Hlt e He Hpe).
  destruct (Z.eqb_spec (en_revision e) (pl_revision p)); [lia|done].
Qed.
End replacement.

(** ** A concrete replacement *)

(** An admission that appends the execution. *)
Definition demo_admit (db : Db) (id : string) (_ : ()) : result Db :=
  fail? exists_where (λ a, ag_id a = id) (db_agents db) with Sql ConstraintViolation;
  Ok (set_agents (db_agents db ++ [demo_agent id Created]) db).

#[export] Program Instance demo_admission : Admission () := 
  {| effective_orchestrator := λ _, None; admit_in_tx := demo_admit |}.
Next Obligation.
  intros db id [] db' E. unfold demo_admit in E. destruct (exists_where _ _) eqn:Hn; [done|]. injection E as <-.
  rewrite exists_where_false in Hn.
  split; try done.
  - eexists. by split.
  - intros []. split; try done. simpl. rewrite map_app. apply NoDup_app. split; [done|].
    split; [|apply NoDup_singleton]. intros x (a & -> & Ha)%list_elem_of_fmap E%list_elem_of_singleton.
    by apply (Hn a).
  - exists []. by rewrite app_nil_r.
  - exists []. by rewrite app_nil_r.
Qed.

(** Bob's seat in the agreed pool goes to a new execution. *)
Definition demo_swap : PoolReplaceInput () :=
  mk_replace_input "pool-1" "ag-b" "swap1" "digest" 1 "ag-c" "Cy" "take over" ().

Lemma demo_swap_valid : valid_input demo_swap.
Proof. split; [by vm_compute|split; [by apply ascii_utf8|by vm_compute]|apply (bool_decide_unpack _); by vm_compute]. Qed.

Definition demo_swapped : Db :=
  match replace_pool_member demo_agreed demo_swap (of_Z 300) with
  | Ok (Accepted db _) => db
  | _ => demo_agreed
  end.

Definition demo_receipt : PoolReplacement :=
  mk_replacement "pool-1" (mk_record "ag-b" 2 "Bob" "dev") (mk_record "ag-c" 2 "Cy" "dev") 2 true.

Lemma demo_swap_Ok :
  replace_pool_member demo_agreed demo_swap (of_Z 300) = Ok (Accepted demo_swapped demo_receipt).
Proof. by vm_compute. Qed.

Lemma replacement_swaps_one_seat_witness :
  length (current_seats demo_swapped "pool-1") = length (current_seats demo_agreed "pool-1") ∧
  wf demo_swapped.
Proof.
  destruct (replacement_swaps_one_seat demo_agreed demo_swap (of_Z 300) demo_swapped demo_receipt
              demo_agreed_wf demo_swap_valid demo_swap_Ok eq_refl)
    as (p & m & e & _ & _ & _ & _ & _ & Hlen & _ & _ & _ & _ & _ & Hw).
  split; [exact Hlen|exact Hw].
Defined.
