(* ===== verification/Replays.v ===== *)
(** * Replaying a replacement

    The trail a committed replacement leaves (its roster entry, the seat that
    joined, the seat it retired and its event) and the theorems that rest on
    it: a request key answers for good, and a replacement has no storage
    failure of its own. *)

From S2P Require Import Prelude Text Float64 Canonical Lifecycle Requests PoolDomain.
From S2P Require Import Tables Demo Roster World History WorkerStore Sessions ServiceRestart.
From S2P Require Import PoolEnrollment PoolLog PoolWrites PoolSettle Settlement PoolReplace.
From S2P Require Import Replacement.

(** ** The trail *)

Record trail (db : Db) (e : EntryRow) (new old : MemberRow) (x : EventRow) : Prop := {
  tr_new : new ∈ db_members db ∧ mb_pool new = en_pool e ∧ mb_joined_revision new = en_revision e;
  tr_old : old ∈ db_members db ∧ mb_pool old = en_pool e ∧ mb_replaced_by old = Some (mb_agent new);
  tr_event : x ∈ db_events db ∧ ev_agent x = mb_agent new ∧ is_some (replaced_sha256 (ev_data x)) = true;
}.

(** Every replacement entry has its trail, and each part of a trail is unique. *)
Record recorded (db : Db) : Prop := {
  rec_trail : ∀ e, e ∈ db_entries db → en_scope e = "replace"%string →
    2 ≤ en_revision e ∧ ∃ new old x, trail db e new old x;
  rec_joined : ∀ m1 m2, m1 ∈ db_members db → m2 ∈ db_members db → mb_pool m1 = mb_pool m2 →
    mb_joined_revision m1 = mb_joined_revision m2 → 2 ≤ mb_joined_revision m1 → m1 = m2;
  rec_retired : ∀ m1 m2 n, m1 ∈ db_members db → m2 ∈ db_members db →
    mb_replaced_by m1 = Some n → mb_replaced_by m2 = Some n → m1 = m2;
  rec_successor : ∀ m n, m ∈ db_members db → mb_replaced_by m = Some n →
    ∃ m', m' ∈ db_members db ∧ mb_agent m' = n;
  rec_events : ∀ x, x ∈ db_events db → is_some (replaced_sha256 (ev_data x)) = true →
    ∃ m, m ∈ db_members db ∧ mb_agent m = ev_agent x;
  rec_once : ∀ x y, x ∈ db_events db → y ∈ db_events db → ev_agent x = ev_agent y →
    is_some (replaced_sha256 (ev_data x)) = true → is_some (replaced_sha256 (ev_data y)) = true → x = y;
}.

(** The record of a seat, as a receipt shows it. *)
Definition record_for (m : MemberRow) : PoolMemberRecord :=
  mk_record (mb_agent m) (mb_slot m) (mb_name m) (mb_role m).

Lemma record_of_seat db m :
  NoDup (map mb_agent (db_members db)) → m ∈ db_members db →
  record_of db (mb_pool m) (mb_agent m) = Ok (record_for m).
Proof.
  intros Hn Hm. unfold record_of.
  destruct (seat_row db (mb_pool m) (mb_agent m)) as [m'|] eqn:E.
  - apply seat_row_Some in E as (Hm' & _ & Ea). by rewrite (primary_key mb_agent _ m' m Hn).
  - exfalso. by apply (proj1 (first_where_None _ _) E m).
Qed.

(** A unique row is the one a query finds. *)
Lemma first_where_unique {A} (P : A → Prop) `{∀ x, Decision (P x)} l x :
  x ∈ l → P x → (∀ y, y ∈ l → P y → y = x) → first_where P l = Some x.
Proof.
  intros Hx HP Hu. destruct (first_where_is_Some P l x Hx HP) as [y Hy]. rewrite Hy.
  apply first_where_Some in Hy as [HPy Hyl]. f_equal. by apply Hu.
Qed.

(** The receipt of a replay, read off the trail. *)
Lemma replayed_trail db pool request_id sha e new old x :
  keys_ok db → recorded db → prior_entry db pool "replace" request_id = Some e →
  en_pool e = pool → 2 ≤ en_revision e → trail db e new old x →
  replayed db pool request_id sha =
    Ok (Some (if bool_decide (replaced_sha256 (ev_data x) = Some sha)
              then inr (mk_replacement pool (record_for old) (record_for new) (en_revision e) false)
              else inl DConflict)).
Proof.
  intros Hk Hr Hp Hpool H2 [(Hn & Np & Nj) (Ho & Op & Or) (Hx & Xa & Xs)]. unfold replayed. rewrite Hp.
  rewrite (first_where_unique _ (db_members db) new); [|done|by rewrite Np, Nj|].
  2:{ intros y Hy [Yp Yj]. apply (rec_joined _ Hr); [done..|congruence|congruence|]. lia. }
  cbn [row ok_or]. rewrite (first_where_unique _ (db_events db) x); [|done|done|].
  2:{ intros y Hy [Ya Ys]. apply (rec_once _ Hr); [done..|congruence|done|done]. }
  cbn [row ok_or]. destruct (bool_decide _); [|done]. simpl negb. cbv iota.
  rewrite (first_where_unique _ (db_members db) old); [|done|by rewrite Op|].
  2:{ intros y Hy [_ Yr]. by apply (rec_retired _ Hr _ _ (mb_agent new)). }
  cbn [row ok_or]. pose proof (record_of_seat db old (keys_members _ Hk) Ho) as Eo.
  pose proof (record_of_seat db new (keys_members _ Hk) Hn) as En.
  rewrite Op, Hpool in Eo. rewrite Np, Hpool in En. by rewrite Eo, En.
Qed.

(** A trail survives; its seats keep their records. *)
Lemma trail_later db db' e new old x :
  later db db' → trail db e new old x →
  ∃ new' old', trail db' e new' old' x ∧ record_for new' = record_for new ∧
    record_for old' = record_for old.
Proof.
  intros Hl [(Hn & Np & Nj) (Ho & Op & Or) (Hx & Xa & Xs)].
  destruct (lt_events _ _ Hl) as [evs Hev].
  destruct (later_seat _ _ new Hl Hn) as (new' & Hn' & [Na Np' (Ns & Nn & Nr) _ Nj' _]).
  destruct (later_seat _ _ old Hl Ho) as (old' & Ho' & [Oa Op' (Os & On & Oro) _ _ Ore]).
  exists new', old'. unfold record_for. split; [|by rewrite Na, Ns, Nn, Nr, Oa, Os, On, Oro].
  split; [split; [done|split; congruence]| |].
  - split; [done|]. split; [congruence|]. rewrite Na. by apply Ore.
  - rewrite Hev, Na. split; [apply elem_of_app; by left|done].
Qed.

Section replays.
Context {Inputs : Type} `{Admission Inputs, Serde, Unicode}.
Implicit Types (db : Db) (input : PoolReplaceInput Inputs).

Section created.
Variables (db : Db) (input : PoolReplaceInput Inputs) (now : f64) (p : PoolRow) (m : MemberRow)
  (db1 db' : Db).
Hypothesis Hw : wf db.
Hypothesis Hin : valid_input input.
Hypothesis Hfr : fresh_replacement db input now p m db1 db'.
Hypothesis Hpos : 1 ≤ u32_add (pl_revision p) 1.

Let rev := u32_add (pl_revision p) 1.
Let e := entry_with_seq (db_entry_seq db + 1) (announcement input (old_record input m) rev).
Let seat := seat_for input (old_record input m) rev.

(** The events of the transaction: those of the admission, then its own. *)
Lemma created_events :
  ∃ es x, db_events db' = db_events db ++ es ++ [x] ∧
    Forall (λ y, ev_agent y = ri_new_id input ∧ plain_event y) es ∧
    ev_agent x = ri_new_id input ∧
    replaced_sha256 (ev_data x) = Some (ri_request_sha256 input).
Proof.
  destruct Hfr as [_ _ _ _ Ha%admit_promise (commands & counter & ->)].
  destruct (adm_events _ _ _ Ha) as (es & Ees & Hes).
  unfold replaced_db, tx_event, insert_event. simpl. rewrite Ees.
  eexists es, _. rewrite <-app_assoc. split; [reflexivity|]. done.
Qed.

Lemma created_members x :
  x ∈ db_members db' ↔ x = seat ∨ x = replaced_with (ri_new_id input) m ∨ (x ∈ db_members db ∧ x ≠ m).
Proof.
  destruct (fresh_tables db input now p m db1 db' Hfr) as (-> & _).
  pose proof (fresh_rows db input now p m db1 db' Hw Hfr Hpos) as (_ & Hm & _).
  pose proof (fr_admitted _ _ _ _ _ _ _ Hfr) as Ha%admit_promise.
  rewrite (swapped_member db1 _ _ m) by (done || by apply (admitted_wf db (ri_new_id input)); [apply (vi_id _ Hin)|..]).
  by rewrite (adm_members _ _ _ Ha).
Qed.

Lemma created_seat_fresh x : x ∈ db_members db → mb_agent x ≠ ri_new_id input.
Proof.
  pose proof (fr_admitted _ _ _ _ _ _ _ Hfr) as Ha%admit_promise. by apply (admitted_no_seat db _ db1).
Qed.

Lemma created_trail :
  prior_entry db' (ri_pool input) "replace" (ri_request_id input) = Some e ∧ en_revision e = rev ∧
  ∃ x, trail db' e seat (replaced_with (ri_new_id input) m) x ∧
       replaced_sha256 (ev_data x) = Some (ri_request_sha256 input).
Proof.
  destruct (fresh_rows db input now p m db1 db' Hw Hfr Hpos) as (_ & (_ & Mp & _) & _).
  destruct created_events as (es & x & Ev & _ & Xa & Xs).
  destruct (fresh_tables db input now p m db1 db' Hfr) as (_ & _ & Ee).
  split; [|split; [done|]].
  - unfold prior_entry. rewrite Ee, first_where_app.
    pose proof (fr_prior _ _ _ _ _ _ _ Hfr) as Hp. unfold prior_entry in Hp. rewrite Hp.
    rewrite first_where_cons. by rewrite decide_True.
  - exists x. split; [|done]. split.
    + split; [apply created_members; by left|done].
    + split; [apply created_members; by right; left|]. simpl. done.
    + rewrite Ev, Xs. split; [|done]. rewrite !elem_of_app, list_elem_of_singleton. by right; right.
Qed.
Lemma created_replaced_events x :
  x ∈ db_events db' → is_some (replaced_sha256 (ev_data x)) = true →
  x ∈ db_events db ∨ ev_agent x = ri_new_id input ∧ ∀ y, y ∈ db_events db' →
    is_some (replaced_sha256 (ev_data y)) = true → y ∈ db_events db ∨ y = x.
Proof.
  destruct created_events as (es & z & -> & Hes & Za & Zs).
  assert (∀ y, y ∈ db_events db ++ es ++ [z] → is_some (replaced_sha256 (ev_data y)) = true →
            y ∈ db_events db ∨ y = z) as Hall.
  { intros y [Hy|[Hy|Hy]%elem_of_app]%elem_of_app Hs; [by left| |right; by apply list_elem_of_singleton].
    rewrite Forall_forall in Hes. destruct (Hes y Hy) as [_ [E _]]. by rewrite E in Hs. }
  intros Hx Hs. destruct (Hall x Hx Hs) as [?| ->]; [by left|]. right. split; [done|]. exact Hall.
Qed.

Lemma created_seats : kept seat_kept (db_members db) (db_members db').
Proof.
  destruct (fresh_rows db input now p m db1 db' Hw Hfr Hpos) as (_ & (_ & _ & _ & Mc) & _).
  intros y Hy. destruct (decide (y = m)) as [->|Hne].
  - exists (replaced_with (ri_new_id input) m). split; [apply created_members; by right; left|].
    split; try done. by rewrite Mc.
  - exists y. split; [apply created_members; by right; right|done].
Qed.

(** The trail of an older entry goes on. *)
Lemma created_keeps_trail f new old x : trail db f new old x → ∃ new' old' x', trail db' f new' old' x'.
Proof.
  destruct (fresh_rows db input now p m db1 db' Hw Hfr Hpos) as (_ & (Min & Mp & Mo & Mc) & _).
  destruct created_events as (es & z & Ev & _).
  pose proof (fr_admitted _ _ _ _ _ _ _ Hfr) as Ha%admit_promise. rewrite (adm_members _ _ _ Ha) in Min.
  intros [(Hn & Np & Nj) (Ho & Op & Or) (Hx & Xa & Xs)].
  assert (x ∈ db_events db') by (rewrite Ev; apply elem_of_app; by left).
  assert (old ∈ db_members db').
  { apply created_members. right; right. split; [done|]. intros ->. congruence. }
  destruct (decide (new = m)) as [->|Hne].
  - exists (replaced_with (ri_new_id input) m), old, x. split; [|by split_and!..].
    split; [apply created_members; by right; left|done].
  - exists new, old, x. split; [|by split_and!..]. split; [apply created_members; by right; right|done].
Qed.

Lemma created_recorded : recorded db → recorded db'.
Proof.
  intros Hr. destruct (fresh_rows db input now p m db1 db' Hw Hfr Hpos) as ([Pin Pid] & (Min & Mp & Mo & Mc) & Er & _).
  pose proof (fr_admitted _ _ _ _ _ _ _ Hfr) as Ha%admit_promise.
  rewrite (adm_members _ _ _ Ha) in Min. rewrite (adm_pools _ _ _ Ha) in Pin.
  pose proof (wf_pools _ Hw p Pin) as Hrng. destruct (fresh_tables db input now p m db1 db' Hfr) as (_ & _ & Ee).
  assert (∀ y, y ∈ db_members db → mb_pool y = ri_pool input → mb_joined_revision y < rev) as Hj.
  { intros y Hy Yp. pose proof (wf_joined _ Hw y p Hy Pin ltac:(congruence)). unfold rev. rewrite Er. lia. }
  assert (∀ y, y ∈ db_members db → mb_replaced_by y ≠ Some (ri_new_id input)) as Hs.
  { intros y Hy Yr. destruct (rec_successor _ Hr y _ Hy Yr) as (y' & Hy' & ?). by apply (created_seat_fresh y'). }
  destruct created_trail as (_ & _ & x & Htr & Hx).
  split.
  - rewrite Ee. intros f [Hf|Hf]%elem_of_app Sc.
    + destruct (rec_trail _ Hr f Hf Sc) as (? & n & o & y & Ht). split; [done|]. by eapply created_keeps_trail.
    + apply list_elem_of_singleton in Hf as ->. split; [simpl; unfold rev; rewrite Er; lia|eauto].
  - intros m1 m2 [->|[->|[K1 N1]]]%created_members [->|[->|[K2 N2]]]%created_members Ep Ej G2; try done; simpl in *.
    + specialize (Hj m Min ltac:(congruence)). lia.
    + specialize (Hj m2 K2 ltac:(congruence)). lia.
    + specialize (Hj m Min ltac:(congruence)). lia.
    + destruct N2. symmetry. by apply (rec_joined _ Hr).
    + specialize (Hj m1 K1 ltac:(congruence)). lia.
    + destruct N1. by apply (rec_joined _ Hr).
    + by apply (rec_joined _ Hr).
  - intros m1 m2 n [->|[->|[K1 N1]]]%created_members [->|[->|[K2 N2]]]%created_members E1 E2; try done;
      simpl in *; simplify_eq.
    + by destruct (Hs m2 K2).
    + by destruct (Hs m1 K1).
    + by apply (rec_retired _ Hr _ _ n).
  - intros y n [->|[->|[Hy Ny]]]%created_members Yr; simpl in Yr; [done| |].
    + injection Yr as <-. exists seat. split; [apply created_members; by left|done].
    + destruct (rec_successor _ Hr y n Hy Yr) as (y' & Hy' & <-).
      destruct (created_seats y' Hy') as (z & ? & Hz). exists z. split; [done|]. apply (sk_agent _ _ Hz).
  - intros y Hy Ys. destruct (created_replaced_events y Hy Ys) as [Hy'|[Ya _]].
    + destruct (rec_events _ Hr y Hy' Ys) as (z & Hz & <-).
      destruct (created_seats z Hz) as (z' & ? & Hk). exists z'. split; [done|]. apply (sk_agent _ _ Hk).
    + exists seat. split; [apply created_members; by left|done].
  - intros y z Hy Hz Eyz Ys Zs.
    destruct (created_replaced_events y Hy Ys) as [Hy'|[Ya Huy]], (created_replaced_events z Hz Zs) as [Hz'|[Za Huz]].
    + by apply (rec_once _ Hr).
    + destruct (rec_events _ Hr y Hy' Ys) as (s & Hs' & Es). by destruct (created_seat_fresh s Hs'); congruence.
    + destruct (rec_events _ Hr z Hz' Zs) as (s & Hs' & Es). by destruct (created_seat_fresh s Hs'); congruence.
    + destruct (Huy z Hz Zs) as [Hz'|]; [|done].
      destruct (rec_events _ Hr z Hz' Zs) as (s & Hs' & Es). by destruct (created_seat_fresh s Hs'); congruence.
Qed.

(** The pool of a fresh replacement is open. *)
Lemma completed_other pool : is_completed db pool → ri_pool input ≠ pool.
Proof.
  intros (q & Hq & Hid & Hc) Hne. destruct (fresh_rows db input now p m db1 db' Hw Hfr Hpos) as ([Pin Pid] & _).
  pose proof (fr_admitted _ _ _ _ _ _ _ Hfr) as Ha%admit_promise. rewrite (adm_pools _ _ _ Ha) in Pin.
  pose proof (rb_open _ _ _ _ _ (fr_replaceable _ _ _ _ _ _ _ Hfr)) as Hopen.
  rewrite (primary_key pl_id _ q p (keys_pools _ (wf_keys _ Hw))) in Hc by congruence. congruence.
Qed.

Lemma created_later : later db db'.
Proof.
  destruct (fresh_rows db input now p m db1 db' Hw Hfr Hpos) as ([Pin Pid] & _ & Er & _).
  pose proof (fr_admitted _ _ _ _ _ _ _ Hfr) as Ha%admit_promise.
  destruct (fresh_tables db input now p m db1 db' Hfr) as (_ & Ep & Ee).
  destruct created_events as (es & z & Ev & _).
  pose proof (rb_open _ _ _ _ _ (fr_replaceable _ _ _ _ _ _ _ Hfr)) as Hopen.
  split.
  - rewrite Ee. by eexists.
  - rewrite Ev. by eexists.
  - destruct (fr_effect _ _ _ _ _ _ _ Hfr) as (commands & counter & ->).
    destruct (adm_agent _ _ _ Ha) as (a & Ea & _). simpl. rewrite Ea.
    transitivity (db_agents db ++ [a]); [apply kept_app, _|]. apply kept_update; [apply _|].
    intros b _ _. by split.
  - intros q Hq. rewrite Ep. simpl. rewrite (adm_pools _ _ _ Ha) in *. fold rev in Er. fold rev.
    exists (if decide (pl_id q = ri_pool input) then with_revision rev q else q).
    split; [apply elem_of_update_where; eauto|]. case_decide as Hid; [|done].
    assert (q = p) as -> by (apply (primary_key pl_id _ q p (keys_pools _ (wf_keys _ Hw))); congruence).
    split; try done; simpl; [lia|]. by rewrite Hopen.
  - destruct (fresh_tables db input now p m db1 db' Hfr) as (Em & _). simpl in Em.
    rewrite (adm_members _ _ _ Ha) in Em. eexists _, [seat]. split; [exact Em|]. split.
    + apply Forall2_update; [apply _|]. intros x Hx [_ Ex]. split; try done. intros n Hn. simpl.
      destruct (fresh_rows db input now p m db1 db' Hw Hfr Hpos) as (_ & (Min & _ & Mo & Mc) & _).
      rewrite (adm_members _ _ _ Ha) in Min.
      rewrite (primary_key mb_agent _ x m (keys_members _ (wf_keys _ Hw))) in Hn by congruence. congruence.
    + intros x q ->%list_elem_of_singleton Hq _. simpl. rewrite (adm_pools _ _ _ Ha) in Pin.
      pose proof (wf_pools _ Hw p Pin). fold rev. lia.
  - destruct (fr_effect _ _ _ _ _ _ _ Hfr) as (commands & counter & ->). simpl.
    destruct (adm_deliveries _ _ _ Ha) as (ds & -> & _). apply rows_grow_app, _.
  - intros pool Hc. apply (log_of_other db db' e); [done|]. by apply completed_other.
  - intros pool Hc. assert (ri_pool input ≠ pool) as Hne by (by apply completed_other). unfold seats_of.
    rewrite (proj1 (fresh_tables db input now p m db1 db' Hfr)). simpl. rewrite (adm_members _ _ _ Ha).
    rewrite filter_app, filter_update_other, filter_cons, decide_False, filter_nil, app_nil_r; try done.
    intros x [Hx _]. simpl. by rewrite Hx.
Qed.
End created.

(** The trail of an accepted replacement, fresh or replayed. *)
Lemma accepted_trail db input now db1 r :
  wf db → recorded db → valid_input input →
  replace_pool_member db input now = Ok (Accepted db1 r) →
  ∃ e new old x,
    prior_entry db1 (ri_pool input) "replace" (ri_request_id input) = Some e ∧ 2 ≤ en_revision e ∧
    trail db1 e new old x ∧ replaced_sha256 (ev_data x) = Some (ri_request_sha256 input) ∧
    rp_pool_id r = ri_pool input ∧ rp_old r = record_for old ∧ rp_new r = record_for new ∧
    rp_revision r = en_revision e.
Proof.
  intros Hw Hr Hi E. apply replace_Accepted in E. destruct (rp_created r).
  - destruct E as (p & m & db2 & Hfr & Hpos & new & Hnew & ->).
    destruct (created_trail db input now p m db2 db1 Hw Hi Hfr Hpos) as (Hp & Hrv & x & Htr & Hx).
    pose proof (fresh_wf db input now p m db2 db1 Hw Hi Hfr Hpos) as Hw'.
    destruct (fresh_rows db input now p m db2 db1 Hw Hfr Hpos) as ([Pin _] & (_ & Mp & Mo & _) & Er & _).
    pose proof (fr_admitted _ _ _ _ _ _ _ Hfr) as Ha%admit_promise. rewrite (adm_pools _ _ _ Ha) in Pin.
    pose proof (wf_pools _ Hw p Pin) as Hrng.
    eexists _, _, _, x. split; [exact Hp|]. split; [rewrite Hrv; lia|]. split; [exact Htr|].
    split; [done|]. split; [done|].
    pose proof (record_of_seat db1 _ (keys_members _ (wf_keys _ Hw')) (proj1 (tr_new _ _ _ _ _ Htr))) as En.
    simpl in En, Hnew. rewrite En in Hnew. injection Hnew as <-.
    unfold record_for, old_record. simpl. by rewrite Mo.
  - destruct E as [-> E]. destruct (prior_entry db _ _ _) as [e|] eqn:Hp.
    2:{ unfold replayed in E. by rewrite Hp in E. }
    pose proof Hp as Hp'. apply first_where_Some in Hp' as ((Hpe & Hsc & _) & He).
    destruct (rec_trail _ Hr e He Hsc) as (H2 & new & old & x & Htr).
    rewrite (replayed_trail db _ _ _ e new old x (wf_keys _ Hw) Hr Hp Hpe H2 Htr) in E.
    destruct (bool_decide _) eqn:Hs; [|done]. injection E as <-. to_prop. exists e, new, old, x. done.
Qed.
(** A replacement key answers for good.  Once a replacement is accepted,
    every later call under the same pool and request key, at any later state,
    returns the original old and new seats and revision and changes nothing
    when the request digest is the same, and is refused as a conflict when it
    differs: also after a restart has begun, after the new seat has itself been
    replaced, and after the pool has completed. *)
Theorem replacement_replay db input now db1 r db2 input' now' :
  wf db → recorded db → valid_input input →
  replace_pool_member db input now = Ok (Accepted db1 r) →
  later db1 db2 → keys_ok db2 → recorded db2 →
  ri_pool input' = ri_pool input → ri_request_id input' = ri_request_id input →
  replace_pool_member db2 input' now' =
    Ok (if bool_decide (ri_request_sha256 input' = ri_request_sha256 input)
        then Accepted db2 (mk_replacement (rp_pool_id r) (rp_old r) (rp_new r) (rp_revision r) false)
        else Denied DConflict).
Proof.
  intros Hw Hr Hi E Hl Hk2 Hr2 Ep Eq.
  destruct (accepted_trail db input now db1 r Hw Hr Hi E) as (e & new & old & x & Hp & H2 & Htr & Hx & -> & -> & -> & ->).
  destruct (trail_later _ _ _ _ _ _ Hl Htr) as (new' & old' & Htr' & <- & <-).
  pose proof Hp as ((Hpe & _) & _)%first_where_Some.
  unfold replace_pool_member. rewrite Ep, Eq.
  rewrite (replayed_trail db2 _ _ _ e new' old' x Hk2 Hr2 (prior_entry_prefix _ _ _ _ _ _ Hp (lt_entries _ _ Hl)) Hpe H2 Htr').
  rewrite Hx. repeat case_bool_decide; simplify_eq; congruence.
Qed.

(** The steps after the roster entry, on any state that has the new seat. *)
Lemma announce_errors (d : Db) (pool new_id : string) (seq : Z) (now : f64) (data : EventData) seat
    (finish : Db → PoolMemberRecord → Db * PoolReplacement) e :
  wf d → seat ∈ db_members d → mb_pool seat = pool → mb_agent seat = new_id →
  (let? d := fanout_entry d pool new_id seq in
   let? d := advance_capacity (fst (tx_event d new_id now data)) in
   let? new := record_of d pool new_id in
   Ok (finish d new)) = Err e →
  ∃ msg, e = Validation msg.
Proof.
  intros Hw Hs <- <- E.
  destruct (fanout_total d (mb_pool seat) (mb_agent seat) seq Hw) as [d1 Ef]. rewrite Ef in E.
  apply fanout_entry_frame in Ef as (counter & commands & ->).
  destruct (advance_capacity _) as [d2|x] eqn:Ec.
  - apply advance_capacity_Ok in Ec as ->. unfold record_of at 1 in E. exfalso.
    destruct (seat_row _ _ _) eqn:Es; [done|]. by apply (proj1 (first_where_None _ _) Es seat).
  - injection E as <-. unfold advance_capacity in Ec. destruct (negb _); [|done].
    injection Ec as <-. by eexists.
Qed.

(** The writes after the admission fail only at the end of the capacity
    counter. *)
Lemma install_errors db input now p m db1 e :
  wf db → valid_input input → replaceable db (ri_pool input) (ri_old input) p m →
  prior_entry db (ri_pool input) "replace" (ri_request_id input) = None →
  pl_revision p = ri_expected_revision input →
  current_name_taken db (ri_pool input) (ri_old input) (ri_name input) = false →
  admit_in_tx db (ri_new_id input) (ri_inputs input) = Ok db1 →
  1 ≤ u32_add (pl_revision p) 1 →
  install_replacement db1 input (old_record input m) (u32_add (pl_revision p) 1) now = Err e →
  ∃ msg, e = Validation msg.
Proof.
  intros Hw Hi Hrep Hprior Hrev Hname Hadm Hpos E.
  assert (∀ commands counter, fresh_replacement db input now p m db1
            (replaced_db db1 input (old_record input m) (u32_add (pl_revision p) 1) now commands counter)) as Hfr.
  { intros. split; try done. by eexists _, _. }
  destruct (fresh_swap db input now p m db1 _ Hw Hi (Hfr [] 0) Hpos) as [Hw2 Hs].
  pose proof (fresh_insertable db input now p m db1 _ Hw Hi (Hfr [] 0) Hpos) as Hins.
  pose proof (wf_with_entry _ _ Hw2 Hins) as Hw3. apply insert_insertable in Hins.
  unfold install_replacement in E. rewrite Hs in E. cbv iota in E.
  fold (announcement input (old_record input m) (u32_add (pl_revision p) 1)) in E.
  rewrite Hins in E. cbv iota beta in E.
  revert E. apply (announce_errors _ _ _ _ _ _ (seat_for input (old_record input m) (u32_add (pl_revision p) 1))
    (λ db new, (db, mk_replacement (ri_pool input) (old_record input m) new (u32_add (pl_revision p) 1) true)));
    [exact Hw3| |done|done].
  simpl. apply elem_of_app. right. left.
Qed.
Lemma replayed_total db pool request_id sha :
  keys_ok db → recorded db → ∃ o, replayed db pool request_id sha = Ok o.
Proof.
  intros Hk Hr. destruct (prior_entry db pool "replace" request_id) as [e|] eqn:Hp.
  - pose proof Hp as ((Hpe & Hsc & _) & He)%first_where_Some.
    destruct (rec_trail _ Hr e He Hsc) as (G2 & new & old & x & Htr).
    rewrite (replayed_trail db _ _ _ e new old x Hk Hr Hp Hpe G2 Htr). eauto.
  - unfold replayed. rewrite Hp. eauto.
Qed.

Lemma refusal_total db pool old : wf db → ∃ o, refusal db pool old = Ok o.
Proof.
  intros Hw. unfold refusal. destruct (first_where _ _) as [p|]; [|eauto].
  destruct (seat_row db pool old) as [m|] eqn:Em; [|eauto].
  destruct (is_some (mb_replaced_by m)); [eauto|]. destruct (bool_decide _); [eauto|].
  apply seat_row_Some in Em as (Hm & _ & <-).
  destruct (seat_agent _ _ (wf_members _ Hw m Hm)) as (a & Ha & Ea).
  destruct (tip_total db (mb_agent m) a) as (t & _ & -> & ->); [apply (keys_agents _ (wf_keys _ Hw))|done|by right|].
  eauto.
Qed.

(** C32: A replacement fails only by refusal.  On a well-formed state with a
    complete trail, every error is a validation of the input, the restart
    barrier, or the error of the admission of the new execution: no storage
    constraint is reachable, up to the last value of the roster counter. *)
Theorem replacement_errors_are_refusals db input now e :
  wf db → recorded db → valid_input input → ri_expected_revision input < 2 ^ 32 - 1 →
  replace_pool_member db input now = Err e →
  (∃ msg, e = Validation msg) ∨
  (∃ id, active_service_restart db = Some id ∧ e = Transition (blocked_message id)) ∨
  admit_in_tx db (ri_new_id input) (ri_inputs input) = Err e.
Proof.
  intros Hw Hr Hi Hb E. unfold replace_pool_member in E.
  destruct (replayed_total db (ri_pool input) (ri_request_id input) (ri_request_sha256 input) (wf_keys _ Hw) Hr)
    as [found Ef]. rewrite Ef in E. destruct found as [[d|r]|]; [discriminate E..|].
  unfold require_admissions_open in E. destruct (active_service_restart db) as [id|] eqn:Eid.
  { injection E as <-. right; left. eauto. }
  destruct (refusal_total db (ri_pool input) (ri_old input) Hw) as [o Eo]. rewrite Eo in E.
  destruct o as [d|]; [discriminate E|]. apply refusal_None in Eo as (p & m & Hrep).
  rewrite (rb_pool _ _ _ _ _ Hrep) in E. cbn [row ok_or] in E.
  destruct (negb _) eqn:Erev; [discriminate E|]. to_prop.
  destruct (current_name_taken _ _ _ _) eqn:En; [injection E as <-; eauto|].
  destruct (admit_in_tx _ _ _) as [db1|x] eqn:Ea; [|injection E as <-; by right; right].
  pose proof (rb_seat _ _ _ _ _ Hrep) as Em. rewrite <-(seat_row_admitted _ _ _ _ _ _ Ea) in Em.
  unfold record_of in E. rewrite Em in E. cbn [row ok_or] in E. fold (old_record input m) in E.
  left. destruct (install_replacement _ _ _ _ _) as [[d r]|x] eqn:Ei; [discriminate E|]. injection E as <-.
  pose proof (rb_pool _ _ _ _ _ Hrep) as [_ Hpin]%first_where_Some. pose proof (wf_pools _ Hw p Hpin).
  apply (install_errors db input now p m db1); try done; [by apply replayed_None in Ef|].
  unfold u32_add. rewrite Z.mod_small by lia. lia.
Qed.
End replays.

(** ** A concrete trail *)

Lemma demo_agreed_recorded : recorded demo_agreed.
Proof.
  split.
  - intros e He. repeat (apply elem_of_cons in He as [->|He]; [done|]). by apply elem_of_nil in He.
  - intros m1 m2 H1 _ _ _ Hj. repeat (apply elem_of_cons in H1 as [->|H1]; [simpl in Hj; lia|]).
    by apply elem_of_nil in H1.
  - intros m1 m2 n H1 _ Hr. repeat (apply elem_of_cons in H1 as [->|H1]; [done|]). by apply elem_of_nil in H1.
  - intros m n H1 Hr. repeat (apply elem_of_cons in H1 as [->|H1]; [done|]). by apply elem_of_nil in H1.
  - intros x Hx. by apply elem_of_nil in Hx.
  - intros x y Hx. by apply elem_of_nil in Hx.
Qed.

Lemma demo_swapped_recorded : keys_ok demo_swapped ∧ recorded demo_swapped.
Proof.
  pose proof (replace_Accepted _ _ _ _ _ demo_swap_Ok) as E. change (rp_created demo_receipt) with true in E.
  destruct E as (p & m & db1 & Hfr & Hpos & _). split.
  - apply wf_keys. apply (fresh_wf _ _ _ _ _ _ _ demo_agreed_wf demo_swap_valid Hfr Hpos).
  - apply (created_recorded _ _ _ _ _ _ _ demo_agreed_wf demo_swap_valid Hfr Hpos demo_agreed_recorded).
Qed.

Lemma replacement_replay_witness :
  replace_pool_member demo_swapped demo_swap (of_Z 400) =
    Ok (Accepted demo_swapped
          (mk_replacement "pool-1" (mk_record "ag-b" 2 "Bob" "dev") (mk_record "ag-c" 2 "Cy" "dev") 2 false)).
Proof.
  exact (replacement_replay demo_agreed demo_swap (of_Z 300) demo_swapped demo_receipt demo_swapped demo_swap
           (of_Z 400) demo_agreed_wf demo_agreed_recorded demo_swap_valid demo_swap_Ok
           (reflexivity demo_swapped) (proj1 demo_swapped_recorded) (proj2 demo_swapped_recorded)
           eq_refl eq_refl).
Defined.

(** The name of the other current seat is refused. *)
Definition demo_clash : PoolReplaceInput () :=
  mk_replace_input "pool-1" "ag-b" "swap2" "digest" 1 "ag-c" "Ada" "take over" ().

Lemma replacement_errors_are_refusals_witness :
  (∃ msg, Validation "member names must be unique" = Validation msg) ∨
  (∃ id, active_service_restart demo_agreed = Some id ∧
     Validation "member names must be unique" = Transition (blocked_message id)) ∨
  admit_in_tx demo_agreed (ri_new_id demo_clash) (ri_inputs demo_clash) =
    Err (Validation "member names must be unique").
Proof.
  apply (replacement_errors_are_refusals demo_agreed demo_clash (of_Z 300)).
  - exact demo_agreed_wf.
  - exact demo_agreed_recorded.
  - split; [by vm_compute|split; [by apply ascii_utf8|by vm_compute]|apply (bool_decide_unpack _); by vm_compute].
  - reflexivity.
  - vm_compute. reflexivity.
Defined.
