(* ===== verification/Admissions.v ===== *)
(** * What a pool admission establishes

    Theorems on [admit_pool]: the exact rows of a created pool, the invariants
    it keeps, and the replay of the original request at any later state. *)

From S2P Require Import Prelude Text Float64 Json Canonical Catalogs Lifecycle Requests.
From S2P Require Import PoolDomain Tables Demo Roster World History WorkerStore.
From S2P Require Import Sessions ServiceRestart PoolEnrollment PoolLog PoolWrites PoolSettle.
From S2P Require Import Settlement PoolReplace PoolAdmit Replacement Replays.

(** ** Steps that leave the trail alone *)

Lemma recorded_frame db db' es evs :
  recorded db → db_members db' = db_members db →
  db_entries db' = db_entries db ++ es → Forall (λ e, en_scope e ≠ "replace"%string) es →
  db_events db' = db_events db ++ evs → Forall (λ x, replaced_sha256 (ev_data x) = None) evs →
  recorded db'.
Proof.
  intros [Ht Hj Hr Hs Hv Ho] Em Ee Fe Ev Fv. rewrite Forall_forall in Fe. rewrite Forall_forall in Fv.
  assert (∀ x, x ∈ db_events db' → is_some (replaced_sha256 (ev_data x)) = true → x ∈ db_events db) as Hold.
  { rewrite Ev. intros x [Hx|Hx]%elem_of_app Hsome; [done|]. by rewrite (Fv x Hx) in Hsome. }
  split; rewrite ?Em; try done.
  - rewrite Ee. intros e [He|He]%elem_of_app Hsc; [|by destruct (Fe e He)].
    destruct (Ht e He Hsc) as (G2 & new & old & x & [Tn To Tx]). split; [done|].
    exists new, old, x. split; rewrite ?Em, ?Ev; try done. destruct Tx as [Tx ?].
    split; [apply elem_of_app; by left|done].
  - intros x Hx Hsome. by apply Hv; [apply Hold|].
  - intros x y Hx Hy E Sx Sy. apply Ho; auto.
Qed.

(** A seat of the first revision leaves the trail alone. *)
Lemma recorded_seat db m :
  recorded db → mb_joined_revision m = 1 → mb_replaced_by m = None →
  recorded (set_members (db_members db ++ [m]) db).
Proof.
  intros [Ht Hj Hr Hs Hv Ho] M1 Mc.
  assert (∀ x, x ∈ db_members db → x ∈ db_members db ++ [m]) as Hin by (intros; apply elem_of_app; by left).
  split; simpl.
  - intros e He Hsc. destruct (Ht e He Hsc) as (G2 & new & old & x & [(?&?&?) (?&?&?) Tx]).
    split; [done|]. exists new, old, x. split; [split; auto..|done].
  - intros x y [Hx| ->%list_elem_of_singleton]%elem_of_app [Hy| ->%list_elem_of_singleton]%elem_of_app ? ? ?;
      [by apply Hj|lia|lia|done].
  - intros x y n [Hx| ->%list_elem_of_singleton]%elem_of_app [Hy| ->%list_elem_of_singleton]%elem_of_app ? ?;
      [by apply (Hr x y n)|congruence..].
  - intros x n [Hx| ->%list_elem_of_singleton]%elem_of_app Hn; [|congruence].
    destruct (Hs x n Hx Hn) as (y & ? & ?). eauto.
  - intros x Hx Hsome. destruct (Hv x Hx Hsome) as (y & ? & ?). eauto.
  - done.
Qed.

(** Only the log, the seats and the events matter. *)
Lemma recorded_same db db' :
  recorded db → db_members db' = db_members db → db_entries db' = db_entries db →
  db_events db' = db_events db → recorded db'.
Proof. intros. apply (recorded_frame db _ [] []); by rewrite ?app_nil_r. Qed.

Lemma admitted_recorded db id db1 : recorded db → admission_frame db id db1 → recorded db1.
Proof.
  intros Hr Hf. destruct (adm_events _ _ _ Hf) as (es & Ee & He). destruct (adm_entries _ _ _ Hf) as [En _].
  apply (recorded_frame db _ [] es); rewrite ?app_nil_r; try done; [apply (adm_members _ _ _ Hf)|].
  eapply Forall_impl; [exact He|]. by intros x [_ [? _]].
Qed.

Lemma admitted_later db id db1 : admission_frame db id db1 → later db db1.
Proof.
  intros Hf. destruct (adm_events _ _ _ Hf) as (es & Ee & _). destruct (adm_agent _ _ _ Hf) as (a & Ea & _).
  apply later_same.
  - apply (adm_entries _ _ _ Hf).
  - rewrite Ee. by eexists.
  - rewrite Ea. apply kept_app, _.
  - by rewrite (adm_pools _ _ _ Hf).
  - apply (adm_members _ _ _ Hf).
  - destruct (adm_deliveries _ _ _ Hf) as (ds & -> & _). apply rows_grow_app, _.
Qed.

(** ** The rows of a pool *)

Lemma insert_pool_Ok `{Serde} db p db' :
  insert_pool db p = Ok db' →
  db' = set_pools (db_pools db ++ [p]) db ∧ 1 ≤ pl_revision p ∧
  ∀ q, q ∈ db_pools db → pl_id q ≠ pl_id p ∧
    (pl_namespace q, pl_request_id q) ≠ (pl_namespace p, pl_request_id p).
Proof.
  unfold insert_pool. destruct (negb _) eqn:Ec; [done|]. intros [= <-]. to_prop.
  split; [done|]. unfold pool_row_checks, pool_table_checks in *. to_prop. split; [done|].
  rename select (exists_where _ _ = false) into Hn. rewrite exists_where_false in Hn.
  intros q Hq. specialize (Hn q Hq). split; [naive_solver|]. intros [= ? ?]. naive_solver.
Qed.

Lemma insert_pool_wf `{Serde} db p db' :
  wf db → pl_revision p = 1 → insert_pool db p = Ok db' → wf db'.
Proof.
  intros Hw P1 (-> & _ & Hfresh)%insert_pool_Ok.
  assert (∀ q, q ∈ db_pools db → q ∈ db_pools db ++ [p]) as Hin by (intros; apply elem_of_app; by left).
  destruct Hw as [[] Hc Ha Hp Hm Hh Hr Hv Hb Hl Hj Hd]. split; try done.
  - split; try done; simpl; rewrite map_app; (apply NoDup_app; split; [done|]);
      (split; [|apply NoDup_singleton]);
      intros x (q & -> & Hq)%list_elem_of_fmap E%list_elem_of_singleton; by destruct (Hfresh q Hq).
  - intros q [Hq| ->%list_elem_of_singleton]%elem_of_app; [by apply Hp|lia].
  - intros m Hin'. destruct (Hm m Hin') as [(q & ? & ?) ? ? ? ?]. split; try done. exists q. auto.
  - intros e He. destruct (Hh e He) as (q & ? & ?). exists q. auto.
  - intros e q He [Hq| ->%list_elem_of_singleton]%elem_of_app Hid; [by apply Hl|].
    destruct (Hh e He) as (q & Hq & Eq). destruct (Hfresh q Hq). congruence.
  - intros m q Hin' [Hq| ->%list_elem_of_singleton]%elem_of_app Hid; [by apply Hj|].
    destruct (Hm m Hin') as [(q & Hq & Eq) _ _ _ _]. destruct (Hfresh q Hq). congruence.
Qed.

Lemma insert_member_Ok db m db' :
  insert_member db m = Ok db' →
  db' = remember_history (mb_agent m) (set_members (db_members db ++ [m]) db) ∧
  1 ≤ mb_slot m ≤ 5 ∧
  (∃ a, a ∈ db_agents db ∧ ag_id a = mb_agent m) ∧ (∃ p, p ∈ db_pools db ∧ pl_id p = mb_pool m) ∧
  (∀ x, x ∈ db_members db → mb_agent x ≠ mb_agent m) ∧
  (mb_replaced_by m = None → ∀ x, x ∈ db_members db → mb_pool x = mb_pool m → mb_replaced_by x = None →
     ¬ (mb_slot x = mb_slot m ∨ mb_name x = mb_name m)).
Proof.
  unfold insert_member, member_row_checks, member_table_checks. destruct (negb _) eqn:Ec; [done|].
  intros [= <-]. to_prop. repeat match goal with E : exists_where _ _ = true |- _ => apply exists_where_true in E
    | E : exists_where _ _ = false |- _ => rewrite exists_where_false in E end.
  split; [done|]. split; [lia|]. split_and!; try done. intros Mc. rename select (_ || _ = true) into Hor.
  rewrite Mc in Hor. simpl in Hor. apply negb_true_iff in Hor. rewrite exists_where_false in Hor. naive_solver.
Qed.

Lemma insert_member_wf `{Serde} db m db' :
  wf db → label_ok (mb_name m) → label_ok (mb_role m) → mb_joined_revision m = 1 →
  mb_replaced_by m = None → insert_member db m = Ok db' → wf db'.
Proof.
  intros Hw Ln Lr M1 Mc (-> & Hs & Hag & Hpl & Hkey & Hdist)%insert_member_Ok. specialize (Hdist Mc).
  set (d := remember_history _ _).
  assert (map ag_id (db_agents d) = map ag_id (db_agents db)) as Ids by (by apply map_update_where).
  destruct Hw as [[] Hc Ha Hp Hm Hh Hr Hv Hb Hl Hj Hd].
  assert (∀ id, (∃ a, a ∈ db_agents db ∧ ag_id a = id) → ∃ a, a ∈ db_agents d ∧ ag_id a = id) as Hids.
  { intros id (a & Hain & <-). by apply (elem_of_column ag_id _ _ a Ids). }
  split; try done.
  - split; try done; [by rewrite Ids|]. simpl. rewrite map_app. apply NoDup_app. split; [done|].
    split; [|apply NoDup_singleton]. intros x (y & -> & Hy)%list_elem_of_fmap E%list_elem_of_singleton.
    by destruct (Hkey y Hy).
  - intros a Hin. destruct (elem_of_column ag_id _ _ a (eq_sym Ids) Hin) as (b & ? & <-). by apply Ha.
  - intros x [Hx| ->%list_elem_of_singleton]%elem_of_app.
    + destruct (Hm x Hx) as [? Hax ? ? ?]. split; try done. by apply Hids.
    + split; try done. by apply Hids.
  - intros x p [Hx| ->%list_elem_of_singleton]%elem_of_app Hpin Hid; [by apply Hj|].
    rewrite M1. pose proof (Hp p Hpin). lia.
  - intros x y [Hx| ->%list_elem_of_singleton]%elem_of_app [Hy| ->%list_elem_of_singleton]%elem_of_app Ep Cx Cy Hor.
    + by apply Hd.
    + exfalso. by apply (Hdist x).
    + exfalso. apply (Hdist y Hy); [congruence|done|]. destruct Hor; auto.
    + done.
Qed.

(** ** The transaction, stage by stage *)

Section admissions.
Context {Inputs : Type} `{Admission Inputs, Serde, Unicode, Host, Sha256}.
Implicit Types (input : PoolAdmissionInput Inputs).

(** The members after the admission loop: the pools, seats and the log are as
    before. *)
Record staged (db db1 : Db) : Prop := {
  sg_wf : wf db1;
  sg_recorded : recorded db1;
  sg_later : later db db1;
  sg_pools : db_pools db1 = db_pools db;
  sg_members : db_members db1 = db_members db;
  sg_entries : db_entries db1 = db_entries db;
  sg_enrollments : db_enrollments db1 = db_enrollments db;
  sg_events : grows (journal db) (journal db1);
  sg_deliveries : queues (db_deliveries db) (db_deliveries db1);
}.

Lemma admit_loop_staged db orchestrator ms db1 names :
  wf db → recorded db → Forall (λ m, identity_ok (pa_id m)) ms →
  try_fold (admit_member orchestrator) (db, []) ms = Ok (db1, names) → staged db db1.
Proof.
  rewrite Forall_forall. intros Hw Hr Hids E. change db1 with (fst (db1, names)).
  apply (try_fold_inv (λ st, staged db (fst st)) (admit_member orchestrator) ms (db, [])); [|by split|done].
  intros [d ns] m [d' ns'] Hm [] Es. unfold admit_member in Es. simpl in *.
  destruct (bool_decide _); [done|]. destruct (pa_source m) as [i|pin].
  - destruct (negb _); [done|]. destruct (admit_in_tx d (pa_id m) i) as [d2|] eqn:Ea; [|done].
    injection Es as <- _. apply admit_promise in Ea.
    split; [by eapply admitted_wf; [apply (Hids m)|..]|by eapply admitted_recorded|etrans; [done|by eapply admitted_later]|..].
    + by rewrite (adm_pools _ _ _ Ea).
    + by rewrite (adm_members _ _ _ Ea).
    + by rewrite (proj1 (adm_entries _ _ _ Ea)).
    + by rewrite (adm_enrollments _ _ _ Ea).
    + etrans; [done|]. destruct (adm_events _ _ _ Ea) as (es & Ev & Hes). exists es. split; [done|].
      split; [eapply Forall_impl; [exact Hes|]; by intros x [_ ?]|apply (adm_numbers _ _ _ Ea)].
    + etrans; [done|apply (adm_deliveries _ _ _ Ea)].
  - destruct (pin_holds _ _ _ _); [|done]. by injection Es as <- _.
Qed.

Lemma pool_session_Ok db orchestrator fresh db' session :
  pool_session db orchestrator fresh = Ok (db', session) → ∃ ss, db' = set_sessions ss db.
Proof.
  unfold pool_session, session_for_reference, touch_row. destruct orchestrator as [r|].
  - destruct (orchestrator_validate r); [|done]. destruct (canonical_transport_name _); [|done].
    destruct (session_ids_for_reference db r) as [[|s l]|]; [..|done]; intros [= <- _]; by eexists.
  - intros [= <- _]. exists (db_sessions db). by destruct db.
Qed.

(** The rows while seats and enrollments are written. *)
Record seating (d0 d : Db) (seats : list MemberRow) : Prop := {
  st_wf : wf d;
  st_recorded : recorded d;
  st_pools : db_pools d = db_pools d0;
  st_entries : db_entries d = db_entries d0;
  st_events : journal d = journal d0;
  st_agents : kept agent_kept (db_agents d0) (db_agents d);
  st_members : db_members d = db_members d0 ++ seats;
  st_deliveries : db_deliveries d = db_deliveries d0;
}.

Lemma seat_loop db seats db' :
  wf db → recorded db →
  Forall (λ m, label_ok (mb_name m) ∧ label_ok (mb_role m) ∧ mb_joined_revision m = 1 ∧
               mb_replaced_by m = None) seats →
  try_fold insert_member db seats = Ok db' →
  seating db db' seats ∧ db_enrollments db' = db_enrollments db.
Proof.
  revert db. induction seats as [|m seats IH]; intros db Hw Hr Hf E; simpl in E.
  { injection E as <-. split; [|done]. split; try done. by rewrite app_nil_r. }
  destruct (insert_member db m) as [d|] eqn:Ei; [|done].
  apply Forall_cons in Hf as [(Ln & Lr & M1 & Mc) Hf].
  pose proof (insert_member_wf db m d Hw Ln Lr M1 Mc Ei) as Hw1.
  apply insert_member_Ok in Ei as (-> & _).
  assert (recorded (remember_history (mb_agent m) (set_members (db_members db ++ [m]) db))) as Hr1.
  { by apply (recorded_same _ _ (recorded_seat db m Hr M1 Mc)). }
  destruct (IH _ Hw1 Hr1 Hf E) as [[Hw2 Hr2 Ep Ee Ev Ka Em] En]. split; [|done].
  split; try done; [|by rewrite Em; simpl; rewrite <-app_assoc].
  etrans; [|exact Ka]. apply kept_update; [apply _|]. intros a _ _. by split.
Qed.

(** The enrollment rows of the running workers. *)
Definition enrollment_rows (uuid : string → string) (ms : list (PoolMemberAdmission Inputs))
  : list EnrollmentRow :=
  omap (λ m, match pa_source m with
             | New _ => None
             | Existing pin =>
                 Some (mk_enrollment (pa_id m) (em_run pin) (em_attempt pin)
                         (challenge_of (uuid (pa_id m))) EPending None None None false)
             end) ms.

Lemma insert_enrollment_Ok db agent run attempt challenge db' :
  insert_enrollment db agent run attempt challenge = Ok db' →
  db' = set_enrollments
          (db_enrollments db ++ [mk_enrollment agent run attempt challenge EPending None None None false]) db ∧
  ∀ r, r ∈ db_enrollments db → er_agent r ≠ agent.
Proof.
  unfold insert_enrollment. destruct (negb _) eqn:Ec; [done|]. intros [= <-]. split; [done|]. to_prop.
  repeat match goal with E : exists_where _ _ = false |- _ => rewrite exists_where_false in E end. naive_solver.
Qed.

Lemma enroll_member_step input session uuid d0 db m db' seats :
  enroll_member input session uuid db m = Ok db' → seating d0 db seats →
  seating d0 db' seats ∧ db_enrollments db' = db_enrollments db ++ enrollment_rows uuid [m].
Proof.
  unfold enroll_member, enrollment_rows. simpl. destruct (pa_source m) as [i|pin].
  { intros [= <-]. by rewrite app_nil_r. }
  set (d := match session with Some _ => _ | None => _ end). intros E [Hw Hr Ep Ee Ev Ka Em Ed].
  destruct (insert_enrollment d _ _ _ _) as [d2|] eqn:Ei; [|done]. destruct (4096 <? _); [done|].
  injection E as <-. apply insert_enrollment_Ok in Ei as [-> Hfresh].
  assert (db_enrollments d = db_enrollments db ∧ map ag_id (db_agents d) = map ag_id (db_agents db) ∧
          kept agent_kept (db_agents db) (db_agents d) ∧ db_pools d = db_pools db ∧
          db_entries d = db_entries db ∧ journal d = journal db ∧ db_members d = db_members db ∧
          db_deliveries d = db_deliveries db ∧ db_entry_seq d = db_entry_seq db ∧ (keys_ok db → keys_ok d)) as (En & Ids & Kd & Dp & De & Dv & Dm & Dd & Dc & Hk).
  { unfold d. destruct session; [|by split_and!]. simpl. split_and!; try done.
    - by apply map_update_where.
    - apply kept_update; [apply _|]. intros a _ _. by split.
    - intros []. split; try done. simpl. by rewrite map_update_where. }
  split; [|simpl; by rewrite En].
  split; try (simpl; congruence).
  - apply (wf_frame db _ Hw); simpl; try congruence.
    pose proof (Hk (wf_keys _ Hw)) as []. split; try done. simpl. rewrite map_app. apply NoDup_app.
    split; [done|]. split; [|apply NoDup_singleton].
    intros x (r & -> & Hin)%list_elem_of_fmap E%list_elem_of_singleton. by destruct (Hfresh r Hin).
  - pose proof (f_equal fst Dv) as Dv'. simpl in Dv'. apply (recorded_same _ _ Hr); simpl; congruence.
  - transitivity (journal d); [done|congruence].
  - etrans; [exact Ka|exact Kd].
Qed.

Lemma enroll_loop input session uuid d0 db ms db' seats :
  seating d0 db seats → try_fold (enroll_member input session uuid) db ms = Ok db' →
  seating d0 db' seats ∧ db_enrollments db' = db_enrollments db ++ enrollment_rows uuid ms.
Proof.
  revert db. induction ms as [|m ms IH]; intros db Hs E; simpl in E.
  { injection E as <-. simpl. by rewrite app_nil_r. }
  destruct (enroll_member input session uuid db m) as [d|] eqn:Em; [|done].
  destruct (enroll_member_step _ _ _ d0 _ _ _ seats Em Hs) as [Hs1 E1].
  destruct (IH d Hs1 E) as [Hs2 ->]. split; [done|]. rewrite E1, <-app_assoc. f_equal.
  unfold enrollment_rows. simpl. by destruct (pa_source m).
Qed.
(** What a caller of [admit_pool] has validated: normalized labels. *)
Definition valid_pool (input : PoolAdmissionInput Inputs) : Prop :=
  Forall (λ m, label_ok (pa_name m) ∧ label_ok (pa_role m) ∧ identity_ok (pa_id m)) (pi_members input).

(** The state after a created pool. *)
Record created_pool (db : Db) (input : PoolAdmissionInput Inputs) (uuid : string → string) (db' : Db) : Prop := {
  cp_wf : wf db';
  cp_recorded : recorded db';
  cp_later : later db db';
  cp_fresh : ∀ q, q ∈ db_pools db → pl_id q ≠ pi_pool input ∧
    (pl_namespace q, pl_request_id q) ≠ (pi_namespace input, pi_request_id input);
  cp_pools : ∃ session, db_pools db' = db_pools db ++ [new_pool input session];
  cp_members : db_members db' = db_members db ++ map (seat_of input) (pi_members input);
  cp_entries : db_entries db' = db_entries db;
  cp_enrollments : db_enrollments db' = db_enrollments db ++ enrollment_rows uuid (pi_members input);
  cp_events : grows (journal db) (journal db');
  cp_deliveries : queues (db_deliveries db) (db_deliveries db');
}.

Lemma capacity_step (b : bool) (d d' : Db) :
  (if b then advance_capacity d else Ok d) = Ok d' → ∃ c, d' = set_capacity_revision c d.
Proof.
  destruct b; [intros ->%advance_capacity_Ok; by eexists|].
  intros [= <-]. exists (db_capacity_revision d). by destruct d.
Qed.

(** The stages compose. *)
Lemma stages_created db input uuid d1 ss session d2 d3 d4 c :
  valid_pool input → staged db d1 →
  insert_pool (set_sessions ss d1) (new_pool input session) = Ok d2 →
  try_fold insert_member d2 (map (seat_of input) (pi_members input)) = Ok d3 →
  try_fold (enroll_member input session uuid) d3 (pi_members input) = Ok d4 →
  created_pool db input uuid (set_capacity_revision c d4).
Proof.
  intros Hv Hs Ep Em Ee. destruct Hs as [Hw1 Hr1 Hl1 Sp Sm Se Sn Sv Sd].
  assert (wf (set_sessions ss d1)) as Hws.
  { apply (wf_frame d1 _ Hw1); try done. by destruct (wf_keys _ Hw1). }
  assert (wf d2) as Hw2 by (by apply (insert_pool_wf _ _ _ Hws) in Ep).
  apply insert_pool_Ok in Ep as (-> & _ & Hfresh). simpl in Hfresh. rewrite Sp in Hfresh.
  assert (Forall (λ m, label_ok (mb_name m) ∧ label_ok (mb_role m) ∧ mb_joined_revision m = 1 ∧
                       mb_replaced_by m = None) (map (seat_of input) (pi_members input))) as Hlab.
  { apply Forall_map. eapply Forall_impl; [exact Hv|]. intros m (Ln & Lr & _). by split_and!. }
  destruct (seat_loop _ _ _ Hw2 ltac:(by apply (recorded_same d1)) Hlab Em) as [Hst En].
  destruct (enroll_loop _ _ _ _ _ _ _ _ Hst Ee) as [[Hw4 Hr4 Kp Ke Kv Ka Km Kd] Kn].
  simpl in *. split; simpl; try done.
  - by apply wf_capacity.
  - by apply (recorded_same d4).
  - split; simpl.
    + by rewrite Ke, Se.
    + pose proof (f_equal fst Kv) as Kv'. simpl in Kv'. rewrite Kv'. apply Hl1.
    + etrans; [apply Hl1|exact Ka].
    + rewrite Kp, Sp. apply kept_app, _.
    + eexists (db_members db), _. simpl. rewrite Km, Sm. split; [done|]. split; [done|].
      intros x p (m & -> & Hm)%list_elem_of_fmap Hp Hid. by destruct (Hfresh p Hp).
    + rewrite Kd. apply Hl1.
    + intros pool _. unfold log_of. simpl. by rewrite Ke, Se.
    + intros pool (p & Hp & Hid & _). unfold seats_of. simpl. rewrite Km, Sm, filter_app.
      rewrite (filter_none (λ m, mb_pool m = pool) (map _ _)), app_nil_r; [done|].
      intros x (m & -> & Hm)%list_elem_of_fmap. simpl. intros E. destruct (Hfresh p Hp). congruence.
  - exists session. by rewrite Kp, Sp.
  - by rewrite Km, Sm.
  - by rewrite Ke, Se.
  - by rewrite Kn, En, Sn.
  - change (grows (journal db) (journal d4)). by rewrite Kv.
  - by rewrite Kd.
Qed.

Lemma admit_pool_Ok db input fresh uuid db' r :
  wf db → recorded db → valid_pool input → admit_pool db input fresh uuid = Ok (db', r) →
  if pd_created r
  then created_pool db input uuid db' ∧ r = mk_pool_admission (pi_pool input) true (members_of db' (pi_pool input))
  else db' = db ∧ replay_pool db (pi_namespace input) (pi_request_id input) (pi_request_sha256 input) = Ok (Some r).
Proof.
  intros Hw Hr Hv E. unfold admit_pool in E.
  destruct (replay_pool _ _ _ _) as [[found|]|] eqn:Er; [| |discriminate E].
  { apply ok_pair_inj in E as [<- <-]. assert (pd_created found = false) as ->; [|done].
    unfold replay_pool in Er. destruct (first_where _ _); [|done]. destruct (negb _); [done|].
    by injection Er as <-. }
  destruct (require_admissions_open db); [|discriminate E]. destruct (bool_decide _); [discriminate E|].
  destruct (try_fold (admit_member _) _ _) as [[d1 names]|] eqn:E1; [|discriminate E].
  apply admit_loop_staged in E1; [|done|done|eapply Forall_impl; [exact Hv|]; naive_solver].
  destruct (pool_session _ _ _) as [[ds session]|] eqn:E2; [|discriminate E].
  apply pool_session_Ok in E2 as [ss ->].
  destruct (insert_pool _ _) as [d2|] eqn:E3; [|discriminate E].
  destruct (try_fold insert_member _ _) as [d3|] eqn:E4; [|discriminate E].
  destruct (try_fold (enroll_member _ _ _) _ _) as [d4|] eqn:E5; [|discriminate E].
  destruct (if existsb _ _ then _ else _) as [d5|] eqn:E6; [|discriminate E].
  apply capacity_step in E6 as [c ->]. apply ok_pair_inj in E as [<- <-]. cbn [pd_created].
  split; [|done]. by eapply stages_created.
Qed.

(** C29: A created pool is exactly its request.  The pool is a fresh row, open at
    roster revision one; it has one current seat per requested member, under
    the requested slot, name and role, in an order-preserving receipt; its log
    is empty; every running worker among the members has a pending enrollment
    and so cannot count as joined; no other pool, seat or log entry changes,
    and the state stays well formed. *)
Theorem pool_admission_creates db input fresh uuid db' r :
  wf db → recorded db → valid_pool input →
  admit_pool db input fresh uuid = Ok (db', r) → pd_created r = true →
  created_pool db input uuid db' ∧
  log_of db' (pi_pool input) = [] ∧
  pd_pool r = pi_pool input ∧
  pd_members r ≡ₚ map (λ m, mk_record (pa_id m) (pa_slot m) (pa_name m) (pa_role m)) (pi_members input) ∧
  StronglySorted (λ x y, pmr_slot x ≤ pmr_slot y) (pd_members r) ∧
  (∀ m pin, m ∈ pi_members input → pa_source m = Existing pin → join_pending db' (pa_id m) = true).
Proof.
  intros Hw Hr Hv E Hc. apply admit_pool_Ok in E; [|done..]. rewrite Hc in E. destruct E as [Hcp ->].
  pose proof Hcp as [Hw' _ _ Hfresh _ Em Ee En].
  split; [done|]. split; [|split; [done|split; [|split]]]; simpl.
  - unfold log_of. rewrite Ee. apply filter_none. intros e He Ep.
    destruct (wf_homes _ Hw e He) as (p & Hp & Hid). destruct (Hfresh p Hp). congruence.
  - unfold members_of. rewrite merge_sort_Permutation, Em, filter_app.
    rewrite (filter_none _ (db_members db)).
    2:{ intros m Hm [Hmp _]. destruct (seat_pool _ _ (wf_members _ Hw m Hm)) as (p & Hp & Hid).
        destruct (Hfresh p Hp). congruence. }
    rewrite app_nil_l. clear. induction (pi_members input) as [|m ms IH]; [done|]. simpl.
    rewrite filter_cons, decide_True by done. simpl. by rewrite IH.
  - unfold members_of. assert (Sorted slot_le (merge_sort slot_le (filter (λ m, mb_pool m = pi_pool input ∧
      mb_joined_revision m = 1) (db_members db')))) as Hs.
    { apply Sorted_merge_sort. intros x y. unfold slot_le. lia. }
    apply Sorted_StronglySorted in Hs; [|intros x y z; unfold slot_le; lia]. revert Hs.
    generalize (merge_sort slot_le (filter (λ m, mb_pool m = pi_pool input ∧ mb_joined_revision m = 1) (db_members db'))).
    clear. induction l as [|x l IH]; simpl; constructor; inversion Hs as [|? ? Hl Hf]; subst; [by apply IH|].
    apply Forall_map. exact Hf.
  - intros m pin Hm Hpin. unfold join_pending, enrollment_view.
    assert (mk_enrollment (pa_id m) (em_run pin) (em_attempt pin) (challenge_of (uuid (pa_id m))) EPending
              None None None false ∈ db_enrollments db') as Hin.
    { rewrite En. apply elem_of_app. right. apply list_elem_of_omap. exists m. by rewrite Hpin. }
    pose proof (first_where_key er_agent _ _ (keys_enrollments _ (wf_keys _ Hw')) Hin) as Hf.
    simpl in Hf. by rewrite Hf.
Qed.
(** The receipt of a pool never changes. *)
Lemma members_of_later db db' p :
  later db db' → p ∈ db_pools db → members_of db' (pl_id p) = members_of db (pl_id p).
Proof.
  intros Hl Hp. destruct (lt_members _ _ Hl) as (old & new & E & F & G). unfold members_of.
  rewrite E, filter_app, (filter_none _ new), app_nil_r.
  2:{ intros m Hm [Hmp Hj]. specialize (G m p Hm Hp ltac:(done)). lia. }
  symmetry. apply list_eq_Forall2, Forall2_fmap. eapply Forall2_impl.
  - apply (merge_sort_related slot_le seat_kept).
    + intros x x' y y' [_ _ (Sx & _) _ _ _] [_ _ (Sy & _) _ _ _]. unfold slot_le. by rewrite Sx, Sy.
    + apply (filter_related _ seat_kept); [|exact F]. intros x x' [_ Sp _ _ Sj _]. by rewrite Sp, Sj.
  - intros x x' [-> _ (-> & -> & ->) _ _ _]. done.
Qed.

Lemma replay_pool_later db db' p namespace request_id sha :
  later db db' → keys_ok db' → p ∈ db_pools db → pl_namespace p = namespace → pl_request_id p = request_id →
  replay_pool db' namespace request_id sha =
    if bool_decide (pl_request_sha256 p = sha)
    then Ok (Some (mk_pool_admission (pl_id p) false (members_of db (pl_id p)))) else Err Conflict.
Proof.
  intros Hl Hk Hp <- <-. destruct (lt_pools _ _ Hl p Hp) as (q & Hq & [Qi _ (Qn & Qr & Qs) _ _ _]).
  unfold replay_pool. rewrite (first_where_unique _ (db_pools db') q); [|done|done|].
  - rewrite Qs, Qi. rewrite (members_of_later db db' p Hl Hp). by destruct (bool_decide _).
  - intros q' Hq' [En Er].
    apply list_elem_of_lookup in Hq as [i Hi], Hq' as [j Hj].
    assert (i = j) as <-; [|congruence].
    eapply (NoDup_lookup (map (λ p, (pl_namespace p, pl_request_id p)) (db_pools db')));
      [apply (keys_requests _ Hk)|rewrite list_lookup_fmap, Hi; done|].
    rewrite list_lookup_fmap, Hj. simpl. congruence.
Qed.

(** A pool request key answers for good.  Once a pool is admitted or
    replayed, the same namespace and key return the same pool with its
    original roster at every later state, whatever the new call asks for and
    however the roster has changed since, when the request digest is the same;
    a different digest is a conflict.  Nothing is written. *)
Theorem pool_admission_replay db input fresh uuid db1 r db2 input' fresh' uuid' :
  wf db → recorded db → valid_pool input →
  admit_pool db input fresh uuid = Ok (db1, r) →
  later db1 db2 → keys_ok db2 →
  pi_namespace input' = pi_namespace input → pi_request_id input' = pi_request_id input →
  admit_pool db2 input' fresh' uuid' =
    if bool_decide (pi_request_sha256 input' = pi_request_sha256 input)
    then Ok (db2, mk_pool_admission (pd_pool r) false (pd_members r)) else Err Conflict.
Proof.
  intros Hw Hr Hv E Hl Hk En Er. apply admit_pool_Ok in E; [|done..].
  assert (∃ p, p ∈ db_pools db1 ∧ pl_namespace p = pi_namespace input ∧ pl_request_id p = pi_request_id input ∧
            pl_request_sha256 p = pi_request_sha256 input ∧ pd_pool r = pl_id p ∧
            pd_members r = members_of db1 (pl_id p)) as (p & Hp & Pn & Pr & Ps & -> & ->).
  { destruct (pd_created r).
    - destruct E as [[_ _ _ _ [session Ep] _ _ _] ->]. exists (new_pool input session).
      rewrite Ep. split; [apply elem_of_app; right; left|done].
    - destruct E as [-> E]. unfold replay_pool in E. destruct (first_where _ _) as [p|] eqn:Ef; [|done].
      destruct (negb _) eqn:Es; [done|]. injection E as <-. to_prop.
      apply first_where_Some in Ef as [[? ?] ?]. exists p. done. }
  unfold admit_pool. rewrite En, Er, (replay_pool_later db1 db2 p _ _ _ Hl Hk Hp Pn Pr), Ps.
  repeat case_bool_decide; congruence.
Qed.
End admissions.

(** ** A concrete admission *)

#[export] Instance demo_host : Host := {|
  supervisor_alive := λ _, true;
  launch_facts := λ a _, Str (ag_id a)
|}.

(** A third worker runs on its own, with a reviewed catalog. *)
Definition demo_independent : Db :=
  set_capabilities
    (db_capabilities demo_db ++
       [mk_capability "t-d" (sha256 (bytes (demo_token 3))) (Some 1) (Some pool_catalog_digest)])
    (set_attempts (db_attempts demo_db ++ [demo_attempt "t-d" "ag-d" Running])
       (set_agents (db_agents demo_db ++ [demo_agent "ag-d" Running]) demo_db)).

Lemma demo_independent_frame : admission_frame demo_db "ag-d" demo_independent.
Proof.
  split; try done.
  - eexists. split; [done|]. by split.
  - intros _. split; try (apply (bool_decide_unpack _); exact I); try constructor.
    all: intros; by match goal with He : _ ∈ _ |- _ => apply elem_of_nil in He end.
  - exists []. by rewrite app_nil_r.
  - eexists. split; [done|]. by repeat constructor.
Qed.

Lemma demo_independent_ok : wf demo_independent ∧ recorded demo_independent.
Proof.
  split; [by apply (admitted_wf demo_db "ag-d"); [apply (bool_decide_unpack _)|apply demo_wf|apply demo_independent_frame]|].
  apply (admitted_recorded demo_db "ag-d"); [|apply demo_independent_frame].
  split.
  - intros e He. by apply elem_of_nil in He.
  - intros m1 m2 K1 _ _ _ Hj. repeat (apply elem_of_cons in K1 as [->|K1]; [simpl in Hj; lia|]).
    by apply elem_of_nil in K1.
  - intros m1 m2 n K1 _ Hr. repeat (apply elem_of_cons in K1 as [->|K1]; [done|]). by apply elem_of_nil in K1.
  - intros m n K1 Hr. repeat (apply elem_of_cons in K1 as [->|K1]; [done|]). by apply elem_of_nil in K1.
  - intros x Hx. by apply elem_of_nil in Hx.
  - intros x y Hx. by apply elem_of_nil in Hx.
Qed.

Definition demo_pin : ExistingMember :=
  match existing_member demo_independent "ag-d" with Ok e => e | Err _ => mk_existing "ag-d" "ag-d" "t-d" None "do it" None "-" end.

(** A pool of that worker and a new execution. *)
Definition demo_pool_input : PoolAdmissionInput () :=
  mk_pool_input "pool-2" "global" "req-2" (demo_token 2) "review it"
    [mk_criterion "goal" "The stated goal is met."]
    [mk_member_admission "ag-d" 1 "Dan" "lead" "keep going" (Existing demo_pin);
     mk_member_admission "ag-e" 2 "Eve" "dev" "start" (New ())] None.

Definition demo_born : Db :=
  match admit_pool demo_independent demo_pool_input "s" (λ a, a) with Ok (db, _) => db | Err _ => demo_db end.

Definition demo_birth : PoolAdmission :=
  mk_pool_admission "pool-2" true [mk_record "ag-d" 1 "Dan" "lead"; mk_record "ag-e" 2 "Eve" "dev"].

Lemma demo_born_Ok : admit_pool demo_independent demo_pool_input "s" (λ a, a) = Ok (demo_born, demo_birth).
Proof. by vm_compute. Qed.

Lemma demo_pool_valid : valid_pool demo_pool_input.
Proof. repeat constructor; try (by apply ascii_utf8); by vm_compute. Qed.

Lemma pool_admission_creates_witness :
  log_of demo_born "pool-2" = [] ∧ join_pending demo_born "ag-d" = true.
Proof.
  destruct (pool_admission_creates demo_independent demo_pool_input "s" (λ a, a) demo_born demo_birth
              (proj1 demo_independent_ok) (proj2 demo_independent_ok) demo_pool_valid demo_born_Ok eq_refl)
    as (_ & Hlog & _ & _ & _ & Hjoin).
  split; [exact Hlog|]. exact (Hjoin _ demo_pin (list_elem_of_here _ _) eq_refl).
Defined.

Lemma pool_admission_replay_witness :
  admit_pool demo_born demo_pool_input "t" (λ a, a) =
    Ok (demo_born, mk_pool_admission "pool-2" false
                     [mk_record "ag-d" 1 "Dan" "lead"; mk_record "ag-e" 2 "Eve" "dev"]).
Proof.
  pose proof (admit_pool_Ok demo_independent demo_pool_input "s" (λ a, a) demo_born demo_birth
                (proj1 demo_independent_ok) (proj2 demo_independent_ok) demo_pool_valid demo_born_Ok) as [Hc _].
  exact (pool_admission_replay demo_independent demo_pool_input "s" (λ a, a) demo_born demo_birth demo_born
           demo_pool_input "t" (λ a, a) (proj1 demo_independent_ok) (proj2 demo_independent_ok)
           demo_pool_valid demo_born_Ok (reflexivity demo_born) (wf_keys _ (cp_wf _ _ _ _ Hc)) eq_refl eq_refl).
Defined.
