(* ===== verification/WorkerFinish.v ===== *)
(** * Explicit finish

    [worker_finish.rs]: the private completion intent of one attempt, its
    receipt, and the turn boundaries before it.  The intent columns are written
    together; [fi_request] is the decoded payload.  [enqueue_native_wake] and
    the health row of [begin_worker_lifecycle] are outside the model. *)

From S2P Require Import Prelude Text Float64 Json Canonical Lifecycle Requests.
From S2P Require Import PoolDomain Tables Demo Roster World WorkerStore ServiceRestart.
From S2P Require Import PoolLog.

(** [serde_json::from_str] and the validator of [jsonschema]. *)
Class JsonSchema := {
  parse_json : string → option Value;
  schema_builds : list (string * Value) → bool;
  schema_accepts : list (string * Value) → Value → bool;
}.

(** [FinishRequest::validate_schema] with [finish_schema]. *)
Definition validate_schema `{JsonSchema} (input : FinishRequest)
  (schema : option (list (string * Value))) : result () :=
  try? finish_validate input;
  match schema with
  | None => Ok ()
  | Some schema =>
      fail? negb (schema_builds schema) with
        Validation "explicit finish output_schema is invalid or requires external resolution";
      let? instance :=
        ok_or (Validation "finish summary must be JSON for output_schema")
          (parse_json (fr_summary input)) in
      fail? negb (schema_accepts schema instance) with
        Validation "finish summary does not match output_schema";
      Ok ()
  end.

Definition finish_status_str (s : FinishStatus) : string :=
  match s with Done => "done" | Blocked => "blocked" | FinishFailed => "failed" end.
#[global] Instance finish_status_eq_dec : EqDecision FinishStatus.
Proof. solve_decision. Defined.

(** [serde_json::to_value(input)]; an object holds its keys in order. *)
Definition finish_value (input : FinishRequest) : Value :=
  Obj [("status", Str (finish_status_str (fr_status input)));
       ("summary", Str (fr_summary input))]%string.

Definition finish_payload (input : FinishRequest) : list Z := dumps (finish_value input) true.

Definition restart_finish_prefix : string := "[agent-run-restart-finish:".

(** A cancel command that was requested and not yet answered. *)
Definition cancel_requested (db : Db) (run : string) : bool :=
  exists_where
    (λ c, cm_agent c = run ∧ cm_kind c = CancelCommand ∧ (cm_state c = CPending ∨ cm_state c = CClaimed))
    (db_commands db).

(** The admissibility query, on the joined rows. *)
Definition finish_admissible (db : Db) (run attempt : string) : result bool :=
  let? a := row (first_where (λ a, ag_id a = run) (db_agents db)) in
  let? t := row (first_where (λ t, at_id t = attempt ∧ at_agent t = run) (db_attempts db)) in
  Ok (bool_decide (ag_status a = Running) && negb (is_some (ag_finished_at a))
      && bool_decide (at_state t = "running"%string) && negb (is_some (at_finished_at t))
      && negb (cancel_requested db run)).

(** The restart a technical finish answers. *)
Definition finish_restart_of (db : Db) (run attempt : string) (input : FinishRequest)
  : result (option Z) :=
  if starts_with restart_finish_prefix (fr_summary input) then
    let? id := ok_or (invalid "restart finish was not requested for this worker")
                 (finish_restart db run attempt) in
    let prefix := finish_marker id +:+ NL in
    fail? negb (bool_decide (fr_status input = Done))
          || match strip_prefix prefix (fr_summary input) with
             | Some text => blank text
             | None => true
             end with invalid "invalid restart finish marker";
    Ok (Some id)
  else Ok None.

(** [idle_seconds+CASE WHEN phase='idle' THEN MAX(0,at-transition_at) ELSE 0 END]. *)
Definition idle_until (at_ : f64) (l : LifecycleRow) : f64 :=
  fadd (wl_idle_seconds l)
    (if bool_decide (wl_phase l = PIdle)
     then fmax (of_Z 0) (fsub at_ (wl_transition_at l)) else of_Z 0).

Definition accepted (at_ : f64) (intent : FinishIntent) (l : LifecycleRow) : LifecycleRow :=
  mk_lifecycle (wl_attempt l) PClosing (wl_turn_count l) at_ (idle_until at_ l) (Some intent)
    (wl_receipt_observed l).

Section finish.
Context `{Sha256, JsonSchema}.

Definition finish_digest (input : FinishRequest) : string := sha256 (finish_payload input).

(** The stored intent is the one of this payload. *)
Definition same_intent (prior : FinishIntent) (input : FinishRequest) : bool :=
  bool_decide (finish_payload (fi_request prior) = finish_payload input)
  && bool_decide (fi_sha256 prior = finish_digest input).

(** [accept_worker_finish]. *)
Definition accept_worker_finish (db : Db) (run attempt token : string) (input : FinishRequest)
  (at_ : f64) (guard : FinishGuard) : result (Db * FinishReceipt) :=
  try? finish_validate input;
  fail? contains token (fr_summary input) || bad_time at_ with invalid "invalid finish payload";
  let? auth := authenticate_attempt db run attempt token at_ in
  fail? negb (is_some auth) with invalid "invalid worker capability";
  let? admissible := finish_admissible db run attempt in
  fail? negb admissible with invalid "worker attempt is not running";
  let? a := row (first_where (λ a, ag_id a = run) (db_agents db)) in
  fail? negb (sq_explicit_finish (ag_request a)) with invalid "explicit finish was not admitted";
  let? restart := finish_restart_of db run attempt input in
  let? _ :=
    match restart with
    | None => validate_schema input (sq_output_schema (ag_request a))
    | Some _ => Ok ()
    end in
  let? l :=
    ok_or (invalid "explicit finish was not admitted")
      (first_where (λ l, wl_attempt l = attempt) (db_lifecycles db)) in
  match wl_finish l with
  | Some prior =>
      fail? negb (same_intent prior input) with Conflict;
      Ok (db, mk_finish_receipt (finish_digest input) true)
  | None =>
      match guard with
      | Secret =>
          Err (invalid "finish summary contains launch secret material; nothing was recorded")
      | Unavailable =>
          Err (Unsupported
                 "finish launch-secret context is unavailable; retry the same finish shortly")
      | Clean =>
          let intent := mk_intent input (finish_digest input) at_ in
          let db :=
            set_lifecycles
              (update_where (λ l, wl_attempt l = attempt ∧ is_some (wl_finish l) = false)
                 (accepted at_ intent) (db_lifecycles db)) db in
          let '(db, _) :=
            insert_event db run (Some attempt) at_
              (EFinishAccepted (finish_digest input) (len (fr_summary input)) (fr_status input)
                 restart) in
          Ok (db, mk_finish_receipt (finish_digest input) false)
      end
  end.

(** The current owned, unfinished attempts of a run. *)
Definition current_attempt (db : Db) (run attempt : string) : bool :=
  exists_where
    (λ t, at_id t = attempt ∧ at_agent t = run ∧ at_owned t = true ∧ at_finished_at t = None)
    (db_attempts db).

(** [worker_finish_intent]. *)
Definition worker_finish_intent (db : Db) (run : string) (require_receipt : bool)
  : result (option FinishRequest) :=
  match first_where
          (λ l, current_attempt db run (wl_attempt l) = true ∧ is_some (wl_finish l) = true ∧
                (require_receipt = false ∨ wl_receipt_observed l = true)) (db_lifecycles db) with
  | None => Ok None
  | Some l =>
      match wl_finish l with
      | None => Ok None
      | Some intent =>
          fail? negb (bool_decide (sha256 (finish_payload (fi_request intent)) = fi_sha256 intent)) with
            Integrity "finish payload digest mismatch";
          try? finish_validate (fi_request intent);
          Ok (Some (fi_request intent))
      end
  end.
End finish.

Definition observed (l : LifecycleRow) : LifecycleRow :=
  mk_lifecycle (wl_attempt l) (wl_phase l) (wl_turn_count l) (wl_transition_at l)
    (wl_idle_seconds l) (wl_finish l) true.

(** [observe_worker_finish_receipt]. *)
Definition observe_worker_finish_receipt (db : Db) (run : string) : Db :=
  set_lifecycles
    (update_where
       (λ l, is_some (wl_finish l) = true ∧ current_attempt db run (wl_attempt l) = true) observed
       (db_lifecycles db)) db.

Definition turned (phase : Phase) (at_ : f64) (wakes : Z) (l : LifecycleRow) : LifecycleRow :=
  mk_lifecycle (wl_attempt l) phase (wl_turn_count l + wakes) at_ (idle_until at_ l) (wl_finish l)
    (wl_receipt_observed l).

(** The rows a turn boundary of this run may move. *)
Definition turn_moves (db : Db) (run : string) (phase : Phase) (l : LifecycleRow) : Prop :=
  wl_phase l ≠ phase ∧ wl_finish l = None ∧ current_attempt db run (wl_attempt l) = true.
#[global] Instance turn_moves_dec db run phase l : Decision (turn_moves db run phase l).
Proof. unfold turn_moves. apply _. Defined.

(** [worker_turn]. *)
Definition worker_turn (db : Db) (run : string) (idle : bool) (at_ : f64) : result (Db * bool) :=
  let phase := if idle then PIdle else PRunning in
  fail? bad_time at_ with invalid "invalid turn observation";
  if bool_decide (Exists (turn_moves db run phase) (db_lifecycles db)) then
    let db1 :=
      set_lifecycles
        (update_where (turn_moves db run phase) (turned phase at_ (if idle then 0 else 1))
           (db_lifecycles db)) db in
    let attempts :=
      map wl_attempt (filter (λ l, current_attempt db1 run (wl_attempt l) = true) (db_lifecycles db1)) in
    Ok (foldl (λ db attempt, fst (insert_event db run (Some attempt) at_ (ETurnPhase phase)))
          db1 attempts, true)
  else Ok (db, false).

(** ** Lemmas *)

Section finish_facts.
Context `{Sha256, JsonSchema}.

(** The checks before the stored intent is looked at. *)
Record finish_gate (db : Db) (run attempt token : string) (input : FinishRequest) (at_ : f64)
  (restart : option Z) : Prop := {
  fg_valid : finish_validate input = Ok ();
  fg_token : contains token (fr_summary input) = false;
  fg_time : bad_time at_ = false;
  fg_auth : ∃ auth, authenticate_attempt db run attempt token at_ = Ok (Some auth);
  fg_admissible : finish_admissible db run attempt = Ok true;
  fg_restart : finish_restart_of db run attempt input = Ok restart;
  fg_admitted : ∃ a, first_where (λ a, ag_id a = run) (db_agents db) = Some a ∧
    sq_explicit_finish (ag_request a) = true ∧
    match restart with
    | None => validate_schema input (sq_output_schema (ag_request a))
    | Some _ => Ok ()
    end = Ok ();
}.

Lemma accept_gate db run attempt token input at_ guard db' r :
  accept_worker_finish db run attempt token input at_ guard = Ok (db', r) →
  ∃ restart l, finish_gate db run attempt token input at_ restart ∧
    first_where (λ l, wl_attempt l = attempt) (db_lifecycles db) = Some l ∧
    match wl_finish l with
    | Some prior => same_intent prior input = true ∧ db' = db ∧
                    r = mk_finish_receipt (finish_digest input) true
    | None =>
        guard = Clean ∧ r = mk_finish_receipt (finish_digest input) false ∧
        db' = fst (insert_event
                 (set_lifecycles
                    (update_where (λ l, wl_attempt l = attempt ∧ is_some (wl_finish l) = false)
                       (accepted at_ (mk_intent input (finish_digest input) at_)) (db_lifecycles db))
                    db) run (Some attempt) at_
                 (EFinishAccepted (finish_digest input) (len (fr_summary input)) (fr_status input)
                    restart))
    end.
Proof.
  unfold accept_worker_finish. intros E.
  destruct (finish_validate input) as [[]|] eqn:E1; [|discriminate E].
  destruct (contains _ _ || _) eqn:E2; [discriminate E|]. apply orb_false_iff in E2 as [E2 E3].
  destruct (authenticate_attempt _ _ _ _ _) as [[auth|]|] eqn:E4; [|discriminate E..].
  cbn [is_some negb] in E. destruct (finish_admissible _ _ _) as [[]|] eqn:E5; [|discriminate E..].
  cbn [negb] in E. destruct (first_where (λ a, ag_id a = run) _) as [a|] eqn:E6; [|discriminate E].
  cbn [row ok_or] in E. destruct (sq_explicit_finish _) eqn:E7; [|discriminate E]. cbn [negb] in E.
  destruct (finish_restart_of _ _ _ _) as [restart|] eqn:E8; [|discriminate E].
  match type of E with match ?x with _ => _ end = _ => destruct x as [[]|] eqn:E9; [|discriminate E] end.
  destruct (first_where (λ l, wl_attempt l = attempt) _) as [l|] eqn:E10; [|discriminate E].
  cbn [ok_or] in E. exists restart, l. split; [|split; [reflexivity|]].
  { split; eauto. }
  destruct (wl_finish l) as [prior|].
  - destruct (same_intent prior input); [|discriminate E]. injection E as <- <-. done.
  - destruct guard; [discriminate E..|]. rewrite (surjective_pairing (insert_event _ _ _ _ _)) in E.
    injection E as <- <-. done.
Qed.

(** The gate and the stored intent decide a repeated call. *)
Lemma accept_prior db run attempt token input at_ guard restart l prior :
  finish_gate db run attempt token input at_ restart →
  first_where (λ l, wl_attempt l = attempt) (db_lifecycles db) = Some l →
  wl_finish l = Some prior →
  accept_worker_finish db run attempt token input at_ guard =
    if negb (same_intent prior input) then Err Conflict
    else Ok (db, mk_finish_receipt (finish_digest input) true).
Proof.
  intros [E1 E2 E3 [auth E4] E5 E8 (a & E6 & E7 & E9)] E10 E11. unfold accept_worker_finish.
  rewrite E1, E2, E3. cbn [orb]. rewrite E4. cbn [is_some negb]. rewrite E5. cbn [negb].
  rewrite E6. cbn [row ok_or]. rewrite E7. cbn [negb]. rewrite E8, E9, E10. cbn [ok_or]. by rewrite E11.
Qed.

Lemma authenticate_again db db' run attempt token at_ at' auth :
  db_attempts db' = db_attempts db → db_capabilities db' = db_capabilities db →
  db_agents db' = db_agents db → bad_time at' = false →
  authenticate_attempt db run attempt token at_ = Ok (Some auth) →
  ∃ auth', authenticate_attempt db' run attempt token at' = Ok (Some auth').
Proof.
  intros Et Ec Ea Hb. unfold authenticate_attempt, resolve_root. rewrite Et, Ec, Ea, Hb, orb_false_r.
  intros E. destruct (negb (valid_token token)); [discriminate E|]. simpl orb in E.
  destruct (bad_time at_); [discriminate E|].
  destruct (first_where (live_attempt _ _) _) as [t|]; [|discriminate E].
  destruct (first_where (λ c, wc_attempt c = attempt) _) as [c|]; [|discriminate E].
  destruct (first_where (λ a, ag_id a = run ∧ _) _) as [a|]; [|discriminate E].
  destruct (negb _); [discriminate E|].
  destruct (row _) as [x|]; [|discriminate E]. eauto.
Qed.

(** The payload determines the request. *)
Lemma finish_payload_inj i1 i2 :
  utf8 (fr_summary i1) → utf8 (fr_summary i2) → finish_payload i1 = finish_payload i2 → i1 = i2.
Proof.
  intros H1 H2 E.
  assert (∀ i, utf8 (fr_summary i) → float_free (finish_value i)) as Hf.
  { intros i Hi. simpl. split; [split; apply (bool_decide_unpack _); vm_compute; exact I|].
    split; [split; [by apply ascii_utf8|by destruct (fr_status i); apply ascii_utf8]|].
    split; [split; [by apply ascii_utf8|done]|done]. }
  destruct (write_value_inj true (finish_value i1) (finish_value i2) [] []) as [Ev _];
    [by apply Hf|by apply Hf|done|done|by rewrite !app_nil_r|].
  destruct i1 as [s1 []], i2 as [s2 []]; simpl in Ev; injection Ev as ->; done.
Qed.

(** The lifecycle row after an acceptance. *)
Lemma accepted_row db attempt at_ intent l :
  first_where (λ l, wl_attempt l = attempt) (db_lifecycles db) = Some l → wl_finish l = None →
  first_where (λ l, wl_attempt l = attempt)
    (update_where (λ l, wl_attempt l = attempt ∧ is_some (wl_finish l) = false)
       (accepted at_ intent) (db_lifecycles db)) = Some (accepted at_ intent l).
Proof.
  intros El En. rewrite first_where_update by done. rewrite El. simpl option_map.
  apply first_where_Some in El as [Ea _]. by rewrite decide_True by (by rewrite En).
Qed.

Lemma same_intent_refl input at_ :
  same_intent (mk_intent input (finish_digest input) at_) input = true.
Proof. unfold same_intent. cbn [fi_request fi_sha256]. by rewrite !bool_decide_eq_true_2. Qed.

(** C26: A finish is accepted once.  After a first acceptance, an identical
    call of the same attempt returns the same digest as a duplicate and changes
    nothing, whatever the guard's verdict is by then; any call of that attempt
    that succeeds is such a duplicate, and it carries the same request. *)
Theorem finish_accepted_once db run attempt token input at_ guard db' r :
  accept_worker_finish db run attempt token input at_ guard = Ok (db', r) →
  frc_duplicate r = false →
  (∀ at' guard', bad_time at' = false →
     accept_worker_finish db' run attempt token input at' guard' =
       Ok (db', mk_finish_receipt (frc_sha256 r) true)) ∧
  ∀ token' input' at' guard' db'' r',
    accept_worker_finish db' run attempt token' input' at' guard' = Ok (db'', r') →
    db'' = db' ∧ r' = mk_finish_receipt (frc_sha256 r) true ∧
    (utf8 (fr_summary input) → utf8 (fr_summary input') → input' = input).
Proof.
  intros E Hd. destruct (accept_gate _ _ _ _ _ _ _ _ _ E) as (restart & l & Hg & El & Hl).
  destruct (wl_finish l) as [prior|] eqn:En; [by destruct Hl as (_ & _ & ->)|].
  destruct Hl as (_ & -> & Edb). cbn [frc_sha256].
  set (intent := mk_intent input (finish_digest input) at_) in *.
  assert (first_where (λ l, wl_attempt l = attempt) (db_lifecycles db') = Some (accepted at_ intent l))
    as Erow by (rewrite Edb; by apply (accepted_row db)).
  split.
  - intros at' guard' Hb.
    rewrite (accept_prior db' run attempt token input at' guard' restart (accepted at_ intent l) intent);
      try done.
    { subst intent. by rewrite same_intent_refl. }
    destruct Hg as [E1 E2 E3 [auth E4] E5 E8 E6]. split; try done; try (by rewrite Edb).
    destruct (authenticate_again db db' run attempt token at_ at' auth) as [auth' ?];
      [by rewrite Edb..|done|done|eauto].
  - intros token' input' at' guard' db'' r' E'.
    destruct (accept_gate _ _ _ _ _ _ _ _ _ E') as (restart' & l' & _ & El' & Hl').
    rewrite Erow in El'. injection El' as <-. cbn [wl_finish accepted] in Hl'.
    destruct Hl' as (Hs & -> & ->). unfold same_intent in Hs. to_prop.
    split; [done|]. split; [by f_equal|]. intros Hu Hu'. symmetry. by apply finish_payload_inj.
Qed.

(** Intents are guarded and immutable.  A call that succeeds leaves every
    stored intent as it was, and adds one only for its own attempt, only when
    that attempt had none, the guard found the summary clean, the run was
    admitted for explicit completion and is running, no cancellation is
    pending or claimed, and the summary does not contain the capability. *)
Theorem finish_intents_guarded db run attempt token input at_ guard db' r l' :
  accept_worker_finish db run attempt token input at_ guard = Ok (db', r) →
  l' ∈ db_lifecycles db' →
  ∃ l, l ∈ db_lifecycles db ∧ wl_attempt l' = wl_attempt l ∧
    (wl_finish l' = wl_finish l ∨
     wl_finish l = None ∧ wl_attempt l = attempt ∧
     wl_finish l' = Some (mk_intent input (finish_digest input) at_) ∧
     guard = Clean ∧ cancel_requested db run = false ∧
     contains token (fr_summary input) = false ∧
     ∃ a, a ∈ db_agents db ∧ ag_id a = run ∧ ag_status a = Running ∧
          sq_explicit_finish (ag_request a) = true).
Proof.
  intros E Hl'. destruct (accept_gate _ _ _ _ _ _ _ _ _ E) as (restart & l & Hg & El & Hl).
  destruct (wl_finish l) as [prior|] eqn:En; [destruct Hl as (_ & -> & _); eauto 10|].
  destruct Hl as (-> & _ & ->). cbn [insert_event fst db_lifecycles set_event_seq set_events set_lifecycles] in Hl'.
  apply elem_of_update_where in Hl' as (x & Hx & ->). exists x. split; [done|].
  case_decide as Hd; [|auto]. destruct Hd as [Ha Hn]. split; [done|]. right.
  destruct Hg as [_ Ht _ _ Hadm _ (a & Ef & Hex & _)].
  split; [by destruct (wl_finish x)|]. do 3 (split; [done|]).
  unfold finish_admissible in Hadm. rewrite Ef in Hadm. cbn [row ok_or] in Hadm.
  destruct (row _) as [t|]; [|discriminate Hadm]. injection Hadm as Hadm. to_prop.
  apply first_where_Some in Ef as [? ?]. eauto 10.
Qed.
End finish_facts.

(** ** A closing attempt *)

Section closing_tools.
Context `{Sha256, Serde, JsonSchema}.

Lemma closing_not_running db run attempt token at_ auth :
  closing db attempt = true →
  authenticate_attempt db run attempt token at_ = Ok (Some auth) → au_running auth = false.
Proof.
  intros Hc E. destruct (au_running auth) eqn:Er; [|done].
  rewrite (authenticate_running _ _ _ _ _ _ E Er) in Hc. discriminate Hc.
Qed.

Lemma closing_member_refused db run attempt token now :
  closing db attempt = true → is_ok (authenticated_member db run attempt token now) = false.
Proof.
  intros Hc. unfold authenticated_member. destruct (input_credentials _ _ _); [|done].
  destruct (authenticate_attempt _ _ _ _ _) as [[auth|]|] eqn:E; [|done..]. cbn [ok_or].
  by rewrite (closing_not_running _ _ _ _ _ _ Hc E).
Qed.

(** A finished attempt is closed to every other worker tool.  Once a finish
    is accepted, its attempt can neither post, propose, vote or read in its
    pool nor report to the orchestrator, with any token and at any time. *)
Theorem finish_closes_attempt db run attempt token input at_ guard db' r :
  accept_worker_finish db run attempt token input at_ guard = Ok (db', r) →
  frc_duplicate r = false →
  ∀ run' token' now,
    (∀ w, is_ok (pool_write_tx db' run' attempt token' w now) = false) ∧
    (∀ after before limit, is_ok (pool_read db' run' attempt token' after before limit now) = false) ∧
    (∀ report fresh, is_ok (notify_orchestrator db' run' attempt token' report now fresh) = false).
Proof.
  intros E Hd run' token' now. destruct (accept_gate _ _ _ _ _ _ _ _ _ E) as (rs & l & _ & El & Hl).
  destruct (wl_finish l) as [prior|] eqn:En; [by destruct Hl as (_ & _ & ->)|].
  destruct Hl as (_ & _ & Edb).
  pose proof (accepted_row db attempt at_ (mk_intent input (finish_digest input) at_) l El En) as Ex.
  assert (closing db' attempt = true) as Hc.
  { apply exists_where_true. apply first_where_Some in Ex as [Ha Hin]. rewrite Edb. eauto. }
  pose proof (closing_member_refused db' run' attempt token' now Hc) as Hm. split; [|split].
  - intros w. unfold pool_write_tx. by destruct (authenticated_member _ _ _ _ _).
  - intros after before limit. unfold pool_read. by destruct (authenticated_member _ _ _ _ _).
  - intros report fresh. unfold notify_orchestrator.
    destruct (notify_validate report); [|done]. destruct (_ || _); [done|].
    destruct (authenticate_attempt _ _ _ _ _) as [[auth|]|] eqn:Ea; [|done..].
    by rewrite (closing_not_running _ _ _ _ _ _ Hc Ea).
Qed.
End closing_tools.

(** ** A concrete finish *)

#[export] Instance demo_json_schema : JsonSchema :=
  {| parse_json := λ _, None; schema_builds := λ _, true; schema_accepts := λ _ _, true |}.

Definition demo_finish : FinishRequest := mk_finish "all done" Done.

Definition demo_finished : Db :=
  match accept_worker_finish demo_db "ag-a" "t-a" (demo_token 1) demo_finish (of_Z 150) Clean with
  | Ok (db, _) => db
  | Err _ => demo_db
  end.

Definition demo_finish_receipt : FinishReceipt :=
  mk_finish_receipt (finish_digest demo_finish) false.

Lemma demo_finished_Ok :
  accept_worker_finish demo_db "ag-a" "t-a" (demo_token 1) demo_finish (of_Z 150) Clean
  = Ok (demo_finished, demo_finish_receipt).
Proof. vm_compute. reflexivity. Qed.

Lemma finish_accepted_once_witness :
  accept_worker_finish demo_finished "ag-a" "t-a" (demo_token 1) demo_finish (of_Z 160) Unavailable
  = Ok (demo_finished, mk_finish_receipt (finish_digest demo_finish) true).
Proof.
  apply (proj1 (finish_accepted_once demo_db "ag-a" "t-a" (demo_token 1) demo_finish (of_Z 150) Clean
                  demo_finished demo_finish_receipt demo_finished_Ok eq_refl)).
  vm_compute. reflexivity.
Defined.

Lemma finish_intents_guarded_witness :
  ∃ l', l' ∈ db_lifecycles demo_finished ∧ ∃ l, l ∈ db_lifecycles demo_db ∧ wl_attempt l' = wl_attempt l.
Proof.
  destruct (db_lifecycles demo_finished) as [|l' ls] eqn:E; [vm_compute in E; discriminate E|].
  exists l'. split; [left|].
  destruct (finish_intents_guarded demo_db "ag-a" "t-a" (demo_token 1) demo_finish (of_Z 150) Clean
              demo_finished demo_finish_receipt l' demo_finished_Ok ltac:(rewrite E; left))
    as (l & Hl & Ha & _).
  exists l. exact (conj Hl Ha).
Defined.

Lemma finish_closes_attempt_witness :
  is_ok (pool_write_tx demo_finished "ag-a" "t-a" (demo_token 1) (WMessage (mk_message "k" "hi"))
           (of_Z 160)) = false.
Proof.
  apply (finish_closes_attempt demo_db "ag-a" "t-a" (demo_token 1) demo_finish (of_Z 150) Clean
           demo_finished demo_finish_receipt demo_finished_Ok eq_refl "ag-a" (demo_token 1) (of_Z 160)).
Defined.
