(* ===== verification/Terminal.v ===== *)
(** * The terminal commit

    [terminal.rs] [commit_terminal]: one transaction that closes an execution,
    with the precedence of a pending cancel, the proof an explicit success
    needs, the cleanup a provider attempt needs, and the individual notice.
    The process tables behind [compact_terminal_processes] are outside the
    model: the summary it would store is an argument, [None] when it has no
    observed process. *)

From S2P Require Import Prelude Text Float64 Json Canonical Lifecycle Requests.
From S2P Require Import PoolDomain Tables Demo Roster World WorkerStore Sessions.
From S2P Require Import ServiceRestart WorkerFinish.

(** [agent_run_platform::verify::Proof]. *)
Record AnswerProof := mk_proof {
  pf_path : string;
  pf_bytes : Z;
  pf_sha256 : string;
}.

(** [json_extract(proof,'$.name')=1]. *)
Definition proof_flag (name : string) (proof : option Value) : bool :=
  match proof with
  | Some (Obj fields) =>
      match first_where (λ kv, fst kv = name) fields with
      | Some (_, Bool b) => b
      | Some (_, Num (PosInt n)) => n =? 1
      | Some (_, Num (Float x)) => feq x (of_Z 1)
      | _ => false
      end
  | _ => false
  end.

(** The owned attempts of an execution. *)
Definition owned_by (id : string) (t : AttemptRow) : Prop := at_agent t = id ∧ at_owned t = true.
#[global] Instance owned_by_dec id t : Decision (owned_by id t).
Proof. unfold owned_by. apply _. Defined.

(** [NEVER_SPAWNED]: no process evidence, no cleanup proof, the only owned one. *)
Definition never_spawned (db : Db) (t : AttemptRow) : Prop :=
  at_owned t = true ∧ at_phase t = Some "prepared"%string ∧ at_process t = false ∧
  at_cleanup_proof t = None ∧ count_where (owned_by (at_agent t)) (db_attempts db) = 1.
#[global] Instance never_spawned_dec db t : Decision (never_spawned db t).
Proof. unfold never_spawned. apply _. Defined.

Definition with_never_spawned (t : AttemptRow) : AttemptRow :=
  mk_attempt (at_id t) (at_agent t) (at_number t) (at_state t) (at_finished_at t) (at_owned t)
    (Some "cleanup_complete"%string) (Some (Obj [("never_spawned", Bool true)]%string))
    (at_process t) (at_account t).

Definition closed (to : Status) (time : f64) (t : AttemptRow) : AttemptRow :=
  mk_attempt (at_id t) (at_agent t) (at_number t) (Status.as_str to) (Some time) (at_owned t) (at_phase t)
    (at_cleanup_proof t) (at_process t) (at_account t).

Definition released (t : AttemptRow) : AttemptRow :=
  mk_attempt (at_id t) (at_agent t) (at_number t) (at_state t) (at_finished_at t) false (at_phase t)
    (at_cleanup_proof t) (at_process t) (at_account t).

(** The agent row of the terminal update. *)
Definition ended (to : Status) (time : f64) (o : Outcome) (answer : option AnswerProof) (a : AgentRow)
  : AgentRow :=
  mk_agent (ag_id a) (ag_root a) (ag_sequence a) (ag_created_at a) to (Some time) (ag_session a)
    (ag_request a) (ag_identity_v2 a) (oc_exit_code o) (oc_failure_kind o) (oc_failure_text o)
    (match oc_runtime_session_id o with Some s => Some s | None => ag_runtime_session a end)
    (option_map (λ p, (pf_path p, pf_bytes p, pf_sha256 p)) answer) (ag_display_name a)
    (ag_pool_history a) (ag_runtime a) (ag_model a).

(** The oldest pending cancel of the execution. *)
Definition oldest_cancel (db : Db) (id : string) : option Z :=
  option_map cm_id
    (best_by (λ x y, cm_id y <=? cm_id x)
       (filter (λ c, cm_agent c = id ∧ cm_kind c = CancelCommand ∧ cm_state c = CPending)
          (db_commands db))).

Definition answered (c : CommandRow) : CommandRow :=
  mk_command (cm_id c) (cm_agent c) (cm_kind c) CCompleted true.

(** The intent of the current attempt, with whether its receipt was observed. *)
Definition current_intent (db : Db) (id : string) : option (FinishRequest * bool) :=
  match first_where
          (λ l, current_attempt db id (wl_attempt l) = true ∧ is_some (wl_finish l) = true)
          (db_lifecycles db) with
  | Some l => option_map (λ i, (fi_request i, wl_receipt_observed l)) (wl_finish l)
  | None => None
  end.

Definition observed_done (intent : option (FinishRequest * bool)) : bool :=
  match intent with
  | Some (i, seen) => seen && bool_decide (fr_status i = Done)
  | None => false
  end.

(** The restart id of an accepted technical finish. *)
Definition finish_restart_id (d : EventData) : option Z :=
  match d with EFinishAccepted _ _ _ restart => restart | _ => None end.

(** The terminal state is the technical stop of a service restart. *)
Definition technical_restart (db : Db) (id : string) : bool :=
  exists_where
    (λ a, ra_agent a = id ∧ preparing db (ra_restart a) = true ∧ ra_resume_status a ≠ RsCancelled ∧
          (exists_where
             (λ e, ev_agent e = id ∧ finish_restart_id (ev_data e) = Some (ra_restart a))
             (db_events db) = true ∨
           (ra_force_requested a = true ∧
            exists_where
              (λ l, is_some (wl_finish l) = true ∧
                    exists_where (λ t, at_id t = wl_attempt l ∧ owned_by id t) (db_attempts db) = true)
              (db_lifecycles db) = false)))
    (db_restart_agents db).

Definition resume_finished (a : RestartAgentRow) : RestartAgentRow :=
  mk_restart_agent (ra_restart a) (ra_agent a) (ra_session a) (ra_cancelled_before a) (ra_first_ns a)
    (ra_second_ns a) (ra_force_ns a) (ra_requested_ns a) (ra_resumed_execution a) RsFinished (ra_error a).

(** An attempt that blocks the compaction of process evidence. *)
Definition blocks_compaction (id : string) (t : AttemptRow) : Prop :=
  at_agent t = id ∧
  (at_owned t = true ∨ at_phase t ≠ Some "cleanup_complete"%string ∨
   (proof_flag "confirmed" (at_cleanup_proof t) = false ∧
    ¬ (proof_flag "never_spawned" (at_cleanup_proof t) = true ∧ at_process t = false))).
#[global] Instance blocks_compaction_dec id t : Decision (blocks_compaction id t).
Proof. unfold blocks_compaction. apply _. Defined.

(** [compact_terminal_processes]: the summary event, once all is clean. *)
Definition compact_terminal_processes (db : Db) (id : string) (now : f64) (summary : option Value)
  : Db :=
  if exists_where (λ a, ag_id a = id ∧ Status.terminal (ag_status a) = true) (db_agents db)
     && negb (exists_where (blocks_compaction id) (db_attempts db))
  then
    match summary with
    | None => db
    | Some summary =>
        let latest :=
          best_by (λ x y, at_number x <=? at_number y)
            (filter (λ t, at_agent t = id) (db_attempts db)) in
        fst (insert_event db id (option_map at_id latest) now (EProcessSummary summary))
    end
  else db.

(** [usage.get("_source") == "token_usage_updated"]. *)
Definition usage_updated (usage : Value) : bool :=
  match usage with
  | Obj fields =>
      match first_where (λ kv, fst kv = "_source"%string) fields with
      | Some (_, Str s) => bool_decide (s = "token_usage_updated"%string)
      | _ => false
      end
  | _ => false
  end.

Section terminal.
Context `{Sha256}.

(** What an explicit-completion run must show before it may end this way. *)
Definition explicit_checks (db : Db) (a : AgentRow) (o : Outcome) (proof : option AnswerProof)
  : result () :=
  if sq_explicit_finish (ag_request a) then
    let intent := current_intent db (ag_id a) in
    fail? bool_decide (oc_status o = Succeeded) && negb (observed_done intent) with
      invalid "explicit success requires an observed private done finish receipt";
    match proof with
    | None => Ok ()
    | Some p =>
        let? (intent, seen) :=
          ok_or (invalid "explicit answer requires a finish intent") intent in
        fail? negb seen with invalid "explicit answer requires an observed private finish receipt";
        fail? negb (bool_decide (pf_sha256 p = sha256 (bytes (fr_summary intent))))
              || negb (pf_bytes p =? len (fr_summary intent)) with
          invalid "answer does not match immutable finish summary";
        Ok ()
    end
  else Ok ().

(** The provider attempt the commit releases; a provably never spawned one
    gets its proof first. *)
Definition provider_attempt (db : Db) (a : AgentRow) (o : Outcome) : result (Db * option string) :=
  if ag_identity_v2 a then
    let db :=
      if bool_decide (oc_status o = Succeeded) then db
      else set_attempts
             (update_where (λ t, at_agent t = ag_id a ∧ never_spawned db t) with_never_spawned
                (db_attempts db)) db in
    let? t := row (first_where (owned_by (ag_id a)) (db_attempts db)) in
    fail? negb (is_some (at_cleanup_proof t)) with
      invalid "provider attempt cannot release without cleanup proof";
    Ok (db, Some (at_id t))
  else Ok (db, None).

(** The state the commit moves to, and the intermediate state it passes. *)
Definition terminal_path (status : Status) (o : Outcome) (cancel : bool) : Status * Status :=
  let requested :=
    if bool_decide (status = Running) && cancel then Cancelled else oc_status o in
  let from :=
    if bool_decide (status = Running) && bool_decide (requested = Cancelled)
    then Cancelling else status in
  let to :=
    if bool_decide (from = Cancelling) && negb (bool_decide (requested = Cancelled))
    then Lost else requested in
  (from, to).

Definition close_attempts (db : Db) (id : string) (attempt : option string) (to : Status)
  (time : f64) : Db :=
  match attempt with
  | Some attempt =>
      set_attempts
        (update_where (λ t, at_id t = attempt ∧ owned_by id t) (closed to time) (db_attempts db)) db
  | None => set_attempts (update_where (λ t, at_agent t = id) (closed to time) (db_attempts db)) db
  end.

Definition release_attempts (db : Db) (id : string) (attempt : option string) : Db :=
  match attempt with
  | Some attempt =>
      set_attempts
        (update_where (λ t, at_id t = attempt ∧ at_agent t = id) released (db_attempts db)) db
  | None =>
      set_attempts
        (update_where
           (λ t, owned_by id t ∧ at_phase t = Some "cleanup_complete"%string ∧
                 proof_flag "confirmed" (at_cleanup_proof t) = true) released (db_attempts db)) db
  end.

(** The state rows: restart bookkeeping, agent, cancel command, attempts. *)
Definition mark_ended (db : Db) (a : AgentRow) (o : Outcome) (proof : option AnswerProof)
  (attempt : option string) (cancel : option Z) (to : Status) (time : f64) (technical : bool) : Db :=
  let id := ag_id a in
  let db :=
    if technical then db
    else set_restart_agents
           (update_where
              (λ r, ra_agent r = id ∧ ra_resume_status r = RsPending ∧
                    preparing db (ra_restart r) = true) resume_finished (db_restart_agents db)) db in
  let answer := if technical then None else proof in
  let db := set_agents (update_where (λ x, ag_id x = id) (ended to time o answer) (db_agents db)) db in
  let db :=
    match cancel with
    | Some c =>
        set_commands
          (update_where (λ x, cm_id x = c ∧ cm_state x = CPending) answered (db_commands db)) db
    | None => db
    end in
  close_attempts db id attempt to time.

(** The status event, the individual notice and the usage event. *)
Definition announce (db : Db) (a : AgentRow) (o : Outcome) (usage : option Value)
  (from to : Status) (time : f64) (fresh : string) (technical : bool) : Db :=
  let id := ag_id a in
  let '(db, event) := tx_event db id time (EStatus from to (oc_failure_kind o) technical) in
  let db :=
    if technical then db
    else fst (insert_terminal_notice db id (ag_session a) event time fresh) in
  match usage with
  | Some u => fst (tx_event db id time (EUsage (usage_updated u) u))
  | None => db
  end.

(** The writes after the transition has been accepted. *)
Definition write_terminal (db : Db) (a : AgentRow) (o : Outcome) (proof : option AnswerProof)
  (usage : option Value) (attempt : option string) (cancel : option Z) (from to : Status)
  (time : f64) (fresh : string) (summary : option Value) : Db :=
  let technical := technical_restart db (ag_id a) in
  let db := mark_ended db a o proof attempt cancel to time technical in
  let db := announce db a o usage from to time fresh technical in
  compact_terminal_processes (release_attempts db (ag_id a) attempt) (ag_id a) time summary.

(** [commit_terminal]; [time] is [now()], [fresh] the UUID of the notice. *)
Definition commit_terminal (db : Db) (id : string) (o : Outcome) (proof : option AnswerProof)
  (usage : option Value) (time : f64) (fresh : string) (summary : option Value)
  : result (Db * option f64) :=
  fail? negb (Status.terminal (oc_status o)) with invalid "outcome must be terminal";
  fail? bool_decide (oc_status o = Succeeded) && negb (is_some proof) with
    invalid "success requires a sealed answer proof";
  let? a := row (first_where (λ a, ag_id a = id) (db_agents db)) in
  if Status.terminal (ag_status a) then Ok (db, None)
  else
    try? explicit_checks db a o proof;
    let? (db, attempt) := provider_attempt db a o in
    let cancel :=
      if bool_decide (oc_status o = Succeeded) || sq_explicit_finish (ag_request a)
      then oldest_cancel db id else None in
    let '(from, to) := terminal_path (ag_status a) o (is_some cancel) in
    let db :=
      if bool_decide (from = Cancelling) && bool_decide (ag_status a = Running)
      then fst (tx_event db id time (EStatus Running Cancelling None false))
      else db in
    try? Status.transition from to;
    Ok (write_terminal db a o proof usage attempt cancel from to time fresh summary, Some time).

(** ** What the commit touches *)

(** Everything but agents, attempts, commands, events, deliveries and the
    restart bookkeeping. *)
Definition rest_of (db : Db) :=
  (db_capabilities db, db_lifecycles db, db_notifications db, db_sessions db, db_pools db,
   db_members db, db_entries db, db_enrollments db, db_restarts db, db_entry_seq db).

Lemma compact_frame db id now summary :
  let db' := compact_terminal_processes db id now summary in
  rest_of db' = rest_of db ∧ db_agents db' = db_agents db ∧ db_attempts db' = db_attempts db ∧
  db_deliveries db' = db_deliveries db ∧ db_commands db' = db_commands db ∧
  grows (journal db) (journal db').
Proof.
  unfold compact_terminal_processes. destruct (_ && _); [|done]. destruct summary; [|done].
  split_and!; try done. by apply grows_one.
Qed.

Lemma notice_frame db id session event at_ fresh :
  let db' := fst (insert_terminal_notice db id session event at_ fresh) in
  rest_of db' = rest_of db ∧ db_agents db' = db_agents db ∧ db_attempts db' = db_attempts db ∧
  queues (db_deliveries db) (db_deliveries db') ∧ journal db' = journal db.
Proof.
  unfold insert_terminal_notice. destruct (suppress_member_success _ _); [done|].
  destruct session; [|done]. destruct (first_where _ _); [done|]. split_and!; try done. apply queues_one. by right.
Qed.

Lemma mark_ended_frame db a o proof attempt cancel to time technical :
  let db' := mark_ended db a o proof attempt cancel to time technical in
  rest_of db' = rest_of db ∧ db_deliveries db' = db_deliveries db ∧ journal db' = journal db ∧
  db_agents db' = update_where (λ x, ag_id x = ag_id a)
                    (ended to time o (if technical then None else proof)) (db_agents db) ∧
  map at_id (db_attempts db') = map at_id (db_attempts db).
Proof.
  unfold mark_ended, close_attempts. destruct technical, cancel, attempt; repeat split;
    cbn [db_attempts set_attempts set_commands set_agents set_restart_agents]; by apply map_update_where.
Qed.

Lemma announce_frame db a o usage from to time fresh technical :
  let db' := announce db a o usage from to time fresh technical in
  rest_of db' = rest_of db ∧ db_agents db' = db_agents db ∧ db_attempts db' = db_attempts db ∧
  queues (db_deliveries db) (db_deliveries db') ∧ grows (journal db) (journal db').
Proof.
  unfold announce. rewrite (surjective_pairing (tx_event db _ _ _)). cbv beta iota zeta.
  set (d := fst (tx_event db _ _ _)).
  assert (rest_of d = rest_of db ∧ db_agents d = db_agents db ∧ db_attempts d = db_attempts db ∧
          db_deliveries d = db_deliveries db ∧ grows (journal db) (journal d))
    as (R & A & T & D & V) by (split_and!; try done; by apply grows_one).
  generalize dependent d. intros d R A T D V. rewrite <-R, <-A, <-T, <-D.
  set (d' := if technical then d else _).
  assert (rest_of d' = rest_of d ∧ db_agents d' = db_agents d ∧ db_attempts d' = db_attempts d ∧
          queues (db_deliveries d) (db_deliveries d') ∧ journal d' = journal d)
    as (R' & A' & T' & D' & V') by (subst d'; destruct technical; [done|apply notice_frame]).
  destruct usage; [|by rewrite V'].
  split_and!; try done. transitivity (journal d'); [by rewrite V'|by apply grows_one].
Qed.

Lemma release_frame db id attempt :
  let db' := release_attempts db id attempt in
  rest_of db' = rest_of db ∧ db_agents db' = db_agents db ∧ db_deliveries db' = db_deliveries db ∧
  journal db' = journal db ∧ map at_id (db_attempts db') = map at_id (db_attempts db).
Proof. unfold release_attempts. destruct attempt; repeat split; simpl; by apply map_update_where. Qed.

Lemma write_terminal_frame db a o proof usage attempt cancel from to time fresh summary :
  let db' := write_terminal db a o proof usage attempt cancel from to time fresh summary in
  rest_of db' = rest_of db ∧
  db_agents db' = update_where (λ x, ag_id x = ag_id a)
                    (ended to time o (if technical_restart db (ag_id a) then None else proof))
                    (db_agents db) ∧
  map at_id (db_attempts db') = map at_id (db_attempts db) ∧
  queues (db_deliveries db) (db_deliveries db') ∧ grows (journal db) (journal db').
Proof.
  unfold write_terminal. cbv zeta. set (tech := technical_restart db (ag_id a)).
  destruct (mark_ended_frame db a o proof attempt cancel to time tech) as (R1 & D1 & V1 & A1 & T1).
  set (d1 := mark_ended _ _ _ _ _ _ _ _ _) in *.
  destruct (announce_frame d1 a o usage from to time fresh tech) as (R2 & A2 & T2 & D2 & V2).
  set (d2 := announce _ _ _ _ _ _ _ _ _) in *.
  destruct (release_frame d2 (ag_id a) attempt) as (R3 & A3 & D3 & V3 & T3).
  set (d3 := release_attempts _ _ _) in *.
  destruct (compact_frame d3 (ag_id a) time summary) as (R4 & A4 & T4 & D4 & _ & V4).
  set (d4 := compact_terminal_processes _ _ _ _) in *. clearbody d1 d2 d3 d4.
  rewrite R4, R3, R2, R1, A4, A3, A2, A1, T4, T3, T2, T1, D4, D3, <-D1, <-V1.
  repeat split; try done. etrans; [exact V2|]. by rewrite <-V3.
Qed.

Lemma provider_attempt_frame db a o db' attempt :
  provider_attempt db a o = Ok (db', attempt) →
  rest_of db' = rest_of db ∧ db_agents db' = db_agents db ∧ db_commands db' = db_commands db ∧
  db_deliveries db' = db_deliveries db ∧ journal db' = journal db ∧
  map at_id (db_attempts db') = map at_id (db_attempts db).
Proof.
  unfold provider_attempt. intros E. destruct (ag_identity_v2 a); [|by injection E as <- <-].
  match type of E with context [row (first_where _ (db_attempts ?d))] => set (d1 := d) in * end.
  assert (db' = d1) as ->.
  { destruct (row _); [|discriminate E]. destruct (negb _); [discriminate E|]. by injection E as <- _. }
  subst d1. destruct (bool_decide _); [done|]. repeat split. simpl. by apply map_update_where.
Qed.

(** The cancel the commit answers. *)
Definition cancel_of (db : Db) (a : AgentRow) (o : Outcome) : option Z :=
  if bool_decide (oc_status o = Succeeded) || sq_explicit_finish (ag_request a)
  then oldest_cancel db (ag_id a) else None.

Lemma commit_terminal_Some db id o proof usage time fresh summary db' t :
  commit_terminal db id o proof usage time fresh summary = Ok (db', Some t) →
  ∃ a d attempt,
    let cancel := cancel_of db a o in
    let path := terminal_path (ag_status a) o (is_some cancel) in
    first_where (λ a, ag_id a = id) (db_agents db) = Some a ∧
    Status.terminal (ag_status a) = false ∧ Status.terminal (oc_status o) = true ∧
    (oc_status o = Succeeded → is_some proof = true) ∧ explicit_checks db a o proof = Ok () ∧
    Status.transition (fst path) (snd path) = Ok () ∧
    rest_of d = rest_of db ∧ db_agents d = db_agents db ∧ db_deliveries d = db_deliveries db ∧
    grows (journal db) (journal d) ∧ map at_id (db_attempts d) = map at_id (db_attempts db) ∧
    db' = write_terminal d a o proof usage attempt cancel (fst path) (snd path) time fresh summary.
Proof.
  unfold commit_terminal. intros E. destruct (negb (Status.terminal (oc_status o))) eqn:E1; [discriminate E|].
  destruct (bool_decide _ && _) eqn:E2; [discriminate E|].
  destruct (first_where _ _) as [a|] eqn:E3; [|discriminate E]. cbn [row ok_or] in E.
  assert (ag_id a = id) as Hid by (by apply first_where_Some in E3 as [? _]).
  destruct (Status.terminal (ag_status a)) eqn:E4; [discriminate E|].
  destruct (explicit_checks db a o proof) as [[]|] eqn:E5; [|discriminate E].
  destruct (provider_attempt db a o) as [[d1 attempt]|] eqn:E6; [|discriminate E].
  apply provider_attempt_frame in E6 as (R & A & C & D & V & T).
  assert (oldest_cancel d1 id = oldest_cancel db (ag_id a)) as Ec
    by (unfold oldest_cancel; by rewrite C, Hid).
  rewrite Ec in E. fold (cancel_of db a o) in E.
  destruct (terminal_path _ _ _) as [from to] eqn:E7.
  destruct (Status.transition from to) as [[]|] eqn:E8; [|discriminate E]. injection E as <- _.
  match goal with |- context [write_terminal ?d] => exists a, d, attempt end. cbv zeta. rewrite E7. cbn [fst snd]. to_prop.
  split; [done|]. split; [done|]. split; [done|]. split.
  { intros Hs. rewrite Hs in E2. by destruct (is_some proof). }
  split; [done|]. split; [done|].
  destruct (bool_decide _ && bool_decide _); split_and!; try done; [|by rewrite V].
  rewrite <-V. by apply grows_one.
Qed.

(** The path of a commit is a history of the frozen state machine. *)
Lemma terminal_path_lifecycle status o cancel :
  Status.terminal status = false → Status.terminal (oc_status o) = true →
  let '(from, to) := terminal_path status o cancel in
  Status.transition from to = Ok () →
  Status.terminal to = true ∧
  lifecycle status (if bool_decide (from = status) then [to] else [from; to]) ∧
  (to = Succeeded → oc_status o = Succeeded ∧ status = Running ∧ cancel = false) ∧
  (status = Running → cancel = true → to = Cancelled).
Proof.
  intros Hs Ho. destruct o as [st ? ? ? ?]. cbn [oc_status] in *.
  destruct status, st, cancel; try discriminate; vm_compute; intros E; try discriminate E.
  all: split; [done|]; split; [|split; [by intros|by intros]].
  all: repeat (apply lifecycle_move; [reflexivity|]); apply lifecycle_stop.
Qed.

Lemma explicit_checks_Ok db a o proof :
  explicit_checks db a o proof = Ok () → sq_explicit_finish (ag_request a) = true →
  (oc_status o = Succeeded → ∃ i, current_intent db (ag_id a) = Some (i, true) ∧ fr_status i = Done) ∧
  (∀ p, proof = Some p →
     ∃ i, current_intent db (ag_id a) = Some (i, true) ∧
       pf_sha256 p = sha256 (bytes (fr_summary i)) ∧ pf_bytes p = len (fr_summary i)).
Proof.
  unfold explicit_checks. intros E Hx. rewrite Hx in E.
  destruct (bool_decide _ && _) eqn:E1; [discriminate E|]. split.
  - intros Hs. rewrite Hs in E1. destruct (current_intent db (ag_id a)) as [[i []]|]; try discriminate E1.
    cbn [observed_done andb] in E1. exists i. split; [done|]. by destruct (fr_status i).
  - intros p ->. destruct (current_intent db (ag_id a)) as [[i seen]|]; [|discriminate E].
    cbn [ok_or] in E. destruct seen; [|discriminate E]. cbn [negb] in E.
    destruct (_ || _) eqn:E2; [discriminate E|]. to_prop. eauto.
Qed.

(** C25: A terminal commit follows the frozen state machine and its proofs.
    The execution ends in a terminal state along accepted transitions; it
    succeeds only from running, on a success outcome with an answer proof and
    no pending cancel, and for explicit completion only with an observed done
    finish whose summary is that answer; a pending cancel turns a running
    explicit or successful end into a cancellation; only this agent's row
    changes. *)
Theorem terminal_commit_sound db id o proof usage time fresh summary db' t :
  commit_terminal db id o proof usage time fresh summary = Ok (db', Some t) →
  ∃ a to path answer,
    a ∈ db_agents db ∧ ag_id a = id ∧ Status.terminal (ag_status a) = false ∧
    lifecycle (ag_status a) (path ++ [to]) ∧ Status.terminal to = true ∧
    db_agents db' = update_where (λ x, ag_id x = id) (ended to time o answer) (db_agents db) ∧
    (answer = None ∨ answer = proof) ∧
    (to = Succeeded → oc_status o = Succeeded ∧ ag_status a = Running ∧ is_some proof = true ∧
       oldest_cancel db id = None) ∧
    (ag_status a = Running → oldest_cancel db id ≠ None →
       oc_status o = Succeeded ∨ sq_explicit_finish (ag_request a) = true → to = Cancelled) ∧
    (sq_explicit_finish (ag_request a) = true →
       (to = Succeeded → ∃ i, current_intent db id = Some (i, true) ∧ fr_status i = Done) ∧
       ∀ p, answer = Some p → ∃ i, current_intent db id = Some (i, true) ∧
         pf_sha256 p = sha256 (bytes (fr_summary i)) ∧ pf_bytes p = len (fr_summary i)).
Proof.
  intros (a & d & attempt & E3 & E4 & E1 & E2 & E5 & E8 & _ & A & _ & _ & _ & ->)%commit_terminal_Some.
  apply first_where_Some in E3 as [<- Hin].
  pose proof (terminal_path_lifecycle (ag_status a) o (is_some (cancel_of db a o)) E4 E1) as Hp.
  destruct (terminal_path _ _ _) as [from to]. cbn [fst snd] in *. specialize (Hp E8) as (Ht & Hl & Hs & Hc).
  destruct (write_terminal_frame d a o proof usage attempt (cancel_of db a o) from to time fresh summary)
    as (_ & Ha & _). set (ans := if technical_restart d (ag_id a) then None else proof) in Ha.
  exists a, to, (if bool_decide (from = ag_status a) then [] else [from]), ans.
  repeat (split; [done|]). split; [by case_bool_decide|]. split; [done|]. split; [by rewrite Ha, A|].
  assert (ans = None ∨ ans = proof) as Hans by (subst ans; destruct (technical_restart _ _); auto).
  split; [done|]. split; [|split].
  - intros Hto. destruct (Hs Hto) as (Ho & Hr & Hcn). repeat (split; [by auto|]).
    unfold cancel_of in Hcn. rewrite Ho in Hcn. simpl in Hcn. by destruct (oldest_cancel _ _).
  - intros Hr Hn Hx. apply Hc; [done|]. unfold cancel_of.
    replace (bool_decide (oc_status o = Succeeded) || sq_explicit_finish (ag_request a)) with true.
    + by destruct (oldest_cancel _ _).
    + symmetry. apply orb_true_iff. destruct Hx; [left; by apply bool_decide_eq_true|by right].
  - intros Hx. destruct (explicit_checks_Ok _ _ _ _ E5 Hx) as [H1 H2]. split.
    + intros Hto. apply H1. by destruct (Hs Hto).
    + intros p Ep. apply H2. destruct Hans; congruence.
Qed.

Lemma commit_terminal_None db id o proof usage time fresh summary db' :
  commit_terminal db id o proof usage time fresh summary = Ok (db', None) → db' = db.
Proof.
  unfold commit_terminal. intros E. destruct (negb _); [discriminate E|].
  destruct (bool_decide _ && _); [discriminate E|].
  destruct (row _) as [a|]; [|discriminate E].
  destruct (Status.terminal (ag_status a)); [by injection E as <-|].
  destruct (explicit_checks _ _ _ _); [|discriminate E].
  destruct (provider_attempt _ _ _) as [[d1 attempt]|]; [|discriminate E].
  destruct (terminal_path _ _ _). destruct (Status.transition _ _); discriminate E.
Qed.

(** The tables a commit leaves alone. *)
Lemma commit_terminal_frame db id o proof usage time fresh summary db' r :
  commit_terminal db id o proof usage time fresh summary = Ok (db', r) →
  rest_of db' = rest_of db ∧ map ag_id (db_agents db') = map ag_id (db_agents db) ∧
  map at_id (db_attempts db') = map at_id (db_attempts db) ∧
  queues (db_deliveries db) (db_deliveries db') ∧ grows (journal db) (journal db').
Proof.
  destruct r as [t|]; [|by intros ->%commit_terminal_None].
  intros (a & d & attempt & _ & _ & _ & _ & _ & _ & R & A & D & V & T & ->)%commit_terminal_Some.
  match goal with |- context [write_terminal d ?a ?o ?p ?u ?at' ?c ?f ?to ?ti ?fr ?s] =>
    destruct (write_terminal_frame d a o p u at' c f to ti fr s) as (R' & A' & T' & D' & V') end.
  rewrite R', A', T', R, T, A, <-D. repeat split; [by apply map_update_where|done|].
  by etrans; [|exact V'].
Qed.

Lemma commit_terminal_wf `{Serde} db id o proof usage time fresh summary db' r :
  wf db → commit_terminal db id o proof usage time fresh summary = Ok (db', r) → wf db'.
Proof.
  intros Hw (R & A & T & _)%commit_terminal_frame. unfold rest_of in R.
  injection R as Rc Rl _ _ Rp Rm Re Rj _ Rs. pose proof (wf_keys _ Hw) as [].
  apply (wf_frame db); try done; [|by rewrite Rp].
  split; by rewrite ?A, ?T, ?Rc, ?Rl, ?Rp, ?Rm, ?Rj, ?Re, ?Rs.
Qed.

(** A terminal outcome is final.  No later commit, for this or any other
    execution, rewrites the row of an execution that has ended: the second
    commit of an ended execution is a no-op.  A commit never touches pools,
    seats, the log or the stored finish intents. *)
Theorem terminal_outcomes_final db id o proof usage time fresh summary db' r :
  NoDup (map ag_id (db_agents db)) →
  commit_terminal db id o proof usage time fresh summary = Ok (db', r) →
  (∀ a, a ∈ db_agents db → Status.terminal (ag_status a) = true →
     a ∈ db_agents db' ∧ (ag_id a = id → r = None ∧ db' = db)) ∧
  db_pools db' = db_pools db ∧ db_members db' = db_members db ∧ db_entries db' = db_entries db ∧
  db_lifecycles db' = db_lifecycles db.
Proof.
  intros Hn E. destruct (commit_terminal_frame _ _ _ _ _ _ _ _ _ _ E) as (R & _).
  unfold rest_of in R. injection R as _ Rl _ _ Rp Rm Re _ _ _. split; [|done].
  intros a Ha Ht. destruct r as [t|]; [|by rewrite (commit_terminal_None _ _ _ _ _ _ _ _ _ E)].
  destruct (commit_terminal_Some _ _ _ _ _ _ _ _ _ _ E)
    as (b & d & attempt & Ef & Hb & _ & _ & _ & _ & _ & A & _ & _ & _ & ->).
  apply first_where_Some in Ef as [<- Hin]. assert (ag_id a ≠ ag_id b) as Hne.
  { intros Eid. rewrite (primary_key ag_id _ a b Hn Ha Hin Eid) in Ht. congruence. }
  match goal with |- context [write_terminal d ?a ?o ?p ?u ?at' ?c ?f ?to ?ti ?fr ?s] =>
    destruct (write_terminal_frame d a o p u at' c f to ti fr s) as (_ & -> & _) end.
  rewrite A. split; [|done]. apply elem_of_update_where. exists a. split; [done|].
  by rewrite decide_False.
Qed.
End terminal.

(** ** A concrete end *)

(** Ada finishes, the receipt is observed, cleanup is proven. *)
Definition demo_cleaned (t : AttemptRow) : AttemptRow :=
  mk_attempt (at_id t) (at_agent t) (at_number t) (at_state t) (at_finished_at t) (at_owned t)
    (Some "cleanup_complete"%string) (Some (Obj [("confirmed", Bool true)]%string)) (at_process t)
    (at_account t).

Definition demo_ending : Db :=
  let db := observe_worker_finish_receipt demo_finished "ag-a" in
  set_attempts (update_where (λ t, at_id t = "t-a"%string) demo_cleaned (db_attempts db)) db.

Definition demo_answer : AnswerProof :=
  mk_proof "/w/answer" (len (fr_summary demo_finish)) (sha256 (bytes (fr_summary demo_finish))).

Definition demo_ended : Db :=
  match commit_terminal demo_ending "ag-a" (outcome_success None) (Some demo_answer) None (of_Z 200)
          "n" None with
  | Ok (db, _) => db
  | Err _ => demo_ending
  end.

Lemma demo_ended_Ok :
  commit_terminal demo_ending "ag-a" (outcome_success None) (Some demo_answer) None (of_Z 200) "n" None
  = Ok (demo_ended, Some (of_Z 200)).
Proof. vm_compute. reflexivity. Qed.

Lemma terminal_commit_sound_witness :
  ∃ a to path, a ∈ db_agents demo_ending ∧ lifecycle (ag_status a) (path ++ [to]).
Proof.
  destruct (terminal_commit_sound demo_ending "ag-a" (outcome_success None) (Some demo_answer) None
              (of_Z 200) "n" None demo_ended (of_Z 200) demo_ended_Ok)
    as (a & to & path & answer & Ha & _ & _ & Hl & _).
  exists a, to, path. exact (conj Ha Hl).
Defined.

Lemma terminal_outcomes_final_witness :
  db_entries demo_ended = db_entries demo_ending.
Proof.
  apply (terminal_outcomes_final demo_ending "ag-a" (outcome_success None) (Some demo_answer) None
           (of_Z 200) "n" None demo_ended (Some (of_Z 200))
           ltac:(apply (bool_decide_unpack _); exact I) demo_ended_Ok).
Defined.
