(* ===== verification/Steps.v ===== *)
(** * Quiet steps

    Most transactions leave the seats and the log alone: they append plain
    events and notices, move executions along the state machine, bind pools,
    and record acknowledgements.  [quiet] collects what they have in common; it
    is a preorder, it keeps the invariants, and every such transaction of the
    library is shown to be one. *)

From S2P Require Import Prelude Text Float64 Json Canonical Catalogs Lifecycle Requests.
From S2P Require Import PoolDomain Tables Demo Roster World History WorkerStore.
From S2P Require Import Sessions ServiceRestart PoolEnrollment PoolLog PoolWrites PoolSettle.
From S2P Require Import Settlement PoolReplace PoolAdmit Replacement Replays Admissions.
From S2P Require Import WorkerFinish Terminal.

(** An enrollment keeps its seat, and joins at most once. *)
Definition enrollment_kept (j j' : EnrollmentRow) : Prop :=
  er_agent j' = er_agent j ∧ (er_state j = EJoined → er_state j' = EJoined).
#[global] Instance enrollment_kept_preorder : PreOrder enrollment_kept.
Proof. split; [done|]. intros x y z [] []. split; [congruence|auto]. Qed.

(** Everything of a pool but its binding. *)
Definition pool_core (p : PoolRow) :=
  (pl_id p, pl_revision p, (pl_state p, pl_delivery p),
   (pl_namespace p, pl_request_id p, pl_acceptance p)).

Record quiet (db db' : Db) : Prop := {
  qt_entries : db_entries db' = db_entries db;
  qt_counter : db_entry_seq db' = db_entry_seq db;
  qt_members : db_members db' = db_members db;
  qt_events : grows (journal db) (journal db');
  qt_deliveries : queue_moves (db_deliveries db) (db_deliveries db');
  qt_ids : map ag_id (db_agents db') = map ag_id (db_agents db);
  qt_agents : kept agent_kept (db_agents db) (db_agents db');
  qt_cores : map pool_core (db_pools db') = map pool_core (db_pools db);
  qt_pools : kept pool_kept (db_pools db) (db_pools db');
  qt_acks : ∀ pool, acknowledged db pool ≤ acknowledged db' pool;
  qt_keys : keys_ok db → keys_ok db';
}.

#[global] Instance quiet_preorder : PreOrder quiet.
Proof.
  split; [intros db; by split|]. intros x y z [] []. split; try congruence; try (by etrans); [|auto].
  intros pool. specialize (qt_acks0 pool). specialize (qt_acks1 pool). lia.
Qed.

Lemma map_through {A B C} (f : A → B) (g : B → C) l l' :
  map f l' = map f l → map (λ x, g (f x)) l' = map (λ x, g (f x)) l.
Proof. intros E. rewrite <-!(map_map f g). by rewrite E. Qed.

Section quiet_facts.
Context `{Serde}.

Lemma quiet_wf db db' : quiet db db' → wf db → wf db'.
Proof.
  intros [] Hw. apply (wf_frame db); try done; [by apply qt_keys0, wf_keys|].
  exact (map_through pool_core (λ c, fst (fst c)) _ _ qt_cores0).
Qed.
End quiet_facts.

Lemma quiet_recorded db db' : quiet db db' → recorded db → recorded db'.
Proof.
  intros [Ee _ Em (evs & Ev & Fv & _) _ _ _ _ _ _ _] Hr. apply (recorded_frame db _ [] evs); try done.
  - by rewrite app_nil_r.
  - eapply Forall_impl; [exact Fv|]. by intros x [? _].
Qed.

Lemma quiet_later db db' : quiet db db' → later db db'.
Proof.
  intros []. apply later_same; try done; [by apply (grows_prefix (journal db) (journal db'))|].
  by apply queue_moves_grow.
Qed.

(** ** One statement at a time *)

Lemma quiet_event db agent attempt at_ data :
  replaced_sha256 data = None → completion_record data = None →
  quiet db (fst (insert_event db agent attempt at_ data)).
Proof. intros. split; try done; [by apply grows_one|by intros []]. Qed.

Lemma quiet_deliveries db ds :
  queue_moves (db_deliveries db) ds → quiet db (set_deliveries ds db).
Proof. intros. split; try done. by intros []. Qed.

Lemma quiet_commands db c l : quiet db (set_command_seq c (set_commands l db)).
Proof. split; try done. by intros []. Qed.

Lemma quiet_sessions db ss : quiet db (set_sessions ss db).
Proof. split; try done. by intros []. Qed.

Lemma quiet_notifications db ns : quiet db (set_notifications ns db).
Proof. split; try done. by intros []. Qed.

Lemma quiet_lifecycles db ls :
  map wl_attempt ls = map wl_attempt (db_lifecycles db) → quiet db (set_lifecycles ls db).
Proof. intros E. split; try done. intros []. split; try done. simpl. by rewrite E. Qed.

Lemma quiet_capabilities db cs :
  (NoDup (map wc_attempt (db_capabilities db)) → NoDup (map wc_attempt cs)) →
  quiet db (set_capabilities cs db).
Proof. intros E. split; try done. intros []. split; try done. simpl. auto. Qed.

Lemma acknowledged_kept db db' pool :
  db_members db' = db_members db →
  Forall2 enrollment_kept (db_enrollments db) (db_enrollments db') →
  acknowledged db pool ≤ acknowledged db' pool.
Proof.
  intros Em F. unfold acknowledged. rewrite Em. induction F as [|j j' l l' [Ea Es] _ IH]; [done|].
  rewrite !count_where_cons, Ea. repeat case_decide; try lia. naive_solver.
Qed.

Lemma quiet_enrollments db js :
  Forall2 enrollment_kept (db_enrollments db) js → quiet db (set_enrollments js db).
Proof.
  intros F. assert (map er_agent js = map er_agent (db_enrollments db)) as Ek.
  { induction F as [|j j' l l' [Ea _] _ IH]; [done|]. simpl. by rewrite Ea, IH. }
  split; try done.
  - intros pool. by apply acknowledged_kept.
  - intros []. split; try done. simpl. by rewrite Ek.
Qed.

Lemma quiet_agents db l P `{∀ a, Decision (P a)} f :
  l = db_agents db → (∀ a, a ∈ l → P a → agent_kept a (f a)) → (∀ a, ag_id (f a) = ag_id a) →
  quiet db (set_agents (update_where P f l) db).
Proof.
  intros -> Hf Hid. assert (map ag_id (update_where P f (db_agents db)) = map ag_id (db_agents db)) as Em
    by (by apply map_update_where).
  split; try done; [by apply kept_update; [apply _|]|]. intros []. split; try done. simpl. by rewrite Em.
Qed.

Lemma quiet_pools db l P `{∀ p, Decision (P p)} f :
  l = db_pools db → (∀ p, p ∈ l → P p → pool_kept p (f p)) → (∀ p, pool_core (f p) = pool_core p) →
  quiet db (set_pools (update_where P f l) db).
Proof.
  intros -> Hf Hc. assert (map pool_core (update_where P f (db_pools db)) = map pool_core (db_pools db)) as Em
    by (by apply map_update_where).
  split; try done; [by apply kept_update; [apply _|]|]. intros []. split; try done; simpl.
  - pose proof (map_through pool_core (λ c, fst (fst (fst c))) _ _ Em) as E. cbn in E.
    change (NoDup (map (λ p, pl_id p) (update_where P f (db_pools db)))). by rewrite E.
  - pose proof (map_through pool_core (λ c, fst (snd c)) _ _ Em) as E. cbn in E. by rewrite E.
Qed.

Lemma quiet_delivery db id agent session event state next :
  state = WaitingBinding ∨ state = DPending →
  quiet db (insert_delivery db (mk_delivery id agent session event state next)).
Proof. intros Hs. by apply quiet_deliveries, queues_moves, queues_one. Qed.

Lemma quiet_enrollment db l P `{∀ j, Decision (P j)} f :
  l = db_enrollments db → (∀ j, j ∈ l → P j → enrollment_kept j (f j)) →
  quiet db (set_enrollments (update_where P f l) db).
Proof. intros -> Hf. apply quiet_enrollments. by apply Forall2_update; [apply _|]. Qed.

Lemma quiet_fold {A} (f : Db → A → result Db) (l : list A) db db' :
  (∀ d x d', f d x = Ok d' → quiet d d') → try_fold f db l = Ok db' → quiet db db'.
Proof.
  intros Hf. apply (try_fold_inv (λ d, quiet db d)); [|done].
  intros d x d' _ Q E. etrans; [exact Q|by eapply Hf].
Qed.

Create HintDb quiet.
#[export] Hint Resolve quiet_event quiet_commands quiet_sessions quiet_notifications quiet_delivery : quiet.

(** ** Enrollments *)

Lemma reconcile_change_quiet pool at_ fresh db change db' :
  reconcile_change pool at_ fresh db change = Ok db' → quiet db db'.
Proof.
  unfold reconcile_change. destruct change as [root reason].
  destruct (row (first_where _ (db_enrollments db))) as [j|]; [|done].
  match goal with |- context [set_enrollments ?l db] => set (d := set_enrollments l db) end.
  assert (quiet db d) as Q.
  { apply quiet_enrollment; [done|]. intros x _ (_ & Hs & _). by split. }
  generalize dependent d. intros d Q.
  destruct (covered d _ && _).
  { intros [= <-]. etrans; [exact Q|]. apply quiet_enrollment; [done|]. by intros. }
  destruct (negb _ && _); [|by intros [= <-]].
  rewrite (surjective_pairing (insert_event _ _ _ _ _)).
  match goal with |- context [fst ?x] => set (d1 := fst x) end.
  destruct (row _) as [p|]; [|done]. intros [= <-]. etrans; [exact Q|].
  transitivity d1; [by apply quiet_event|].
  match goal with |- quiet _ (set_enrollments _ ?x) => transitivity x; [apply quiet_delivery; destruct (is_some _); auto|] end.
  apply quiet_enrollment; [done|]. by intros.
Qed.

Lemma reconcile_quiet db pool at_ fresh db' :
  reconcile_pool_enrollments db pool at_ fresh = Ok db' → quiet db db'.
Proof.
  unfold reconcile_pool_enrollments. destruct (enrollment_changes db pool) as [[|c cs]|] eqn:Ec; [| |done].
  - by intros [= <-].
  - apply quiet_fold. intros. by eapply reconcile_change_quiet.
Qed.

Lemma acknowledge_quiet db root seq db' : acknowledge db root seq = Ok db' → quiet db db'.
Proof.
  unfold acknowledge. destruct (negb _); [done|]. intros [= <-].
  match goal with |- quiet _ (set_deliveries _ ?x) => transitivity x end.
  - apply quiet_enrollment; [done|]. intros j _ [_ Hs]. by split.
  - apply quiet_deliveries, rescheduled_moves, withdrawn_rescheduled.
Qed.

Lemma fanout_quiet db pool seat seq db' : fanout_entry db pool seat seq = Ok db' → quiet db db'.
Proof. intros (l & c & ->)%fanout_entry_frame. apply quiet_commands. Qed.

(** ** Sessions and notices *)

(** Only the sessions differ. *)
Definition resessioned (db db' : Db) : Prop := ∃ ss, db' = set_sessions ss db.

#[global] Instance resessioned_preorder : PreOrder resessioned.
Proof.
  split; [intros db; exists (db_sessions db); by destruct db|].
  intros x y z [s1 ->] [s2 ->]. by exists s2.
Qed.

Lemma session_for_reference_only db r fresh db' s :
  session_for_reference db r fresh = Ok (db', s) → resessioned db db'.
Proof.
  unfold session_for_reference. destruct (orchestrator_validate r); [|done].
  destruct (canonical_transport_name _); [|done].
  destruct (session_ids_for_reference db r) as [[|x l]|]; [| |done]; intros [= <- _]; by eexists.
Qed.

Lemma touch_only db s r db' : touch_session_reference db s r = Ok db' → resessioned db db'.
Proof.
  unfold touch_session_reference. destruct (session_matches_reference _ _ _) as [b|]; [|done].
  destruct (negb b); [done|]. intros [= <-]. by eexists.
Qed.

Lemma notice_quiet db id s at_ fresh : quiet db (ensure_bound_terminal_notice db id s at_ fresh).
Proof.
  unfold ensure_bound_terminal_notice, insert_terminal_notice.
  destruct (terminal_event db id); [|done]. destruct (suppress_member_success _ _); [done|].
  destruct (first_where _ _); [done|]. apply quiet_delivery. by right.
Qed.

(** ** Binding *)

Lemma bind_tip_quiet session at_ fresh db tip db' :
  bind_tip session at_ fresh db tip = Ok db' → quiet db db'.
Proof.
  unfold bind_tip. destruct (agent_session db tip) as [[s|]|]; [| |done]; intros [= <-]; [apply notice_quiet|].
  match goal with |- quiet _ (ensure_bound_terminal_notice ?x _ _ _ _) => transitivity x; [|apply notice_quiet] end.
  apply quiet_agents; [done| |done]. intros a _ _. by split.
Qed.

Lemma bind_row_quiet db pool p session :
  keys_ok db → first_where (λ p, pl_id p = pool) (db_pools db) = Some p →
  quiet db (match pl_session p with
            | None => set_pools (update_where (λ p, pl_id p = pool) (pool_with_session session) (db_pools db)) db
            | Some _ => db
            end).
Proof.
  intros Hk [Hid Hin]%first_where_Some. destruct (pl_session p) eqn:Es; [done|].
  apply quiet_pools; [done| |done]. intros q Hq Hqid. split; try done. intros s.
  rewrite (primary_key pl_id _ q p (keys_pools _ Hk)) by congruence. congruence.
Qed.

Lemma bind_pool_quiet db pool r at_ fs fresh db' s :
  keys_ok db → bind_pool db pool r at_ fs fresh = Ok (db', s) → quiet db db'.
Proof.
  intros Hk. unfold bind_pool. destruct (orchestrator_validate r); [|done].
  destruct (first_where (λ p, pl_id p = pool) (db_pools db)) as [p|] eqn:Ep; [|done]. cbn [ok_or].
  destruct (match pl_session p with Some _ => _ | None => _ end) as [b|]; [|done]. destruct (negb b); [done|].
  destruct (seat_tips db pool) as [tips|]; [|done].
  destruct (try_fold (bound_sessions_step db r) [] tips) as [bound|]; [|done].
  destruct (match pl_session p with Some _ => _ | None => _ end) as [[d1 session]|] eqn:E1; [|done].
  destruct (if is_some (pl_session p) then _ else _) as [d2|] eqn:E2; [|done].
  destruct (try_fold _ d2 bound) as [d3|] eqn:E3; [|done].
  assert (resessioned db d3) as [ss ->].
  { transitivity d1; [destruct (pl_session p); [by injection E1 as <- _|by eapply session_for_reference_only]|].
    transitivity d2; [destruct (is_some _); [by eapply touch_only|by injection E2 as <-]|].
    apply (try_fold_inv (λ d, resessioned d2 d)) in E3; [done| |done].
    intros d x d' _ Hd E. case_bool_decide; [by injection E as <-|]. etrans; [exact Hd|by eapply touch_only]. }
  pose proof (quiet_sessions db ss) as Q0.
  pose proof (bind_row_quiet (set_sessions ss db) pool p session (qt_keys _ _ Q0 Hk) Ep) as Q1.
  match type of Q1 with quiet _ ?x => generalize dependent x end. intros d Q1.
  destruct (try_fold (bind_tip _ _ _) d tips) as [d4|] eqn:E4; [|done]. intros [= <- _].
  etrans; [exact Q0|]. etrans; [exact Q1|]. transitivity d4.
  { eapply quiet_fold; [|exact E4]. intros. by eapply bind_tip_quiet. }
  apply quiet_deliveries, rescheduled_moves, Forall2_update; [apply _|]. intros x _ [Hx _]. split; try done.
  right. split; [by left|by left].
Qed.

(** ** Workers *)

Section workers.
Context `{Sha256, JsonSchema}.

Lemma issue_quiet db run attempt token at_ db' u :
  issue_worker_capability db run attempt token at_ = Ok (db', u) → quiet db db'.
Proof.
  unfold issue_worker_capability. destruct (_ || _); [done|]. destruct (negb _); [done|].
  destruct (first_where _ (db_capabilities db)) as [c|] eqn:Hn.
  { destruct (negb _); [done|]. by intros [= <- _]. }
  intros [= <- _]. apply quiet_capabilities.
  intros ND. rewrite map_app. apply NoDup_app. split; [done|]. split; [|apply NoDup_singleton].
  intros x (c & -> & Hc)%list_elem_of_fmap Hx%list_elem_of_singleton. simpl in Hx.
  by apply (proj1 (first_where_None _ _) Hn c).
Qed.

Lemma register_quiet db run attempt token version catalog at_ db' u :
  register_worker_catalog db run attempt token version catalog at_ = Ok (db', u) → quiet db db'.
Proof.
  unfold register_worker_catalog. destruct (negb (known_pool_catalog _ _)); [done|].
  destruct (authenticate_attempt _ _ _ _ _) as [auth|]; [|done]. destruct (negb (is_some auth)); [done|].
  destruct (row _) as [c|]; [|done]. destruct (_ || _).
  { destruct (_ || _); [done|]. by intros [= <- _]. }
  intros [= <- _]. apply quiet_capabilities. by rewrite map_update_where.
Qed.

Lemma finish_quiet db run attempt token input at_ guard db' r :
  accept_worker_finish db run attempt token input at_ guard = Ok (db', r) → quiet db db'.
Proof.
  intros (restart & l & _ & _ & E)%accept_gate. destruct (wl_finish l); [by destruct E as (_ & -> & _)|].
  destruct E as (_ & _ & ->). etrans; [|by apply quiet_event]. apply quiet_lifecycles.
  by apply map_update_where.
Qed.

Lemma observe_quiet db run : quiet db (observe_worker_finish_receipt db run).
Proof. apply quiet_lifecycles. by apply map_update_where. Qed.

Lemma turn_quiet db run idle at_ db' b : worker_turn db run idle at_ = Ok (db', b) → quiet db db'.
Proof.
  unfold worker_turn. destruct (bad_time at_); [done|]. case_bool_decide; [|by intros [= <- _]].
  intros [= <- _].
  match goal with |- quiet _ (foldl _ ?x ?l) => transitivity x; [|generalize l; generalize x] end.
  - apply quiet_lifecycles. by apply map_update_where.
  - intros d l. revert d. induction l as [|t l IH]; intros d; [done|]. simpl.
    etrans; [|apply IH]. by apply quiet_event.
Qed.

(** ** The end of an execution *)

Lemma terminal_path_moves status o cancel :
  let path := terminal_path status o cancel in
  Status.terminal status = false → Status.terminal (oc_status o) = true →
  Status.transition (fst path) (snd path) = Ok () → moves status (snd path).
Proof.
  intros path Hs Ho Hp. pose proof (terminal_path_lifecycle status o cancel Hs Ho) as L. fold path in L.
  destruct path as [from to]. destruct (L Hp) as (_ & L' & _).
  destruct (bool_decide _); [exact (lifecycle_moves _ [] _ L')|exact (lifecycle_moves _ [from] _ L')].
Qed.

Lemma terminal_quiet db id o proof usage time fresh summary db' r :
  keys_ok db → commit_terminal db id o proof usage time fresh summary = Ok (db', r) → quiet db db'.
Proof.
  intros Hk E. destruct r as [t|]; [|by rewrite (commit_terminal_None _ _ _ _ _ _ _ _ _ E)].
  destruct (commit_terminal_frame _ _ _ _ _ _ _ _ _ _ E) as (R & A & T & D & V). unfold rest_of in R.
  injection R as Rc Rl _ _ Rp Rm Re Rj _ Rs. split; try done.
  - by apply queues_moves.
  - destruct (commit_terminal_Some _ _ _ _ _ _ _ _ _ _ E)
      as (a & d & attempt & Ef & Ha & Ho & _ & _ & Hp & _ & Ad & _ & _ & _ & ->).
    apply first_where_Some in Ef as [_ Hin].
    match goal with |- context [write_terminal d ?a ?o ?p ?u ?at' ?c ?f ?to ?ti ?fr ?s] =>
      destruct (write_terminal_frame d a o p u at' c f to ti fr s) as (_ & -> & _) end.
    rewrite Ad. apply kept_update; [apply _|]. intros x Hx Eid.
    rewrite (primary_key ag_id _ x a (keys_agents _ Hk) Hx Hin Eid). split; try done.
    by apply terminal_path_moves.
  - by rewrite Rp.
  - by rewrite Rp.
  - intros pool. unfold acknowledged. by rewrite Rm, Rj.
  - intros []. split; by rewrite ?A, ?T, ?Rc, ?Rl, ?Rp, ?Rm, ?Rj, ?Re, ?Rs.
Qed.
End workers.
