(* ===== verification/Posts.v ===== *)
(** * Posting steps

    A member write, an operator post and a worker report each append one legal
    entry to the log of an open pool; everything else they do is quiet.  Such a
    step keeps the invariants, moves forward in history and stays within the
    budgets of the log. *)

From S2P Require Import Prelude Text Float64 Json Canonical Catalogs Lifecycle Requests.
From S2P Require Import PoolDomain Tables Demo Roster World History WorkerStore.
From S2P Require Import Sessions ServiceRestart PoolEnrollment PoolLog PoolWrites PoolSettle.
From S2P Require Import Settlement PoolReplace PoolAdmit Replacement Replays Admissions.
From S2P Require Import WorkerFinish Terminal Steps.

Section posts.
Context `{Sha256, Serde}.

(** One entry between two quiet steps. *)
Record post (db d : Db) (e : EntryRow) (db' : Db) : Prop := {
  po_before : quiet db d;
  po_insertable : insertable d e;
  po_scope : en_scope e ≠ "replace"%string;
  po_kind : en_kind e ≠ KRoster;
  po_open : ∃ p, p ∈ db_pools d ∧ pl_id p = en_pool e ∧ pl_state p = Open ∧ en_revision e = pl_revision p;
  po_author : ∀ a, en_author_agent e = Some a →
    ∃ m, m ∈ db_members d ∧ mb_pool m = en_pool e ∧ mb_agent m = a ∧ mb_replaced_by m = None;
  po_vote : ∀ q, en_proposal_seq e = Some q →
    ∃ x, current_proposal d (en_pool e) = Some x ∧ en_seq x = q;
  po_after : quiet (with_entry d e) db';
  po_affordable : ∀ pool, affordable db db' pool (entry_with_seq (db_entry_seq db + 1) e);
}.

Lemma post_wf db d e db' : post db d e db' → wf db → wf db'.
Proof.
  intros [] Hw. eapply quiet_wf; [done|]. apply wf_with_entry; [|done]. by eapply quiet_wf.
Qed.

Lemma post_recorded db d e db' : post db d e db' → recorded db → recorded db'.
Proof.
  intros [Hb _ Hs _ _ _ _ Ha _] Hr. eapply quiet_recorded; [exact Ha|].
  apply (quiet_recorded _ _ Hb) in Hr. apply (recorded_frame d _ [entry_with_seq (db_entry_seq d + 1) e] []);
    try done; [by repeat constructor|simpl; by rewrite app_nil_r].
Qed.

Lemma entry_later db e p :
  keys_ok db → p ∈ db_pools db → pl_id p = en_pool e → pl_state p = Open → later db (with_entry db e).
Proof.
  intros Hk Hp Hid Ho. split; try done; [by eexists|exact (seats_grow_refl db)|].
  intros pool (q & Hq & Hqid & Hqs). eapply log_of_other; [done|]. simpl. intros Hpool.
  rewrite (primary_key pl_id _ q p (keys_pools _ Hk)) in Hqs by congruence. congruence.
Qed.

Lemma post_later db d e db' : keys_ok db → post db d e db' → later db db'.
Proof.
  intros Hk [Hb _ _ _ (p & Hp & Hid & Ho & _) _ _ Ha _]. etrans; [by apply quiet_later|].
  etrans; [|by apply quiet_later]. eapply entry_later; try done. by apply (qt_keys _ _ Hb).
Qed.

Lemma post_entries db d e db' :
  post db d e db' → db_entries db' = db_entries db ++ [entry_with_seq (db_entry_seq db + 1) e].
Proof.
  intros [Hb _ _ _ _ _ _ Ha _]. rewrite (qt_entries _ _ Ha). simpl.
  by rewrite (qt_entries _ _ Hb), (qt_counter _ _ Hb).
Qed.

Lemma post_budgets db d e db' pool :
  post db d e db' → within_budgets db pool → within_budgets db' pool.
Proof. intros Hp. eapply within_append; [by eapply post_entries|by apply (po_affordable _ _ _ _ Hp)]. Qed.

(** An entry that is no message, proposal or vote is always affordable. *)
Lemma affordable_other db db' pool e :
  (∀ x, acknowledged db x ≤ acknowledged db' x) →
  en_kind e = KReport ∨ en_kind e = KRoster → affordable db db' pool e.
Proof.
  intros Ha Hk. split; try done; unfold is_proposal, is_vote_on, is_chat; destruct Hk as [Hk|Hk]; rewrite Hk;
    naive_solver.
Qed.

(** ** Member writes *)

Lemma write_post db run_id attempt_id token w now db' r :
  wf db → pool_write_tx db run_id attempt_id token w now = Ok (Accepted db' r) →
  db' = db ∨ ∃ e, post db db e db'.
Proof.
  intros Hw (m & Ha & _ & [(_ & -> & _)|(_ & _ & ack & Hf)])%pool_write_tx_Accepted; [by left|right].
  apply authenticated_member_acting in Ha. exists (write_entry m run_id attempt_id w).
  pose proof (fresh_write_affordable db run_id attempt_id w now m ack db') as Haff.
  pose proof (act_agent _ _ _ _ Ha) as (a & Hag & Haid). pose proof (wf_agents _ Hw a Hag) as (_ & _ & Hpre).
  destruct (act_seat _ _ _ _ Ha) as (x & p & Hx & Hp & Hxc & Hxp & Em).
  split; try done.
  - destruct Hf. by eapply write_insertable.
  - intros Es. assert (en_scope (write_entry m run_id attempt_id w) = run_id) as E2 by (by destruct w).
    rewrite <-E2, Es in Haid. rewrite Haid in Hpre. done.
  - destruct w as [i|i|i]; try done. simpl. by destruct (vo_decision i).
  - exists p. split; [done|]. destruct Hf as [Hs _ _ _ _ _]. subst m. split; [by destruct w|]. by destruct w.
  - intros s Es. exists x. subst m. destruct w; simpl in *; by simplify_eq.
  - intros q Eq. destruct Hf as [_ _ _ _ Hadm _]. destruct w as [i|i|i]; [done|done|].
    destruct Hadm as (y & Hy & Hseq & _). exists y. split; [done|]. simpl in Eq. injection Eq as <-.
    apply current_proposal_Some in Hy as [Hin _]. destruct (keys_entry_counter _ (wf_keys _ Hw) y Hin). lia.
  - destruct Hf as [_ _ _ _ _ (js & ds & l & c & Hjs & ->)].
    etrans; [|apply quiet_commands]. etrans; [|by apply quiet_event].
    transitivity (set_enrollments js (with_entry db (write_entry m run_id attempt_id w))).
    + apply quiet_enrollments. destruct ack; destruct Hjs as [-> _]; [|done].
      apply Forall2_update; [apply _|]. intros j _ [_ ?]. by split.
    + apply quiet_deliveries, rescheduled_moves. destruct ack; destruct Hjs as [_ Hd]; [done|by subst ds].
  - intros pool. by apply Haff.
Qed.

(** ** Operator posts *)

Lemma operator_insertable db p key message :
  wf db → p ∈ db_pools db → prior_entry db (pl_id p) "op" key = None →
  pool_post_validate (mk_post (pl_id p) key message) = Ok () →
  insertable db (operator_entry p message key).
Proof.
  intros Hw Hp Hn Hv. unfold pool_post_validate in Hv. run Hv. simpl in *.
  split; simpl; try done; eauto.
  - by apply (wf_pools _ Hw).
  - intros q Hq Eq. by rewrite (primary_key pl_id _ q p (keys_pools _ (wf_keys _ Hw)) Hq Hp Eq).
  - by constructor.
  - by eapply bounded_text_label.
  - split; [by apply ascii_utf8|done].
  - by destruct a.
  - exact (proj1 (first_where_None _ _) Hn).
Qed.

Lemma operator_post db pool key message db' r :
  wf db → pool_post_validate (mk_post pool key message) = Ok () →
  pool_operator_post db pool key message = Ok (Accepted db' r) →
  db' = db ∨ ∃ e, post db db e db'.
Proof.
  intros Hw Hv. unfold pool_operator_post.
  destruct (first_where _ _) as [p|] eqn:Ep; [|done]. apply first_where_Some in Ep as [<- Hp].
  destruct (prior_entry db (pl_id p) "op" key) as [e|] eqn:Eprior.
  { destruct (bool_decide _); [|done]. intros [= <- _]. by left. }
  destruct (bool_decide (pl_state p = Completed)) eqn:Ec; [done|]. to_prop.
  destruct (chat_exhausted db (pl_id p) message) eqn:Ex; [done|]. unfold chat_exhausted in Ex. to_prop.
  pose proof (operator_insertable db p key message Hw Hp Eprior Hv) as Hi.
  rewrite (insert_insertable _ _ Hi).
  destruct (fanout_entry _ _ _ _) as [d|] eqn:Ef; [|done]. intros [= <- _]. right.
  exists (operator_entry p message key). apply fanout_quiet in Ef. split; try done.
  - exists p. split; [done|]. split; [done|]. split; [by destruct (pl_state p)|done].
  - intros pool. split.
    + by intros [_ ?].
    + by intros seat q (_ & ? & _).
    + apply (qt_acks _ _ Ef).
    + intros [<- _]. left. simpl. lia.
Qed.

(** ** Worker reports *)

Lemma open_seat_Some db root m p :
  open_seat db root = Some (m, p) →
  m ∈ db_members db ∧ mb_agent m = root ∧ p ∈ db_pools db ∧ pl_id p = mb_pool m ∧ pl_state p = Open ∧
  mb_replaced_by m = None.
Proof.
  unfold open_seat. destruct (first_where _ (db_members db)) as [m'|] eqn:Em; [|done].
  destruct (first_where _ (db_pools db)) as [p'|] eqn:Ep; [|done]. intros [= -> ->].
  apply first_where_Some in Em as [[? ?] ?]. apply first_where_Some in Ep as [[? ?] ?]. done.
Qed.

Lemma report_insertable db m p run_id attempt_id input id d seq :
  wf db → m ∈ db_members db → p ∈ db_pools db → pl_id p = mb_pool m →
  (∃ a, a ∈ db_agents db ∧ ag_id a = run_id) → (∃ t, t ∈ db_attempts db ∧ at_id t = attempt_id) →
  notify_validate input = Ok () →
  insert_entry db (report_entry m p (mb_agent m) run_id attempt_id input id) = Ok (d, seq) →
  insertable db (report_entry m p (mb_agent m) run_id attempt_id input id) ∧
  d = with_entry db (report_entry m p (mb_agent m) run_id attempt_id input id).
Proof.
  intros Hw Hm Hp Hid (a & Ha & Haid) Ht Hv (-> & _ & Hc & ->)%insert_entry_Ok. split; [|done].
  pose proof (wf_members _ Hw m Hm) as [_ (a' & Ha' & Ea') Hname Hrole _].
  pose proof (wf_agents _ Hw a Ha) as (Hkey & Hlen & _). rewrite Haid in *.
  pose proof (wf_agents _ Hw a' Ha') as (Hkey' & _). rewrite Ea' in Hkey'.
  pose proof (wf_pools _ Hw p Hp) as Hrev.
  assert (Z.max (pl_revision p) 1 = pl_revision p) as Emax by lia.
  unfold entry_table_checks in Hc. simpl in Hc. to_prop.
  rename select (exists_where (λ x, dl_id x = _) _ = _) into Hd.
  rename select (exists_where (λ x, en_delivery x = _) _ = _) into Hnd.
  rename select (exists_where (λ x, en_pool x = _ ∧ _) _ = _) into Hfresh.
  rewrite exists_where_true in Hd. rewrite exists_where_false in Hnd, Hfresh.
  unfold notify_validate in Hv. run Hv. repeat match goal with x : () |- _ => destruct x end.
  split; simpl; rewrite ?Emax; try done; eauto.
  - lia.
  - intros q Hq Eq. by rewrite (primary_key pl_id _ q p (keys_pools _ (wf_keys _ Hw)) Hq Hp Eq).
  - split; [by apply label_is_ok|]. split; [by apply label_is_ok|by apply key_external].
  - intros ? [= <-]. eauto.
  - eexists _, attempt_id. split_and!; eauto.
  - constructor.
  - rename select (bounded_text _ _ _ = _) into Hb. apply bounded_text_Ok in Hb as (? & ? & ?).
    apply bounded_text_Ok. split_and!; try done. unfold MAX_BODY_BYTES. lia.
  - intros ? [= <-]. destruct Hd as (x & ? & ?). eauto.
  - split; [by apply utf8_app; [apply ascii_utf8|apply key_utf8]|].
    rewrite len_app. change (len "notify:") with 7. pose proof (len_nonneg (ag_id a)). lia.
Qed.

Lemma notify_post db run_id attempt_id token input at_ fresh db' r :
  wf db → notify_orchestrator db run_id attempt_id token input at_ fresh = Ok (db', r) →
  quiet db db' ∨ ∃ d e, post db d e db'.
Proof.
  intros Hw. unfold notify_orchestrator. destruct (notify_validate input) as [[]|] eqn:Hv; [|done].
  destruct (_ || _); [done|].
  destruct (authenticate_attempt db run_id attempt_id token at_) as [auth|] eqn:Eauth; [|done].
  destruct (ok_or _ _) as [[auth' session]|] eqn:Eb; [|done].
  assert (auth = Some auth') as ->.
  { destruct auth as [x|]; [|done]. destruct (au_running x); [|done].
    destruct (report_session db x); [|done]. by injection Eb as -> _. }
  destruct (prior_report _ _ _) as [[n d]|]; [destruct (_ || _); [done|]; intros [= <- _]; by left|].
  destruct (_ <=? _); [done|]. destruct (match latest_report db run_id with Some _ => _ | None => _ end); [done|].
  rewrite (surjective_pairing (insert_event _ _ _ _ _)).
  match goal with |- context [set_notifications ?l ?x] => set (d := set_notifications l x) end.
  assert (quiet db d) as Q.
  { etrans; [|apply quiet_notifications]. etrans; [|by apply quiet_delivery; right]. by apply quiet_event. }
  assert (db_attempts d = db_attempts db) as Et by done.
  generalize dependent d. intros d Q Et.
  destruct (open_seat d (au_root auth')) as [[m p]|] eqn:Eo; [|intros [= <- _]; by left].
  apply open_seat_Some in Eo as (Hm & <- & Hp & Hid & Ho & Hmc).
  destruct (insert_entry d _) as [[d1 seq]|] eqn:Ei; [|done].
  destruct (fanout_entry d1 _ _ _) as [d2|] eqn:Ef; [|done]. intros [= <- _]. right.
  pose proof (quiet_wf _ _ Q Hw) as Hwd.
  apply authenticate_attempt_Some in Eauth
    as (_ & t & c & a & Ht & [Htid _] & _ & _ & _ & Ha & Haid & _).
  apply report_insertable in Ei as [Hi ->]; try done; [| |rewrite Et; eauto].
  - apply fanout_quiet in Ef. eexists d, _. split; try done.
    { exists p. split_and!; try done. simpl. pose proof (wf_pools _ Hwd p Hp). lia. }
    { intros s [= <-]. by exists m. }
    intros pool. apply affordable_other; [|by left]. intros x. etrans; [apply (qt_acks _ _ Q)|apply (qt_acks _ _ Ef)].
  - assert (ag_id a ∈ map ag_id (db_agents d)) as (b & Eb' & Hb)%list_elem_of_fmap.
    { rewrite (qt_ids _ _ Q). by apply list_elem_of_fmap_2. }
    exists b. split; [done|congruence].
Qed.
End posts.
