(* ===== verification/PoolSystem.v ===== *)
(** * The pool system

    All transactions of the library as one transition system over the durable
    state, with everything else the broker does between two retention passes as
    quiet steps.  The invariants hold in every reachable state and history only
    moves forward. *)

From stdpp Require Import relations.
From S2P Require Import Prelude Text Float64 Json Canonical Catalogs Lifecycle Requests.
From S2P Require Import PoolDomain Tables Demo Roster World History WorkerStore.
From S2P Require Import Sessions ServiceRestart PoolEnrollment PoolLog PoolWrites PoolSettle.
From S2P Require Import Settlement PoolReplace PoolAdmit Replacement Replays Admissions.
From S2P Require Import WorkerFinish Terminal Steps Posts.

(** ** Completion events *)

(** The event completes the pool. *)
Definition completes (pool : string) (x : EventRow) : Prop :=
  option_map cr_pool (completion_record (ev_data x)) = Some pool.
#[global] Instance completes_dec pool x : Decision (completes pool x).
Proof. unfold completes. apply _. Defined.

(** A pool has exactly one completion event once it has completed and none
    before; completion and the delivery of the common notice go together. *)
Record settled (db : Db) : Prop := {
  sl_once : ∀ p, p ∈ db_pools db →
    count_where (completes (pl_id p)) (db_events db) =
      if bool_decide (pl_state p = Completed) then 1 else 0;
  sl_home : ∀ x pool, x ∈ db_events db → completes pool x → ∃ p, p ∈ db_pools db ∧ pl_id p = pool;
  sl_delivery : ∀ p, p ∈ db_pools db → pl_state p = Completed ↔ pl_delivery p ≠ None;
  sl_numbers : numbered (journal db);
}.

(** Other events and unchanged states of the pools. *)
Lemma settled_frame db db' evs :
  settled db → db_events db' = db_events db ++ evs →
  Forall (λ x, completion_record (ev_data x) = None) evs → (numbered (journal db) → numbered (journal db')) →
  map (λ p, (pl_id p, pl_state p, pl_delivery p)) (db_pools db') =
    map (λ p, (pl_id p, pl_state p, pl_delivery p)) (db_pools db) →
  settled db'.
Proof.
  intros [So Sh Sd Sn] Ev Fv Nv Ep. rewrite Forall_forall in Fv.
  assert (∀ p, p ∈ db_pools db' → ∃ q, q ∈ db_pools db ∧ pl_id q = pl_id p ∧ pl_state q = pl_state p ∧
            pl_delivery q = pl_delivery p) as Hback.
  { intros p Hp. destruct (elem_of_column _ _ _ p (eq_sym Ep) Hp) as (q & ? & [= ? ? ?]). eauto. }
  split; [| | |auto].
  - intros p Hp. destruct (Hback p Hp) as (q & Hq & <- & <- & _).
    rewrite Ev, count_where_app. unfold count_where at 2. rewrite filter_none.
    + rewrite Z.add_0_r. by apply So.
    + intros x Hx. unfold completes. by rewrite (Fv x Hx).
  - rewrite Ev. intros x pool [Hx|Hx]%elem_of_app Hc.
    + destruct (Sh x pool Hx Hc) as (q & Hq & <-).
      destruct (elem_of_column _ _ _ q Ep Hq) as (p & ? & [= ? ? ?]). eauto.
    + unfold completes in Hc. by rewrite (Fv x Hx) in Hc.
  - intros p Hp. destruct (Hback p Hp) as (q & Hq & _ & <- & <-). by apply Sd.
Qed.

Lemma quiet_settled db db' : quiet db db' → settled db → settled db'.
Proof.
  intros Q Hs. destruct (qt_events _ _ Q) as (evs & Ev & Fv & Nv). apply (settled_frame db _ evs); [done|done| |done|].
  { eapply Forall_impl; [exact Fv|]. by intros x [_ ?]. }
  exact (map_through pool_core (λ c, (fst (fst (fst c)), fst (snd (fst c)), snd (snd (fst c)))) _ _
           (qt_cores _ _ Q)).
Qed.

(** ** The sound states *)

Section system.
Context {Inputs : Type} `{Admission Inputs, Serde, EventJson, Unicode, Host, Sha256, JsonSchema}.

Record sound (db : Db) : Prop := {
  so_wf : wf db;
  so_recorded : recorded db;
  so_settled : settled db;
  so_budgets : ∀ pool, within_budgets db pool;
}.

Lemma within_same db db' pool :
  db_entries db' = db_entries db → acknowledged db pool ≤ acknowledged db' pool →
  within_budgets db pool → within_budgets db' pool.
Proof.
  intros Ee Ha [Wp Wv Wr Ww Wb]. split; unfold votes_on, readies_on, chat_rows, chat_bytes in *; rewrite ?Ee; try done.
  - lia.
  - unfold MAX_BODY_BYTES in *. lia.
Qed.

Lemma quiet_sound db db' : quiet db db' → sound db → sound db'.
Proof.
  intros Q [Hw Hr Hs Hb]. split; [by eapply quiet_wf|by eapply quiet_recorded|by eapply quiet_settled|].
  intros pool. apply (within_same db); [apply (qt_entries _ _ Q)|apply (qt_acks _ _ Q)|done].
Qed.

Lemma post_sound db d e db' : post db d e db' → sound db → sound db'.
Proof.
  intros P [Hw Hr Hs Hb]. split; [by eapply post_wf|by eapply post_recorded| |].
  - destruct P as [Qb _ _ _ _ _ _ Qa _]. eapply quiet_settled; [exact Qa|].
    apply (quiet_settled _ _ Qb) in Hs. by apply (settled_frame d _ []); [|by rewrite app_nil_r| | |].
  - intros pool. by eapply post_budgets.
Qed.

(** ** Completion *)

Lemma completed_pools_kept db pool id p :
  keys_ok db → p ∈ db_pools db → pl_id p = pool → pl_state p = Open →
  kept pool_kept (db_pools db)
    (update_where (λ p, pl_id p = pool ∧ pl_state p = Open) (completed id) (db_pools db)).
Proof.
  intros Hk Hp Hid Ho. apply kept_update; [apply _|]. intros q _ [_ Hq]. split; try done. by rewrite Hq.
Qed.

Lemma completing_later db pool r at_ id :
  wf db → evaluate db pool = Ok (EvReady r) → later db (completed_db db pool r at_ id).
Proof.
  intros Hw Ee. destruct r as [p e members].
  destruct (evaluate_decides db pool p e members Hw Ee) as [[[Hp Hid] Ho _ _ _ _ _] _].
  apply later_same; try done.
  - by eexists.
  - by apply (completed_pools_kept _ _ _ p); [apply wf_keys| | |].
  - apply rows_grow_app, _.
Qed.

Lemma completing_settled db pool r at_ id p :
  keys_ok db → p ∈ db_pools db → pl_id p = pool → pl_state p = Open → settled db →
  settled (completed_db db pool r at_ id).
Proof.
  intros Hk Hp Hid Ho [So Sh Sd Sn].
  set (x := mk_event (db_event_seq db + 1) (anchor_of (rp_members r)) (owned_attempt db (anchor_of (rp_members r)))
              at_ (EPoolCompleted (completion_of pool r))).
  assert (db_events (completed_db db pool r at_ id) = db_events db ++ [x]) as Ev by done.
  assert (∀ q, completes q x ↔ q = pool) as Hx by (intros q; unfold completes; simpl; naive_solver).
  assert (∀ q', q' ∈ db_pools (completed_db db pool r at_ id) → ∃ q, q ∈ db_pools db ∧
            (pl_id q = pool ∧ q' = completed id q ∧ pl_state q = Open ∨ pl_id q ≠ pool ∧ q' = q)) as Hback.
  { intros q' (q & Hq & ->)%elem_of_update_where. exists q. split; [done|].
    case_decide as Hd; [left; by destruct Hd|right]. split; [|done]. intros Hqid. apply Hd.
    rewrite (primary_key pl_id _ q p (keys_pools _ Hk)) by congruence. done. }
  split; [| | |by apply (numbered_one db _ x)].
  - intros q' Hq'. rewrite Ev, count_where_app, count_where_one.
    destruct (Hback q' Hq') as (q & Hq & [(Hqid & -> & Hqo)|[Hne ->]]).
    + simpl. rewrite decide_True by (by apply Hx). rewrite (So q Hq), Hqo. done.
    + rewrite decide_False by (by rewrite Hx). rewrite Z.add_0_r. by apply So.
  - rewrite Ev. intros y q [Hy|Hy%list_elem_of_singleton]%elem_of_app Hc.
    + destruct (Sh y q Hy Hc) as (z & Hz & <-).
      destruct (elem_of_column pl_id (db_pools db) (db_pools (completed_db db pool r at_ id)) z) as (z' & ? & ?); eauto.
      simpl. by apply map_update_where.
    + subst y. apply Hx in Hc as ->. exists (completed id p). split; [|done]. apply elem_of_update_where. exists p.
      split; [done|]. by rewrite decide_True.
  - intros q' Hq'. destruct (Hback q' Hq') as (q & Hq & [(Hqid & -> & Hqo)|[Hne ->]]); [|by apply Sd]. done.
Qed.

Lemma completing_sound db pool r at_ id :
  sound db → evaluate db pool = Ok (EvReady r) → sound (completed_db db pool r at_ id).
Proof.
  intros [Hw Hr Hs Hb] Ee. destruct r as [p e members].
  destruct (evaluate_decides db pool p e members Hw Ee) as [[[Hp Hid] Ho _ _ _ _ _] _].
  split.
  - apply (wf_frame db); try done; [|by apply map_update_where]. pose proof (wf_keys _ Hw) as []. split; try done.
    + simpl. by rewrite map_update_where.
    + simpl. by rewrite map_update_where.
  - eapply (recorded_frame db _ [] [_]); [done|done|by rewrite app_nil_r|constructor|done|by repeat constructor].
  - by apply (completing_settled db pool (mk_ready p e members) at_ id p); [apply wf_keys| | | |].
  - intros q. by apply (within_same db); [|exact (Z.le_refl _)|].
Qed.

(** ** Seats *)

(** Acknowledgements are not lost when seats are replaced or added. *)
Lemma acknowledged_later db db' pool :
  later db db' → rows_grow enrollment_kept (db_enrollments db) (db_enrollments db') →
  acknowledged db pool ≤ acknowledged db' pool.
Proof.
  intros L (old & new & E & F). unfold acknowledged. rewrite E, count_where_app.
  match goal with |- _ ≤ _ + ?n => assert (0 ≤ n) by apply count_where_nonneg end.
  enough (∀ l l', Forall2 enrollment_kept l l' →
    count_where (λ j, er_state j = EJoined ∧
      exists_where (λ m, mb_agent m = er_agent j ∧ mb_pool m = pool) (db_members db) = true) l ≤
    count_where (λ j, er_state j = EJoined ∧
      exists_where (λ m, mb_agent m = er_agent j ∧ mb_pool m = pool) (db_members db') = true) l') as Hle.
  { specialize (Hle _ _ F). lia. }
  clear E F. induction 1 as [|j j' l l' [Ea Es] _ IH]; [done|].
  rewrite !count_where_cons. case_decide as Hd; [|case_decide; lia]. destruct Hd as [Hj Hm].
  rewrite decide_True; [lia|]. split; [auto|]. apply exists_where_true in Hm as (m & Hm & Hma & Hmp).
  destruct (later_seat _ _ m L Hm) as (m' & Hm' & [Sa Sp _ _ _ _]).
  apply exists_where_true. exists m'. split; [done|]. split; congruence.
Qed.

Lemma replace_sound db input now p m db1 db' :
  sound db → valid_input input → fresh_replacement db input now p m db1 db' →
  1 ≤ u32_add (pl_revision p) 1 → sound db'.
Proof.
  intros [Hw Hr Hs Hb] Hi Hfr Hpos.
  pose proof (created_later db input now p m db1 db' Hw Hfr Hpos) as L.
  destruct (fresh_tables db input now p m db1 db' Hfr) as (_ & Ep & Ee).
  destruct (created_events db input now p m db1 db' Hfr) as (es & x & Ev & Hes & _ & Xs).
  pose proof (fr_admitted _ _ _ _ _ _ _ Hfr) as Ha%admit_promise.
  split.
  - by eapply fresh_wf.
  - by eapply created_recorded.
  - apply (settled_frame db _ (es ++ [x])); [done|done| | |].
    + apply Forall_app. split; [eapply Forall_impl; [exact Hes|]; by intros y [_ [_ ?]]|].
      apply Forall_singleton. by destruct (ev_data x).
    + intros N%(adm_numbers _ _ _ Ha). destruct (fr_effect _ _ _ _ _ _ _ Hfr) as (commands & counter & ->).
      by eapply (numbered_one db1).
    + rewrite Ep. simpl. rewrite (adm_pools _ _ _ Ha). by apply map_update_where.
  - intros pool. eapply within_append; [exact Ee| |done]. apply affordable_other; [|by right].
    intros q. apply acknowledged_later; [done|]. apply rows_grow_same.
    destruct (fr_effect _ _ _ _ _ _ _ Hfr) as (commands & counter & ->). simpl.
    by rewrite (adm_enrollments _ _ _ Ha).
Qed.

(** ** Admissions *)

Lemma admission_sound db id db' : identity_ok id → sound db → admission_frame db id db' → sound db'.
Proof.
  intros Hid [Hw Hr Hs Hb] Hf. destruct (adm_events _ _ _ Hf) as (es & Ev & Hes). split.
  - by eapply admitted_wf.
  - by eapply admitted_recorded.
  - apply (settled_frame db _ es); [done|done| |apply (adm_numbers _ _ _ Hf)|by rewrite (adm_pools _ _ _ Hf)].
    eapply Forall_impl; [exact Hes|]. by intros x [_ [_ ?]].
  - intros pool. apply (within_same db); [apply (adm_entries _ _ _ Hf)| |done].
    unfold acknowledged. by rewrite (adm_members _ _ _ Hf), (adm_enrollments _ _ _ Hf).
Qed.

Lemma created_pool_settled db (input : PoolAdmissionInput Inputs) uuid db' : created_pool db input uuid db' → settled db → settled db'.
Proof.
  intros Hc [So Sh Sd Sn]. destruct (cp_pools _ _ _ _ Hc) as [session Ep].
  destruct (cp_events _ _ _ _ Hc) as (evs & Ev & Fv & Nv). simpl in Ev. rewrite Forall_forall in Fv.
  assert (∀ pool, count_where (completes pool) (db_events db') = count_where (completes pool) (db_events db)) as Ec.
  { intros pool. rewrite Ev, count_where_app. unfold count_where at 2. rewrite filter_none; [apply Z.add_0_r|].
    intros x Hx. unfold completes. by rewrite (proj2 (Fv x Hx)). }
  split; [| | |auto].
  - rewrite Ep. intros p [Hp|Hp%list_elem_of_singleton]%elem_of_app; rewrite Ec; [by apply So|]. subst p. simpl.
    unfold count_where. rewrite filter_none; [done|]. intros x Hx Hcx.
    destruct (Sh x _ Hx Hcx) as (q & Hq & Hid). by destruct (cp_fresh _ _ _ _ Hc q Hq).
  - rewrite Ep, Ev. intros x pool [Hx|Hx]%elem_of_app Hcx.
    + destruct (Sh x pool Hx Hcx) as (p & Hp & ?). exists p. split; [|done]. apply elem_of_app. by left.
    + unfold completes in Hcx. by rewrite (proj2 (Fv x Hx)) in Hcx.
  - rewrite Ep. intros p [Hp|Hp%list_elem_of_singleton]%elem_of_app; [by apply Sd|]. by subst p.
Qed.

Lemma admit_pool_sound db (input : PoolAdmissionInput Inputs) fresh uuid db' r :
  sound db → valid_pool input → admit_pool db input fresh uuid = Ok (db', r) → sound db' ∧ later db db'.
Proof.
  intros Hs Hv E. pose proof Hs as [Hw Hr Hst Hb]. apply admit_pool_Ok in E; [|done..].
  destruct (pd_created r); [|by destruct E as [-> _]]. destruct E as [Hc _].
  split; [|by apply (cp_later _ _ _ _ Hc)]. split.
  - by apply (cp_wf _ _ _ _ Hc).
  - by apply (cp_recorded _ _ _ _ Hc).
  - by eapply created_pool_settled.
  - intros pool. apply (within_same db); [by apply (cp_entries _ _ _ _ Hc)| |done].
    apply acknowledged_later; [by apply (cp_later _ _ _ _ Hc)|].
    rewrite (cp_enrollments _ _ _ _ Hc). apply rows_grow_app, _.
Qed.

(** ** Settlement *)

(** One settlement call: quiet, or quiet up to one completion. *)
Lemma settle_pool_step db pool env db' r :
  settle_pool db pool env = (db', r) →
  quiet db db' ∨
  ∃ d ready, quiet db d ∧ evaluate d pool = Ok (EvReady ready) ∧
    db' = completed_db d pool ready (env_now env) ("ntf_" +:+ env_uuid env) ∧
    r = Ok (Some (mk_completion pool ("ntf_" +:+ env_uuid env) (is_some (pl_session (rp_pool ready))) true)).
Proof.
  unfold settle_pool. destruct (reconcile_pool_enrollments _ _ _ _) as [d|] eqn:Er; [|intros [= <- _]; by left].
  apply reconcile_quiet in Er.
  destruct (evaluate d pool) as [[|c| |ready]|] eqn:Ee; try (intros [= <- _]; by left).
  destruct (settle_in_tx d pool _ _) as [[d2 o]|] eqn:Es; [|intros [= <- _]; by left].
  intros [= <- <-]. apply settle_in_tx_Ok in Es. destruct o as [c|]; [|subst; by left].
  destruct (pc_created c); [|destruct Es as [-> _]; by left].
  destruct Es as (ready' & Ee' & -> & ->). rewrite Ee in Ee'. injection Ee' as <-. right. eauto 10.
Qed.

Lemma settle_sound db pool env db' r :
  sound db → settle_pool db pool env = (db', r) → sound db' ∧ later db db'.
Proof.
  intros Hs [Q|(d & ready & Q & Ee & -> & _)]%settle_pool_step.
  - split; [by eapply quiet_sound|by apply quiet_later].
  - apply (quiet_sound _ _ Q) in Hs. split; [by apply completing_sound|].
    etrans; [by apply quiet_later|]. apply completing_later; [apply (so_wf _ Hs)|done].
Qed.

(** ** The transition system *)

(** One committed transaction.  Inputs are those the callers have validated;
    [step_admitted] is an admission outside a pool: a start, a resume or a
    historical runtime request, each of which keeps the same frame;
    [step_other] stands for the transactions outside the library, which are
    taken to be quiet. *)
Inductive step (db db' : Db) : Prop :=
  | step_write run attempt token w now r :
      pool_write_tx db run attempt token w now = Ok (Accepted db' r) → step db db'
  | step_operator pool key message r :
      pool_post_validate (mk_post pool key message) = Ok () →
      pool_operator_post db pool key message = Ok (Accepted db' r) → step db db'
  | step_report run attempt token input at_ fresh r :
      notify_orchestrator db run attempt token input at_ fresh = Ok (db', r) → step db db'
  | step_settle pool env r : settle_pool db pool env = (db', r) → step db db'
  | step_bind pool reference at_ fresh_session fresh s :
      bind_pool db pool reference at_ fresh_session fresh = Ok (db', s) → step db db'
  | step_replace input now r :
      valid_input input → replace_pool_member db input now = Ok (Accepted db' r) → step db db'
  | step_admit_pool input fresh uuid r :
      valid_pool input → admit_pool db input fresh uuid = Ok (db', r) → step db db'
  | step_admit id inputs : identity_ok id → admit_in_tx db id inputs = Ok db' → step db db'
  | step_admitted id : identity_ok id → admission_frame db id db' → step db db'
  | step_issue run attempt token at_ u :
      issue_worker_capability db run attempt token at_ = Ok (db', u) → step db db'
  | step_register run attempt token version catalog at_ u :
      register_worker_catalog db run attempt token version catalog at_ = Ok (db', u) → step db db'
  | step_finish run attempt token input at_ guard r :
      accept_worker_finish db run attempt token input at_ guard = Ok (db', r) → step db db'
  | step_receipt run : db' = observe_worker_finish_receipt db run → step db db'
  | step_turn run idle at_ b : worker_turn db run idle at_ = Ok (db', b) → step db db'
  | step_terminal id o proof usage time fresh summary r :
      commit_terminal db id o proof usage time fresh summary = Ok (db', r) → step db db'
  | step_other : quiet db db' → step db db'.

Lemma step_sound db db' : sound db → step db db' → sound db' ∧ later db db'.
Proof.
  intros Hs Hstep. pose proof (so_wf _ Hs) as Hw. pose proof (wf_keys _ Hw) as Hk.
  assert (quiet db db' → sound db' ∧ later db db') as HQ.
  { intros Q. split; [by eapply quiet_sound|by apply quiet_later]. }
  assert ((∃ d e, post db d e db') → sound db' ∧ later db db') as HP.
  { intros (d & e & P). split; [by eapply post_sound|by eapply post_later]. }
  destruct Hstep as [? ? ? ? ? ? E|? ? ? ? V E|? ? ? ? ? ? ? E|? ? ? E|? ? ? ? ? ? E|? ? r V E|? ? ? ? V E|? ? V E|? V E
    |? ? ? ? ? E|? ? ? ? ? ? ? E|? ? ? ? ? ? ? E|? E|? ? ? ? E|? ? ? ? ? ? ? ? E|E].
  - apply write_post in E as [->|[e P]]; [by apply HQ|eauto|done].
  - apply operator_post in E as [->|[e P]]; [by apply HQ|eauto|done..].
  - apply notify_post in E as [Q|P]; [by apply HQ|eauto|done].
  - by eapply settle_sound.
  - apply HQ. by eapply bind_pool_quiet.
  - apply replace_Accepted in E. destruct (rp_created r); [|destruct E as [-> _]; by apply HQ].
    destruct E as (p & m & db1 & Hfr & Hpos & _).
    split; [by eapply replace_sound|by eapply created_later].
  - by eapply admit_pool_sound.
  - apply admit_promise in E. split; [by eapply admission_sound|by eapply admitted_later].
  - split; [by eapply admission_sound|by eapply admitted_later].
  - apply HQ. by eapply issue_quiet.
  - apply HQ. by eapply register_quiet.
  - apply HQ. eapply finish_quiet. exact E.
  - apply HQ. subst db'. apply observe_quiet.
  - apply HQ. by eapply turn_quiet.
  - apply HQ. exact (terminal_quiet _ _ _ _ _ _ _ _ _ _ Hk E).
  - by apply HQ.
Qed.

Lemma steps_sound db db' : sound db → rtc step db db' → sound db' ∧ later db db'.
Proof.
  intros Hs R. induction R as [d|d1 d2 d3 S R IH]; [done|].
  destruct (step_sound _ _ Hs S) as [Hs2 L2]. destruct (IH Hs2) as [Hs3 L3]. split; [done|by etrans].
Qed.

(** No transaction of the pools touches a claimed delivery: they queue new
    ones, and schedule or withdraw those that wait. *)
Lemma step_queue db db' : sound db → step db db' → queue_moves (db_deliveries db) (db_deliveries db').
Proof.
  intros Hs Hstep. pose proof (so_wf _ Hs) as Hw. pose proof (wf_keys _ Hw) as Hk.
  pose proof (qt_deliveries db db') as HQ.
  assert ((∃ d e, post db d e db') → queue_moves (db_deliveries db) (db_deliveries db')) as HP.
  { intros (d & e & [Hb _ _ _ _ _ _ Ha _]). etrans; [apply (qt_deliveries _ _ Hb)|apply (qt_deliveries _ _ Ha)]. }
  destruct Hstep as [? ? ? ? ? ? E|? ? ? ? V E|? ? ? ? ? ? ? E|? ? ? E|? ? ? ? ? ? E|? ? r V E|? ? ? r V E|? ? V E|? V E
    |? ? ? ? ? E|? ? ? ? ? ? ? E|? ? ? ? ? ? ? E|? E|? ? ? ? E|? ? ? ? ? ? ? ? E|E].
  - apply write_post in E as [->|[e P]]; [by apply HQ|eauto|done].
  - apply operator_post in E as [->|[e P]]; [by apply HQ|eauto|done..].
  - apply notify_post in E as [Q|P]; [by apply HQ|eauto|done].
  - apply settle_pool_step in E as [Q|(d & ready & Q & Ee & -> & _)]; [by apply HQ|].
    etrans; [apply (qt_deliveries _ _ Q)|]. apply queues_moves. apply queues_one.
    destruct (is_some (pl_session (rp_pool ready))); auto.
  - apply HQ. by eapply bind_pool_quiet.
  - apply replace_Accepted in E. destruct (rp_created r); [|destruct E as [-> _]; by apply HQ].
    destruct E as (p & m & db1 & Hfr & _). destruct (fr_effect _ _ _ _ _ _ _ Hfr) as (commands & counter & ->).
    pose proof (fr_admitted _ _ _ _ _ _ _ Hfr) as Ha%admit_promise. apply queues_moves, (adm_deliveries _ _ _ Ha).
  - apply admit_pool_Ok in E; [|done|apply Hs|done]. destruct (pd_created r); [|destruct E as [-> _]; by apply HQ].
    destruct E as [Hc _]. apply queues_moves, (cp_deliveries _ _ _ _ Hc).
  - apply admit_promise in E. apply queues_moves, (adm_deliveries _ _ _ E).
  - apply queues_moves, (adm_deliveries _ _ _ E).
  - apply HQ. by eapply issue_quiet.
  - apply HQ. by eapply register_quiet.
  - apply HQ. eapply finish_quiet. exact E.
  - apply HQ. subst db'. apply observe_quiet.
  - apply HQ. by eapply turn_quiet.
  - apply HQ. exact (terminal_quiet _ _ _ _ _ _ _ _ _ _ Hk E).
  - by apply HQ.
Qed.
End system.
