(* ===== verification/Reachable.v ===== *)
(** * What holds of every run

    The theorems about the transition system of [PoolSystem]: its reachable
    states are sound, its history only moves forward, and a completed pool
    stays exactly as it was completed. *)

From stdpp Require Import relations.
From S2P Require Import Prelude Text Float64 Json Canonical Catalogs Lifecycle Requests.
From S2P Require Import PoolDomain Tables Demo Roster World History WorkerStore.
From S2P Require Import Sessions ServiceRestart PoolEnrollment PoolLog PoolWrites PoolSettle.
From S2P Require Import Settlement PoolReplace PoolAdmit Replacement Replays Admissions.
From S2P Require Import WorkerFinish Terminal Steps Posts PoolSystem.

(** The store before its first transaction. *)
Definition initial : Db := mk_db [] [] [] [] [] [] [] [] [] [] [] [] [] [] [] 0 0 0 0 no_launches.

Section reachable.
Context {Inputs : Type} `{Admission Inputs, Serde, EventJson, Unicode, Host, Sha256, JsonSchema}.

Lemma initial_sound : sound initial.
Proof.
  assert (∀ A (x : A), x ∈ [] → False) as Hnil by (intros A x Hx; by apply elem_of_nil in Hx).
  split.
  - split; try done; try (intros x Hx; destruct (Hnil _ _ Hx)); try (intros x y Hx; destruct (Hnil _ _ Hx)).
    split; try (by constructor); try (by apply NoDup_nil_2). intros x Hx. destruct (Hnil _ _ Hx).
  - split; try (intros x Hx; destruct (Hnil _ _ Hx)); try (intros x y Hx; destruct (Hnil _ _ Hx)).
    intros x y z Hx. destruct (Hnil _ _ Hx).
  - split; try (intros x Hx; destruct (Hnil _ _ Hx)); [|by apply Forall_nil]. intros x y Hx. destruct (Hnil _ _ Hx).
  - intros pool. by split.
Qed.

(** C24: Every state the transactions can reach from an empty store is sound.
    Keys are unique, seats and entries are legal and every vote points back to
    a proposal of its own pool; every replacement has its trail; a pool has one
    completion event when it is completed and none otherwise; and no log
    exceeds its budgets for messages, proposals and votes. *)
Theorem reachable_sound db : rtc step initial db → sound db.
Proof. intros R. by apply (steps_sound _ _ initial_sound). Qed.

(** History only moves forward.  From a sound state, whatever the
    transactions do, no entry of the log is changed or removed and new ones
    follow; every execution moves along accepted transitions and an ended one
    keeps its status; every seat keeps its slot, labels, task and first
    revision, and a retired one its successor; every pool keeps its goal,
    criteria and binding and never returns to an earlier roster, and a
    completed one keeps its roster and its log. *)
Theorem history_moves_forward db db' :
  sound db → rtc step db db' →
  db_entries db `prefix_of` db_entries db' ∧
  (∀ a, a ∈ db_agents db → ∃ a', a' ∈ db_agents db' ∧ ag_id a' = ag_id a ∧
     moves (ag_status a) (ag_status a') ∧
     (Status.terminal (ag_status a) = true → ag_status a' = ag_status a)) ∧
  (∀ m, m ∈ db_members db → ∃ m', m' ∈ db_members db' ∧ seat_kept m m') ∧
  (∀ p, p ∈ db_pools db → ∃ p', p' ∈ db_pools db' ∧ pool_kept p p' ∧
     (pl_state p = Completed →
        log_of db' (pl_id p) = log_of db (pl_id p) ∧ seats_of db' (pl_id p) = seats_of db (pl_id p))).
Proof.
  intros Hs R. destruct (steps_sound _ _ Hs R) as [_ L]. split; [apply (lt_entries _ _ L)|]. split_and!.
  - intros a Ha. destruct (lt_agents _ _ L a Ha) as (a' & Ha' & [Hid _ Hm]). exists a'. split_and!; try done.
    intros Ht. by apply moves_terminal.
  - intros m Hm. by apply (later_seat db).
  - intros p Hp. destruct (lt_pools _ _ L p Hp) as (p' & Hp' & Hk). exists p'. split_and!; try done.
    intros Hc. assert (is_completed db (pl_id p)) as Hd by (by exists p).
    split; [by apply (lt_frozen _ _ L)|by apply (lt_roster _ _ L)].
Qed.

(** ** Completed pools *)

Lemma first_where_grown id l l' d :
  rows_grow delivery_kept l l' → first_where (λ d, Some (dl_id d) = Some id) l = Some d →
  ∃ d', first_where (λ d, Some (dl_id d) = Some id) l' = Some d' ∧ delivery_kept d d'.
Proof.
  intros (old & new & -> & F). rewrite first_where_app.
  induction F as [|x y l old [Ex Ee] _ IH]; [done|]. rewrite !first_where_cons, Ex.
  case_decide; [|done]. intros [= <-]. by exists y.
Qed.

Lemma retired_seats_of db pool :
  retired_seats db pool =
    merge_sort retired_le (filter (λ m, mb_replaced_by m ≠ None) (seats_of db pool)).
Proof.
  unfold retired_seats, seats_of. rewrite list_filter_filter. f_equal. apply list_filter_iff. tauto.
Qed.

(** The completed pool at a later state. *)
Lemma completed_row db db' p :
  wf db' → later db db' → p ∈ db_pools db → pl_state p = Completed →
  ∃ p', p' ∈ db_pools db' ∧ first_where (λ q, pl_id q = pl_id p) (db_pools db') = Some p' ∧ pool_kept p p' ∧
    pl_state p' = Completed ∧ pl_revision p' = pl_revision p ∧ pl_delivery p' = pl_delivery p.
Proof.
  intros Hw L Hp Hc. destruct (lt_pools _ _ L p Hp) as (p' & Hp' & Hk). exists p'. split; [done|].
  split; [rewrite <-(pk_id _ _ Hk); apply (first_where_key pl_id); [apply (keys_pools _ (wf_keys _ Hw))|done]|].
  split; [done|]. by apply (pk_completed _ _ Hk).
Qed.

(** The status a completion freezes. *)
Definition agreed_status (db : Db) (pool : string) (p : PoolRow) (e : EntryRow) (members : list CompletionMember)
  : PoolStatus :=
  mk_status Completed (pl_revision p) (pl_goal p) (criteria_of (pl_acceptance p))
    (Some (Z.max (en_seq e) 0, default ""%string (en_snapshot e), pl_revision p))
    (map frozen_member members) (retired_seats db pool) true.

Lemma frozen_later db pool p e members at_ id db2 :
  sound db → p ∈ db_pools db → pl_id p = pool → pl_state p = Open →
  (∀ d, d ∈ db_deliveries db → dl_id d ≠ id) →
  let db1 := completed_db db pool (mk_ready p e members) at_ id in
  wf db2 → later db1 db2 → pool_status db2 pool = Ok (agreed_status db pool p e members).
Proof.
  intros Hs Hp <- Ho Hfresh db1 Hw2 L.
  assert (completed id p ∈ db_pools db1) as Hp1.
  { apply elem_of_update_where. exists p. split; [done|]. by rewrite decide_True. }
  destruct (completed_row db1 db2 (completed id p) Hw2 L Hp1 eq_refl) as (p2 & Hp2 & Ef & _ & Hc & _ & Hd).
  simpl in Ef, Hd. unfold pool_status. rewrite Ef. cbn [row ok_or]. rewrite Hc.
  rewrite bool_decide_true by done. unfold frozen_status. rewrite Ef, Hd.
  assert (first_where (λ d, Some (dl_id d) = Some id) (db_deliveries db1) =
          Some (mk_delivery id (Some (anchor_of members)) (pl_session p) (Some (db_event_seq db + 1))
                  (if is_some (pl_session p) then DPending else WaitingBinding)
                  (if is_some (pl_session p) then Some at_ else None))) as Ed.
  { unfold db1, completed_db. simpl. rewrite first_where_app.
    rewrite (proj2 (first_where_None _ (db_deliveries db))); [by rewrite first_where_cons, decide_True|].
    intros d Hin [= E]. by apply (Hfresh d). }
  destruct (first_where_grown id _ _ _ (lt_deliveries _ _ L) Ed) as (d2 & -> & _ & ->). cbn [dl_event].
  destruct (lt_events _ _ L) as [evs ->]. unfold db1, completed_db. simpl. rewrite !first_where_app.
  rewrite (proj2 (first_where_None _ (db_events db))).
  2:{ intros x Hx [= E]. pose proof (sl_numbers _ (so_settled _ Hs)) as N. unfold numbered in N.
      rewrite Forall_forall in N. specialize (N x Hx). simpl in N. lia. }
  rewrite first_where_cons, decide_True by done. simpl. unfold agreed_status.
  rewrite !retired_seats_of, (lt_roster _ _ L); [done|]. by exists (completed id p).
Qed.

(** C5: A completed pool stays as it was completed.  Take a settlement that
    reports a fresh completion under a delivery identifier not used before,
    and any state the transactions reach from there.  The status of the pool
    is the frozen one: the agreed proposal with its snapshot, and every seat
    that agreed as succeeded and ready.  Its log and its seats are unchanged.
    Settling again reports the same delivery and writes nothing; a member write,
    an operator post or a replacement is accepted only as the replay of an
    earlier one. *)
Theorem completion_permanent db pool at_ fresh db1 c db2 :
  sound db → settle_in_tx db pool at_ fresh = Ok (db1, Some c) → pc_created c = true →
  (∀ d, d ∈ db_deliveries db → dl_id d ≠ pc_delivery c) → rtc step db1 db2 →
  (∃ p e members, unanimous db pool p e ∧ map cmp_agent members = map mb_agent (current_seats db pool) ∧
     pool_status db2 pool = Ok (agreed_status db pool p e members)) ∧
  log_of db2 pool = log_of db pool ∧ seats_of db2 pool = seats_of db pool ∧
  (∀ at' fresh', ∃ bound, settle_in_tx db2 pool at' fresh' =
     Ok (db2, Some (mk_completion pool (pc_delivery c) bound false))) ∧
  (∀ run attempt token w now db3 r, pool_write_tx db2 run attempt token w now = Ok (Accepted db3 r) →
     wr_pool r = pool → wr_duplicate r = true ∧ db3 = db2) ∧
  (∀ key message db3 r, pool_operator_post db2 pool key message = Ok (Accepted db3 r) →
     wr_duplicate r = true ∧ db3 = db2) ∧
  (∀ input now db3 r, replace_pool_member db2 input now = Ok (Accepted db3 r) →
     ri_pool input = pool → rp_created r = false ∧ db3 = db2).
Proof.
  intros Hs E Hcr Hfresh R. apply settle_in_tx_Ok in E. rewrite Hcr in E.
  destruct E as ([p e members] & Ee & -> & ->). simpl pc_delivery in *.
  destruct (evaluate_decides db pool p e members (so_wf _ Hs) Ee) as [Hu Hm].
  pose proof Hu as [[Hp Hid] Ho _ _ _ _ _].
  set (id := "ntf_" +:+ fresh) in *. set (d1 := completed_db db pool _ at_ id) in *.
  assert (sound d1) as Hs1 by (by apply completing_sound).
  destruct (steps_sound _ _ Hs1 R) as [Hs2 L]. pose proof (so_wf _ Hs2) as Hw2.
  assert (completed id p ∈ db_pools d1) as Hp1.
  { apply elem_of_update_where. exists p. split; [done|]. by rewrite decide_True. }
  destruct (completed_row d1 db2 (completed id p) Hw2 L Hp1 eq_refl) as (p2 & Hp2 & Ef & Hk & Hc & _ & Hd).
  simpl in Ef, Hd. rewrite Hid in Ef.
  assert (is_completed d1 pool) as Hcomp by (by exists (completed id p)).
  assert (∀ q, q ∈ db_pools db2 → pl_id q = pool → pl_state q = Completed) as Hall.
  { intros q Hq Hqid. rewrite (primary_key pl_id _ q p2 (keys_pools _ (wf_keys _ Hw2)) Hq Hp2); [done|].
    rewrite (pk_id _ _ Hk). simpl. congruence. }
  split_and!.
  - exists p, e, members. split_and!; try done. by apply (frozen_later db pool p e members at_ id).
  - by rewrite (lt_frozen _ _ L).
  - by rewrite (lt_roster _ _ L).
  - intros at' fresh'. exists (is_some (pl_session p2)). unfold settle_in_tx, evaluate.
    by rewrite Ef, Hc, bool_decide_true, Hd.
  - intros run attempt token w now db3 r (m & Ha & Hwp & [(? & -> & _)|(_ & _ & ack & Hf)])%pool_write_tx_Accepted Hr;
      [done|].
    apply authenticated_member_acting in Ha. destruct (act_seat _ _ _ _ Ha) as (x & q & _ & Hq & _ & _ & ->).
    pose proof (fw_state _ _ _ _ _ _ _ _ Hf) as Hst. simpl in Hst, Hwp. rewrite (Hall q Hq) in Hst; [done|congruence].
  - intros key message db3 r. unfold pool_operator_post. rewrite Ef.
    destruct (prior_entry _ _ _ _); [destruct (bool_decide _); [|done]; by intros [= <- <-]|].
    by rewrite Hc, bool_decide_true.
  - intros input now db3 r Er Hpool. apply replace_Accepted in Er.
    destruct (rp_created r); [|by destruct Er as [-> _]]. destruct Er as (q & m & d & Hfr & _).
    pose proof (fr_replaceable _ _ _ _ _ _ _ Hfr) as [Hq Hopen _ _ _ _].
    rewrite Hpool, Ef in Hq. injection Hq as <-. congruence.
Qed.

(** ** Outdated agreements *)

(** A pool whose proposals are all of an earlier roster is ready again only on
    a proposal and votes that were written since. *)
Lemma ready_is_new db db2 pool p e members :
  sound db → later db db2 → wf db2 → outdated db pool →
  evaluate db2 pool = Ok (EvReady (mk_ready p e members)) →
  e ∉ db_entries db ∧
  ∀ m, m ∈ current_seats db2 pool → ∃ v, v ∈ db_entries db2 ∧ v ∉ db_entries db ∧
    is_vote_on pool (mb_agent m) (en_seq e) v ∧ en_decision v = Some Ready.
Proof.
  intros Hs L Hw2 (q & Hq & Hqid & _ & Hlt) Ee. pose proof (so_wf _ Hs) as Hw.
  destruct (evaluate_decides db2 pool p e members Hw2 Ee) as [[[Hp Hid] _ [He Hprop] _ Hrev _ Hseats] _].
  assert (e ∉ db_entries db) as Hnew.
  { intros Hin. specialize (Hlt e Hin Hprop). destruct (lt_pools _ _ L q Hq) as (q2 & Hq2 & Hk).
    assert (q2 = p) as ->.
    { apply (primary_key pl_id _ q2 p (keys_pools _ (wf_keys _ Hw2))); [done..|]. rewrite (pk_id _ _ Hk). congruence. }
    pose proof (pk_revision _ _ Hk). lia. }
  split; [done|]. intros m Hm. apply current_seats_elem in Hm as [Hm Hc].
  destruct (Hseats m Hm Hc) as (_ & _ & tip & v & checks & _ & _ & _ & (Hv & Hon & _) & _ & Hd & _).
  exists v. rewrite Hid in Hon. split_and!; try done. intros Hin. apply Hnew.
  destruct Hon as (Hvp & _ & Hvq & _). destruct (wf_votes _ Hw v Hin _ Hvq) as (x & Hx & _ & Hxq & _).
  destruct (lt_entries _ _ L) as [es Es].
  rewrite <-(entry_key db2 x e (wf_keys _ Hw2)); [done| |done|done]. rewrite Es. apply elem_of_app. by left.
Qed.

(** C31: A replacement voids the agreement of the old roster.  Whatever had
    been proposed and voted, the deciding read of the new state finds the pool
    not ready and a settlement writes nothing.  At every later state the pool
    is ready only on a proposal written after the replacement, for which every
    current seat has cast a ready vote written after the replacement. *)
Theorem replacement_voids_agreement db input now db' r :
  sound db → valid_input input →
  replace_pool_member db input now = Ok (Accepted db' r) → rp_created r = true →
  evaluate db' (ri_pool input) = Ok EvNotReady ∧
  (∀ at_ fresh, settle_in_tx db' (ri_pool input) at_ fresh = Ok (db', None)) ∧
  ∀ db2 p e members, rtc step db' db2 →
    evaluate db2 (ri_pool input) = Ok (EvReady (mk_ready p e members)) →
    db_entries db' `prefix_of` db_entries db2 ∧ e ∈ db_entries db2 ∧ e ∉ db_entries db' ∧
    ∀ m, m ∈ current_seats db2 (ri_pool input) → ∃ v, v ∈ db_entries db2 ∧ v ∉ db_entries db' ∧
      is_vote_on (ri_pool input) (mb_agent m) (en_seq e) v ∧ en_decision v = Some Ready.
Proof.
  intros Hs Hi E Hc. destruct (replacement_outdates db input now db' r (so_wf _ Hs) Hi E Hc) as [Hw' Ho].
  pose proof (outdated_not_ready _ _ Hw' Ho) as Hn.
  split; [done|]. split; [by intros; unfold settle_in_tx; rewrite Hn|]. intros db2 p e members R Ee.
  destruct (step_sound db db' Hs) as [Hs' _]; [by eapply step_replace|].
  destruct (steps_sound _ _ Hs' R) as [Hs2 L].
  destruct (ready_is_new db' db2 _ p e members Hs' L (so_wf _ Hs2) Ho Ee) as [Hnew Hv].
  split; [apply (lt_entries _ _ L)|]. split; [|done].
  by destruct (evaluate_decides db2 _ p e members (so_wf _ Hs2) Ee) as [[_ _ [He _] _ _ _ _] _].
Qed.
End reachable.

(** ** A concrete run *)

Lemma small_budgets db pool :
  (length (db_entries db) ≤ 7)%nat → sum_by (λ e, len (en_body e)) (db_entries db) ≤ CHAT_BYTE_BUDGET →
  within_budgets db pool.
Proof.
  intros Hl Hb. assert (0 ≤ acknowledged db pool) by apply count_where_nonneg.
  assert (∀ P (D : ∀ e, Decision (P e)), count_where P (db_entries db) ≤ 7) as Hc.
  { intros P D. unfold count_where. pose proof (length_filter P (db_entries db)). lia. }
  split; unfold votes_on, readies_on, chat_rows, PROPOSAL_BUDGET, VOTE_ROW_BUDGET, CHAT_ROW_BUDGET; intros;
    try (etrans; [apply Hc|lia]).
  unfold chat_bytes. transitivity (sum_by (λ e, len (en_body e)) (db_entries db)); [|unfold MAX_BODY_BYTES; lia].
  clear. induction (db_entries db) as [|e l IH]; [done|]. rewrite filter_cons. simpl.
  pose proof (len_nonneg (en_body e)). case_decide; simpl; lia.
Qed.

Lemma demo_agreed_sound : sound demo_agreed.
Proof.
  split; [exact demo_agreed_wf|exact demo_agreed_recorded| |].
  - split; [|by intros x pool Hx%elem_of_nil| |by apply Forall_nil].
    + by intros p ->%list_elem_of_singleton.
    + by intros p ->%list_elem_of_singleton.
  - intros pool. apply small_budgets; [simpl; lia|by vm_compute].
Qed.

(** Two new members and a first instruction by the operator. *)
Definition demo_start : PoolAdmissionInput () :=
  mk_pool_input "pool-9" "global" "req-9" (demo_token 9) "ship it" [mk_criterion "goal" "The stated goal is met."]
    [mk_member_admission "ag-a" 1 "Ada" "lead" "write" (New ());
     mk_member_admission "ag-b" 2 "Bob" "dev" "test" (New ())] None.

Definition demo_started : Db :=
  match admit_pool initial demo_start "s" (λ a, a) with Ok (db, _) => db | Err _ => initial end.

Definition demo_told : Db :=
  match pool_operator_post demo_started "pool-9" "k1" "go" with Ok (Accepted db _) => db | _ => initial end.

Lemma demo_start_valid : valid_pool demo_start.
Proof. repeat constructor; try (by apply ascii_utf8); by vm_compute. Qed.

Lemma demo_run : rtc step initial demo_started ∧ rtc step demo_started demo_told.
Proof.
  split; apply rtc_once.
  - eapply (step_admit_pool _ _ demo_start "s" (λ a, a)); [exact demo_start_valid|by vm_compute].
  - by eapply (step_operator _ _ "pool-9" "k1" "go"); vm_compute.
Qed.

Lemma reachable_sound_witness : sound demo_told.
Proof. apply reachable_sound. destruct demo_run. by etrans. Defined.

Lemma history_moves_forward_witness :
  db_entries demo_started `prefix_of` db_entries demo_told ∧ length (db_entries demo_told) = 1%nat.
Proof.
  split; [|done]. apply (history_moves_forward demo_started demo_told); [|apply demo_run].
  apply (steps_sound _ _ initial_sound), demo_run.
Defined.

(** The agreed pool completes; then another execution is admitted. *)
Definition demo_after : Db :=
  match demo_admit demo_completed "ag-z" () with Ok db => db | Err _ => demo_completed end.

Lemma completion_permanent_witness :
  log_of demo_after "pool-1" = log_of demo_agreed "pool-1" ∧
  (∀ key message db3 r, pool_operator_post demo_after "pool-1" key message = Ok (Accepted db3 r) → db3 = demo_after).
Proof.
  assert (rtc step demo_completed demo_after) as R.
  { apply rtc_once, (step_admit _ _ "ag-z" ()); [by apply (bool_decide_unpack _)|by vm_compute]. }
  destruct (completion_permanent demo_agreed "pool-1" (of_Z 300) "u" demo_completed
              (mk_completion "pool-1" "ntf_u" false true) demo_after demo_agreed_sound demo_completed_Ok eq_refl)
    as (_ & Hlog & _ & _ & _ & Hop & _); [by intros d Hd%elem_of_nil|exact R|].
  split; [exact Hlog|]. intros key message db3 r E. apply (Hop key message db3 r E).
Defined.

(** The agreed pool loses the agreement with Bob's seat, also after another
    execution is admitted. *)
Definition demo_swapped_after : Db :=
  match demo_admit demo_swapped "ag-z" () with Ok db => db | Err _ => demo_swapped end.

Lemma replacement_voids_agreement_witness :
  evaluate demo_swapped "pool-1" = Ok EvNotReady ∧
  ∀ p e members, evaluate demo_swapped_after "pool-1" = Ok (EvReady (mk_ready p e members)) →
    e ∉ db_entries demo_swapped.
Proof.
  destruct (replacement_voids_agreement demo_agreed demo_swap (of_Z 300) demo_swapped demo_receipt
              demo_agreed_sound demo_swap_valid demo_swap_Ok eq_refl) as (Hn & _ & Hl).
  split; [exact Hn|]. intros p e members Ee.
  destruct (Hl demo_swapped_after p e members) as (_ & _ & He & _); [|exact Ee|exact He].
  apply rtc_once, (step_admit _ _ "ag-z" ()); [by apply (bool_decide_unpack _)|by vm_compute].
Defined.
