(* ===== verification/Protocol.v ===== *)
(** * The pool protocol

    The life of one pool as an abstract state machine over its log, its seats,
    its roster revision and its completion, with no execution, attempt or
    delivery in it.  Every transaction of the system is, for every pool, one
    action of this machine or none: the transition system refines the protocol.
    What the protocol guarantees therefore holds of the durable state. *)

From stdpp Require Import relations.
From S2P Require Import Prelude Text Float64 Json Canonical Catalogs Lifecycle Requests.
From S2P Require Import PoolDomain Tables Demo Roster World History WorkerStore.
From S2P Require Import Sessions ServiceRestart PoolEnrollment PoolLog PoolWrites PoolSettle.
From S2P Require Import Settlement PoolReplace PoolAdmit Replacement Replays Admissions.
From S2P Require Import WorkerFinish Terminal Steps Posts PoolSystem Reachable.

(** ** The abstract machine *)

Record Team := mk_team {
  tm_criteria : list AcceptanceCriterion;
  tm_log : list EntryRow;
  tm_seats : list MemberRow;
  tm_revision : Z;
  tm_done : option string;
}.

(** The newest proposal of a log. *)
Definition newest (log : list EntryRow) (e : EntryRow) : Prop :=
  e ∈ log ∧ en_kind e = KProposal ∧ ∀ x, x ∈ log → en_kind x = KProposal → en_seq x ≤ en_seq e.

Definition vote_of (seat : string) (q : Z) (x : EntryRow) : Prop :=
  en_author_agent x = Some seat ∧ en_proposal_seq x = Some q ∧ (en_kind x = KVote ∨ en_kind x = KRevoke).

(** The seat's last word on the proposal is an approval of every criterion. *)
Definition approves (t : Team) (proposal : EntryRow) (m : MemberRow) : Prop :=
  ∃ v checks,
    v ∈ tm_log t ∧ vote_of (mb_agent m) (en_seq proposal) v ∧
    (∀ x, x ∈ tm_log t → vote_of (mb_agent m) (en_seq proposal) x → en_seq x ≤ en_seq v) ∧
    en_kind v = KVote ∧ en_decision v = Some Ready ∧ en_checks v = Some checks ∧
    map ck_criterion_id checks ≡ₚ map ac_id (tm_criteria t) ∧ Forall (λ c, ck_status c = Met) checks.

(** The log shows that at least two seats, and all current ones, approve the
    newest proposal, made under the current roster. *)
Definition agreed (t : Team) : Prop :=
  ∃ e, newest (tm_log t) e ∧ en_revision e = tm_revision t ∧
    (2 ≤ length (filter (λ m, mb_replaced_by m = None) (tm_seats t)))%nat ∧
    ∀ m, m ∈ tm_seats t → mb_replaced_by m = None → approves t e m.

Inductive acts : option Team → option Team → Prop :=
  | act_stay t : acts t t
  | act_open criteria seats :
      Forall (λ m, mb_joined_revision m = 1 ∧ mb_replaced_by m = None) seats →
      acts None (Some (mk_team criteria [] seats 1 None))
  | act_post t e :
      tm_done t = None → en_kind e ≠ KRoster → en_revision e = tm_revision t →
      (∀ x, x ∈ tm_log t → en_seq x < en_seq e) →
      (∀ a, en_author_agent e = Some a →
         ∃ m, m ∈ tm_seats t ∧ mb_agent m = a ∧ mb_replaced_by m = None) →
      (∀ q, en_proposal_seq e = Some q → ∃ x, newest (tm_log t) x ∧ en_seq x = q) →
      acts (Some t)
        (Some (mk_team (tm_criteria t) (tm_log t ++ [e]) (tm_seats t) (tm_revision t) None))
  | act_swap t old new e :
      tm_done t = None → old ∈ tm_seats t → mb_replaced_by old = None →
      mb_slot new = mb_slot old → mb_role new = mb_role old → mb_replaced_by new = None →
      mb_joined_revision new = tm_revision t + 1 →
      en_kind e = KRoster → en_revision e = tm_revision t + 1 →
      (∀ x, x ∈ tm_log t → en_seq x < en_seq e) →
      acts (Some t)
        (Some (mk_team (tm_criteria t) (tm_log t ++ [e])
                 (update_where (λ m, mb_agent m = mb_agent old) (replaced_with (mb_agent new)) (tm_seats t)
                  ++ [new])
                 (tm_revision t + 1) None))
  | act_complete t id :
      tm_done t = None → agreed t →
      acts (Some t)
        (Some (mk_team (tm_criteria t) (tm_log t) (tm_seats t) (tm_revision t) (Some id))).

(** A completed team has agreed: nothing moves after the completion. *)
Lemma acts_agreed t :
  rtc acts None t → ∀ s, t = Some s → tm_done s ≠ None → agreed s.
Proof.
  revert t. apply (rtc_ind_r (R := acts) (λ t, ∀ s, t = Some s → tm_done s ≠ None → agreed s) None); [done|].
  intros x y _ A IH s Es Hd. destruct A as [|? ?|? ? Hn|? ? ? ? Hn|t id Hn Ha]; simplify_eq/=; eauto; try done.
Qed.

(** ** The abstraction *)

Definition team_of (db : Db) (p : PoolRow) : Team :=
  mk_team (pl_acceptance p) (log_of db (pl_id p)) (seats_of db (pl_id p)) (pl_revision p) (pl_delivery p).

Definition view (db : Db) (pool : string) : option Team :=
  option_map (team_of db) (first_where (λ p, pl_id p = pool) (db_pools db)).

Lemma first_where_map {A B} (f : A → B) (P : B → Prop) `{∀ y, Decision (P y)} (l : list A) :
  first_where P (map f l) = option_map f (first_where (λ x, P (f x)) l).
Proof. induction l as [|x l IH]; [done|]. simpl map. rewrite !first_where_cons. by case_decide. Qed.

(** The abstraction reads only the cores of the pools. *)
Lemma view_core db db' pool :
  map pool_core (db_pools db') = map pool_core (db_pools db) → db_entries db' = db_entries db →
  db_members db' = db_members db → view db' pool = view db pool.
Proof.
  intros Ep Ee Em.
  assert (∀ d, view d pool =
    option_map (λ c, mk_team (snd (snd c)) (log_of d pool) (seats_of d pool) (snd (fst (fst c)))
                       (snd (snd (fst c))))
      (first_where (λ c, fst (fst (fst c)) = pool) (map pool_core (db_pools d)))) as Hv.
  { intros d. rewrite first_where_map. unfold view. simpl.
    destruct (first_where _ _) as [p|] eqn:E; [|done]. apply first_where_Some in E as [<- _]. done. }
  rewrite !Hv, Ep. unfold log_of, seats_of. by rewrite Ee, Em.
Qed.

Lemma view_quiet db db' pool : quiet db db' → view db' pool = view db pool.
Proof. intros []. by apply view_core. Qed.

Lemma view_Some db pool p :
  keys_ok db → p ∈ db_pools db → pl_id p = pool → view db pool = Some (team_of db p).
Proof. intros Hk Hp <-. unfold view. by rewrite (first_where_key pl_id _ _ (keys_pools _ Hk) Hp). Qed.

Section refines.
Context {Inputs : Type} `{Admission Inputs, Serde, EventJson, Unicode, Host, Sha256, JsonSchema}.

(** ** One more entry *)

Lemma log_of_entry db e pool :
  log_of (with_entry db e) pool =
    if decide (en_pool e = pool) then log_of db pool ++ [entry_with_seq (db_entry_seq db + 1) e] else log_of db pool.
Proof.
  unfold log_of. simpl. rewrite filter_app, filter_cons, filter_nil. simpl. case_decide; [done|apply app_nil_r].
Qed.

Lemma log_seq db pool x : keys_ok db → x ∈ log_of db pool → en_seq x < db_entry_seq db + 1.
Proof.
  intros Hk [_ Hx]%list_elem_of_filter. pose proof (keys_entry_counter _ Hk x Hx). lia.
Qed.

Lemma newest_proposal db pool e :
  keys_ok db → current_proposal db pool = Some e → newest (log_of db pool) e.
Proof.
  intros Hk Ec. pose proof (λ x, current_proposal_max db pool e x Ec) as Hmax.
  apply current_proposal_Some in Ec as [He [Hp Hkind]]. split; [by apply list_elem_of_filter|]. split; [done|].
  intros x [Hxp Hx]%list_elem_of_filter Hxk. by apply Hmax.
Qed.

Lemma open_undone db p : settled db → p ∈ db_pools db → pl_state p = Open → pl_delivery p = None.
Proof.
  intros Hs Hp Ho. destruct (pl_delivery p) eqn:Ed; [|done]. exfalso.
  assert (pl_state p = Completed) by (apply (sl_delivery _ Hs p Hp); by rewrite Ed). congruence.
Qed.

Lemma post_acts db d e db' pool : sound db → post db d e db' → acts (view db pool) (view db' pool).
Proof.
  intros Hs P. pose proof (quiet_sound _ _ (po_before _ _ _ _ P) Hs) as Hd.
  rewrite <-(view_quiet _ _ pool (po_before _ _ _ _ P)), (view_quiet _ _ pool (po_after _ _ _ _ P)).
  pose proof (wf_keys _ (so_wf _ Hd)) as Hk. destruct (po_open _ _ _ _ P) as (p & Hp & Hid & Ho & Hrev).
  destruct (decide (en_pool e = pool)) as [Epool|Hne].
  - assert (view (with_entry d e) pool =
            Some (mk_team (pl_acceptance p) (log_of d pool ++ [entry_with_seq (db_entry_seq d + 1) e])
                    (seats_of d pool) (pl_revision p) None)) as ->.
    { rewrite (view_Some _ _ p); [|by apply keys_with_entry; apply Hd|done|congruence]. unfold team_of.
      rewrite log_of_entry, decide_True by congruence. rewrite Hid, Epool, (open_undone d p); try done. apply Hd. }
    rewrite (view_Some d pool p Hk Hp) by congruence. unfold team_of.
    rewrite Hid, Epool, (open_undone d p (so_settled _ Hd) Hp Ho).
    apply (act_post (mk_team _ _ _ _ _)); simpl; try done.
    + apply (po_kind _ _ _ _ P).
    + intros x Hx. by apply (log_seq d pool).
    + intros a Ea. destruct (po_author _ _ _ _ P a Ea) as (m & Hm & Hmp & Hma & Hmc). exists m.
      split; [apply list_elem_of_filter; split; [congruence|done]|done].
    + intros q Eq. destruct (po_vote _ _ _ _ P q Eq) as (x & Hx & Hq). exists x. split; [|done].
      rewrite <-Epool. by apply newest_proposal.
  - assert (view (with_entry d e) pool = view d pool) as ->; [|constructor].
    unfold view. destruct (first_where _ (db_pools d)) as [q|] eqn:Eq; simpl; rewrite Eq; [|done].
    apply first_where_Some in Eq as [Hq _]. simpl. unfold team_of. rewrite log_of_entry, decide_False by congruence. done.
Qed.

(** ** Completion *)

Lemma unanimous_agreed db pool p e : unanimous db pool p e → agreed (team_of db p).
Proof.
  intros [[Hp Hid] Ho [He [Hep Hek]] Hmax Hrev Hteam Hseats]. subst pool. exists e. unfold team_of. simpl. split_and!.
  - split; [by apply list_elem_of_filter|]. split; [done|]. intros x [Hxp Hx]%list_elem_of_filter Hxk. by apply Hmax.
  - done.
  - unfold seats_of. rewrite list_filter_filter.
    assert (filter (λ m, mb_replaced_by m = None ∧ mb_pool m = pl_id p) (db_members db) =
            filter (current_seat (pl_id p)) (db_members db)) as ->; [|done].
    apply list_filter_iff. intros m. unfold current_seat. tauto.
  - intros m [Hmp Hm]%list_elem_of_filter Hmc.
    destruct (Hseats m Hm) as (_ & _ & tip & v & checks & _ & _ & _ & [Hv [(Hvp & Hva & Hvq & Hvk) Hlast]] & Hk & Hr & _ & Hch & Hperm & Hmet).
    { by split. }
    exists v, checks. simpl. split_and!; try done.
    + by apply list_elem_of_filter.
    + intros x [Hxp Hx]%list_elem_of_filter (Hxa & Hxq & Hxk). apply Hlast; [done|]. by split_and!.
Qed.

Lemma completing_acts db pool r at_ id other :
  sound db → evaluate db pool = Ok (EvReady r) → acts (view db other) (view (completed_db db pool r at_ id) other).
Proof.
  intros Hs Ee. destruct r as [p e members].
  destruct (evaluate_decides db pool p e members (so_wf _ Hs) Ee) as [Hu _].
  pose proof Hu as [[Hp Hid] Ho _ _ _ _ _]. pose proof (wf_keys _ (so_wf _ Hs)) as Hk.
  set (d := completed_db db pool _ at_ id).
  assert (view d other = if decide (other = pool) then Some (team_of d (completed id p)) else view db other) as ->.
  { unfold view, d, completed_db. simpl. rewrite first_where_update by done. case_decide as Hd.
    - subst other. rewrite <-Hid, (first_where_key pl_id _ _ (keys_pools _ Hk) Hp). simpl. by rewrite decide_True by done.
    - destruct (first_where _ _) as [q|] eqn:Eq; [|done]. apply first_where_Some in Eq as [Hq _]. simpl.
      rewrite decide_False by naive_solver. done. }
  case_decide as Hd; [|constructor]. rewrite (view_Some db other p Hk Hp) by congruence.
  assert (team_of d (completed id p) = mk_team (tm_criteria (team_of db p)) (tm_log (team_of db p))
            (tm_seats (team_of db p)) (tm_revision (team_of db p)) (Some id)) as -> by done.
  apply act_complete; [|by apply (unanimous_agreed db pool p e)].
  exact (open_undone db p (so_settled _ Hs) Hp Ho).
Qed.

(** ** Replacement *)

Lemma filter_update_same {A} (Q P P' : A → Prop) `{∀ x, Decision (Q x)} `{∀ x, Decision (P x)}
  `{∀ x, Decision (P' x)} f l :
  (∀ x, Q (f x) ↔ Q x) → (∀ x, x ∈ l → Q x → P x ↔ P' x) →
  filter Q (update_where P f l) = update_where P' f (filter Q l).
Proof.
  intros HQ HP. unfold update_where. induction l as [|x l IH]; [done|]. simpl map. rewrite !filter_cons.
  assert (∀ y, y ∈ l → Q y → P y ↔ P' y) as HP' by (intros; apply HP; [by right|done]).
  rewrite (IH HP'). destruct (decide (Q x)) as [Hx|Hx].
  - pose proof (HP x (list_elem_of_here _ _) Hx) as Hiff.
    rewrite decide_True by (case_decide; by rewrite ?HQ). simpl. f_equal. repeat case_decide; tauto.
  - by rewrite decide_False by (case_decide; by rewrite ?HQ).
Qed.

Lemma replacing_acts db input now p m db1 db' other :
  sound db → fresh_replacement db input now p m db1 db' → 1 ≤ u32_add (pl_revision p) 1 → wf db' →
  acts (view db other) (view db' other).
Proof.
  intros Hs Hfr Hpos Hw'. pose proof (so_wf _ Hs) as Hw. pose proof (wf_keys _ Hw) as Hk.
  destruct (fresh_rows db input now p m db1 db' Hw Hfr Hpos) as ([Pin Pid] & (Min & Mp & Mo & Mc) & Er & _).
  destruct (fresh_tables db input now p m db1 db' Hfr) as (Em & Ep & Ee). simpl in Em, Ep.
  pose proof (fr_admitted _ _ _ _ _ _ _ Hfr) as Ha%admit_promise.
  pose proof (rb_open _ _ _ _ _ (fr_replaceable _ _ _ _ _ _ _ Hfr)) as Ho.
  rewrite (adm_pools _ _ _ Ha) in Pin, Ep. rewrite (adm_members _ _ _ Ha) in Min, Em. rewrite Er in *.
  destruct (decide (other = ri_pool input)) as [Eo|Hne].
  - rewrite (view_Some db other p Hk Pin) by congruence.
    rewrite (view_Some db' other (with_revision (pl_revision p + 1) p)); [|apply (wf_keys _ Hw')| |simpl; congruence].
    2:{ rewrite Ep. apply elem_of_update_where. exists p. split; [done|]. by rewrite decide_True. }
    unfold team_of at 2. simpl. rewrite (open_undone db p (so_settled _ Hs) Pin Ho).
    assert (log_of db' (pl_id p) = log_of db (pl_id p) ++
              [entry_with_seq (db_entry_seq db + 1) (announcement input (old_record input m) (pl_revision p + 1))]) as ->.
    { unfold log_of. rewrite Ee, filter_app, filter_cons, decide_True, filter_nil; [done|]. simpl. congruence. }
    assert (seats_of db' (pl_id p) =
              update_where (λ x, mb_agent x = mb_agent m) (replaced_with (ri_new_id input)) (seats_of db (pl_id p)) ++
              [seat_for input (old_record input m) (pl_revision p + 1)]) as ->.
    { unfold seats_of. rewrite Em, filter_app, filter_cons, decide_True, filter_nil by (simpl; congruence).
      f_equal. apply filter_update_same; [done|]. intros x _ Hx. rewrite Hx, Mo, Pid. tauto. }
    apply (act_swap (team_of db p) m (seat_for input (old_record input m) (pl_revision p + 1))); simpl; try done.
    + by apply (open_undone db p (so_settled _ Hs)).
    + apply list_elem_of_filter. split; [congruence|done].
    + intros x Hx. by apply (log_seq db (pl_id p)).
  - assert (view db' other = view db other) as ->; [|constructor]. unfold view. rewrite Ep.
    rewrite first_where_update by done. destruct (first_where _ _) as [q|] eqn:Eq; [|done]. simpl.
    apply first_where_Some in Eq as [Hq _]. rewrite decide_False by congruence. unfold team_of. do 2 f_equal.
    + unfold log_of. rewrite Ee, filter_app, filter_cons, decide_False, filter_nil, app_nil_r; [done|]. simpl. congruence.
    + unfold seats_of. rewrite Em, filter_app, filter_update_other, filter_cons, decide_False, filter_nil, app_nil_r;
        [done|simpl; congruence|]. intros x [Hx _]. simpl. rewrite Hx. split; congruence.
Qed.

(** ** Admission *)

Lemma admission_view db id db' pool : admission_frame db id db' → view db' pool = view db pool.
Proof.
  intros Hf. apply view_core; [by rewrite (adm_pools _ _ _ Hf)|apply (adm_entries _ _ _ Hf)|apply (adm_members _ _ _ Hf)].
Qed.

Lemma created_acts db (input : PoolAdmissionInput Inputs) uuid db' pool :
  wf db → created_pool db input uuid db' → acts (view db pool) (view db' pool).
Proof.
  intros Hw Hc. destruct (cp_pools _ _ _ _ Hc) as [session Ep].
  pose proof (cp_members _ _ _ _ Hc) as Em. pose proof (cp_entries _ _ _ _ Hc) as Ee.
  unfold view. rewrite Ep, first_where_app.
  destruct (first_where _ (db_pools db)) as [p|] eqn:Ef.
  - apply first_where_Some in Ef as [Hid Hp]. simpl.
    assert (team_of db' p = team_of db p) as ->; [|constructor]. unfold team_of, log_of, seats_of.
    rewrite Ee, Em, filter_app, (filter_none _ (map _ _)), app_nil_r; [done|].
    intros x (m & -> & _)%list_elem_of_fmap E. simpl in E. by destruct (cp_fresh _ _ _ _ Hc p Hp).
  - rewrite first_where_cons. case_decide as Hd; [|constructor]. simpl in Hd. simpl. subst pool.
    pose proof (proj1 (first_where_None _ _) Ef) as Hnone.
    assert (team_of db' (new_pool input session) =
            mk_team (pi_acceptance input) [] (map (seat_of input) (pi_members input)) 1 None) as ->.
    { unfold team_of, log_of, seats_of. simpl. rewrite Ee, Em, filter_app.
      rewrite (filter_none _ (db_entries db)), (filter_none _ (db_members db)).
      - simpl. f_equal. clear. induction (pi_members input) as [|m l IH]; [done|]. simpl map.
        rewrite filter_cons, decide_True by done. by f_equal.
      - intros m Hm E. destruct (seat_pool _ _ (wf_members _ Hw m Hm)) as (q & Hq & Hqid).
        apply (Hnone q Hq). congruence.
      - intros e He E. destruct (wf_homes _ Hw e He) as (q & Hq & Hqid). apply (Hnone q Hq). congruence. }
    apply act_open. apply Forall_map, Forall_forall. by intros.
Qed.

(** ** The simulation *)

Lemma step_acts db db' pool : sound db → step db db' → acts (view db pool) (view db' pool).
Proof.
  intros Hs Hstep. pose proof (so_wf _ Hs) as Hw. pose proof (wf_keys _ Hw) as Hk.
  assert (quiet db db' → acts (view db pool) (view db' pool)) as HQ.
  { intros Q. rewrite (view_quiet _ _ pool Q). constructor. }
  assert ((∃ d e, post db d e db') → acts (view db pool) (view db' pool)) as HP.
  { intros (d & e & P). by eapply post_acts. }
  pose proof (step_sound db db' Hs Hstep) as [Hs' _].
  destruct Hstep as [? ? ? ? ? ? E|? ? ? ? V E|? ? ? ? ? ? ? E|? ? ? E|? ? ? ? ? ? E|? ? r V E|? ? ? r V E|? ? V E|? V E
    |? ? ? ? ? E|? ? ? ? ? ? ? E|? ? ? ? ? ? ? E|? E|? ? ? ? E|? ? ? ? ? ? ? ? E|E].
  - apply write_post in E as [->|[e P]]; [by apply HQ|eauto|done].
  - apply operator_post in E as [->|[e P]]; [by apply HQ|eauto|done..].
  - apply notify_post in E as [Q|P]; [by apply HQ|eauto|done].
  - apply settle_pool_step in E as [Q|(d & ready & Q & Ee & -> & _)]; [by apply HQ|].
    rewrite <-(view_quiet _ _ pool Q). apply completing_acts; [by eapply quiet_sound|done].
  - apply HQ. by eapply bind_pool_quiet.
  - apply replace_Accepted in E. destruct (rp_created r); [|destruct E as [-> _]; by apply HQ].
    destruct E as (p & m & db1 & Hfr & Hpos & _). eapply replacing_acts; try done. apply Hs'.
  - apply admit_pool_Ok in E; [|done|apply Hs|done]. destruct (pd_created r); [|destruct E as [-> _]; by apply HQ].
    destruct E as [Hc _]. by eapply created_acts.
  - apply admit_promise in E. rewrite (admission_view _ _ _ pool E). constructor.
  - rewrite (admission_view _ _ _ pool E). constructor.
  - apply HQ. by eapply issue_quiet.
  - apply HQ. by eapply register_quiet.
  - apply HQ. by eapply finish_quiet.
  - apply HQ. subst db'. apply observe_quiet.
  - apply HQ. by eapply turn_quiet.
  - apply HQ. by eapply terminal_quiet.
  - by apply HQ.
Qed.

Lemma run_acts db pool : rtc step initial db → rtc acts None (view db pool) ∧ sound db.
Proof.
  revert db. apply (rtc_ind_r (R := step) (λ db, rtc acts None (view db pool) ∧ sound db) initial).
  - split; [apply rtc_refl|apply initial_sound].
  - intros x y R S [A Hs]. split; [|by apply (step_sound x y)]. eapply rtc_r; [exact A|by apply step_acts].
Qed.

(** C3: The transactions implement the pool protocol.  Seen through the
    abstraction, every run of the system from an empty store is, for every
    pool, a run of the abstract machine, and every transaction is one of its
    actions: opening a team, posting an entry stamped with the current roster
    by a current seat (a vote only on the newest proposal), handing a slot to
    a successor, or completing an agreed team; or it leaves the pool alone. *)
Theorem system_refines_protocol db db' pool :
  rtc step initial db → step db db' →
  rtc acts None (view db pool) ∧ acts (view db pool) (view db' pool).
Proof. intros R S. destruct (run_acts db pool R) as [A Hs]. split; [done|by apply step_acts]. Qed.

(** C4: A completed pool has agreed, and its log proves it.  In every
    reachable state the log of a completed pool has a newest proposal, made
    under the current roster, such that the last word of every current seat on
    it is a ready vote that judges each acceptance criterion exactly once and
    finds it met; and there are at least two current seats. *)
Theorem completed_means_agreed db p :
  rtc step initial db → p ∈ db_pools db → pl_state p = Completed → agreed (team_of db p).
Proof.
  intros R Hp Hc. destruct (run_acts db (pl_id p) R) as [A Hs]. pose proof (wf_keys _ (so_wf _ Hs)) as Hk.
  rewrite (view_Some db (pl_id p) p Hk Hp eq_refl) in A. apply (acts_agreed _ A); [done|].
  simpl. by apply (sl_delivery _ (so_settled _ Hs)).
Qed.
End refines.

(** ** A concrete run to completion *)

(** The two members with their attempts in a given status. *)
Definition demo_members (status : Status) (db : Db) : Db :=
  set_attempts [demo_attempt "t-a" "ag-a" status; demo_attempt "t-b" "ag-b" status]
    (set_capabilities [demo_capability "t-a" 1; demo_capability "t-b" 2]
       (set_agents [demo_agent "ag-a" status; demo_agent "ag-b" status] db)).

Definition demo_running : Db := demo_members Running demo_started.

Definition demo_write (db : Db) (run attempt : string) (n : Z) (w : PoolWrite) : Db :=
  match pool_write_tx db run attempt (demo_token n) w (of_Z 150) with Ok (Accepted d _) => d | _ => db end.

Definition demo_proposed : Db :=
  demo_write demo_running "ag-a" "t-a" 1 (WProposal (mk_propose "p1" "please vote" "the result")).

Definition demo_vote : PoolWrite := WVote (mk_vote "v1" 1 Ready [demo_check] None).

Definition demo_half : Db := demo_write demo_proposed "ag-a" "t-a" 1 demo_vote.
Definition demo_voted : Db := demo_write demo_half "ag-b" "t-b" 2 demo_vote.

Definition demo_settled : Db :=
  fst (settle_pool (demo_members Succeeded demo_voted) "pool-9" (mk_env (of_Z 300) (λ a, a) "u")).

Lemma demo_moves : moves Created Running ∧ moves Running Succeeded.
Proof.
  split; [apply (lifecycle_moves _ [Starting])|apply (lifecycle_moves _ [])];
    repeat (apply lifecycle_move; [reflexivity|]); apply lifecycle_stop.
Qed.

Lemma demo_quiet from to db :
  moves from to →
  Forall2 (λ a a', ag_id a' = ag_id a ∧ ag_root a' = ag_root a ∧ ag_status a = from ∧ ag_status a' = to)
    (db_agents db) [demo_agent "ag-a" to; demo_agent "ag-b" to] →
  quiet db (demo_members to db).
Proof.
  intros M F. assert (map ag_id (db_agents (demo_members to db)) = map ag_id (db_agents db)) as Eid.
  { simpl. clear M. by repeat (apply Forall2_cons_inv_r in F as (? & ? & (? & _) & F & ->); simpl; f_equal; [done|]);
      apply Forall2_nil_inv_r in F as ->. }
  split; try done.
  - intros a Ha. apply list_elem_of_lookup in Ha as [i Hi].
    destruct (Forall2_lookup_l _ _ _ _ _ F Hi) as (a' & Ha' & ? & ? & ? & ?). exists a'.
    split; [by eapply list_elem_of_lookup_2|]. split; [done..|congruence].
  - intros []. split; try done; [by rewrite Eid|apply (bool_decide_unpack _); by vm_compute..].
Qed.

Lemma demo_write_step db run attempt n w d r :
  pool_write_tx db run attempt (demo_token n) w (of_Z 150) = Ok (Accepted d r) →
  step db (demo_write db run attempt n w).
Proof. intros E. apply (step_write _ _ run attempt (demo_token n) w (of_Z 150) r). unfold demo_write. by rewrite E. Qed.

Lemma demo_history : rtc step initial demo_settled.
Proof.
  destruct demo_moves as [M1 M2]. destruct demo_run as [R _]. etrans; [exact R|].
  apply (rtc_l _ _ demo_running).
  { apply step_other, (demo_quiet Created); [exact M1|]. apply (bool_decide_unpack _). by vm_compute. }
  apply (rtc_l _ _ demo_proposed); [eapply demo_write_step; vm_compute; reflexivity|].
  apply (rtc_l _ _ demo_half); [eapply demo_write_step; vm_compute; reflexivity|].
  apply (rtc_l _ _ demo_voted); [eapply demo_write_step; vm_compute; reflexivity|].
  apply (rtc_l _ _ (demo_members Succeeded demo_voted)).
  { apply step_other, (demo_quiet Running); [exact M2|]. apply (bool_decide_unpack _). by vm_compute. }
  apply rtc_once. eapply (step_settle _ _ "pool-9" (mk_env (of_Z 300) (λ a, a) "u")). apply surjective_pairing.
Qed.

Lemma system_refines_protocol_witness :
  acts (view demo_started "pool-9") (view demo_told "pool-9") ∧ view demo_started "pool-9" ≠ view demo_told "pool-9".
Proof.
  split; [|by vm_compute]. apply system_refines_protocol; [apply demo_run|].
  by eapply (step_operator _ _ "pool-9" "k1" "go"); vm_compute.
Defined.

Lemma completed_means_agreed_witness :
  ∃ p, p ∈ db_pools demo_settled ∧ pl_delivery p = Some "ntf_u"%string ∧ agreed (team_of demo_settled p).
Proof.
  destruct (db_pools demo_settled) as [|p l] eqn:E; [by vm_compute in E|]. exists p.
  assert (p ∈ db_pools demo_settled) as Hp by (rewrite E; left).
  assert (pl_state p = Completed ∧ pl_delivery p = Some "ntf_u"%string) as [Hc Hd]
    by (vm_compute in E; injection E as <- _; by split).
  split; [left|]. split; [exact Hd|]. exact (completed_means_agreed demo_settled p demo_history Hp Hc).
Defined.
