(* ===== verification/Reading.v ===== *)
(** * Reading the log

    The cursor pages of [read_page]: on a sound state a page never fails, and a
    client that follows the cursors, forward or backward, sees every entry
    exactly once and in order.  A reader that continues from its last cursor
    after any further transactions sees exactly what was added. *)

From stdpp Require Import relations.
From S2P Require Import Prelude Text Float64 Json Canonical Catalogs Lifecycle Requests.
From S2P Require Import PoolDomain Tables Demo Roster World History WorkerStore.
From S2P Require Import Sessions ServiceRestart PoolEnrollment PoolLog PoolWrites PoolSettle.
From S2P Require Import Settlement PoolReplace PoolAdmit Replacement Replays Admissions.
From S2P Require Import WorkerFinish Terminal Steps Posts PoolSystem Reachable.

(** ** Pages *)

Section reading.
Context {Inputs : Type} `{Admission Inputs, Serde, EventJson, Unicode, Host, Sha256, JsonSchema}.

#[local] Instance by_seq_trans : Transitive by_seq.
Proof. intros x y z. unfold by_seq. lia. Qed.
#[local] Instance by_seq_total : Total by_seq.
Proof. intros x y. unfold by_seq. lia. Qed.

Lemma log_ordered db pool : keys_ok db → StronglySorted (λ x y, en_seq x < en_seq y) (log_of db pool).
Proof.
  intros Hk. apply (ordered_filter en_seq). pose proof (keys_entries _ Hk) as Hs.
  induction (db_entries db) as [|e l IH]; [constructor|]. apply StronglySorted_inv in Hs as [Hs F].
  constructor; [auto|]. by apply (proj1 (List.Forall_map _ _ _)) in F.
Qed.

(** The entries after, and before, a cursor. *)
Definition log_after (db : Db) (pool : string) (a : Z) : list EntryRow :=
  filter (λ e, a < en_seq e) (log_of db pool).
Definition log_before (db : Db) (pool : string) (b : Z) : list EntryRow :=
  filter (λ e, en_seq e < b) (log_of db pool).

Lemma as_i64_small x : x < 2 ^ 63 → as_i64 x = x.
Proof. intros Hx. unfold as_i64. by rewrite (proj2 (Z.ltb_lt _ _)). Qed.

Lemma page_rows_forward db pool a n :
  keys_ok db → a < 2 ^ 63 → page_rows db pool a None n = take (Z.to_nat (n + 1)) (log_after db pool a).
Proof.
  intros Hk Ha. unfold page_rows, log_after. rewrite (as_i64_small a Ha). f_equal.
  pose proof (ordered_filter en_seq (λ e, a < en_seq e) _ (log_ordered db pool Hk)) as Ho.
  unfold log_of in *. rewrite list_filter_filter in *.
  rewrite (list_filter_iff _ (λ e, a < en_seq e ∧ en_pool e = pool)) by tauto.
  by apply (ordered_sorted en_seq by_seq); [| |exact Ho]; unfold by_seq; intros; lia.
Qed.

Lemma page_rows_backward db pool a b n :
  keys_ok db → b < 2 ^ 63 →
  page_rows db pool a (Some b) n = take (Z.to_nat (n + 1)) (reverse (log_before db pool b)).
Proof.
  intros Hk Hb. unfold page_rows, log_before. rewrite (as_i64_small b Hb). do 2 f_equal.
  pose proof (ordered_filter en_seq (λ e, en_seq e < b) _ (log_ordered db pool Hk)) as Ho.
  unfold log_of in *. rewrite list_filter_filter in *.
  rewrite (list_filter_iff _ (λ e, en_seq e < b ∧ en_pool e = pool)) by tauto.
  by apply (ordered_sorted en_seq by_seq); [| |exact Ho]; unfold by_seq; intros; lia.
Qed.

(** ** Reads never fail *)

Lemma member_status_total db p proposal m :
  wf db → m ∈ db_members db → ∃ s, member_status db p proposal m = Ok s.
Proof.
  intros Hw Hm. destruct (seat_agent _ _ (wf_members _ Hw m Hm)) as (a & Ha & Ea). unfold member_status.
  destruct (tip_total db (mb_agent m) a) as (t & _ & -> & ->); [apply (keys_agents _ (wf_keys _ Hw))|done|by right|].
  simpl. destruct (match proposal with Some _ => _ | None => _ end). eauto.
Qed.

Lemma pool_status_total db p : wf db → p ∈ db_pools db → ∃ s, pool_status db (pl_id p) = Ok s.
Proof.
  intros Hw Hp. unfold pool_status. rewrite (first_where_key pl_id) by (done || apply (keys_pools _ (wf_keys _ Hw))).
  cbn [row ok_or]. destruct (if bool_decide _ then _ else _) as [s|]; [eauto|].
  destruct (traverse_total (member_status db p (current_proposal db (pl_id p))) (current_seats db (pl_id p)))
    as [ms ->]; [|eauto].
  intros m [Hm _]%current_seats_elem. by apply member_status_total.
Qed.

Lemma check_views_total db l :
  wf db → (∀ e, e ∈ l → e ∈ db_entries db) → ∃ us, traverse check_view (map entry_view l) = Ok us.
Proof.
  intros Hw Hl. apply traverse_total. intros v (e & -> & He)%list_elem_of_fmap. exists ().
  unfold check_view. by rewrite (legal_view_validate _ (wf_views _ Hw e (Hl e He))).
Qed.

(** ** One page *)

Lemma entry_seq_view db e : keys_ok db → e ∈ db_entries db → ev_seq (entry_view e) = en_seq e.
Proof. intros Hk He. simpl. pose proof (keys_entry_counter _ Hk e He). lia. Qed.

Lemma log_elem db pool e : e ∈ log_of db pool → e ∈ db_entries db.
Proof. by intros [_ He]%list_elem_of_filter. Qed.

Lemma take_elem {A} k (l : list A) x : x ∈ take k l → x ∈ l.
Proof. intros Hx. rewrite <-(take_drop k l). apply elem_of_app. by left. Qed.

Lemma take_length_take {A} k (l : list A) : take (length (take k l)) l = take k l.
Proof.
  rewrite length_take. destruct (le_lt_dec k (length l)) as [?|?]; [by rewrite Nat.min_l|].
  rewrite Nat.min_r by lia. by rewrite !take_ge by lia.
Qed.

Lemma short_taken {A} k (l : list A) : (length (take (S k) l) ≤ k ↔ length l ≤ k)%nat.
Proof. rewrite length_take. lia. Qed.

(** The last sequence number of a batch of rows. *)
Lemma last_seq db l :
  keys_ok db → (∀ e, e ∈ l → e ∈ db_entries db) →
  option_map ev_seq (last (map entry_view l)) = option_map en_seq (last l).
Proof.
  intros Hk Hl. pose proof (fmap_last entry_view l) as Em. unfold fmap, list_fmap in Em.
  change (last (map entry_view l) = option_map entry_view (last l)) in Em. rewrite Em.
  destruct (last l) as [e|] eqn:E; [|done]. simpl. f_equal. apply (entry_seq_view db); [done|]. apply Hl.
  by apply last_Some_elem_of.
Qed.

Lemma head_reverse_seq db l :
  keys_ok db → (∀ e, e ∈ l → e ∈ db_entries db) →
  option_map ev_seq (head (map entry_view (reverse l))) = option_map en_seq (last l).
Proof.
  intros Hk Hl. rewrite <-(last_seq db) by done. rewrite <-head_reverse. do 2 f_equal.
  unfold reverse. by rewrite !rev_append_rev, !app_nil_r, map_rev.
Qed.

(** A forward page: the first entries after the cursor, and the cursor of the
    next page unless nothing is left. *)
Lemma forward_page db p a k :
  wf db → p ∈ db_pools db → a < 2 ^ 63 →
  ∃ pg, pool_operator_read db (pl_id p) a None (Z.of_nat k) = Ok (inr pg) ∧
    pg_entries pg = map entry_view (take k (log_after db (pl_id p) a)) ∧
    pg_next_cursor pg =
      (if decide (length (log_after db (pl_id p) a) ≤ k)%nat then None
       else option_map en_seq (last (take k (log_after db (pl_id p) a)))) ∧
    pg_last_seq pg = option_map en_seq (last (take k (log_after db (pl_id p) a))) ∧
    (pg_complete pg = true ↔ (length (log_after db (pl_id p) a) ≤ k)%nat).
Proof.
  intros Hw Hp Ha. pose proof (wf_keys _ Hw) as Hk. unfold pool_operator_read.
  rewrite (proj2 (exists_where_true _ _)) by (by exists p). simpl.
  unfold read_page. destruct (pool_status_total db p Hw Hp) as [s ->]. simpl.
  rewrite page_rows_forward, Nat2Z.id by done. replace (Z.to_nat (Z.of_nat k + 1)) with (S k) by lia.
  rewrite firstn_map, take_take, Nat.min_l by lia.
  set (rows := log_after db (pl_id p) a) in *.
  assert (∀ e, e ∈ take k rows → e ∈ db_entries db) as Hr.
  { intros e [_ He]%take_elem%list_elem_of_filter. by apply log_elem in He. }
  destruct (check_views_total db (take k rows) Hw Hr) as [us ->]. simpl.
  eexists. split; [done|]. split; [done|]. simpl. rewrite length_map, (last_seq db) by done.
  case_decide as Hd.
  - rewrite (proj2 (Z.leb_le _ _)); [done|]. apply short_taken in Hd. lia.
  - rewrite (proj2 (Z.leb_gt _ _)); [done|]. rewrite <-short_taken in Hd. lia.
Qed.

(** A backward page: the last entries before the cursor, oldest first. *)
Lemma backward_page db p b k :
  wf db → p ∈ db_pools db → b < 2 ^ 63 →
  ∃ pg, pool_operator_read db (pl_id p) 0 (Some b) (Z.of_nat k) = Ok (inr pg) ∧
    pg_entries pg = map entry_view (reverse (take k (reverse (log_before db (pl_id p) b)))) ∧
    pg_next_cursor pg =
      if decide (length (log_before db (pl_id p) b) ≤ k)%nat then None
      else option_map en_seq (last (take k (reverse (log_before db (pl_id p) b)))).
Proof.
  intros Hw Hp Hb. pose proof (wf_keys _ Hw) as Hk. unfold pool_operator_read.
  rewrite (proj2 (exists_where_true _ _)) by (by exists p). simpl.
  unfold read_page. destruct (pool_status_total db p Hw Hp) as [s ->]. simpl.
  rewrite page_rows_backward, Nat2Z.id by done. replace (Z.to_nat (Z.of_nat k + 1)) with (S k) by lia.
  rewrite firstn_map, take_take, Nat.min_l by lia.
  set (rows := reverse (log_before db (pl_id p) b)) in *.
  assert (length (log_before db (pl_id p) b) = length rows) as -> by (unfold rows; by rewrite length_reverse).
  assert (∀ e, e ∈ take k rows → e ∈ db_entries db) as Hr.
  { intros e He%take_elem. unfold rows in He. apply elem_of_reverse, list_elem_of_filter in He as [_ He].
    by apply log_elem in He. }
  assert (reverse (map entry_view (take k rows)) = map entry_view (reverse (take k rows))) as ->.
  { unfold reverse. by rewrite !rev_append_rev, map_app, map_rev. }
  destruct (check_views_total db (reverse (take k rows)) Hw) as [us ->]; [intros e He; rewrite elem_of_reverse in He; auto|]. simpl.
  eexists. split; [done|]. split; [done|]. simpl. rewrite length_map, (head_reverse_seq db) by done.
  case_decide as Hd.
  - rewrite (proj2 (Z.leb_le _ _)); [done|]. apply short_taken in Hd. lia.
  - rewrite (proj2 (Z.leb_gt _ _)); [done|]. rewrite <-short_taken in Hd. lia.
Qed.

(** ** Following the cursors *)

(** A client that asks for page after page, [fuel] pages at most. *)
Fixpoint read_forward (fuel : nat) (db : Db) (pool : string) (a n : Z) : option (list PoolEntryView) :=
  match fuel with
  | O => None
  | S fuel =>
      match pool_operator_read db pool a None n with
      | Ok (inr pg) =>
          match pg_next_cursor pg with
          | None => Some (pg_entries pg)
          | Some c => option_map (app (pg_entries pg)) (read_forward fuel db pool c n)
          end
      | _ => None
      end
  end.

Fixpoint read_backward (fuel : nat) (db : Db) (pool : string) (b n : Z) : option (list PoolEntryView) :=
  match fuel with
  | O => None
  | S fuel =>
      match pool_operator_read db pool 0 (Some b) n with
      | Ok (inr pg) =>
          match pg_next_cursor pg with
          | None => Some (pg_entries pg)
          | Some c => option_map (λ older, older ++ pg_entries pg) (read_backward fuel db pool c n)
          end
      | _ => None
      end
  end.

(** What is left after an incomplete page. *)
Lemma after_next db pool a k x :
  keys_ok db → last (take k (log_after db pool a)) = Some x →
  log_after db pool (en_seq x) = drop k (log_after db pool a).
Proof. intros Hk. apply (above_taken en_seq). by apply log_ordered. Qed.

Lemma before_next db pool b k x :
  keys_ok db → last (take k (reverse (log_before db pool b))) = Some x →
  reverse (log_before db pool (en_seq x)) = drop k (reverse (log_before db pool b)).
Proof. intros Hk. apply (below_taken en_seq). by apply log_ordered. Qed.

Lemma last_taken {A} k (l : list A) : (1 ≤ k → k < length l → ∃ x, last (take k l) = Some x)%nat.
Proof.
  intros Hpos Hk. destruct (last (take k l)) as [x|] eqn:E; [eauto|].
  apply last_None in E. apply (f_equal length) in E. rewrite length_take in E. simpl in E. lia.
Qed.

Lemma seq_small db pool e : keys_ok db → db_entry_seq db < 2 ^ 63 → e ∈ log_of db pool → en_seq e < 2 ^ 63.
Proof. intros Hk Hs He%log_elem. pose proof (keys_entry_counter _ Hk e He). lia. Qed.

Lemma forward_pages db p k fuel a :
  wf db → p ∈ db_pools db → db_entry_seq db < 2 ^ 63 → (1 ≤ k)%nat → a < 2 ^ 63 → (1 ≤ fuel)%nat →
  (length (log_after db (pl_id p) a) ≤ fuel * k)%nat →
  read_forward fuel db (pl_id p) a (Z.of_nat k) = Some (map entry_view (log_after db (pl_id p) a)).
Proof.
  intros Hw Hp Hs Hk. revert a. induction fuel as [|fuel IH]; intros a Ha Hf Hl; [lia|]. simpl.
  destruct (forward_page db p a k Hw Hp Ha) as (pg & -> & -> & -> & _). case_decide as Hd.
  - by rewrite take_ge by done.
  - destruct (last_taken k (log_after db (pl_id p) a) Hk) as [x Hx]; [lia|]. rewrite Hx. simpl.
    pose proof (after_next db _ a k x (wf_keys _ Hw) Hx) as Hn.
    rewrite IH; [| |nia|rewrite Hn, length_drop; nia].
    + simpl. by rewrite Hn, <-map_app, take_drop.
    + apply (seq_small db (pl_id p)); [apply Hw|done|].
      by apply last_Some_elem_of, take_elem, list_elem_of_filter in Hx as [_ Hx].
Qed.

Lemma backward_pages db p k fuel b :
  wf db → p ∈ db_pools db → db_entry_seq db < 2 ^ 63 → (1 ≤ k)%nat → b < 2 ^ 63 → (1 ≤ fuel)%nat →
  (length (log_before db (pl_id p) b) ≤ fuel * k)%nat →
  read_backward fuel db (pl_id p) b (Z.of_nat k) = Some (map entry_view (log_before db (pl_id p) b)).
Proof.
  intros Hw Hp Hs Hk. revert b. induction fuel as [|fuel IH]; intros b Hb Hf Hl; [lia|]. simpl.
  destruct (backward_page db p b k Hw Hp Hb) as (pg & -> & -> & ->). case_decide as Hd.
  - by rewrite take_ge, reverse_involutive by (by rewrite length_reverse).
  - destruct (last_taken k (reverse (log_before db (pl_id p) b)) Hk) as [x Hx]; [rewrite length_reverse; lia|].
    rewrite Hx. simpl. pose proof (before_next db _ b k x (wf_keys _ Hw) Hx) as Hn.
    assert (length (log_before db (pl_id p) (en_seq x)) = length (log_before db (pl_id p) b) - k)%nat as El.
    { by rewrite <-length_reverse, Hn, length_drop, length_reverse. }
    rewrite IH; [| |nia|nia].
    + simpl. rewrite <-map_app. do 2 f_equal. apply (inj reverse).
      by rewrite reverse_app, Hn, reverse_involutive, take_drop.
    + apply (seq_small db (pl_id p)); [apply Hw|done|].
      apply last_Some_elem_of, take_elem, elem_of_reverse, list_elem_of_filter in Hx as [_ Hx]. done.
Qed.

(** Following the cursors reads the whole log.  On a well-formed state a
    page of an existing pool never fails.  A client that asks for pages of
    [k] entries, each from the cursor of the one before, stops after
    [length / k] pages (rounded up) and has every entry after its first cursor
    exactly once, in order; a client that pages backwards has every entry
    before its first cursor, also in order. *)
Theorem paging_reads_everything db p k fuel a b :
  wf db → p ∈ db_pools db → db_entry_seq db < 2 ^ 63 → (1 ≤ k)%nat → a < 2 ^ 63 → b < 2 ^ 63 →
  (length (log_of db (pl_id p)) ≤ fuel * k)%nat → (1 ≤ fuel)%nat →
  read_forward fuel db (pl_id p) a (Z.of_nat k) =
    Some (map entry_view (filter (λ e, a < en_seq e) (log_of db (pl_id p)))) ∧
  read_backward fuel db (pl_id p) b (Z.of_nat k) =
    Some (map entry_view (filter (λ e, en_seq e < b) (log_of db (pl_id p)))).
Proof.
  intros Hw Hp Hs Hk Ha Hb Hl Hf. split.
  - apply forward_pages; try done. unfold log_after.
    etransitivity; [apply length_filter|done].
  - apply backward_pages; try done. unfold log_before.
    etransitivity; [apply length_filter|done].
Qed.

(** ** A reader beside writers *)

(** A reader that takes pages of at most [n] entries, always from the last
    entry it has seen, while other transactions commit between its pages:
    from the state and cursor at which it starts to those at which it is. *)
Inductive follows (pool : string) (n : Z) : Db → Z → list PoolEntryView → Z → Db → Prop :=
  | follows_here db a : follows pool n db a [] a db
  | follows_page db a pg db1 seen c db' :
      pool_operator_read db pool a None n = Ok (inr pg) → rtc step db db1 →
      follows pool n db1 (default a (pg_last_seq pg)) seen c db' →
      follows pool n db a (pg_entries pg ++ seen) c db'.

Lemma follows_rtc pool n db a seen c db' : follows pool n db a seen c db' → rtc step db db'.
Proof. induction 1; [done|]. by etransitivity. Qed.

(** The log of a later state begins with the log of an earlier one. *)
Lemma log_after_grows db db' pool a : later db db' → log_after db pool a `prefix_of` log_after db' pool a.
Proof.
  intros L. destruct (lt_entries _ _ L) as [new E]. unfold log_after, log_of. rewrite E, !filter_app. by eexists.
Qed.

(** What a page showed, a page of the same cursor still shows first. *)
Lemma page_kept db db' pool a k :
  keys_ok db' → later db db' →
  let page := take k (log_after db pool a) in
  log_after db' pool a = page ++ log_after db' pool (default a (option_map en_seq (last page))).
Proof.
  intros Hk L page. destruct (log_after_grows db db' pool a L) as [new E].
  assert (page = take (length page) (log_after db' pool a)) as Ep.
  { rewrite E, take_app_le; [|unfold page; rewrite length_take; lia].
    unfold page. by rewrite take_length_take. }
  destruct (last page) as [x|] eqn:El; simpl; [|by rewrite (proj1 (last_None page) El)].
  rewrite (after_next db' pool a (length page) x Hk) by (by rewrite <-Ep).
  rewrite Ep at 1. by rewrite take_drop.
Qed.

Lemma pool_later db db' p :
  later db db' → p ∈ db_pools db → ∃ p', p' ∈ db_pools db' ∧ pl_id p' = pl_id p.
Proof. intros L Hp. destruct (lt_pools _ _ L p Hp) as (p' & Hp' & Hk). exists p'. split; [done|]. apply (pk_id _ _ Hk). Qed.

Lemma follows_log db p k a seen c db' :
  sound db → p ∈ db_pools db → db_entry_seq db' < 2 ^ 63 → a < 2 ^ 63 →
  follows (pl_id p) (Z.of_nat k) db a seen c db' →
  c < 2 ^ 63 ∧ map entry_view (log_after db' (pl_id p) a) = seen ++ map entry_view (log_after db' (pl_id p) c).
Proof.
  intros Hs Hp Hn Ha F. remember (pl_id p) as pool eqn:Epool. revert p Epool Hs Hp Hn Ha.
  induction F as [db a|db a pg db1 seen c db' E R F IH]; intros p -> Hs Hp Hn Ha; [done|].
  destruct (steps_sound _ _ Hs R) as [Hs1 L1]. destruct (pool_later db db1 p L1 Hp) as (p1 & Hp1 & Ep1).
  destruct (steps_sound _ _ Hs1 (follows_rtc _ _ _ _ _ _ _ F)) as [Hs' L'].
  assert (later db db') as L by (by etransitivity).
  destruct (forward_page db p a k (so_wf _ Hs) Hp Ha) as (pg' & E' & Eent & _ & Elast & _).
  rewrite E in E'. injection E' as <-. rewrite Elast in *. rewrite Eent.
  pose proof (page_kept db db' (pl_id p) a k (wf_keys _ (so_wf _ Hs')) L) as Hk. simpl in Hk.
  destruct (IH p1) as [Hc Hseen]; try done.
  { destruct (last _) as [x|] eqn:El; [|done]. simpl. apply (seq_small db' (pl_id p)); [apply Hs'|done|].
    assert (x ∈ log_after db' (pl_id p) a) as [_ Hx]%list_elem_of_filter; [|done].
    rewrite Hk. apply elem_of_app. left. by apply last_Some_elem_of. }
  split; [done|]. rewrite Hk, map_app, Hseen. by rewrite app_assoc.
Qed.

(** C33: A reader beside writers misses nothing and sees nothing twice.  Let a
    reader take pages of a pool, each from the last entry it has seen, while
    other transactions commit between any two pages.  What it has seen is
    exactly the log after its first cursor up to its current one, in order,
    and the next page never fails; once a page is complete the reader has the
    whole log of that moment. *)
Theorem reader_misses_nothing db p k a seen c db' :
  sound db → p ∈ db_pools db → db_entry_seq db' < 2 ^ 63 → a < 2 ^ 63 →
  follows (pl_id p) (Z.of_nat k) db a seen c db' →
  map entry_view (filter (λ e, a < en_seq e) (log_of db' (pl_id p))) =
    seen ++ map entry_view (filter (λ e, c < en_seq e) (log_of db' (pl_id p))) ∧
  ∃ pg, pool_operator_read db' (pl_id p) c None (Z.of_nat k) = Ok (inr pg) ∧
    (pg_complete pg = true →
       seen ++ pg_entries pg = map entry_view (filter (λ e, a < en_seq e) (log_of db' (pl_id p)))).
Proof.
  intros Hs Hp Hn Ha F. destruct (follows_log db p k a seen c db' Hs Hp Hn Ha F) as [Hc Hseen].
  split; [exact Hseen|]. destruct (steps_sound _ _ Hs (follows_rtc _ _ _ _ _ _ _ F)) as [Hs' L'].
  destruct (pool_later db db' p L' Hp) as (p' & Hp' & Ep).
  destruct (forward_page db' p' c k (so_wf _ Hs') Hp' Hc) as (pg & E & Eent & _ & _ & Hcomp). rewrite Ep in *.
  exists pg. split; [done|]. intros Hle%Hcomp. rewrite Eent, take_ge by done. symmetry. exact Hseen.
Qed.
End reading.

(** ** A concrete log *)

Definition demo_post (db : Db) (key message : string) : Db :=
  match pool_operator_post db "pool-9" key message with Ok (Accepted d _) => d | _ => db end.

(** Two more instructions by the operator. *)
Definition demo_log : Db := demo_post (demo_post demo_told "k2" "on") "k3" "stop".

Lemma demo_post_step db key message d r :
  pool_post_validate (mk_post "pool-9" key message) = Ok () →
  pool_operator_post db "pool-9" key message = Ok (Accepted d r) → step db (demo_post db key message).
Proof. intros V E. apply (step_operator _ _ "pool-9" key message r V). unfold demo_post. by rewrite E. Qed.

Lemma demo_told_log : rtc step demo_told demo_log.
Proof.
  apply (rtc_l _ _ (demo_post demo_told "k2" "on")); [eapply demo_post_step; by vm_compute|].
  apply rtc_once. eapply demo_post_step; by vm_compute.
Qed.

Lemma demo_told_sound : sound demo_told.
Proof. apply (steps_sound _ _ initial_sound). destruct demo_run. by etrans. Qed.

Definition demo_pool9 : PoolRow :=
  default (demo_pool Open) (head (db_pools demo_told)).

Lemma demo_pool9_in : demo_pool9 ∈ db_pools demo_told ∧ demo_pool9 ∈ db_pools demo_log ∧ pl_id demo_pool9 = "pool-9"%string.
Proof.
  split_and!; [| |by vm_compute].
  - apply head_Some_elem_of. by vm_compute.
  - apply head_Some_elem_of. by vm_compute.
Qed.

Definition demo_lines (l : option (list PoolEntryView)) : option (list (Z * string)) :=
  option_map (map (λ v, (ev_seq v, ev_body v))) l.

Lemma paging_reads_everything_witness :
  read_forward 3 demo_log (pl_id demo_pool9) 0 1 =
    Some (map entry_view (filter (λ e, 0 < en_seq e) (log_of demo_log (pl_id demo_pool9)))) ∧
  demo_lines (read_forward 3 demo_log "pool-9" 0 1) = Some [(1, "go"); (2, "on"); (3, "stop")]%string ∧
  demo_lines (read_backward 3 demo_log "pool-9" 3 1) = Some [(1, "go"); (2, "on")]%string.
Proof.
  split; [|by vm_compute].
  refine (proj1 (paging_reads_everything demo_log demo_pool9 1 3 0 3 _ _ _ _ _ _ _ _)).
  - apply (steps_sound _ _ demo_told_sound demo_told_log).
  - apply demo_pool9_in.
  - apply Z.ltb_lt. by vm_compute.
  - lia.
  - lia.
  - lia.
  - apply Nat.leb_le. by vm_compute.
  - lia.
Defined.

Definition demo_first : PoolEntryView := default (mk_view 0 0 ABroker None None None Team KMessage None None None "")
  (head (map entry_view (db_entries demo_told))).

Lemma reader_misses_nothing_witness :
  map entry_view (filter (λ e, 0 < en_seq e) (log_of demo_log (pl_id demo_pool9))) =
    [demo_first] ++ map entry_view (filter (λ e, 1 < en_seq e) (log_of demo_log (pl_id demo_pool9))).
Proof.
  apply (reader_misses_nothing demo_told demo_pool9 1 0 [demo_first] 1 demo_log).
  - exact demo_told_sound.
  - apply demo_pool9_in.
  - apply Z.ltb_lt. by vm_compute.
  - lia.
  - destruct (pool_operator_read demo_told (pl_id demo_pool9) 0 None 1) as [[|pg]|] eqn:E; try (by vm_compute in E).
    assert ([demo_first] = pg_entries pg ++ [] ∧ default 0 (pg_last_seq pg) = 1) as [-> E1].
    { vm_compute in E. injection E as <-. by vm_compute. }
    apply (follows_page _ _ _ _ pg demo_log); [exact E|exact demo_told_log|]. rewrite E1. apply follows_here.
Defined.
