(* ===== verification/Redact.v ===== *)
(** * Redaction of diagnostics

    The tails of process output that a delivery attempt may keep
    ([delivery.rs], [redact_tail]): every line is cut at a secret marker and
    the whole is bounded.  A string operation that panics off a character
    boundary is [None]. *)

From Stdlib Require Import Ascii.
From S2P Require Import Prelude Text.

Definition MAX_EVIDENCE_TAIL_BYTES : nat := 4096.

(** [str::find(&str)]. *)
Fixpoint str_find (p s : string) : option nat :=
  if starts_with p s then Some 0%nat
  else match s with
       | EmptyString => None
       | String _ s' => option_map S (str_find p s')
       end.

Definition is_break (c : ascii) : bool := (u8 c =? 10) || (u8 c =? 13).

(** [str::find(['\n', '\r'])]. *)
Fixpoint find_break (s : string) : option nat :=
  match s with
  | EmptyString => None
  | String c s' => if is_break c then Some 0%nat else option_map S (find_break s')
  end.

(** [s[i..]]. *)
Definition str_from (s : string) (i : nat) : option string :=
  if is_char_boundary s i then Some (slice s i (String.length s)) else None.

(** [String::replace_range(start..end_, text)]. *)
Definition replace_range (s : string) (start end_ : nat) (text : string) : option string :=
  if is_char_boundary s start && is_char_boundary s end_
  then Some (slice s 0 start +:+ text +:+ slice s end_ (String.length s))
  else None.

Definition REDACTED : string := "[redacted]".

Definition MARKERS : list string :=
  ["authorization"; "api_key"; "api-key"; "token"; "secret"; "password"; "bearer "]%string.

(** The inner loop: from the cursor on, each occurrence of the marker and the
    rest of its line are replaced.  Every pass consumes part of the text. *)
Fixpoint redact_marker (fuel : nat) (marker safe : string) (cursor : nat) : option string :=
  match fuel with
  | O => None
  | S fuel =>
      rest ← str_from safe cursor;
      match str_find marker (to_ascii_lowercase rest) with
      | None => Some safe
      | Some found =>
          let start := (cursor + found)%nat in
          tail ← str_from safe start;
          let end_ := match find_break tail with
                      | Some offset => start + offset
                      | None => String.length safe
                      end%nat in
          safe ← replace_range safe start end_ REDACTED;
          redact_marker fuel marker safe (start + String.length REDACTED)
      end
  end.

(** [while !safe.is_char_boundary(start) { start += 1 }]. *)
Fixpoint boundary_above (fuel : nat) (s : string) (i : nat) : nat :=
  match fuel with
  | O => i
  | S fuel => if is_char_boundary s i then i else boundary_above fuel s (S i)
  end.

(** The outer bound: [while safe.len() > MAX_EVIDENCE_TAIL_BYTES]. *)
Fixpoint shorten (fuel : nat) (safe : string) : option string :=
  if (String.length safe <=? MAX_EVIDENCE_TAIL_BYTES)%nat then Some safe
  else match fuel with
       | O => None
       | S fuel =>
           let start := (String.length safe - MAX_EVIDENCE_TAIL_BYTES)%nat in
           safe ← str_from safe (boundary_above MAX_EVIDENCE_TAIL_BYTES safe start);
           shorten fuel safe
       end.

Fixpoint redact_markers (markers : list string) (safe : string) : option string :=
  match markers with
  | [] => Some safe
  | marker :: markers =>
      safe ← redact_marker (S (String.length safe)) marker safe 0;
      redact_markers markers safe
  end.

(** [redact_tail]. *)
Definition redact_tail (text : string) : option string :=
  safe ← redact_markers MARKERS text;
  shorten (String.length safe) safe.

(** ** What it computes *)

(** A line cut before a marker. *)
Definition cut_line (line marker : string) : string :=
  match str_find marker (to_ascii_lowercase line) with
  | Some k => slice line 0 k +:+ REDACTED
  | None => line
  end.

Definition redact_line (line : string) : string := fold_left cut_line MARKERS line.

(** A function applied to each line, the line breaks kept. *)
Fixpoint on_lines_from (f : string → string) (line s : string) : string :=
  match s with
  | EmptyString => f line
  | String c s' =>
      if is_break c then f line +:+ String c (on_lines_from f "" s')
      else on_lines_from f (line +:+ String c "") s'
  end.
Definition on_lines (f : string → string) (s : string) : string := on_lines_from f "" s.

(** ** Lower case, slices and boundaries *)

#[local] Notation "'lower' s" := (to_ascii_lowercase s) (at level 10, s at level 9).

Definition lower_ascii (c : ascii) : ascii :=
  of_u8 (if is_ascii_uppercase (u8 c) then u8 c + 32 else u8 c).

Lemma lower_String c s : lower (String c s) = String (lower_ascii c) (lower s).
Proof. done. Qed.

Lemma lower_app s t : lower (s +:+ t) = lower s +:+ lower t.
Proof.
  induction s as [|c s IH]; [done|].
  change (lower (String c (s +:+ t)) = lower (String c s) +:+ lower t). by rewrite !lower_String, IH.
Qed.

Lemma length_lower s : String.length (lower s) = String.length s.
Proof. induction s as [|c s IH]; [done|]. rewrite lower_String. simpl. by rewrite IH. Qed.

Lemma slice_app_l s t : slice (s +:+ t) 0 (String.length s) = s.
Proof.
  unfold slice. rewrite Nat.sub_0_r. induction s as [|c s IH]; simpl; [by destruct t|]. by rewrite IH.
Qed.

Lemma slice_app_r s t : slice (s +:+ t) (String.length s) (String.length (s +:+ t)) = t.
Proof.
  unfold slice. rewrite length_string_app. replace (_ + _ - _)%nat with (String.length t) by lia.
  induction s as [|c s IH]; [|exact IH]. simpl. induction t as [|c t IH]; simpl; [done|]. by f_equal.
Qed.

Lemma string_split s k :
  (k ≤ String.length s)%nat → ∃ a b, s = a +:+ b ∧ String.length a = k.
Proof.
  revert k. induction s as [|c s IH]; intros [|k] Hk; simpl in Hk; try lia.
  - by exists ""%string, ""%string.
  - by exists ""%string, (String c s).
  - destruct (IH k) as (a & b & -> & <-); [lia|]. by exists (String c a), b.
Qed.

Lemma string_app_inj a b a' b' :
  a +:+ b = a' +:+ b' → String.length a = String.length a' → a = a' ∧ b = b'.
Proof.
  revert a'. induction a as [|c a IH]; intros [|c' a'] E Hl; simplify_eq/=; [done|].
  destruct (IH a') as [-> ->]; auto.
Qed.

(** A string that can follow a boundary: it is empty or begins in ASCII. *)
Definition opens (s : string) : bool :=
  match s with EmptyString => true | String c _ => u8 c <? 128 end.

Lemma boundary_app s t : s = ""%string ∨ opens t = true → is_char_boundary (s +:+ t) (String.length s) = true.
Proof.
  intros Ht. unfold is_char_boundary. destruct (Nat.eqb_spec (String.length s) 0) as [E|E]; [done|].
  destruct Ht as [->|Ht]; [done|]. rewrite bytes_app, lookup_app_r by (by rewrite length_bytes).
  rewrite length_bytes, Nat.sub_diag. destruct t as [|c t]; simpl.
  - rewrite length_string_app. simpl. apply Nat.eqb_eq. lia.
  - simpl in Ht. destruct (Z.leb_spec 128 (u8 c)); [lia|done].
Qed.

Lemma str_from_app s t : s = ""%string ∨ opens t = true → str_from (s +:+ t) (String.length s) = Some t.
Proof. intros Ht. unfold str_from. by rewrite boundary_app, slice_app_r. Qed.

Lemma replace_range_app a b c text :
  a = ""%string ∨ opens (b +:+ c) = true → opens c = true →
  replace_range (a +:+ b +:+ c) (String.length a) (String.length a + String.length b) text =
    Some (a +:+ text +:+ c).
Proof.
  intros Hb Hc. unfold replace_range. rewrite boundary_app by done. rewrite app_assoc_string.
  rewrite <-length_string_app, boundary_app by (by right). simpl. rewrite slice_app_r.
  by rewrite <-app_assoc_string, slice_app_l.
Qed.

(** ** Finding a marker *)

(** A marker never contains the byte [c]. *)
Definition avoids (c : ascii) (p : string) : Prop := c ∉ String.list_ascii_of_string p.

Lemma prefix_sep p l c r : avoids c p → String.prefix p (l +:+ String c r) = String.prefix p l.
Proof.
  revert l. induction p as [|a p IH]; intros l Hp; [by destruct l|].
  unfold avoids in Hp. simpl in Hp. apply not_elem_of_cons in Hp as [Ha Hp].
  destruct l as [|b l]; simpl; destruct (ascii_dec a _) as [->|]; try done. by apply IH.
Qed.

Lemma prefix_length p s : String.prefix p s = true → (String.length p ≤ String.length s)%nat.
Proof.
  revert s. induction p as [|a p IH]; intros s; simpl; [lia|]. destruct s as [|b s]; [done|]. simpl.
  destruct (ascii_dec a b); [intros Hp%IH; lia|done].
Qed.

Lemma prefix_app p s t :
  (String.length p ≤ String.length s)%nat → String.prefix p (s +:+ t) = String.prefix p s.
Proof.
  revert s. induction p as [|a p IH]; intros s; simpl; [by destruct s, t|]. destruct s as [|b s]; simpl; [lia|].
  intros Hl. destruct (ascii_dec a b); [apply IH; lia|done].
Qed.

#[local] Arguments starts_with : simpl never.
#[local] Arguments String.prefix : simpl never.

(** An occurrence lies on one side of a byte the marker avoids. *)
Lemma find_sep p l c r :
  p ≠ ""%string → avoids c p →
  str_find p (l +:+ String c r) =
    match str_find p l with
    | Some k => Some k
    | None => option_map (λ k, String.length l + S k)%nat (str_find p r)
    end.
Proof.
  intros Hne Hp. induction l as [|a l IH]; simpl.
  - pose proof (prefix_sep p "" c r Hp) as E. change ("" +:+ String c r) with (String c r) in E.
    unfold starts_with. rewrite E.
    destruct p as [|b p]; [done|]. change (String.prefix (String b p) "") with false. by destruct (str_find _ r).
  - pose proof (prefix_sep p (String a l) c r Hp) as E.
    change (String a l +:+ String c r) with (String a (l +:+ String c r)) in E. unfold starts_with. rewrite E.
    destruct (String.prefix p (String a l)); [done|]. rewrite IH.
    destruct (str_find p l); [done|]. by destruct (str_find p r).
Qed.

Lemma find_length p s k : str_find p s = Some k → (k + String.length p ≤ String.length s)%nat.
Proof.
  revert k. induction s as [|a s IH]; intros k; simpl; unfold starts_with;
    destruct (String.prefix p _) eqn:E.
  - intros [= <-]. apply prefix_length in E. done.
  - done.
  - intros [= <-]. apply prefix_length in E. done.
  - destruct (str_find p s) as [j|]; [|done]. intros [= <-]. specialize (IH j eq_refl). lia.
Qed.

Lemma find_app_l p s t k : str_find p s = Some k → str_find p (s +:+ t) = Some k.
Proof.
  revert k. induction s as [|a s IH]; intros k Hk.
  - pose proof (find_length _ _ _ Hk) as Hl. simpl in Hl, Hk. destruct p as [|b p]; [|simpl in Hl; lia].
    destruct t; exact Hk.
  - pose proof (find_length _ _ _ Hk) as Hl. simpl in Hk |- *. unfold starts_with in *.
    pose proof (prefix_app p (String a s) t) as E. change (String a s +:+ t) with (String a (s +:+ t)) in E.
    simpl in Hl. rewrite E by (simpl; lia).
    destruct (String.prefix p (String a s)); [done|].
    destruct (str_find p s) as [j|]; [|done]. by rewrite (IH j eq_refl).
Qed.

Lemma find_app_r p s t : str_find p (s +:+ t) = None → str_find p t = None.
Proof.
  induction s as [|a s IH]; [done|]. simpl. unfold starts_with.
  destruct (String.prefix p _); [done|]. destruct (str_find p (s +:+ t)); [done|]. auto.
Qed.

(** Where the first occurrence is. *)
Lemma find_Some p s k :
  str_find p s = Some k → ∃ a b, s = a +:+ b ∧ String.length a = k ∧ String.prefix p b = true.
Proof.
  revert k. induction s as [|c s IH]; intros k; simpl; unfold starts_with; destruct (String.prefix p _) eqn:E.
  - intros [= <-]. by exists ""%string, ""%string.
  - done.
  - intros [= <-]. by exists ""%string, (String c s).
  - destruct (str_find p s) as [j|]; [|done]. intros [= <-]. destruct (IH j eq_refl) as (a & b & -> & <- & Hp).
    by exists (String c a), b.
Qed.

Lemma prefix_found p a b : String.prefix p b = true → str_find p (a +:+ b) ≠ None.
Proof.
  intros Hp Hf%find_app_r. destruct b; simpl in Hf; unfold starts_with in Hf; by rewrite Hp in Hf.
Qed.

Lemma contains_find p s : contains p s = false ↔ str_find p s = None.
Proof.
  induction s as [|c s IH]; simpl; unfold starts_with; destruct (String.prefix p _); simpl; try done.
  rewrite IH. by destruct (str_find p s).
Qed.

(** ** Lines *)

Definition no_break (s : string) : Prop := Forall (λ c, is_break c = false) (String.list_ascii_of_string s).

Lemma no_break_app s t : no_break (s +:+ t) ↔ no_break s ∧ no_break t.
Proof.
  unfold no_break. assert (String.list_ascii_of_string (s +:+ t) =
    String.list_ascii_of_string s ++ String.list_ascii_of_string t) as ->; [|apply Forall_app].
  induction s as [|c s IH]; [done|]. simpl. by rewrite IH.
Qed.

Lemma no_break_String c s : no_break (String c s) ↔ is_break c = false ∧ no_break s.
Proof. unfold no_break. simpl. by rewrite Forall_cons. Qed.

(** The first line of a text, and what follows it. *)
Lemma first_line s : ∃ l r, s = l +:+ r ∧ no_break l ∧ opens r = true ∧
  (r = ""%string ∨ ∃ c r', r = String c r' ∧ is_break c = true) ∧
  String.length l = match find_break s with Some o => o | None => String.length s end.
Proof.
  induction s as [|c s (l & r & -> & Hl & Ho & Hr & E)]; simpl.
  - exists ""%string, ""%string. split_and!; try done; [constructor|by left].
  - destruct (is_break c) eqn:Hc.
    + exists ""%string, (String c (l +:+ r)). split_and!; try done; [constructor| |right; eauto].
      unfold is_break in Hc. simpl. destruct (Z.eqb_spec (u8 c) 10), (Z.eqb_spec (u8 c) 13); try done; apply Z.ltb_lt; lia.
    + exists (String c l), r. split_and!; try done; [by apply no_break_String|]. simpl. rewrite E.
      by destruct (find_break _).
Qed.

Lemma on_lines_from_line f line l r :
  no_break l → on_lines_from f line (l +:+ r) = on_lines_from f (line +:+ l) r.
Proof.
  revert line. induction l as [|c l IH]; intros line; [by rewrite app_empty|].
  intros [Hc Hl]%no_break_String. simpl. rewrite Hc, IH by done. by rewrite <-app_assoc_string.
Qed.

Lemma on_lines_line f l : no_break l → on_lines f l = f l.
Proof. intros Hl. unfold on_lines. rewrite <-(app_empty l) at 1. by rewrite on_lines_from_line. Qed.

Lemma on_lines_break f l c r :
  no_break l → is_break c = true → on_lines f (l +:+ String c r) = f l +:+ String c (on_lines f r).
Proof. intros Hl Hc. unfold on_lines. rewrite on_lines_from_line by done. simpl. by rewrite Hc. Qed.

(** Induction on the lines of a text. *)
Lemma lines_ind (P : string → Prop) :
  (∀ l, no_break l → P l) →
  (∀ l c r, no_break l → is_break c = true → P r → P (l +:+ String c r)) → ∀ s, P s.
Proof.
  intros Hl Hb s. remember (String.length s) as n eqn:En. assert (String.length s ≤ n)%nat as Hn by lia. clear En.
  revert s Hn. induction n as [|n IH]; intros s Hn.
  - destruct s; [|simpl in Hn; lia]. apply Hl. constructor.
  - destruct (first_line s) as (l & r & -> & Hnl & _ & [->|(c & r' & -> & Hc)] & _).
    + rewrite app_empty. auto.
    + apply Hb; try done. apply IH. rewrite length_string_app in Hn. simpl in Hn. lia.
Qed.

Lemma on_lines_ext f g s : (∀ l, no_break l → f l = g l) → on_lines f s = on_lines g s.
Proof.
  intros E. induction s as [l Hl|l c r Hl Hc IH] using lines_ind.
  - rewrite !on_lines_line by done. by apply E.
  - rewrite !on_lines_break, IH, E by done. done.
Qed.

Lemma on_lines_id s : on_lines (λ l, l) s = s.
Proof.
  induction s as [l Hl|l c r Hl Hc IH] using lines_ind; [by apply (on_lines_line (λ l, l))|].
  by rewrite (on_lines_break (λ l, l)), IH.
Qed.

Lemma on_lines_compose f g s :
  (∀ l, no_break l → no_break (f l)) → on_lines g (on_lines f s) = on_lines (λ l, g (f l)) s.
Proof.
  intros Hf. induction s as [l Hl|l c r Hl Hc IH] using lines_ind.
  - rewrite (on_lines_line f), (on_lines_line g), (on_lines_line (λ l, g (f l))) by auto. done.
  - rewrite (on_lines_break f), (on_lines_break g), (on_lines_break (λ l, g (f l))), IH by auto. done.
Qed.

(** ** One marker *)

(** What the proofs use of a marker: it is not empty, in lower case ASCII, has no
    line break and no bracket, and does not occur in the replacement. *)
Record marker_ok (m : string) : Prop := {
  mk_nonempty : m ≠ ""%string;
  mk_opens : opens m = true;
  mk_break : ∀ c, is_break c = true → avoids c m;
  mk_bracket : avoids "[" m;
  mk_word : str_find m "redacted]" = None;
}.

Lemma markers_ok : Forall marker_ok MARKERS.
Proof.
  repeat (apply Forall_cons; split); [..|apply Forall_nil_2]; (split; [done|done| |by apply (bool_decide_unpack _)|done]);
    intros c Hc Hin; unfold is_break in Hc; simpl in Hin;
    repeat (apply elem_of_cons in Hin as [->|Hin]; [done|]); by apply elem_of_nil in Hin.
Qed.

Lemma lower_break c : is_break c = true → lower_ascii c = c.
Proof.
  intros Hc. unfold lower_ascii, is_ascii_uppercase. unfold is_break in Hc.
  destruct (Z.eqb_spec (u8 c) 10) as [E|_]; [rewrite E, <-(of_u8_u8 c), E; done|].
  destruct (Z.eqb_spec (u8 c) 13) as [E|_]; [rewrite E, <-(of_u8_u8 c), E; done|done].
Qed.

Section marker.
Context (m : string) (Hm : marker_ok m).

(** Where the marker is found in the lower case of a text. *)
Definition marked (s : string) : option nat := str_find m (lower s).

Lemma marked_break l c r :
  is_break c = true →
  marked (l +:+ String c r) =
    match marked l with Some k => Some k | None => option_map (λ k, String.length l + S k)%nat (marked r) end.
Proof.
  intros Hc. unfold marked. rewrite lower_app, lower_String, lower_break by done.
  rewrite find_sep, length_lower; [done|apply Hm|by apply (mk_break m Hm)].
Qed.

Lemma marked_redacted l : marked (l +:+ REDACTED) = marked l.
Proof.
  unfold marked, REDACTED. rewrite lower_app. change (lower "[redacted]") with (String "[" "redacted]").
  rewrite find_sep; [|apply (mk_nonempty m Hm)|apply (mk_bracket m Hm)]. rewrite (mk_word m Hm). by destruct (str_find m (lower l)).
Qed.

Lemma marked_prefix a b : marked (a +:+ b) = None → marked a = None.
Proof.
  unfold marked. rewrite lower_app. intros E. destruct (str_find m (lower a)) as [k|] eqn:Ek; [|done].
  by rewrite (find_app_l _ _ _ _ Ek) in E.
Qed.

Lemma marked_suffix a b : marked (a +:+ b) = None → marked b = None.
Proof. unfold marked. rewrite lower_app. apply find_app_r. Qed.

(** The first occurrence splits the text. *)
Lemma marked_Some s k :
  marked s = Some k →
  ∃ a b, s = a +:+ b ∧ String.length a = k ∧ opens b = true ∧ String.prefix m (lower b) = true ∧ marked a = None.
Proof.
  intros E. pose proof E as E'. unfold marked in E. pose proof (find_length _ _ _ E) as Hl. rewrite length_lower in Hl.
  destruct (find_Some _ _ _ E) as (a' & b' & Es & Ea & Hp).
  destruct (string_split s k) as (a & b & -> & Hk); [lia|]. rewrite lower_app in Es.
  apply string_app_inj in Es as [<- <-]; [|by rewrite length_lower, Hk].
  exists a, b. split_and!; try done.
  - destruct b as [|c b]; [done|]. destruct m as [|x p] eqn:Em; [by destruct (mk_nonempty _ Hm)|].
    pose proof (mk_opens _ Hm) as Ho. simpl in Ho. rewrite lower_String in Hp. cbn in Hp.
    unfold String.prefix in Hp. fold String.prefix in Hp. destruct (ascii_dec x _) as [->|]; [|done].
    apply Z.ltb_lt in Ho. apply Z.ltb_lt. unfold lower_ascii in Ho. pose proof (u8_range c).
    destruct (is_ascii_uppercase (u8 c)) eqn:Eu; [unfold is_ascii_uppercase in Eu; lia|].
    by rewrite u8_of_u8 in Ho.
  - destruct (marked a) as [j|] eqn:Ej; [|done]. unfold marked in E', Ej. rewrite lower_app in E'.
    rewrite (find_app_l _ _ _ _ Ej) in E'. injection E' as <-. pose proof (find_length _ _ _ Ej) as Hj.
    rewrite length_lower in Hj. pose proof (mk_nonempty _ Hm). destruct m; [done|]. simpl in Hj. lia.
Qed.

Lemma marked_bound s k : marked s = Some k → (k < String.length s)%nat.
Proof.
  intros E. apply find_length in E. rewrite length_lower in E. pose proof (mk_nonempty _ Hm).
  destruct m; [done|]. simpl in E. lia.
Qed.

Lemma marked_empty : marked "" = None.
Proof. destruct (marked "") as [k|] eqn:E; [|done]. apply marked_bound in E. simpl in E. lia. Qed.

Definition cut_at (l : string) : string := cut_line l m.

Lemma cut_None l : marked l = None → cut_at l = l.
Proof. intros E. unfold cut_at, cut_line. unfold marked in E. by rewrite E. Qed.

Lemma cut_Some a b : marked (a +:+ b) = Some (String.length a) → cut_at (a +:+ b) = a +:+ REDACTED.
Proof. intros E. unfold cut_at, cut_line. unfold marked in E. by rewrite E, slice_app_l. Qed.

Lemma on_lines_none s : marked s = None → on_lines cut_at s = s.
Proof.
  induction s as [l Hl|l c r Hl Hc IH] using lines_ind; intros E.
  - rewrite on_lines_line by done. by apply cut_None.
  - rewrite marked_break in E by done. rewrite on_lines_break by done.
    destruct (marked l) eqn:El; [done|]. rewrite cut_None, IH; try done. by destruct (marked r).
Qed.

(** The first occurrence is cut with the rest of its line. *)
Lemma on_lines_some a l r :
  marked (a +:+ l +:+ r) = Some (String.length a) → no_break l →
  r = ""%string ∨ (∃ c r', r = String c r' ∧ is_break c = true) →
  on_lines cut_at (a +:+ l +:+ r) = a +:+ REDACTED +:+ on_lines cut_at r.
Proof.
  intros E Hl Hr. induction a as [a Ha|l0 c a Hl0 Hc IH] using lines_ind.
  - assert (no_break (a +:+ l)) as Hal by (by apply no_break_app).
    rewrite app_assoc_string in E |- *. destruct Hr as [->|(c & r' & -> & Hc)].
    + rewrite !app_empty in *. rewrite on_lines_line, cut_Some by done.
      rewrite (on_lines_line cut_at "") by constructor. by rewrite cut_None, app_empty by apply marked_empty.
    + rewrite on_lines_break by done. rewrite (on_lines_break cut_at "" c r' (Forall_nil_2 _) Hc : on_lines cut_at (String c r') = _).
      rewrite (cut_None "") by apply marked_empty. rewrite marked_break in E by done.
      rewrite cut_Some; [by rewrite <-app_assoc_string|].
      destruct (marked (a +:+ l)); [done|]. destruct (marked r'); [|done]. simpl in E.
      rewrite length_string_app in E. injection E. lia.
  - rewrite <-app_assoc_string in E |- *.
    change (String c a +:+ l +:+ r) with (String c (a +:+ l +:+ r)) in E |- *. rewrite marked_break in E by done.
    rewrite length_string_app in E. simpl in E. rewrite on_lines_break by done.
    destruct (marked l0) as [k|] eqn:E0; [apply marked_bound in E0; injection E; lia|].
    rewrite cut_None by done. destruct (marked (a +:+ l +:+ r)); [|done]. simpl in E.
    rewrite IH; [by rewrite <-app_assoc_string|]. injection E as E. f_equal. lia.
Qed.

(** The loop computes the cut of every line. *)
Lemma redact_marker_lines fuel done_ rest :
  (String.length rest < fuel)%nat → done_ = ""%string ∨ opens rest = true →
  redact_marker fuel m (done_ +:+ rest) (String.length done_) = Some (done_ +:+ on_lines cut_at rest).
Proof.
  revert done_ rest. induction fuel as [|fuel IH]; intros done_ rest Hf Hd; [lia|]. simpl.
  rewrite str_from_app by done. simpl. change (str_find m (lower rest)) with (marked rest).
  destruct (marked rest) as [k|] eqn:E; [|by rewrite on_lines_none].
  destruct (marked_Some rest k E) as (a & b & -> & <- & Hb & Hp & _).
  rewrite app_assoc_string, <-length_string_app, str_from_app by (by right). simpl.
  destruct (first_line b) as (l & r & -> & Hl & Ho & Hr & El).
  assert (match find_break (l +:+ r) with Some o => String.length (done_ +:+ a) + o
          | None => String.length ((done_ +:+ a) +:+ l +:+ r) end =
          String.length (done_ +:+ a) + String.length l)%nat as ->.
  { rewrite El. destruct (find_break (l +:+ r)); [done|]. by rewrite (length_string_app (done_ +:+ a)). }
  rewrite replace_range_app by (done || by right). simpl.
  assert (l ≠ ""%string) as Hne.
  { intros ->. pose proof (mk_nonempty _ Hm). destruct Hr as [->|(c & r' & -> & Hc)]; [by destruct m|].
    change ("" +:+ String c r') with (String c r') in Hp.
    rewrite lower_String, lower_break in Hp by done. destruct m as [|x p] eqn:Em; [done|].
    pose proof (mk_break _ Hm c Hc) as Hv. unfold avoids in Hv. simpl in Hv. unfold String.prefix in Hp.
    destruct (ascii_dec x c) as [->|]; [|done]. by destruct Hv; left. }
  match goal with |- redact_marker _ _ _ ?n = _ =>
    replace n with (String.length ((done_ +:+ a) +:+ REDACTED)) by (rewrite (length_string_app (done_ +:+ a)); done) end.
  rewrite app_assoc_string. rewrite IH; [|rewrite !length_string_app in Hf; destruct l; [done|simpl in Hf; lia]|by right].
  rewrite on_lines_some by done. by rewrite !app_assoc_string.
Qed.
End marker.

(** ** All markers *)

(** A line stays, or a prefix of it is kept. *)
Definition cut_of (l x : string) : Prop :=
  x = l ∨ ∃ a b, l = a +:+ b ∧ x = a +:+ REDACTED.

Lemma cut_line_of m l : marker_ok m → cut_of l (cut_line l m).
Proof.
  intros Hm. destruct (marked m l) as [k|] eqn:E.
  - destruct (marked_Some m Hm l k E) as (a & b & -> & <- & _). right. exists a, b.
    split; [done|]. by apply (cut_Some m).
  - left. by apply (cut_None m).
Qed.

Lemma cut_of_trans m l x : marker_ok m → cut_of l x → cut_of l (cut_line x m).
Proof.
  intros Hm [->|(a & b & -> & ->)]; [by apply cut_line_of|]. right.
  destruct (marked m (a +:+ REDACTED)) as [k|] eqn:E.
  - pose proof E as Ea. rewrite marked_redacted in Ea by done.
    destruct (marked_Some m Hm a k Ea) as (a1 & a2 & -> & <- & _). exists a1, (a2 +:+ b).
    rewrite <-app_assoc_string in E |- *. split; [done|]. rewrite <-app_assoc_string. by apply (cut_Some m).
  - exists a, b. split; [done|]. by apply (cut_None m).
Qed.

Lemma cut_of_none m l x : marker_ok m → cut_of l x → marked m l = None → marked m x = None.
Proof.
  intros Hm [->|(a & b & -> & ->)] E; [done|]. rewrite marked_redacted by done. by apply marked_prefix in E.
Qed.

Lemma cut_of_no_break l x : cut_of l x → no_break l → no_break x.
Proof.
  intros [->|(a & b & -> & ->)]; [done|]. rewrite !no_break_app. intros [Ha _]. split; [done|].
  by repeat constructor.
Qed.

Lemma cut_clean m l : marker_ok m → marked m (cut_line l m) = None.
Proof.
  intros Hm. destruct (marked m l) as [k|] eqn:E.
  - destruct (marked_Some m Hm l k E) as (a & b & -> & <- & _ & _ & Ha).
    rewrite (cut_Some m _ _ E : cut_line _ m = _). by rewrite marked_redacted.
  - by rewrite (cut_None m l E : cut_line l m = l).
Qed.

Lemma fold_cut_of ms l x : Forall marker_ok ms → cut_of l x → cut_of l (fold_left cut_line ms x).
Proof.
  intros Hms. revert x. induction Hms as [|m ms Hm _ IH]; intros x Hx; simpl; [done|]. apply IH. by apply cut_of_trans.
Qed.

Lemma fold_none ms m l :
  Forall marker_ok ms → marker_ok m → marked m l = None → marked m (fold_left cut_line ms l) = None.
Proof. intros Hms Hm. apply cut_of_none; [done|]. apply fold_cut_of; [done|by left]. Qed.

Lemma fold_unmarked ms l : (∀ m, m ∈ ms → marked m l = None) → fold_left cut_line ms l = l.
Proof.
  induction ms as [|m ms IH]; intros Hn; [done|]. simpl.
  rewrite (cut_None m l (Hn m ltac:(left)) : cut_line l m = l). apply IH.
  intros m' Hm'. apply Hn. by right.
Qed.

Lemma fold_clean ms m l : Forall marker_ok ms → m ∈ ms → marked m (fold_left cut_line ms l) = None.
Proof.
  intros Hms. revert l. induction Hms as [|x ms Hx Hms IH]; intros l Hm; [by apply elem_of_nil in Hm|]. simpl.
  apply elem_of_cons in Hm as [->|Hm]; [|by apply IH]. apply fold_none; [done..|]. by apply cut_clean.
Qed.

Lemma redact_markers_lines ms s :
  Forall marker_ok ms → redact_markers ms s = Some (on_lines (λ l, fold_left cut_line ms l) s).
Proof.
  intros Hms. revert s. induction Hms as [|m ms Hm Hms IH]; intros s; cbn [redact_markers]; [by rewrite on_lines_id|].
  pose proof (redact_marker_lines m Hm (S (String.length s)) "" s) as E. simpl String.length in E.
  change ("" +:+ s) with s in E. rewrite E by (lia || by left). cbn [mbind option_bind]. rewrite IH. f_equal.
  apply (on_lines_compose (cut_at m) (λ l, fold_left cut_line ms l)). intros l. apply (cut_of_no_break l). by apply cut_line_of.
Qed.

(** No marker across lines. *)
Lemma marked_lines m f s :
  marker_ok m → (∀ l, no_break l → marked m (f l) = None) → marked m (on_lines f s) = None.
Proof.
  intros Hm Hf. induction s as [l Hl|l c r Hl Hc IH] using lines_ind.
  - rewrite on_lines_line; auto.
  - rewrite on_lines_break, marked_break, Hf, IH by done. done.
Qed.

(** ** The bound *)

Lemma boundary_above_spec fuel s i :
  (i ≤ String.length s)%nat → (String.length s ≤ i + fuel)%nat →
  (i ≤ boundary_above fuel s i ≤ String.length s)%nat ∧ is_char_boundary s (boundary_above fuel s i) = true.
Proof.
  revert i. induction fuel as [|fuel IH]; intros i Hi Hf; simpl.
  - split; [lia|]. assert (i = String.length s) as -> by lia. unfold is_char_boundary.
    destruct (_ =? 0)%nat; [done|]. rewrite lookup_ge_None_2 by (by rewrite length_bytes). apply Nat.eqb_refl.
  - destruct (is_char_boundary s i) eqn:E; [split; [lia|done]|].
    destruct (decide (i = String.length s)) as [->|Hne].
    + exfalso. unfold is_char_boundary in E. destruct (_ =? 0)%nat; [done|].
      rewrite lookup_ge_None_2 in E by (by rewrite length_bytes). by rewrite Nat.eqb_refl in E.
    + destruct (IH (S i)) as [? ?]; [lia..|]. split; [lia|done].
Qed.

Lemma shorten_fit n s : (String.length s ≤ MAX_EVIDENCE_TAIL_BYTES)%nat → shorten n s = Some s.
Proof. intros Hl. destruct n; cbn [shorten]; by rewrite (proj2 (Nat.leb_le _ _) Hl). Qed.

Lemma shorten_long n s p out :
  (MAX_EVIDENCE_TAIL_BYTES < String.length s)%nat → s = p +:+ out →
  String.length p = boundary_above MAX_EVIDENCE_TAIL_BYTES s (String.length s - MAX_EVIDENCE_TAIL_BYTES) →
  is_char_boundary s (String.length p) = true → (String.length out ≤ MAX_EVIDENCE_TAIL_BYTES)%nat →
  shorten (S n) s = Some out.
Proof.
  intros Hl Es Hp Hb Ho. cbn [shorten]. rewrite (proj2 (Nat.leb_gt _ _) Hl), <-Hp. unfold str_from. rewrite Hb.
  cbn [mbind option_bind]. rewrite Es, slice_app_r. by apply shorten_fit.
Qed.

Lemma shorten_spec s :
  ∃ out p, shorten (String.length s) s = Some out ∧ s = p +:+ out ∧
    (String.length out ≤ MAX_EVIDENCE_TAIL_BYTES)%nat ∧
    ((String.length s ≤ MAX_EVIDENCE_TAIL_BYTES)%nat → out = s).
Proof.
  destruct (le_lt_dec (String.length s) MAX_EVIDENCE_TAIL_BYTES) as [Hl|Hl].
  - exists s, ""%string. split_and!; [by apply shorten_fit|done..].
  - destruct (boundary_above_spec MAX_EVIDENCE_TAIL_BYTES s (String.length s - MAX_EVIDENCE_TAIL_BYTES)) as [Hb Hc];
      [lia..|].
    destruct (string_split s _ (proj2 Hb)) as (p & out & Es & Hi). exists out, p. rewrite <-Hi in Hb, Hc.
    assert (String.length out ≤ MAX_EVIDENCE_TAIL_BYTES)%nat as Ho. { rewrite Es, length_string_app in Hb. lia. }
    split_and!; [|done..|lia]. destruct (String.length s) as [|n] eqn:En; [lia|]. rewrite <-En in *.
    rewrite En at 1. by apply (shorten_long n s p).
Qed.

Lemma redact_tail_out text :
  ∃ out p, redact_tail text = Some out ∧ on_lines redact_line text = p +:+ out ∧
    (String.length out ≤ MAX_EVIDENCE_TAIL_BYTES)%nat ∧
    ((String.length (on_lines redact_line text) ≤ MAX_EVIDENCE_TAIL_BYTES)%nat → p = ""%string) ∧
    ∀ m, m ∈ MARKERS → marked m out = None.
Proof.
  pose proof markers_ok as Hok. destruct (shorten_spec (on_lines redact_line text)) as (out & p & Es & Ep & Hl & Hw).
  exists out, p. split_and!; try done.
  - unfold redact_tail. rewrite redact_markers_lines by done. exact Es.
  - intros Hs. specialize (Hw Hs). rewrite Hw in Ep. apply (f_equal String.length) in Ep.
    rewrite length_string_app in Ep. destruct p; [done|]. simpl in Ep. lia.
  - intros m Hm. apply (marked_suffix m p). rewrite <-Ep. rewrite Forall_forall in Hok.
    apply marked_lines; [auto|]. intros l _. apply fold_clean; [by rewrite Forall_forall|done].
Qed.

(** A bounded text without markers is kept. *)
Lemma redact_tail_fixed text :
  (∀ m, m ∈ MARKERS → marked m text = None) → (String.length text ≤ MAX_EVIDENCE_TAIL_BYTES)%nat →
  redact_tail text = Some text.
Proof.
  intros Hn Hl. pose proof markers_ok as Hok. rewrite Forall_forall in Hok.
  assert (on_lines redact_line text = text) as E.
  { clear Hl. induction text as [l Hb|l c r Hb Hc IH] using lines_ind.
    - rewrite on_lines_line by done. by apply fold_unmarked.
    - assert (∀ m, m ∈ MARKERS → marked m l = None ∧ marked m r = None) as Hlr.
      { intros m Hm. specialize (Hn m Hm). rewrite marked_break in Hn by auto.
        destruct (marked m l); [done|]. by destruct (marked m r). }
      rewrite on_lines_break, IH by (done || intros; by apply Hlr). f_equal. apply fold_unmarked.
      intros m Hm. by apply Hlr. }
  unfold redact_tail. rewrite redact_markers_lines by (by rewrite Forall_forall).
  change (on_lines _ text) with (on_lines redact_line text). rewrite E. cbn [mbind option_bind]. by apply shorten_fit.
Qed.

(** C37: Diagnostics are redacted exactly and keep no secret.  Redaction never
    panics and never runs on; it keeps a suffix of at most 4096 bytes, cut at a
    character boundary, of the text in which every line is redacted, and the
    whole of it when it fits.  No marker occurs in the result in any case.  A line without
    markers is kept as it is; a line with a marker becomes a prefix that ends
    before the end of that marker, followed by the notice, so that nothing that
    follows a marker survives. *)
Theorem redaction_keeps_no_secret text :
  (∃ out p, redact_tail text = Some out ∧ on_lines redact_line text = p +:+ out ∧
     (String.length out ≤ MAX_EVIDENCE_TAIL_BYTES)%nat ∧
     ((String.length (on_lines redact_line text) ≤ MAX_EVIDENCE_TAIL_BYTES)%nat → p = ""%string) ∧
     ∀ m, m ∈ MARKERS → contains m (lower out) = false) ∧
  (∀ line, (∀ m, m ∈ MARKERS → contains m (lower line) = false) → redact_line line = line) ∧
  (∀ m a b, m ∈ MARKERS → starts_with m (lower b) = true →
     ∃ kept rest, a +:+ b = kept +:+ rest ∧ redact_line (a +:+ b) = kept +:+ REDACTED ∧
       (String.length kept < String.length a + String.length m)%nat).
Proof.
  pose proof markers_ok as Hok. pose proof Hok as Hok'. rewrite Forall_forall in Hok'. split_and!.
  - destruct (redact_tail_out text) as (out & p & E & Ep & Hl & Hw & Hc). exists out, p. split_and!; try done.
    intros m Hm. by apply contains_find, Hc.
  - intros line Hn. apply fold_unmarked. intros m Hm. by apply contains_find, Hn.
  - intros m a b Hm Hp. pose proof (fold_clean MARKERS m (a +:+ b) Hok Hm) as Hc.
    destruct (fold_cut_of MARKERS (a +:+ b) (a +:+ b) Hok (or_introl eq_refl)) as [E|(kept & rest & E & Ek)].
    + exfalso. rewrite E in Hc. unfold marked in Hc. rewrite lower_app in Hc. by apply (prefix_found m (lower a) (lower b)) in Hp.
    + exists kept, rest. split_and!; [done..|]. rewrite Ek, marked_redacted in Hc by auto.
      apply Nat.nle_gt. intros Hle.
      destruct (string_split kept (String.length a)) as (a' & k' & -> & Ha'); [lia|].
      rewrite <-app_assoc_string in E. apply string_app_inj in E as [<- ->]; [|done].
      unfold marked in Hc. rewrite lower_app in Hc. apply (prefix_found m (lower a) (lower k')); [|done].
      rewrite lower_app in Hp. unfold starts_with in Hp. rewrite <-Hp. symmetry. apply prefix_app.
      rewrite length_lower. rewrite length_string_app in Hle. lia.
Qed.
