(* ===== verification/Evidence.v ===== *)
(** * Evidence of a delivery attempt

    The diagnostics document of one attempt, as the dispatcher builds it
    ([core/delivery/mod.rs], [Evidence]) and as the store validates and
    sanitizes it ([store/delivery.rs], [safe_evidence]). *)

From S2P Require Import Prelude Text Float64 Json Canonical Catalogs Lifecycle Requests PoolDomain Redact.

Definition MAX_EVIDENCE_BYTES : Z := 16 * 1024.

(** [serde_json::to_vec(value).len()]. *)
Class JsonText := { json_len : Value → Z }.

(** ** Reading a JSON value *)

Definition json_str (v : Value) : option string := match v with Str s => Some s | _ => None end.
Definition as_u64 (v : Value) : option Z := match v with Num (PosInt n) => Some n | _ => None end.
Definition json_i64 (v : Value) : option Z :=
  match v with
  | Num (PosInt n) => if n <=? i64_MAX then Some n else None
  | Num (NegInt n) => Some n
  | _ => None
  end.
Definition is_number (v : Value) : bool := match v with Num _ => true | _ => false end.
Definition is_boolean (v : Value) : bool := match v with Bool _ => true | _ => false end.
Definition is_null (v : Value) : bool := match v with Null => true | _ => false end.
Definition as_bool (v : Value) : bool := match v with Bool b => b | _ => false end.

Definition has_key (key : string) (m : list (string * Value)) : bool :=
  existsb (λ kv, bool_decide (fst kv = key)) m.

(** ** The store *)

(** The keys of an evidence document. *)
Definition evidence_keys : list string :=
  ["classifier"; "executable"; "argv_shape"; "duration_ms"; "returncode"; "spawn_errno"; "error_class";
   "stdout_tail"; "stderr_tail"; "stdout_bytes"; "stderr_bytes"; "stdout_truncated"; "stderr_truncated";
   "message_id_present"]%string.

Definition nonblank_str (v : Value) : bool :=
  match json_str v with Some s => negb (blank s) | None => false end.

Definition argv_byte (b : Z) : bool := is_ascii_lowercase b || is_ascii_digit b || (b =? 95) || (b =? 45).

(** One word of [argv_shape]. *)
Definition argv_part (v : Value) : bool :=
  match json_str v with
  | Some part => negb (blank part) && (len part <=? 64) && forallb argv_byte (bytes part)
  | None => false
  end.

(** The checks of [safe_evidence] before the tails are sanitized. *)
Definition evidence_shape (raw : Value) : bool :=
  match raw with
  | Obj object =>
      (length object =? length evidence_keys)%nat && forallb (λ key, has_key key object) evidence_keys
      && nonblank_str (field "classifier" raw) && nonblank_str (field "executable" raw)
      && is_some (as_u64 (field "duration_ms" raw)) && is_some (as_u64 (field "stdout_bytes" raw))
      && is_some (as_u64 (field "stderr_bytes" raw)) && is_boolean (field "stdout_truncated" raw)
      && is_boolean (field "stderr_truncated" raw) && is_boolean (field "message_id_present" raw)
      && match field "argv_shape" raw with
         | Arr argv => negb (bool_decide (argv = [])) && forallb argv_part argv
         | _ => false
         end
      && forallb (λ key, is_null (field key raw) || is_some (json_i64 (field key raw)))
           ["returncode"; "spawn_errno"]%string
      && negb (is_number (field "returncode" raw) && is_number (field "spawn_errno" raw))
      && (is_null (field "error_class" raw)
          || match json_str (field "error_class" raw) with
             | Some text => negb (blank text) && (len text <=? 128)
             | None => false
             end)
  | _ => false
  end.

(** [redact_tail] never panics, so the default is never taken. *)
Definition redacted (text : string) : string := default ""%string (redact_tail text).

(** One tail replaced, with the flag that says whether it was shortened. *)
Definition with_tail (tail_key flag_key text : string) (v : Value) : Value :=
  set_field flag_key
    (Bool (as_bool (field flag_key v) || (len (redacted text) <? len text)))
    (set_field tail_key (Str (redacted text)) v).

(** [safe_evidence]. *)
Definition safe_evidence `{JsonText} (raw : Value) : result Value :=
  fail? negb (evidence_shape raw) with invalid "invalid delivery attempt evidence";
  let? stdout := ok_or (invalid "invalid delivery attempt evidence") (json_str (field "stdout_tail" raw)) in
  let? stderr := ok_or (invalid "invalid delivery attempt evidence") (json_str (field "stderr_tail" raw)) in
  let value :=
    with_tail "stderr_tail" "stderr_truncated" stderr
      (with_tail "stdout_tail" "stdout_truncated" stdout raw) in
  fail? MAX_EVIDENCE_BYTES <? json_len value with invalid "delivery attempt evidence exceeds 16384 bytes";
  Ok value.

(** ** The dispatcher *)

(** [Evidence]. *)
Record Evidence := mk_evidence {
  ee_classifier : string;
  ee_executable : string;
  ee_argv_shape : list string;
  ee_duration_ms : Z;
  ee_returncode : option Z;
  ee_spawn_errno : option Z;
  ee_error_class : option string;
  ee_stdout_tail : string;
  ee_stderr_tail : string;
  ee_stdout_bytes : Z;
  ee_stderr_bytes : Z;
  ee_stdout_truncated : bool;
  ee_stderr_truncated : bool;
  ee_message_id_present : bool;
}.

(** [Evidence::new]. *)
Definition evidence_new (classifier : string) (accepted ambiguous : bool) : Evidence :=
  mk_evidence classifier "agent-bridge" ["producer-v1"; "publish"]%string 0 None None
    (if accepted then None else Some (if ambiguous then "ambiguous" else "unavailable")%string)
    "" "" 0 0 false false false.

(** [validate_evidence]. *)
Definition validate_evidence (e : Evidence) : result () :=
  fail? blank (ee_classifier e) || blank (ee_executable e) || bool_decide (ee_argv_shape e = [])
        || existsb (λ part, blank part || (64 <? len part)) (ee_argv_shape e)
        || (is_some (ee_returncode e) && is_some (ee_spawn_errno e))
        || match ee_error_class e with Some c => blank c || (128 <? len c) | None => false end
        || (4096 <? len (ee_stdout_tail e)) || (4096 <? len (ee_stderr_tail e)) with
    invalid "invalid delivery attempt evidence";
  Ok ().

(** A number as [serde_json] holds it. *)
Definition num (n : Z) : Value := Num (if n <? 0 then NegInt n else PosInt n).
Definition opt_value {A} (f : A → Value) (o : option A) : Value :=
  match o with Some a => f a | None => Null end.

(** [serde_json::to_value] of the record: its keys in order. *)
Definition evidence_value (e : Evidence) : Value :=
  Obj [("argv_shape", Arr (map Str (ee_argv_shape e))); ("classifier", Str (ee_classifier e));
       ("duration_ms", num (ee_duration_ms e)); ("error_class", opt_value Str (ee_error_class e));
       ("executable", Str (ee_executable e)); ("message_id_present", Bool (ee_message_id_present e));
       ("returncode", opt_value num (ee_returncode e)); ("spawn_errno", opt_value num (ee_spawn_errno e));
       ("stderr_bytes", num (ee_stderr_bytes e)); ("stderr_tail", Str (ee_stderr_tail e));
       ("stderr_truncated", Bool (ee_stderr_truncated e)); ("stdout_bytes", num (ee_stdout_bytes e));
       ("stdout_tail", Str (ee_stdout_tail e)); ("stdout_truncated", Bool (ee_stdout_truncated e))]%string.

(** [Evidence::persisted]. *)
Definition persisted `{JsonText} (e : Evidence) : result Evidence :=
  let stdout := redacted (ee_stdout_tail e) in
  let stderr := redacted (ee_stderr_tail e) in
  let value :=
    mk_evidence (ee_classifier e) (ee_executable e) (ee_argv_shape e) (ee_duration_ms e)
      (ee_returncode e) (ee_spawn_errno e) (ee_error_class e) stdout stderr (ee_stdout_bytes e)
      (ee_stderr_bytes e) (ee_stdout_truncated e || (len stdout <? len (ee_stdout_tail e)))
      (ee_stderr_truncated e || (len stderr <? len (ee_stderr_tail e))) (ee_message_id_present e) in
  try? validate_evidence value;
  fail? MAX_EVIDENCE_BYTES <? json_len (evidence_value value) with
    invalid "delivery evidence exceeds 16384 bytes";
  Ok value.

(** ** Sanitizing twice *)

Lemma redacted_fixed text : redacted (redacted text) = redacted text.
Proof.
  unfold redacted at 2 3. destruct (redact_tail_out text) as (out & p & -> & _ & Hl & _ & Hc). simpl.
  unfold redacted. by rewrite redact_tail_fixed.
Qed.

(** Every entry of the key has this value. *)
Definition holds (key : string) (x : Value) (v : Value) : Prop :=
  match v with Obj m => ∀ y, (key, y) ∈ m → y = x | _ => True end.

Lemma set_field_holds key x v : holds key x v → set_field key x v = v.
Proof.
  destruct v as [| | | | |m]; try done. simpl. intros Hh. f_equal. unfold update_where.
  rewrite <-(map_id m) at 2. apply map_ext_in. intros [k y] Hin%list_elem_of_In. case_decide as E; [|done].
  simpl in E. subst k. by rewrite (Hh y Hin).
Qed.

Lemma holds_set key x v : holds key x (set_field key x v).
Proof.
  destruct v as [| | | | |m]; try done. simpl. intros y ([k z] & Hin & Hy)%elem_of_update_where.
  destruct (decide _) as [E|E]; simpl in E, Hy; injection Hy as <- <-; [done|]. by destruct E.
Qed.

Lemma holds_other key x key' x' v : key ≠ key' → holds key x v → holds key x (set_field key' x' v).
Proof.
  destruct v as [| | | | |m]; try done. simpl. intros Hne Hh y ([k z] & Hin & Hy)%elem_of_update_where.
  destruct (decide _) as [E|E]; simpl in E, Hy; injection Hy as <- <-; [done|]. by apply Hh.
Qed.

Lemma field_set key key' x v :
  key ≠ key' → field key (set_field key' x v) = field key v.
Proof.
  destruct v as [| | | | |m]; try done. simpl. intros Hne. unfold update_where.
  induction m as [|[k y] m IH]; [done|]. simpl. rewrite !first_where_cons. simpl.
  destruct (decide (k = key')) as [->|]; simpl.
  - rewrite !decide_False by done. exact IH.
  - case_decide; [done|]. exact IH.
Qed.

Lemma field_set_same key x m : has_key key m = true → field key (set_field key x (Obj m)) = x.
Proof.
  simpl. unfold update_where. induction m as [|[k y] m IH]; simpl; [done|]. rewrite first_where_cons.
  destruct (decide (k = key)) as [->|Hne]; simpl; [by rewrite decide_True|].
  rewrite bool_decide_false, decide_False by done. exact IH.
Qed.

(** The shape of a document that differs in a tail and its flag only. *)
Lemma set_field_obj key x m : ∃ m', set_field key x (Obj m) = Obj m' ∧ length m' = length m ∧
  ∀ k, has_key k m' = has_key k m.
Proof.
  eexists. split; [done|]. unfold update_where. split; [by rewrite length_map|]. intros k.
  induction m as [|[k' y] m IH]; [done|]. simpl. rewrite IH. by destruct (decide _).
Qed.

Lemma forallb_same {A} (f g : A → bool) l : (∀ x, f x = g x) → forallb f l = forallb g l.
Proof. intros E. induction l as [|x l IH]; [done|]. simpl. by rewrite E, IH. Qed.

Lemma evidence_shape_keys m key : evidence_shape (Obj m) = true → key ∈ evidence_keys → has_key key m = true.
Proof.
  intros Hs Hk. unfold evidence_shape in Hs. rewrite !andb_true_iff in Hs. destruct Hs as [[[[[[[[[[[[[_ Hs] _] _] _] _] _] _] _] _] _] _] _] _].
  rewrite forallb_forall in Hs. apply Hs. by apply list_elem_of_In.
Qed.

Lemma shape_tail m key text :
  key = "stdout_tail"%string ∨ key = "stderr_tail"%string →
  evidence_shape (set_field key (Str text) (Obj m)) = evidence_shape (Obj m).
Proof.
  intros Hk. destruct (set_field_obj key (Str text) m) as (m' & E & El & Eh).
  assert (∀ k, k ≠ "stdout_tail"%string → k ≠ "stderr_tail"%string → field k (set_field key (Str text) (Obj m)) = field k (Obj m)) as Ef.
  { intros k H1 H2. apply field_set. destruct Hk as [->| ->]; done. }
  rewrite E in Ef |- *. unfold evidence_shape. rewrite El. rewrite !Ef by done.
  assert (forallb (λ k, has_key k m') evidence_keys = forallb (λ k, has_key k m) evidence_keys) as ->
    by (apply forallb_same; intros; apply Eh).
  cbn [forallb]. by rewrite !Ef.
Qed.

Lemma shape_flag m key b :
  key = "stdout_truncated"%string ∨ key = "stderr_truncated"%string →
  evidence_shape (Obj m) = true → evidence_shape (set_field key (Bool b) (Obj m)) = true.
Proof.
  intros Hk Hs. assert (has_key key m = true) as Hkey.
  { apply evidence_shape_keys; [done|]. by destruct Hk as [->| ->]; apply (bool_decide_unpack _). }
  pose proof (field_set_same key (Bool b) m Hkey) as Es.
  destruct (set_field_obj key (Bool b) m) as (m' & E & El & Eh).
  assert (∀ k, k ≠ key → field k (set_field key (Bool b) (Obj m)) = field k (Obj m)) as Ef.
  { intros k Hk'. by apply field_set. }
  rewrite E in Ef, Es |- *. unfold evidence_shape in Hs |- *. rewrite El.
  assert (forallb (λ k, has_key k m') evidence_keys = forallb (λ k, has_key k m) evidence_keys) as ->
    by (apply forallb_same; intros; apply Eh).
  destruct Hk as [->| ->]; cbn [forallb] in Hs |- *; rewrite Es, !Ef by done;
    rewrite !andb_true_iff in Hs |- *; by intuition.
Qed.

Lemma with_tail_shape tail flag text v :
  tail = "stdout_tail"%string ∨ tail = "stderr_tail"%string →
  flag = "stdout_truncated"%string ∨ flag = "stderr_truncated"%string →
  evidence_shape v = true → evidence_shape (with_tail tail flag text v) = true.
Proof.
  intros Ht Hf Hs. destruct v as [| | | | |m]; try done. unfold with_tail.
  pose proof (shape_tail m tail (redacted text) Ht) as E.
  destruct (set_field_obj tail (Str (redacted text)) m) as (m' & Em & _). rewrite Em in *.
  apply shape_flag; [done|congruence].
Qed.

Lemma with_tail_field tail flag text v key :
  key ≠ tail → key ≠ flag → field key (with_tail tail flag text v) = field key v.
Proof. intros Ht Hf. unfold with_tail. by rewrite !field_set. Qed.

Lemma with_tail_tail tail flag text v :
  tail ∈ evidence_keys → tail ≠ flag → evidence_shape v = true →
  field tail (with_tail tail flag text v) = Str (redacted text).
Proof.
  intros Ht Hf Hs. destruct v as [| | | | |m]; try done. unfold with_tail. rewrite field_set by done.
  apply field_set_same. by apply evidence_shape_keys.
Qed.

Lemma with_tail_flag tail flag text v :
  flag ∈ evidence_keys → evidence_shape v = true →
  field flag (with_tail tail flag text v) = Bool (as_bool (field flag v) || (len (redacted text) <? len text)).
Proof.
  intros Hf Hs. destruct v as [| | | | |m]; try done. unfold with_tail.
  destruct (set_field_obj tail (Str (redacted text)) m) as (m' & -> & _ & Eh). apply field_set_same. rewrite Eh.
  by apply evidence_shape_keys.
Qed.

(** A second pass over a sanitized tail changes nothing. *)
Lemma with_tail_again tail flag text w :
  tail ≠ flag → holds tail (Str (redacted text)) w →
  holds flag (field flag w) w → is_boolean (field flag w) = true →
  with_tail tail flag (redacted text) w = w.
Proof.
  intros Hne Ht Hf Hb. unfold with_tail. rewrite redacted_fixed, Z.ltb_irrefl, orb_false_r.
  rewrite (set_field_holds tail) by done. apply set_field_holds.
  destruct (field flag w); try done.
Qed.

Lemma with_tail_holds tail flag text v :
  tail ≠ flag →
  holds tail (Str (redacted text)) (with_tail tail flag text v) ∧
  holds flag (Bool (as_bool (field flag v) || (len (redacted text) <? len text))) (with_tail tail flag text v).
Proof. intros Hne. split; [by apply holds_other, holds_set|apply holds_set]. Qed.

Lemma with_tail_keeps tail flag text v key x :
  key ≠ tail → key ≠ flag → holds key x v → holds key x (with_tail tail flag text v).
Proof. intros. by apply holds_other, holds_other. Qed.

(** Stored evidence reads back.  What the store accepts as the evidence of
    an attempt it accepts again unchanged, so that every later read of the row
    returns the stored document: sanitizing is idempotent. *)
Theorem evidence_reads_back `{JsonText} raw value :
  safe_evidence raw = Ok value → safe_evidence value = Ok value.
Proof.
  unfold safe_evidence. destruct (evidence_shape raw) eqn:Hs; [|done]. cbn [negb].
  destruct (json_str (field "stdout_tail" raw)) as [out|] eqn:Eo; [|done].
  destruct (json_str (field "stderr_tail" raw)) as [err|] eqn:Ee; [|done]. cbn [ok_or].
  set (v1 := with_tail "stdout_tail" "stdout_truncated" out raw).
  set (v2 := with_tail "stderr_tail" "stderr_truncated" err v1).
  destruct (MAX_EVIDENCE_BYTES <? json_len v2) eqn:El; [done|]. intros [= <-].
  assert (evidence_shape v1 = true) as S1 by (apply with_tail_shape; auto).
  assert (evidence_shape v2 = true) as S2 by (apply with_tail_shape; auto).
  destruct (with_tail_holds "stdout_tail" "stdout_truncated" out raw) as [Ho Hof]; [done|]. fold v1 in Ho, Hof.
  destruct (with_tail_holds "stderr_tail" "stderr_truncated" err v1) as [He Hef]; [done|]. fold v2 in He, Hef.
  apply (with_tail_keeps "stderr_tail" "stderr_truncated" err) in Ho, Hof; [|done..]. fold v2 in Ho, Hof.
  assert (∀ key, key ∈ evidence_keys → key ≠ "stderr_tail" → key ≠ "stderr_truncated" → field key v2 = field key v1)%string as Ef
    by (intros; by apply with_tail_field).
  assert (field "stdout_tail" v2 = Str (redacted out)) as Fo.
  { rewrite Ef by (done || by apply (bool_decide_unpack _)). apply with_tail_tail; [by apply (bool_decide_unpack _)|done..]. }
  assert (field "stderr_tail" v2 = Str (redacted err)) as Fe
    by (apply with_tail_tail; [by apply (bool_decide_unpack _)|done..]).
  rewrite S2, Fo, Fe. cbn [negb json_str ok_or].
  rewrite (with_tail_again "stdout_tail" "stdout_truncated" out v2); [|done|done|rewrite Ef by (done || by apply (bool_decide_unpack _))..].
  - rewrite (with_tail_again "stderr_tail" "stderr_truncated" err v2); [by rewrite El|done|done|..];
      unfold v2; rewrite with_tail_flag by (done || by apply (bool_decide_unpack _)); done.
  - unfold v1. rewrite with_tail_flag by (done || by apply (bool_decide_unpack _)). done.
  - unfold v1. rewrite with_tail_flag by (done || by apply (bool_decide_unpack _)). done.
Qed.

(** ** The evidence of a publication attempt *)

Definition demo_json : JsonText := {| json_len := λ v, Z.of_nat (length (dumps v false)) |}.

Definition demo_evidence : Evidence :=
  mk_evidence "bridge_unavailable" "agent-bridge" ["producer-v1"; "publish"]%string 12 None None
    (Some "unavailable"%string) "connecting with Token=abc" "" 25 0 false false false.

Definition demo_stored : Value :=
  match @safe_evidence demo_json (evidence_value demo_evidence) with Ok v => v | Err _ => Null end.

Lemma evidence_reads_back_witness :
  field "stdout_tail" demo_stored = Str "connecting with [redacted]" ∧
  @safe_evidence demo_json demo_stored = Ok demo_stored.
Proof.
  split; [by vm_compute|]. apply (@evidence_reads_back demo_json (evidence_value demo_evidence)). by vm_compute.
Defined.
