(* ===== verification/Outbox.v ===== *)
(** * The outbox

    The transactions of [store/delivery.rs] that schedule, lease, freeze and
    conclude the publication of a notice.  Besides the deliveries of [Db] they
    use three tables of their own, which with the database form [Outbox]. *)

From S2P Require Import Prelude Text Float64 Json Canonical Catalogs Lifecycle Requests PoolDomain.
From S2P Require Import Tables Roster WorkerStore Redact Notices Evidence.

(** [domain/bridge.rs]. *)
Record BridgeOwner := mk_owner {
  bo_registration_socket : string;
  bo_core_socket : string;
  bo_token_file : string;
  bo_credential_sha256 : string;
  bo_producer : string;
}.
#[global] Instance owner_eq_dec : EqDecision BridgeOwner.
Proof. solve_decision. Defined.

Record BridgeIntent := mk_intent {
  bi_owner : BridgeOwner;
  bi_request_id : string;
  bi_event_id : string;
  bi_address : string;
  bi_kind : string;
  bi_message : string;
  bi_predecessor : option string;
  bi_intent_hash : string;
}.
#[global] Instance intent_eq_dec : EqDecision BridgeIntent.
Proof. solve_decision. Defined.

(** ** Tables *)

Inductive Custody := CuPending | CuAccepted | CuUnknown.
#[global] Instance custody_eq_dec : EqDecision Custody.
Proof. solve_decision. Defined.

(** [bridge_delivery_intents]. *)
Record IntentRow := mk_intent_row {
  ir_delivery : string;
  ir_intent : option BridgeIntent;
  ir_receipt : option Value;
  ir_custody : Custody;
}.

(** [delivery_attempt_evidence]. *)
Record EvidenceRow := mk_evidence_row {
  xr_delivery : string;
  xr_attempt : Z;
  xr_recorded_at : f64;
  xr_evidence : Value;
}.

Inductive Stage := SBefore | SAfter.
#[global] Instance stage_eq_dec : EqDecision Stage.
Proof. solve_decision. Defined.

(** [service_restart_notices]. *)
Record RestartNoticeRow := mk_restart_notice {
  nr_restart : Z;
  nr_transport : string;
  nr_session : string;
  nr_stage : Stage;
  nr_text : string;                       (* message *)
  nr_delivery : string;
}.

Record Outbox := mk_outbox {
  ob_db : Db;
  ob_intents : list IntentRow;
  ob_evidence : list EvidenceRow;
  ob_notices : list RestartNoticeRow;
}.

Definition set_db (db : Db) (ob : Outbox) : Outbox :=
  mk_outbox db (ob_intents ob) (ob_evidence ob) (ob_notices ob).
Definition set_intents (l : list IntentRow) (ob : Outbox) : Outbox :=
  mk_outbox (ob_db ob) l (ob_evidence ob) (ob_notices ob).
Definition set_evidence (l : list EvidenceRow) (ob : Outbox) : Outbox :=
  mk_outbox (ob_db ob) (ob_intents ob) l (ob_notices ob).

Definition deliveries (ob : Outbox) : list DeliveryRow := db_deliveries (ob_db ob).
Definition set_outbox_deliveries (l : list DeliveryRow) (ob : Outbox) : Outbox :=
  set_db (set_deliveries l (ob_db ob)) ob.

(** ** Row updates *)

(** A comparison with a NULL column is not true. *)
Definition at_most (o : option f64) (t : f64) : bool :=
  match o with Some x => fle x t | None => false end.
Definition beyond (o : option f64) (t : f64) : bool :=
  match o with Some x => flt t x | None => false end.

(** SQLite stores NaN as NULL. *)
Definition real (x : f64) : option f64 := if is_nan x then None else Some x.

(** [state=?,lease_owner=NULL,lease_until=NULL,next_attempt_at=NULL]. *)
Definition released_as (s : DeliveryState) (d : DeliveryRow) : DeliveryRow :=
  mk_delivery_row (dl_id d) (dl_agent d) (dl_session d) (dl_event d) s None (dl_attempts d) None None
    (dl_last_error d) (dl_ambiguous d).

Definition with_error (error : option string) (ambiguous : bool) (d : DeliveryRow) : DeliveryRow :=
  mk_delivery_row (dl_id d) (dl_agent d) (dl_session d) (dl_event d) (dl_state d)
    (dl_next_attempt_at d) (dl_attempts d) (dl_lease_owner d) (dl_lease_until d) error
    (dl_ambiguous d || ambiguous).

Definition leased (owner : string) (attempt : Z) (until : f64) (d : DeliveryRow) : DeliveryRow :=
  mk_delivery_row (dl_id d) (dl_agent d) (dl_session d) (dl_event d) DSending None attempt
    (Some owner) (real until) (dl_last_error d) (dl_ambiguous d).

Definition concluded (s : DeliveryState) (next : option f64) (error : option string)
  (ambiguous : bool) (d : DeliveryRow) : DeliveryRow :=
  mk_delivery_row (dl_id d) (dl_agent d) (dl_session d) (dl_event d) s next (dl_attempts d) None
    None error (dl_ambiguous d || ambiguous).

Definition with_intent (intent : BridgeIntent) (r : IntentRow) : IntentRow :=
  mk_intent_row (ir_delivery r) (Some intent) (ir_receipt r) (ir_custody r).
Definition with_custody (c : Custody) (r : IntentRow) : IntentRow :=
  mk_intent_row (ir_delivery r) (ir_intent r) (ir_receipt r) c.
Definition with_receipt (receipt : Value) (r : IntentRow) : IntentRow :=
  mk_intent_row (ir_delivery r) (ir_intent r) (Some receipt) CuAccepted.

(** [UPDATE bridge_delivery_intents SET custody_state=? WHERE delivery_id=?
    AND custody_state!='custody_accepted']. *)
Definition mark_custody (c : Custody) (id : string) (ob : Outbox) : Outbox :=
  set_intents
    (update_where (λ r, ir_delivery r = id ∧ ir_custody r ≠ CuAccepted) (with_custody c)
       (ob_intents ob)) ob.

Definition intent_row (ob : Outbox) (id : string) : option IntentRow :=
  first_where (λ r, ir_delivery r = id) (ob_intents ob).

(** A live lease of this owner and attempt. *)
Definition owned (owner : string) (attempt : Z) (at_ : f64) (d : DeliveryRow) : Prop :=
  dl_state d = DSending ∧ dl_lease_owner d = Some owner ∧ dl_attempts d = attempt ∧
  beyond (dl_lease_until d) at_ = true.
#[global] Instance owned_dec owner attempt at_ d : Decision (owned owner attempt at_ d).
Proof. unfold owned. apply _. Defined.

(** ** Freezing a publication *)

(** [prepare_bridge_delivery]. *)
Definition prepare_bridge_delivery (ob : Outbox) (id owner : string) (attempt : Z)
  (intent : BridgeIntent) (at_ : f64) : result (Outbox * BridgeIntent) :=
  fail? negb (is_finite at_) || (65536 <? len (bi_message intent)) with
    invalid "invalid Bridge publication intention";
  match intent_row ob id with
  | Some r =>
      fail? negb (exists_where (λ d, dl_id d = id ∧ owned owner attempt at_ d) (deliveries ob)) with
        invalid "Bridge publication lease is not owned";
      let? ob :=
        match ir_intent r with
        | Some existing => if decide (existing = intent) then Ok ob else Err Conflict
        | None =>
            Ok (set_intents
                  (update_where (λ r, ir_delivery r = id ∧ ir_intent r = None) (with_intent intent)
                     (ob_intents ob)) ob)
        end in
      Ok (mark_custody CuUnknown id ob, intent)
  | None => Err (invalid "Bridge publication lease is not owned")
  end.

(** ** Withdrawing and expiring *)

(** [cancel_delivery]. *)
Definition cancel_delivery (ob : Outbox) (id : string) : result (Outbox * bool) :=
  fail? blank id with invalid "delivery_id must be nonblank";
  let cancellable d := dl_id d = id ∧ dl_state d ≠ DDelivered ∧ dl_state d ≠ DCancelled in
  Ok (set_outbox_deliveries (update_where cancellable (released_as DCancelled) (deliveries ob)) ob,
      count_where cancellable (deliveries ob) =? 1).

Definition BINDING_WINDOW_SECONDS : f64 := of_Z 3600.

(** Event kinds in the expiry condition. *)
Definition is_attention (d : EventData) : bool :=
  match d with EJoinNeedsAction _ _ _ _ => true | _ => false end.
Definition is_report_or_completion (d : EventData) : bool :=
  match d with EWorkerNotification _ _ | EPoolCompleted _ => true | _ => false end.

(** The time of the event a waiting notice announces, when it may expire. *)
Definition expirable (db : Db) (before : f64) (d : DeliveryRow) : option f64 :=
  match first_where (λ a, Some (ag_id a) = dl_agent d) (db_agents db) with
  | Some a =>
      match first_where (λ e, Some (ev_no e) = dl_event d) (db_events db) with
      | Some e =>
          if bool_decide (dl_state d = WaitingBinding)
             && (is_attention (ev_data e)
                 || (negb (is_report_or_completion (ev_data e)) && Status.terminal (ag_status a)))
             && fle (ev_at e) before
          then Some (ev_at e) else None
      | None => None
      end
  | None => None
  end.

Definition sooner (x y : f64 * string) : Prop :=
  (if feq (fst x) (fst y) then String.leb (snd x) (snd y) else fle (fst x) (fst y)) = true.
#[global] Instance sooner_dec : RelDecision sooner.
Proof. intros x y. unfold sooner. apply _. Defined.

(** [expire_unbound_batch]; no limit is [None]. *)
Definition expire_unbound_batch (ob : Outbox) (at_ : f64) (limit : option nat)
  : result (Outbox * list string) :=
  fail? negb (is_finite at_) with invalid "expiry time must be finite";
  let due :=
    merge_sort sooner
      (omap (λ d, option_map (λ t, (t, dl_id d))
                    (expirable (ob_db ob) (fsub at_ BINDING_WINDOW_SECONDS) d)) (deliveries ob)) in
  let ids := map snd (match limit with Some n => take n due | None => due end) in
  Ok (set_outbox_deliveries
        (update_where (λ d, dl_id d ∈ ids ∧ dl_state d = WaitingBinding) (released_as DExpired)
           (deliveries ob)) ob, ids).

(** ** Payloads *)

(** [bounded]: displayable metadata. *)
Definition bounded (value : option string) : option string :=
  match value with
  | Some v => if negb (blank v) && (char_count v <=? 128) then Some v else None
  | None => None
  end.

(** The payload of a claim. *)
Inductive Payload :=
  | PayRestart (notice : string) (before_intent : option BridgeIntent)
  | PayAttention (notice : PoolNotice)
  | PayPool (notice : PoolNotice)
  | PayWorker (notice : WorkerNotice) (pool_entry : option string)
  | PayCompletion (notice : CompletionNotice).

(** [json_extract(data_json,'$.notice')]. *)
Definition event_notice (d : EventData) : option string :=
  match d with
  | EJoinNeedsAction _ _ _ notice => Some notice
  | EPoolCompleted r => Some (cr_notice r)
  | _ => None
  end.

(** The event of a delivery. *)
Definition delivery_event (db : Db) (id : string) : option EventRow :=
  match first_where (λ d, dl_id d = id) (db_deliveries db) with
  | Some d => first_where (λ e, Some (ev_no e) = dl_event d) (db_events db)
  | None => None
  end.

(** The warning that precedes a restart result: same restart, same recipient. *)
Definition precedes (n prior : RestartNoticeRow) : Prop :=
  nr_stage n = SAfter ∧ nr_restart prior = nr_restart n ∧ nr_transport prior = nr_transport n ∧
  nr_session prior = nr_session n ∧ nr_stage prior = SBefore.
#[global] Instance precedes_dec n prior : Decision (precedes n prior).
Proof. unfold precedes. apply _. Defined.

Definition before_intent (ob : Outbox) (n : RestartNoticeRow) : option BridgeIntent :=
  match first_where (precedes n) (ob_notices ob) with
  | Some prior => match intent_row ob (nr_delivery prior) with Some r => ir_intent r | None => None end
  | None => None
  end.

(** The attention or completion notice of a pool. *)
Definition pool_payload (db : Db) (id : string) : option (result Payload) :=
  let notice pool message make :=
    let n := mk_notice id pool message in
    try? notice_validate n; Ok (make n) in
  let attention :=
    match delivery_event db id with
    | Some e => match ev_data e with EJoinNeedsAction pool _ _ message => Some (pool, message) | _ => None end
    | None => None
    end in
  match attention with
  | Some (pool, message) => Some (notice pool message PayAttention)
  | None =>
      match first_where (λ p, pl_delivery p = Some id) (db_pools db), delivery_event db id with
      | Some p, Some e =>
          Some (let? message := ok_or (Sql InvalidColumnType) (event_notice (ev_data e)) in
                notice (pl_id p) message PayPool)
      | _, _ => None
      end
  end.

(** The report of a worker, with its log entry when its pool has one. *)
Definition worker_payload (db : Db) (id run root : string) (n : NotificationRow) : result Payload :=
  let? entry :=
    match first_where (λ e, en_delivery e = Some id) (db_entries db) with
    | Some e => let? text := render_entry (entry_view e) in Ok (Some text)
    | None => Ok None
    end in
  let notice := mk_worker_notice id root run (wn_kind n) (wn_message n) in
  try? worker_notice_validate notice;
  Ok (PayWorker notice entry).

Definition completion_payload (id : string) (a : AgentRow) : result Payload :=
  let status := ag_status a in
  let failure :=
    if bool_decide (status = Failed) || bool_decide (status = TimedOut) || bool_decide (status = Lost)
    then bounded (ag_failure_kind a) else None in
  fail? negb (Status.terminal status) || blank id || (512 <? len id) with
    invalid "invalid completion lifecycle fields";
  Ok (PayCompletion
        (mk_completion_notice id (root_of a) (Some (ag_id a)) status (bounded (Some (ag_runtime a)))
           (bounded (Some (ag_model a))) (bounded (sq_effort (ag_request a))) failure)).

(** [claim_payload]. *)
Definition claim_payload (ob : Outbox) (id : string) (agent : option string) : result Payload :=
  let db := ob_db ob in
  match first_where (λ n, nr_delivery n = id) (ob_notices ob) with
  | Some n =>
      fail? is_empty (nr_text n) with invalid "invalid restart notice";
      Ok (PayRestart (nr_text n) (before_intent ob n))
  | None =>
      let? run := ok_or (invalid "delivery has no agent or restart notice") agent in
      match pool_payload db id with
      | Some payload => payload
      | None =>
          let? a := row (first_where (λ a, ag_id a = run) (db_agents db)) in
          match first_where (λ n, wn_delivery n = id) (db_notifications db) with
          | Some n => worker_payload db id run (root_of a) n
          | None => completion_payload id a
          end
      end
  end.

(** ** Claiming *)

(** [DeliveryPolicySpec]. *)
Record DeliveryPolicy := mk_policy {
  dy_retry_base : f64;
  dy_retry_cap : f64;
  dy_max_attempts : Z;
  dy_lease_seconds : f64;
}.

Definition DEFAULT_LEASE_SECONDS : f64 := of_Z 30.
Definition u32_MAX : Z := 2 ^ 32 - 1.

(** The facts of a lease. *)
Record Claim := mk_claim {
  cl_delivery : string;
  cl_owner : string;
  cl_attempt : Z;
  cl_transport : string;
  cl_session : string;
  cl_payload : Payload;
  cl_bridge_intent : option BridgeIntent;
  cl_bridge_unknown : bool;
}.

Definition lease_of (policy : DeliveryPolicy) : f64 :=
  if is_finite (dy_lease_seconds policy) && flt (of_Z 0) (dy_lease_seconds policy)
  then dy_lease_seconds policy else DEFAULT_LEASE_SECONDS.

(** Waiting notices whose time to be bound has passed. *)
Definition overdue (db : Db) (before : f64) (d : DeliveryRow) : Prop :=
  dl_state d = WaitingBinding ∧
  exists_where (λ p, pl_delivery p = Some (dl_id d)) (db_pools db) = false ∧
  exists_where (λ a, Some (ag_id a) = dl_agent d ∧ Status.terminal (ag_status a) = true) (db_agents db) = true ∧
  exists_where (λ e, Some (ev_no e) = dl_event d ∧ fle (ev_at e) before = true) (db_events db) = true.
#[global] Instance overdue_dec db before d : Decision (overdue db before d).
Proof. unfold overdue. apply _. Defined.

Definition expire_overdue (ob : Outbox) (time : f64) : Outbox :=
  set_outbox_deliveries
    (update_where (overdue (ob_db ob) (fsub time BINDING_WINDOW_SECONDS)) (released_as DExpired)
       (deliveries ob)) ob.

(** Due for a first attempt or a retry, or with a lease that has run out. *)
Definition due (time : f64) (d : DeliveryRow) : Prop :=
  ((dl_state d = DPending ∨ dl_state d = DRetryWait) ∧
   fle (default (of_Z 0) (dl_next_attempt_at d)) time = true) ∨
  (dl_state d = DSending ∧ at_most (dl_lease_until d) time = true).
#[global] Instance due_dec time d : Decision (due time d).
Proof. unfold due. apply _. Defined.

(** A restart result waits until the warning before it has a frozen intent. *)
Definition held_back (ob : Outbox) (id : string) : bool :=
  exists_where
    (λ n, nr_delivery n = id ∧
          exists_where
            (λ prior, precedes n prior ∧
                      exists_where (λ r, ir_delivery r = nr_delivery prior ∧ is_some (ir_intent r) = true)
                        (ob_intents ob) = false)
            (ob_notices ob) = true)
    (ob_notices ob).

(** [ORDER BY COALESCE(next_attempt_at,lease_until,0),id LIMIT 1]. *)
Definition due_at (d : DeliveryRow) : f64 :=
  match dl_next_attempt_at d with
  | Some t => t
  | None => default (of_Z 0) (dl_lease_until d)
  end.
Definition due_later (x y : DeliveryRow) : bool :=
  bool_decide (sooner (due_at y, dl_id y) (due_at x, dl_id x)).

Definition next_due (ob : Outbox) (time : f64) : option DeliveryRow :=
  best_by due_later (filter (λ d, due time d ∧ held_back ob (dl_id d) = false) (deliveries ob)).

(** The row of a delivery replaced. *)
Definition update_delivery (id : string) (f : DeliveryRow → DeliveryRow) (ob : Outbox) : Outbox :=
  set_outbox_deliveries (update_where (λ d, dl_id d = id) f (deliveries ob)) ob.

(** [claim_delivery_lease]. *)
Definition claim_delivery_lease (ob : Outbox) (owner : string) (time : f64) (policy : DeliveryPolicy)
  : result (Outbox * option Claim) :=
  fail? negb (is_finite time) || is_empty owner || (256 <? len owner) with invalid "invalid delivery claim";
  let ob := expire_overdue ob time in
  match next_due ob time with
  | None => Ok (ob, None)
  | Some d =>
      let id := dl_id d in
      let? session := ok_or (Sql InvalidColumnType) (dl_session d) in
      let? s := row (first_where (λ s, os_id s = session) (db_sessions (ob_db ob))) in
      let transport :=
        match canonical_transport_name (os_transport s) with Ok t => t | Err _ => os_transport s end in
      let existing_bridge := is_some (intent_row ob id) in
      if negb existing_bridge && (0 <? dl_attempts d)
      then Ok (update_delivery id
                 (λ d, with_error (Some "legacy_delivery_held"%string) true (released_as DFailed d)) ob, None)
      else
        match claim_payload ob id (dl_agent d) with
        | Err (Validation _) | Err (Integrity _) =>
            Ok (update_delivery id
                  (λ d, with_error (Some "invalid_payload"%string) false (released_as DFailed d)) ob, None)
        | Err e => Err e
        | Ok payload =>
            let attempt := dl_attempts d + 1 in
            fail? u32_MAX <? attempt with invalid "delivery attempt counter overflow";
            let ob :=
              if existing_bridge then ob
              else set_intents (ob_intents ob ++ [mk_intent_row id None None CuPending]) ob in
            let bridge := intent_row ob id in
            let claimed d := dl_id d = id ∧ due time d in
            let updated := count_where claimed (deliveries ob) in
            let ob :=
              set_outbox_deliveries
                (update_where claimed (leased owner attempt (fadd time (lease_of policy))) (deliveries ob)) ob in
            Ok (ob,
                if updated =? 1
                then Some (mk_claim id owner attempt transport (os_external_session_id s) payload
                             (match bridge with Some r => ir_intent r | None => None end)
                             (match bridge with Some r => bool_decide (ir_custody r = CuUnknown) | None => false end))
                else None)
        end
  end.

(** ** Concluding an attempt *)

(** [DeliveryCompletion]; the transport is checked by the caller's guard. *)
Record DeliveryCompletion := mk_done {
  dc_delivery : string;
  dc_owner : string;
  dc_attempt : Z;
  dc_transport : string;
  dc_accepted : bool;
  dc_ambiguous : bool;
  dc_classifier : string;
  dc_evidence : option Value;
  dc_receipt : option Value;
  dc_policy : DeliveryPolicy;
  dc_at : f64;
}.

Definition completion_well_formed (c : DeliveryCompletion) : bool :=
  is_finite (dc_at c) && bool_decide (dc_transport c = "bridge"%string)
  && starts_with "bridge_" (dc_classifier c) && (len (dc_classifier c) <=? 64)
  && Bool.eqb (dc_accepted c) (bool_decide (dc_classifier c = "bridge_custody_accepted"%string))
  && Bool.eqb (dc_ambiguous c) (bool_decide (dc_classifier c = "bridge_outcome_unknown"%string)).

(** Attempts held because nothing was configured do not count. *)
Definition holds_before (ob : Outbox) (id : string) (attempt : Z) : Z :=
  count_where
    (λ x, xr_delivery x = id ∧ xr_attempt x < attempt ∧
          field "classifier" (xr_evidence x) = Str "bridge_unconfigured")
    (ob_evidence ob).

Definition budget_attempt (ob : Outbox) (c : DeliveryCompletion) : Z :=
  Z.max (Z.max (dc_attempt c - holds_before ob (dc_delivery c) (dc_attempt c)) 0) 1.

Definition unconfigured (c : DeliveryCompletion) : bool :=
  bool_decide (dc_classifier c = "bridge_unconfigured"%string).

(** The state of the delivery after the attempt. *)
Definition verdict_state (ob : Outbox) (c : DeliveryCompletion) : DeliveryState :=
  let exhausted :=
    negb (unconfigured c) && negb (dc_ambiguous c) && (0 <? dy_max_attempts (dc_policy c))
    && (dy_max_attempts (dc_policy c) <=? budget_attempt ob c) in
  let failed :=
    negb (dc_accepted c)
    && (exhausted || bool_decide (dc_classifier c ∈ ["bridge_unsupported"; "bridge_invalid"; "bridge_refused"]%string)) in
  if dc_accepted c then DDelivered else if failed then DFailed else DRetryWait.

(** When to try again. *)
Definition retry_at (ob : Outbox) (c : DeliveryCompletion) : f64 :=
  let policy := dc_policy c in
  if unconfigured c then fadd (dc_at c) (fmax (dy_retry_cap policy) (of_Z 60))
  else
    fadd (dc_at c)
      (fmin (fmul (dy_retry_base policy) (of_Z (2 ^ Z.min (budget_attempt ob c - 1) 20)))
         (dy_retry_cap policy)).

(** The custody receipt repeats the frozen intention. *)
Definition receipt_matches (receipt : Value) (intent : BridgeIntent) : bool :=
  bool_decide (json_str (field "event_id" receipt) = Some (bi_event_id intent))
  && bool_decide (json_str (field "address" (field "destination" receipt)) = Some (bi_address intent))
  && bool_decide (json_str (field "intent_hash" receipt) = Some (bi_intent_hash intent))
  && bool_decide (json_str (field "producer" receipt) = Some (bo_producer (bi_owner intent)))
  && is_null (field "route_key" (field "destination" receipt))
  && is_null (field "caller_scope" (field "destination" receipt))
  && is_null (field "destination_scope" (field "destination" receipt))
  && match as_u64 (field "acceptance_seq" receipt) with Some seq => negb (seq =? 0) | None => false end.

Section complete.
Context `{JsonText}.

(** [INSERT OR IGNORE INTO delivery_attempt_evidence]. *)
Definition record_evidence (ob : Outbox) (c : DeliveryCompletion) : result Outbox :=
  match dc_evidence c with
  | None => Ok ob
  | Some evidence =>
      let? value := safe_evidence evidence in
      fail? MAX_EVIDENCE_BYTES <? json_len value with invalid "delivery evidence exceeds its byte bound";
      Ok (if exists_where (λ x, xr_delivery x = dc_delivery c ∧ xr_attempt x = dc_attempt c) (ob_evidence ob)
             || (dc_attempt c <=? 0)
          then ob
          else set_evidence
                 (ob_evidence ob ++ [mk_evidence_row (dc_delivery c) (dc_attempt c) (dc_at c) value]) ob)
  end.

(** The custody column. *)
Definition record_custody (ob : Outbox) (c : DeliveryCompletion) : result Outbox :=
  let id := dc_delivery c in
  if dc_accepted c then
    let? receipt := ok_or (invalid "Bridge custody receipt missing") (dc_receipt c) in
    let? r := row (intent_row ob id) in
    let? intent := ok_or (Sql InvalidColumnType) (ir_intent r) in
    fail? negb (receipt_matches receipt intent) with
      invalid "Bridge custody receipt does not match frozen intention";
    Ok (set_intents
          (update_where (λ r, ir_delivery r = id) (with_receipt receipt) (ob_intents ob)) ob)
  else if dc_ambiguous c then Ok (mark_custody CuUnknown id ob)
  else Ok (mark_custody CuPending id ob).

(** [complete_delivery_attempt]: [None] is the answer [not_owned]. *)
Definition complete_delivery_attempt (ob : Outbox) (c : DeliveryCompletion)
  : result (Outbox * option DeliveryState) :=
  fail? negb (completion_well_formed c) with invalid "invalid delivery completion";
  if negb (exists_where (λ d, dl_id d = dc_delivery c ∧ owned (dc_owner c) (dc_attempt c) (dc_at c) d)
             (deliveries ob))
  then Ok (ob, None)
  else
    let state := verdict_state ob c in
    let next := if decide (state = DRetryWait) then real (retry_at ob c) else None in
    let? ob := record_evidence ob c in
    let? ob := record_custody ob c in
    Ok (update_delivery (dc_delivery c)
          (concluded state next (if dc_accepted c then None else Some (dc_classifier c)) (dc_ambiguous c)) ob,
        Some state).

(** ** Reading *)

(** [latest_on]. *)
Definition latest_on (ob : Outbox) (id : string) : result (option Value) :=
  fail? blank id with invalid "delivery_id must be nonblank";
  match best_by (λ x y, xr_attempt x <=? xr_attempt y) (filter (λ x, xr_delivery x = id) (ob_evidence ob)) with
  | None => Ok None
  | Some x => let? v := safe_evidence (xr_evidence x) in Ok (Some v)
  end.
End complete.

(** The public states. *)
Inductive PublicState := Local (s : DeliveryState) | PCustodyAccepted | POutcomeUnknown.

(** [public_state_on]. *)
Definition public_state_on (ob : Outbox) (id : string) (local : DeliveryState) : PublicState :=
  match intent_row ob id with
  | Some r =>
      match ir_custody r with
      | CuAccepted => PCustodyAccepted
      | CuUnknown => POutcomeUnknown
      | CuPending => Local local
      end
  | None => Local local
  end.
