(* ===== verification/Dispatch.v ===== *)
(** * The dispatcher

    How one notice is published ([core/delivery/mod.rs], [dispatch_one], and
    [core/delivery/bridge.rs]): claim, freeze the intention, call the Bridge,
    conclude.  The Bridge and its SDK are not part of the repository: what they
    answer is an argument ([BridgeReply]), what they compute is an interface
    ([BridgeSdk]). *)

From S2P Require Import Prelude Text Float64 Json Canonical Catalogs Lifecycle Requests PoolDomain.
From S2P Require Import Tables Roster WorkerStore PoolSettle Redact Notices Evidence Outbox.

(** ** The SDK *)

Inductive ErrorClass := ClassAuth | ClassForbidden | ClassUnsupported | ClassInvalid | ClassConflict | ClassOther.
Inductive MutationEffect := EffectUnknown | EffectCommitted | EffectCommittedReplay | EffectOther.

Inductive ClientError :=
  | InvalidConfig (reason : string)
  | InvalidRequest
  | Service (class : ErrorClass) (effect : option MutationEffect)
  | Transport (outcome_unknown : bool).

(** A custody receipt. *)
Record EventReceipt := mk_event_receipt {
  rc_producer : string;
  rc_event_id : string;
  rc_intent_hash : string;
  rc_address : string;
  rc_route_key : option string;
  rc_caller_scope : option string;
  rc_destination_scope : option string;
  rc_acceptance_seq : Z;
}.

(** What a producer is granted, as far as [publish] looks at it. *)
Record Capabilities := mk_capabilities {
  cb_api_version : Z;
  cb_direct_address : bool;
  cb_operations : list string;
  cb_message_mode : bool;
  cb_keep_all_policy : bool;
  cb_granted_message_mode : bool;
  cb_granted_keep_all : bool;
  cb_allowed_kinds : list string;
  cb_payload_bytes : Z;
}.

(** The parameters of a publication. *)
Record PublishParams := mk_params {
  pm_address : string;
  pm_event_id : string;
  pm_publish_kind : string;
  pm_payload : string;
  pm_predecessor : option string;
}.

Class BridgeSdk := {
  (** [NativeAddress::parse(s)] and [canonical()]. *)
  native_address : string → option string;
  (** [Payload::new] accepts the text. *)
  payload_fits : string → bool;
  (** [publication_intent_fingerprint]. *)
  publication_fingerprint : PublishParams → option string;
  (** [serde_json::to_value(receipt)]. *)
  receipt_value : EventReceipt → option Value;
}.

(** What the outside answers during one publication: the protected credential
    file (its fingerprint), and the three calls of the client. *)
Record BridgeReply := mk_reply {
  rp_client : ClientError + string;
  rp_status : ClientError + option EventReceipt;
  rp_capabilities : ClientError + Capabilities;
  rp_publish : ClientError + EventReceipt;
}.

(** [BridgeDelivery] of the configuration. *)
Record BridgeConfig := mk_bridge_config {
  bc_registration_socket : string;
  bc_core_socket : string;
  bc_token_file : string;
  bc_host_id : string;
  bc_codex_store : option string;
  bc_claude_store : option string;
}.

(** ** The text of a notice *)

Definition POOL_DECORATED_MARKER : string := NL +:+ "[truncated; the full text is in the pool log]".

(** [pool_decorated]. *)
Definition pool_decorated (rendered : string) : string :=
  if len rendered <=? 2048 then rendered
  else
    let head := ("untrusted body:" +:+ NL)%string in
    let split := match str_find head rendered with Some i => i + String.length head | None => 0 end%nat in
    let end_ := Nat.max (2048 - String.length POOL_DECORATED_MARKER) split in
    slice rendered 0 (boundary_below rendered end_) +:+ POOL_DECORATED_MARKER.

(** What [claim] decodes: the report of a pool member carries its log entry. *)
Definition decoded (p : Payload) : result Payload :=
  match p with
  | PayCompletion n => Ok (PayCompletion n)
  | PayWorker n entry =>
      let message := match entry with Some e => pool_decorated e | None => wk_message n end in
      Ok (PayWorker (mk_worker_notice (wk_notification_id n) (wk_agent_id n) (wk_run_id n) (wk_kind n) message)
            entry)
  | PayPool n => try? notice_validate n; Ok (PayPool n)
  | PayAttention n => try? notice_validate n; Ok (PayAttention n)
  | PayRestart text before => fail? is_empty text with invalid "invalid restart notice"; Ok (PayRestart text before)
  end.

(** The kind and the text of a payload. *)
Definition payload_text (p : Payload) : result (string * string) :=
  match p with
  | PayCompletion n => let? text := completion_render n in Ok ("agent-run.completion"%string, text)
  | PayWorker n _ => let? text := worker_notice_render n in Ok ("agent-run.worker-report"%string, text)
  | PayPool n => let? text := pool_notice_render n in Ok ("agent-run.pool-completion"%string, text)
  | PayAttention n => let? text := render_attention n in Ok ("agent-run.pool-attention"%string, text)
  | PayRestart text _ => Ok ("agent-run.maintenance"%string, text)
  end.

Section bridge.
Context `{BridgeSdk, Sha256}.

(** [params]. *)
Definition params (i : BridgeIntent) : ClientError + PublishParams :=
  if payload_fits (bi_message i)
  then inr (mk_params (bi_address i) (bi_event_id i) (bi_kind i) (bi_message i) (bi_predecessor i))
  else inl InvalidRequest.

Definition encode_part (value : string) : string := str_replace "/" "%2F" (str_replace "%" "%25" value).

(** The owner and the address of a new intention. *)
Definition destination (claim : Claim) (kind : string) (config : BridgeConfig) (reply : BridgeReply)
  : result (BridgeOwner * string) :=
  let before := match cl_payload claim with PayRestart _ b => b | _ => None end in
  match before with
  | Some before =>
      let? address :=
        ok_or (invalid "invalid preceding restart destination") (native_address (bi_address before)) in
      let? p := match params before with
                | inr p => Ok p
                | inl _ => Err (invalid "invalid preceding restart intent")
                end in
      let? fingerprint := ok_or (invalid "invalid preceding restart fingerprint") (publication_fingerprint p) in
      fail? negb (bool_decide (kind = "agent-run.maintenance"%string)) || negb (bool_decide (bi_kind before = kind))
            || negb (bool_decide (bo_producer (bi_owner before) = "agent-run"%string))
            || negb (bool_decide (address = bi_address before))
            || negb (bool_decide (fingerprint = bi_intent_hash before)) with
        invalid "preceding restart intent does not verify";
      Ok (bi_owner before, address)
  | None =>
      let? (host, namespace) :=
        if bool_decide (cl_transport claim = "codex_queue"%string)
        then Ok ("codex"%string, bc_codex_store config)
        else if bool_decide (cl_transport claim = "claude_uds"%string)
        then Ok ("claude-code"%string, bc_claude_store config)
        else Err (invalid "unsupported Bridge destination transport") in
      let? namespace := ok_or (invalid "Bridge destination namespace is not configured") namespace in
      let? address :=
        ok_or (invalid "invalid Bridge destination")
          (native_address (encode_part (bc_host_id config) +:+ "/" +:+ host +:+ "/" +:+ encode_part namespace
                           +:+ "/" +:+ encode_part (cl_session claim))) in
      let? credential :=
        match rp_client reply with
        | inr fingerprint => Ok fingerprint
        | inl _ => Err (invalid "protected Bridge producer credential unavailable")
        end in
      Ok (mk_owner (bc_registration_socket config) (bc_core_socket config) (bc_token_file config) credential
            "agent-run", address)
  end.

(** [intent]. *)
Definition intent (claim : Claim) (config : BridgeConfig) (reply : BridgeReply) : result BridgeIntent :=
  let? (kind, message) := payload_text (cl_payload claim) in
  let? (owner, address) := destination claim kind config reply in
  let identity := sha256 (bytes (cl_delivery claim)) in
  let i := mk_intent owner ("ar-publish-" +:+ identity) ("ar-notice-" +:+ identity) address kind message None "" in
  let? p := match params i with
            | inr p => Ok p
            | inl _ => Err (invalid "invalid Bridge publication intent")
            end in
  let? hash := ok_or (invalid "invalid Bridge publication fingerprint") (publication_fingerprint p) in
  Ok (mk_intent owner (bi_request_id i) (bi_event_id i) address kind message None hash).

(** [custody]. *)
Definition custody (i : BridgeIntent) (r : EventReceipt) : ClientError + EventReceipt :=
  if negb (bool_decide (rc_producer r = bo_producer (bi_owner i)))
     || negb (bool_decide (rc_event_id r = bi_event_id i))
     || negb (bool_decide (rc_intent_hash r = bi_intent_hash i))
     || negb (bool_decide (rc_address r = bi_address i))
     || is_some (rc_route_key r) || is_some (rc_caller_scope r) || is_some (rc_destination_scope r)
  then inl (Transport true) else inr r.

Definition owner_changed : string := "Bridge deployment owner changed".

(** What a granted producer must support. *)
Definition supports (c : Capabilities) (i : BridgeIntent) : bool :=
  (cb_api_version c =? 1) && cb_direct_address c && bool_decide ("publish"%string ∈ cb_operations c)
  && bool_decide ("status"%string ∈ cb_operations c) && cb_message_mode c && cb_keep_all_policy c
  && cb_granted_message_mode c && cb_granted_keep_all c
  && existsb (λ k, bool_decide (k = "*"%string) || bool_decide (k = bi_kind i)) (cb_allowed_kinds c)
  && (len (bi_message i) <=? cb_payload_bytes c).

(** [publish]: the result, and whether the mutating call was made. *)
Definition publish (config : BridgeConfig) (i : BridgeIntent) (was_unknown : bool) (reply : BridgeReply)
  : (ClientError + EventReceipt) * bool :=
  if negb (bool_decide (bc_registration_socket config = bo_registration_socket (bi_owner i)))
     || negb (bool_decide (bc_core_socket config = bo_core_socket (bi_owner i)))
     || negb (bool_decide (bc_token_file config = bo_token_file (bi_owner i)))
  then (inl (InvalidConfig owner_changed), false)
  else
    match params i with
    | inl e => (inl e, false)
    | inr p =>
        match publication_fingerprint p with
        | None => (inl InvalidRequest, false)
        | Some hash =>
            if negb (bool_decide (hash = bi_intent_hash i))
            then (inl (InvalidConfig "frozen publication fingerprint mismatch"), false)
            else
              match rp_client reply with
              | inl e => (inl e, false)
              | inr credential =>
                  let rotated := negb (bool_decide (credential = bo_credential_sha256 (bi_owner i))) in
                  if was_unknown || rotated then
                    match rp_status reply with
                    | inl e => (inl e, false)
                    | inr (Some receipt) => (custody i receipt, false)
                    | inr None =>
                        (inl (if was_unknown then Transport true else InvalidConfig owner_changed), false)
                    end
                  else
                    match rp_capabilities reply with
                    | inl e => (inl e, false)
                    | inr c =>
                        if negb (supports c i)
                        then (inl (InvalidConfig "producer grant does not support frozen delivery"), false)
                        else
                          match rp_publish reply with
                          | inl e => (inl e, true)
                          | inr receipt => (custody i receipt, true)
                          end
                    end
              end
        end
    end.

(** An error after which the publication may have been accepted. *)
Definition effect_possible (e : ClientError) : bool :=
  match e with
  | Transport unknown => unknown
  | Service _ (Some EffectUnknown) | Service _ (Some EffectCommitted) | Service _ (Some EffectCommittedReplay) => true
  | _ => false
  end.

Definition classify_error (e : ClientError) : string :=
  match e with
  | InvalidConfig reason =>
      if bool_decide (reason = owner_changed) then "bridge_owner_changed" else "bridge_unconfigured"
  | InvalidRequest => "bridge_invalid"
  | Service ClassAuth _ | Service ClassForbidden _ => "bridge_forbidden"
  | Service ClassUnsupported _ => "bridge_unsupported"
  | Service ClassInvalid _ | Service ClassConflict _ => "bridge_refused"
  | Service ClassOther _ => "bridge_unavailable"
  | Transport _ => "bridge_unavailable"
  end.

(** [observation]. *)
Definition observation (r : ClientError + EventReceipt) (was_unknown : bool) : Evidence * option Value :=
  match r with
  | inr receipt => (evidence_new "bridge_custody_accepted" true false, receipt_value receipt)
  | inl e =>
      let unknown := was_unknown || effect_possible e in
      let classifier := if unknown then "bridge_outcome_unknown"%string else classify_error e in
      let ev := evidence_new classifier false unknown in
      (match e with
       | InvalidConfig reason =>
           if bool_decide (reason = owner_changed)
           then mk_evidence (ee_classifier ev) (ee_executable ev) (ee_argv_shape ev) (ee_duration_ms ev)
                  (ee_returncode ev) (ee_spawn_errno ev) (Some "owner_changed"%string) (ee_stdout_tail ev)
                  (ee_stderr_tail ev) (ee_stdout_bytes ev) (ee_stderr_bytes ev) (ee_stdout_truncated ev)
                  (ee_stderr_truncated ev) (ee_message_id_present ev)
           else ev
       | _ => ev
       end, None)
  end.

(** [send]: the observation, and whether the mutating call was made. *)
Definition send (config : option BridgeConfig) (i : BridgeIntent) (was_unknown : bool) (reply : BridgeReply)
  : Evidence * option Value * bool :=
  match config with
  | None => (observation (inl (InvalidConfig "Bridge delivery remains owned but unconfigured")) was_unknown, false)
  | Some config =>
      let '(r, called) := publish config i was_unknown reply in (observation r was_unknown, called)
  end.

(** ** One dispatch *)

(** The intention of a claim: the frozen one, or a new one. *)
Definition claim_intent (claim : Claim) (config : option BridgeConfig) (reply : BridgeReply) : result BridgeIntent :=
  match cl_bridge_intent claim with
  | Some i => Ok i
  | None =>
      match config with
      | Some config => intent claim config reply
      | None => Err (invalid "Bridge owner remains unconfigured")
      end
  end.

(** The evidence when there is no intention to publish. *)
Definition no_intent_evidence (claim : Claim) (config : option BridgeConfig) (e : Error) : Evidence :=
  evidence_new
    (if cl_bridge_unknown claim then "bridge_outcome_unknown"
     else if negb (is_some config)
             || bool_decide (e = Validation "protected Bridge producer credential unavailable")
     then "bridge_unconfigured" else "bridge_unsupported")%string
    false (cl_bridge_unknown claim).

(** [complete]: the conclusion a dispatcher submits. *)
Definition conclusion `{JsonText} (claim : Claim) (policy : DeliveryPolicy) (e : Evidence) (receipt : option Value)
  (at_ : f64) : result DeliveryCompletion :=
  let? kept := persisted e in
  Ok (mk_done (cl_delivery claim) (cl_owner claim) (cl_attempt claim) "bridge"
        (bool_decide (ee_classifier e = "bridge_custody_accepted"%string))
        (bool_decide (ee_classifier e = "bridge_outcome_unknown"%string)) (ee_classifier e)
        (Some (evidence_value kept)) receipt policy at_).
End bridge.
