(* ===== verification/Publication.v ===== *)
(** * Publication

    Any number of dispatchers work on one outbox, beside every other
    transaction of the store; each may stop at any point, and a request to the
    Bridge may take effect at any time after it was sent, or never.  The
    invariant of this system, and that no notice is published twice. *)

From stdpp Require Import relations.
From S2P Require Import Prelude Text Float64 Json Canonical Catalogs Lifecycle Requests PoolDomain.
From S2P Require Import Tables Demo Roster World History WorkerStore Sessions ServiceRestart.
From S2P Require Import PoolEnrollment PoolLog PoolWrites PoolSettle Settlement PoolReplace PoolAdmit.
From S2P Require Import Replacement Replays Admissions WorkerFinish Terminal Steps Posts PoolSystem.
From S2P Require Import Reachable Redact Notices Evidence Outbox Dispatch.

(** ** The system *)

(** How far a dispatcher has come with its claim. *)
Inductive DispatchPhase :=
  | PhClaimed
  | PhPrepared (i : BridgeIntent)
  | PhObserved (e : Evidence) (receipt : option Value).

Record Dispatcher := mk_dispatcher {
  dp_claim : Claim;
  dp_config : option BridgeConfig;
  dp_policy : DeliveryPolicy;
  dp_phase : DispatchPhase;
}.

(** The store, the dispatchers, the requests that may still take effect at the
    Bridge, and the publications that did. *)
Record World := mk_world {
  w_outbox : Outbox;
  w_active : list Dispatcher;
  w_requests : list (string * BridgeIntent);
  w_published : list (string * BridgeIntent);
}.

Definition with_payload (p : Payload) (c : Claim) : Claim :=
  mk_claim (cl_delivery c) (cl_owner c) (cl_attempt c) (cl_transport c) (cl_session c) p (cl_bridge_intent c)
    (cl_bridge_unknown c).

(** The dispatcher a claim starts, unless its payload does not decode. *)
Definition started (o : option Claim) (config : option BridgeConfig) (policy : DeliveryPolicy) : list Dispatcher :=
  match o with
  | Some c =>
      match decoded (cl_payload c) with
      | Ok p => [mk_dispatcher (with_payload p c) config policy PhClaimed]
      | Err _ => []
      end
  | None => []
  end.

Definition with_duration (ms : Z) (e : Evidence) : Evidence :=
  mk_evidence (ee_classifier e) (ee_executable e) (ee_argv_shape e) ms (ee_returncode e) (ee_spawn_errno e)
    (ee_error_class e) (ee_stdout_tail e) (ee_stderr_tail e) (ee_stdout_bytes e) (ee_stderr_bytes e)
    (ee_stdout_truncated e) (ee_stderr_truncated e) (ee_message_id_present e).

(** The SDK reports an error without a possible effect only when the
    publication was not accepted. *)
Definition no_effect (reply : BridgeReply) : bool :=
  match rp_publish reply with inl e => negb (effect_possible e) | inr _ => false end.

(** The Bridge issues a receipt only for an event it has accepted. *)
Definition truthful (reply : BridgeReply) (pub : list (string * BridgeIntent)) : Prop :=
  ∀ receipt, rp_publish reply = inr receipt ∨ rp_status reply = inr (Some receipt) →
  rc_event_id receipt ∈ map (λ x, bi_event_id (snd x)) pub.

(** A request takes effect before its answer, or may do so later. *)
Definition submitted (x req pub req' pub' : list (string * BridgeIntent)) : Prop :=
  (req' = x ++ req ∧ pub' = pub) ∨ (req' = req ∧ pub' = x ++ pub).

(** ** What the transactions do *)

(** Neither claims nor deliveries change: the identifier, the attempts, and
    whether the notice is delivered. *)
Record unclaimed (d d' : DeliveryRow) : Prop := {
  un_id : dl_id d' = dl_id d;
  un_attempts : dl_attempts d' = dl_attempts d;
  un_state : dl_state d = DDelivered ↔ dl_state d' = DDelivered;
}.
#[global] Instance unclaimed_preorder : PreOrder unclaimed.
Proof. split; [by split|]. intros x y z [? ? ?] [? ? ?]. split; [congruence..|tauto]. Qed.

Lemma released_unclaimed s d : dl_state d ≠ DDelivered → s ≠ DDelivered → unclaimed d (released_as s d).
Proof. intros Hd Hs. by split. Qed.

Lemma failed_unclaimed error ambiguous d :
  dl_state d ≠ DDelivered → unclaimed d (with_error error ambiguous (released_as DFailed d)).
Proof. intros Hd. by split. Qed.

Lemma rescheduled_unclaimed d d' : rescheduled d d' → unclaimed d d'.
Proof.
  intros [[Hid _] Ha _ _ Hst]. split; try done. unfold waits in Hst.
  destruct Hst as [->|[Hw Hs]]; [done|]. split; intros E; rewrite E in *; naive_solver.
Qed.

(** Rows of the intent table keep their delivery. *)
Lemma intent_ids f P `{∀ r, Decision (P r)} l :
  (∀ r, ir_delivery (f r) = ir_delivery r) → map ir_delivery (update_where P f l) = map ir_delivery l.
Proof. intros Hf. by apply map_update_where. Qed.

Lemma intent_row_Some ob id r : intent_row ob id = Some r → r ∈ ob_intents ob ∧ ir_delivery r = id.
Proof. intros [? ?]%first_where_Some. done. Qed.

Lemma intent_row_key ob r :
  NoDup (map ir_delivery (ob_intents ob)) → r ∈ ob_intents ob → intent_row ob (ir_delivery r) = Some r.
Proof. intros Hn Hr. by apply (first_where_key ir_delivery). Qed.

(** The committed effect of freezing an intention. *)
Lemma prepare_Ok ob id owner attempt i at_ ob' i' :
  NoDup (map ir_delivery (ob_intents ob)) →
  prepare_bridge_delivery ob id owner attempt i at_ = Ok (ob', i') →
  i' = i ∧ ob_db ob' = ob_db ob ∧ (∃ d, d ∈ deliveries ob ∧ dl_id d = id ∧ dl_attempts d = attempt) ∧
  ∃ r c, r ∈ ob_intents ob ∧ ir_delivery r = id ∧ (ir_intent r = None ∨ ir_intent r = Some i) ∧
    c = (if decide (ir_custody r = CuAccepted) then CuAccepted else CuUnknown) ∧
    ob_intents ob' =
      update_where (λ r, ir_delivery r = id) (λ r, mk_intent_row id (Some i) (ir_receipt r) c) (ob_intents ob).
Proof.
  intros Hn. unfold prepare_bridge_delivery. destruct (_ || _); [done|].
  destruct (intent_row ob id) as [r|] eqn:Er; [|done].
  destruct (exists_where _ _) eqn:Ex; [|done]. cbn [negb]. apply exists_where_true in Ex as (d & Hd & Hid & _ & _ & Ha & _).
  apply intent_row_Some in Er as [Hr Hrid].
  assert (∀ x, x ∈ ob_intents ob → ir_delivery x = id → x = r) as Hkey.
  { intros x Hx Ex. apply (primary_key ir_delivery _ x r Hn Hx Hr). congruence. }
  intros E. assert (i' = i ∧ ob' = mark_custody CuUnknown id
    (match ir_intent r with
     | Some _ => ob
     | None => set_intents (update_where (λ r, ir_delivery r = id ∧ ir_intent r = None) (with_intent i) (ob_intents ob)) ob
     end) ∧ (ir_intent r = None ∨ ir_intent r = Some i)) as (-> & -> & Hi).
  { destruct (ir_intent r) as [x|]; [case_decide; [subst x|done]|]; injection E as <- <-; auto. }
  split; [done|]. split; [by destruct (ir_intent r)|]. split; [by exists d|]. exists r, (if decide (ir_custody r = CuAccepted) then CuAccepted else CuUnknown).
  split_and!; try done. unfold mark_custody. cbn [ob_intents set_intents].
  destruct Hi as [Ei|Ei]; rewrite Ei; cbn [ob_intents set_intents]; unfold update_where; rewrite ?map_map;
    apply map_ext_in; intros x Hx%list_elem_of_In.
  - destruct (decide (ir_delivery x = id)) as [Hxid|Hxid].
    + rewrite (Hkey x Hx Hxid) in *. destruct (decide (ir_delivery r = id ∧ ir_intent r = None)) as [_|[]]; [|done].
      unfold with_intent at 1 2. cbn [ir_delivery ir_custody].
      destruct (decide (ir_custody r = CuAccepted)) as [Ec|Ec].
      * rewrite decide_False by tauto. unfold with_intent. by rewrite Ec, Hrid.
      * rewrite decide_True by done. unfold with_custody, with_intent. simpl. by rewrite Hrid.
    + destruct (decide (ir_delivery x = id ∧ ir_intent x = None)) as [[]|_]; [done|].
      by rewrite decide_False by tauto.
  - destruct (decide (ir_delivery x = id)) as [Hxid|Hxid].
    + rewrite (Hkey x Hx Hxid) in *. destruct (decide (ir_custody r = CuAccepted)) as [Ec|Ec].
      * rewrite decide_False by tauto. destruct r; simpl in *. congruence.
      * rewrite decide_True by done. unfold with_custody. destruct r; simpl in *. congruence.
    + by rewrite decide_False by tauto.
Qed.

Lemma count_key {A} (f : A → string) (P : A → Prop) `{∀ x, Decision (P x)} l x :
  NoDup (map f l) → x ∈ l → P x → count_where (λ y, f y = f x ∧ P y) l = 1.
Proof.
  intros Hn Hx Hp. unfold count_where. induction l as [|y l IH]; [by apply elem_of_nil in Hx|].
  simpl in Hn. apply NoDup_cons in Hn as [Hy Hn]. rewrite filter_cons.
  apply elem_of_cons in Hx as [->|Hx].
  - rewrite decide_True by done. simpl. rewrite filter_none; [done|]. intros z Hz [E _]. apply Hy.
    apply list_elem_of_fmap. by exists z.
  - rewrite decide_False; [by apply IH|]. intros [E _]. apply Hy. apply list_elem_of_fmap. by exists x.
Qed.

Lemma update_key {A} (f : A → string) (P : A → Prop) `{∀ x, Decision (P x)} (g : A → A) l x :
  NoDup (map f l) → x ∈ l → P x →
  update_where (λ y, f y = f x ∧ P y) g l = update_where (λ y, f y = f x) g l.
Proof.
  intros Hn Hx Hp. unfold update_where. apply map_ext_in. intros y Hy%list_elem_of_In.
  destruct (decide (f y = f x)) as [E|E]; [|by rewrite decide_False by tauto].
  rewrite (primary_key f l y x Hn Hy Hx E). by rewrite decide_True.
Qed.

Lemma unclaimed_ids ds ds' : Forall2 unclaimed ds ds' → map dl_id ds' = map dl_id ds.
Proof. induction 1 as [|d d' ds ds' [E _ _] _ IH]; [done|]. simpl. by rewrite IH, E. Qed.

Lemma expire_overdue_unclaimed ob time :
  Forall2 unclaimed (deliveries ob) (deliveries (expire_overdue ob time)).
Proof.
  apply Forall2_update; [apply _|]. intros d _ [Hw _]. apply released_unclaimed; [|done]. by rewrite Hw.
Qed.

Lemma update_unclaimed (P : DeliveryRow → Prop) `{∀ d, Decision (P d)} f ds :
  (∀ d, d ∈ ds → P d → unclaimed d (f d)) → Forall2 unclaimed ds (update_where P f ds).
Proof. intros Hf. by apply Forall2_update; [apply _|]. Qed.

Lemma due_open time d : due time d → dl_state d ≠ DDelivered.
Proof. intros [[[->| ->] _]|[-> _]]; done. Qed.

(** The outcome of a claim: no lease, or the lease of one delivery. *)
Record lease_granted (ob ob' : Outbox) (c : Claim) (ds : list DeliveryRow) (d : DeliveryRow)
  (f : DeliveryRow → DeliveryRow) : Prop := {
  lg_before : Forall2 unclaimed (deliveries ob) ds;
  lg_row : d ∈ ds ∧ dl_state d ≠ DDelivered ∧ cl_delivery c = dl_id d ∧ cl_attempt c = dl_attempts d + 1;
  lg_intents : ob_intents ob' =
    match intent_row ob (dl_id d) with
    | Some _ => ob_intents ob
    | None => ob_intents ob ++ [mk_intent_row (dl_id d) None None CuPending]
    end;
  lg_unknown : cl_bridge_unknown c =
    match intent_row ob (dl_id d) with Some r => bool_decide (ir_custody r = CuUnknown) | None => false end;
  lg_intent : cl_bridge_intent c = match intent_row ob (dl_id d) with Some r => ir_intent r | None => None end;
  lg_leased : ∀ x, dl_id (f x) = dl_id x ∧ dl_attempts (f x) = cl_attempt c ∧ dl_state (f x) = DSending;
  lg_after : ob_db ob' = set_deliveries (update_where (λ x, dl_id x = dl_id d) f ds) (ob_db ob);
}.

Lemma claim_Ok ob owner time policy ob' o :
  NoDup (map dl_id (deliveries ob)) → claim_delivery_lease ob owner time policy = Ok (ob', o) →
  (o = None ∧ ob_intents ob' = ob_intents ob ∧
     ∃ ds, ob_db ob' = set_deliveries ds (ob_db ob) ∧ Forall2 unclaimed (deliveries ob) ds) ∨
  ∃ c ds d f, o = Some c ∧ lease_granted ob ob' c ds d f.
Proof.
  intros Hn. unfold claim_delivery_lease. destruct (_ || _ || _); [done|].
  pose proof (expire_overdue_unclaimed ob time) as F. set (ob1 := expire_overdue ob time) in *.
  assert (ob_intents ob1 = ob_intents ob ∧ ob_db ob1 = set_deliveries (deliveries ob1) (ob_db ob)) as [Ei Ed] by done.
  assert (∀ id, intent_row ob1 id = intent_row ob id) as Er by done.
  clearbody ob1. destruct (next_due ob1 time) as [d|] eqn:En.
  2:{ intros [= <- <-]. left. split_and!; try done. by exists (deliveries ob1). }
  apply best_by_elem, list_elem_of_filter in En as [[Hdue _] Hd]. pose proof (due_open _ _ Hdue) as Hopen.
  assert (NoDup (map dl_id (deliveries ob1))) as Hn1 by (by rewrite (unclaimed_ids _ _ F)).
  destruct (dl_session d) as [session|]; [|done]. cbn [ok_or].
  destruct (row _) as [s|]; [|done].
  assert (∀ g, (∀ x, x ∈ deliveries ob1 → dl_id x = dl_id d → unclaimed x (g x)) →
    ∃ ds, ob_db (update_delivery (dl_id d) g ob1) = set_deliveries ds (ob_db ob) ∧ Forall2 unclaimed (deliveries ob) ds) as Hup.
  { intros g Hg. eexists. split; [unfold update_delivery; simpl; by rewrite Ed|].
    etrans; [exact F|]. by apply update_unclaimed. }
  assert (∀ x, x ∈ deliveries ob1 → dl_id x = dl_id d → dl_state x ≠ DDelivered) as Hopen'.
  { intros x Hx Eid. by rewrite (primary_key dl_id _ x d Hn1 Hx Hd Eid). }
  rewrite Er. destruct (negb _ && _).
  { intros [= <- <-]. left. split_and!; try done. apply Hup. intros x Hx Eid. apply failed_unclaimed. by apply Hopen'. }
  destruct (claim_payload ob1 (dl_id d) (dl_agent d)) as [payload|e].
  2:{ destruct e; try done; intros [= <- <-]; left; split_and!; try done; apply Hup; intros x Hx Eid;
      apply failed_unclaimed; by apply Hopen'. }
  destruct (u32_MAX <? _); [done|].
  set (until := fadd time (lease_of policy)).
  match goal with |- context [set_outbox_deliveries _ ?x] => set (ob2 := x) end.
  assert (deliveries ob2 = deliveries ob1) as Ed2 by (unfold ob2; by destruct (is_some _)).
  assert (ob_db ob2 = ob_db ob1) as Eb2 by (unfold ob2; by destruct (is_some _)).
  assert (ob_intents ob2 = match intent_row ob (dl_id d) with Some _ => ob_intents ob
    | None => ob_intents ob ++ [mk_intent_row (dl_id d) None None CuPending] end) as Ei2.
  { unfold ob2. destruct (intent_row ob (dl_id d)); simpl; by rewrite Ei. }
  assert (∃ r, intent_row ob2 (dl_id d) = Some r ∧ bool_decide (ir_custody r = CuUnknown) =
    match intent_row ob (dl_id d) with Some r => bool_decide (ir_custody r = CuUnknown) | None => false end ∧
    ir_intent r = match intent_row ob (dl_id d) with Some r => ir_intent r | None => None end) as (r & Er2 & Eu & Eint).
  { unfold intent_row in *. rewrite Ei2. destruct (first_where _ (ob_intents ob)) as [r|] eqn:E; [by exists r|].
    exists (mk_intent_row (dl_id d) None None CuPending). split_and!; try done. rewrite first_where_app, E, first_where_cons. by rewrite decide_True. }
  clearbody ob2. rewrite Ed2, (count_key dl_id (due time)), (update_key dl_id (due time)) by done. cbn [Z.eqb].
  intros [= <- <-]. right. eexists _, (deliveries ob1), d, (leased owner (dl_attempts d + 1) until).
  split; [done|]. split; simpl; try done.
  - by rewrite Er2.
  - by rewrite Er2.
  - by rewrite Eb2, Ed.
Qed.

Lemma cancel_Ok ob id ob' b :
  cancel_delivery ob id = Ok (ob', b) →
  ob_intents ob' = ob_intents ob ∧ ∃ ds, ob_db ob' = set_deliveries ds (ob_db ob) ∧ Forall2 unclaimed (deliveries ob) ds.
Proof.
  unfold cancel_delivery. destruct (blank id); [done|]. intros [= <- _]. split; [done|]. eexists. split; [done|].
  apply update_unclaimed. intros d _ (_ & Hd & _). by apply released_unclaimed.
Qed.

Lemma expire_Ok ob at_ limit ob' ids :
  expire_unbound_batch ob at_ limit = Ok (ob', ids) →
  ob_intents ob' = ob_intents ob ∧ ∃ ds, ob_db ob' = set_deliveries ds (ob_db ob) ∧ Forall2 unclaimed (deliveries ob) ds.
Proof.
  unfold expire_unbound_batch. destruct (negb _); [done|]. intros [= <- _]. split; [done|]. eexists. split; [done|].
  apply update_unclaimed. intros d _ [_ Hd]. apply released_unclaimed; [|done]. by rewrite Hd.
Qed.

(** The committed conclusion of an attempt. *)
Record concluding (ob ob' : Outbox) (c : DeliveryCompletion) (f : DeliveryRow → DeliveryRow) : Prop := {
  cc_owned : ∃ d, d ∈ deliveries ob ∧ dl_id d = dc_delivery c ∧ dl_attempts d = dc_attempt c ∧ dl_state d = DSending;
  cc_row : ∀ x, dl_id (f x) = dl_id x ∧ dl_attempts (f x) = dl_attempts x ∧
                (dl_state (f x) = DDelivered ↔ dc_accepted c = true);
  cc_after : ob_db ob' = set_deliveries (update_where (λ x, dl_id x = dc_delivery c) f (deliveries ob)) (ob_db ob);
  cc_custody :
    if dc_accepted c
    then ∃ receipt r i, r ∈ ob_intents ob ∧ ir_delivery r = dc_delivery c ∧ ir_intent r = Some i ∧
           receipt_matches receipt i = true ∧
           ob_intents ob' = update_where (λ r, ir_delivery r = dc_delivery c) (with_receipt receipt) (ob_intents ob)
    else ob_intents ob' =
           update_where (λ r, ir_delivery r = dc_delivery c ∧ ir_custody r ≠ CuAccepted)
             (with_custody (if dc_ambiguous c then CuUnknown else CuPending)) (ob_intents ob);
}.

Lemma complete_Ok `{JsonText} ob c ob' o :
  complete_delivery_attempt ob c = Ok (ob', o) → (ob' = ob ∧ o = None) ∨ ∃ f, concluding ob ob' c f.
Proof.
  unfold complete_delivery_attempt. destruct (negb _); [done|]. destruct (exists_where _ _) eqn:Ex.
  2:{ intros [= <- <-]. by left. }
  cbn [negb]. apply exists_where_true in Ex as (d & Hd & Hid & Hs & _ & Ha & _).
  destruct (record_evidence ob c) as [ob1|] eqn:E1; [|done].
  assert (ob_db ob1 = ob_db ob ∧ ob_intents ob1 = ob_intents ob) as [D1 I1].
  { unfold record_evidence in E1. destruct (dc_evidence c) as [ev|]; [|by injection E1 as <-].
    destruct (safe_evidence ev); [|done]. destruct (_ <? _); [done|]. injection E1 as <-. by destruct (_ || _). }
  destruct (record_custody ob1 c) as [ob2|] eqn:E2; [|done]. intros [= <- <-]. right.
  exists (concluded (verdict_state ob c) (if decide (verdict_state ob c = DRetryWait) then real (retry_at ob c) else None)
            (if dc_accepted c then None else Some (dc_classifier c)) (dc_ambiguous c)).
  assert (ob_db ob2 = ob_db ob1) as D2.
  { unfold record_custody in E2. destruct (dc_accepted c).
    - by run E2.
    - destruct (dc_ambiguous c); by injection E2 as <-. }
  split.
  - by exists d.
  - intros x. split_and!; try done. simpl. unfold verdict_state. destruct (dc_accepted c); [done|].
    destruct (negb false && _); done.
  - unfold update_delivery, set_outbox_deliveries, deliveries. simpl. by rewrite D2, D1.
  - cbn [ob_intents update_delivery set_outbox_deliveries set_db]. unfold record_custody in E2. destruct (dc_accepted c).
    + destruct (dc_receipt c) as [receipt|]; [|done]. cbn [ok_or] in E2.
      destruct (intent_row ob1 (dc_delivery c)) as [r|] eqn:Er; [|done]. cbn [row ok_or] in E2.
      destruct (ir_intent r) as [i|] eqn:Ei; [|done]. cbn [ok_or] in E2.
      destruct (receipt_matches receipt i) eqn:Em; [|done]. injection E2 as <-.
      apply intent_row_Some in Er as [Hr Hrid]. rewrite I1 in Hr. exists receipt, r, i. split_and!; try done.
      simpl. by rewrite I1.
    + destruct (dc_ambiguous c); injection E2 as <-; simpl; by rewrite I1.
Qed.

(** ** What a publication attempt observes *)

(** A verdict that the publication was not accepted. *)
Definition definite (e : Evidence) : Prop :=
  ee_classifier e ≠ "bridge_custody_accepted"%string ∧ ee_classifier e ≠ "bridge_outcome_unknown"%string.

Section observing.
Context `{BridgeSdk, Sha256}.

Lemma observation_unknown r : ¬ definite (fst (observation r true)).
Proof.
  unfold definite. destruct r as [e|receipt]; simpl; [|by intros []]. intros [_ Hu]. apply Hu.
  destruct e; try done. by destruct (bool_decide _).
Qed.

Lemma observation_possible e u : effect_possible e = true → ¬ definite (fst (observation (inl e) u)).
Proof.
  unfold definite. intros He [_ Hu]. apply Hu. simpl. rewrite He, orb_true_r. destruct e; try done.
Qed.

(** A dispatcher that found custody unknown only asks for the status. *)
Lemma send_unknown config i reply ev receipt called :
  send config i true reply = (ev, receipt, called) → called = false ∧ ¬ definite ev.
Proof.
  unfold send. destruct config as [config|].
  - destruct (publish config i true reply) as [r b] eqn:E. intros Hs.
    assert (ev = fst (observation r true) ∧ called = b) as [-> ->].
    { destruct (observation r true). by injection Hs as <- <- <-. }
    split; [|apply observation_unknown]. unfold publish in E. repeat (case_match; simplify_eq; try done).
  - intros Hs. injection Hs as <- _ <-. split; [done|]. intros [_ []]. done.
Qed.

(** After a call that may have taken effect the verdict is never definite. *)
Lemma send_effect config i u reply ev receipt :
  send config i u reply = (ev, receipt, true) → no_effect reply = false → ¬ definite ev.
Proof.
  unfold send. destruct config as [config|]; [|done].
  destruct (publish config i u reply) as [r b] eqn:E. intros Hs.
  assert (ev = fst (observation r u) ∧ b = true) as [-> ->].
  { destruct (observation r u). by injection Hs as <- <- <-. }
  intros Hn. assert (r = match rp_publish reply with inl e => inl e | inr x => custody i x end) as ->.
  { unfold publish in E. repeat (case_match; simplify_eq; try done). }
  unfold no_effect in Hn. destruct (rp_publish reply) as [e|x].
  - apply observation_possible. by destruct (effect_possible e).
  - unfold custody. destruct (_ || _); [by apply observation_possible|]. by intros [].
Qed.

(** An accepted verdict rests on a receipt for the event of the intention. *)
Lemma send_accepted config i u reply ev receipt called pub :
  send config i u reply = (ev, receipt, called) → truthful reply pub →
  ee_classifier ev = "bridge_custody_accepted"%string → bi_event_id i ∈ map (λ x, bi_event_id (snd x)) pub.
Proof.
  unfold send. destruct config as [config|]; [|by destruct u; intros [= <- _ _]].
  destruct (publish config i u reply) as [r b] eqn:E. intros Hs Ht Hc.
  assert (ev = fst (observation r u)) as -> by (destruct (observation r u); by injection Hs as <- _ _).
  destruct r as [e|x].
  - exfalso. destruct e as [reason| |class effect|un]; simpl in Hc.
    all: repeat (case_match; try done).
  - assert (∃ y, custody i y = inr x ∧ (rp_publish reply = inr y ∨ rp_status reply = inr (Some y))) as (y & Hy & Hr).
    { unfold publish in E. repeat (case_match; simplify_eq; try done); eauto. }
    unfold custody in Hy. destruct (decide (rc_event_id y = bi_event_id i)) as [<-|Hne]; [by apply Ht|].
    by rewrite (bool_decide_eq_false_2 _ Hne), orb_true_r in Hy.
Qed.
End observing.

Section publication.
Context {Inputs : Type} `{Admission Inputs, Serde, EventJson, Unicode, Host, Sha256, JsonSchema}.
Context `{BridgeSdk, JsonText}.

(** What the dispatchers and the Bridge do. *)
Inductive dispatcher_step : World → World → Prop :=
  | ds_claim ob act req pub owner time policy config ob' o :
      claim_delivery_lease ob owner time policy = Ok (ob', o) →
      dispatcher_step (mk_world ob act req pub) (mk_world ob' (act ++ started o config policy) req pub)
  | ds_prepare ob l1 c config policy l2 req pub reply i at_ ob' i' :
      claim_intent c config reply = Ok i →
      prepare_bridge_delivery ob (cl_delivery c) (cl_owner c) (cl_attempt c) i at_ = Ok (ob', i') →
      dispatcher_step (mk_world ob (l1 ++ mk_dispatcher c config policy PhClaimed :: l2) req pub)
        (mk_world ob' (l1 ++ mk_dispatcher c config policy (PhPrepared i') :: l2) req pub)
  | ds_no_intent ob l1 c config policy l2 req pub reply e :
      claim_intent c config reply = Err e →
      dispatcher_step (mk_world ob (l1 ++ mk_dispatcher c config policy PhClaimed :: l2) req pub)
        (mk_world ob (l1 ++ mk_dispatcher c config policy (PhObserved (no_intent_evidence c config e) None) :: l2)
           req pub)
  | ds_send ob l1 c config policy i l2 req pub reply ev receipt called req' pub' :
      send config i (cl_bridge_unknown c) reply = (ev, receipt, called) →
      submitted (if called && negb (no_effect reply) then [(cl_delivery c, i)] else []) req pub req' pub' →
      truthful reply pub' →
      dispatcher_step (mk_world ob (l1 ++ mk_dispatcher c config policy (PhPrepared i) :: l2) req pub)
        (mk_world ob (l1 ++ mk_dispatcher c config policy (PhObserved ev receipt) :: l2) req' pub')
  | ds_abort ob l1 c config policy i l2 req pub reply ev receipt called req' pub' :
      send config i (cl_bridge_unknown c) reply = (ev, receipt, called) →
      submitted (if called then [(cl_delivery c, i)] else []) req pub req' pub' →
      dispatcher_step (mk_world ob (l1 ++ mk_dispatcher c config policy (PhPrepared i) :: l2) req pub)
        (mk_world ob
           (l1 ++ mk_dispatcher c config policy
                    (PhObserved (fst (observation (inl (Transport true)) true)) None) :: l2)
           req' pub')
  | ds_effect ob act r1 x r2 pub :
      dispatcher_step (mk_world ob act (r1 ++ x :: r2) pub) (mk_world ob act (r1 ++ r2) (x :: pub))
  | ds_lost ob act r1 x r2 pub :
      dispatcher_step (mk_world ob act (r1 ++ x :: r2) pub) (mk_world ob act (r1 ++ r2) pub)
  | ds_complete ob l1 c config policy ev receipt l2 req pub ms at_ done_ ob' o :
      conclusion c policy (with_duration ms ev) receipt at_ = Ok done_ →
      complete_delivery_attempt ob done_ = Ok (ob', o) →
      dispatcher_step (mk_world ob (l1 ++ mk_dispatcher c config policy (PhObserved ev receipt) :: l2) req pub)
        (mk_world ob' (l1 ++ l2) req pub)
  | ds_stop ob l1 p l2 req pub :
      dispatcher_step (mk_world ob (l1 ++ p :: l2) req pub) (mk_world ob (l1 ++ l2) req pub)
  | ds_cancel ob act req pub id ob' b :
      cancel_delivery ob id = Ok (ob', b) →
      dispatcher_step (mk_world ob act req pub) (mk_world ob' act req pub)
  | ds_expire ob act req pub at_ limit ob' ids :
      expire_unbound_batch ob at_ limit = Ok (ob', ids) →
      dispatcher_step (mk_world ob act req pub) (mk_world ob' act req pub).

(** Beside them, the transactions of the store and of restarts. *)
Inductive dispatch_step : World → World → Prop :=
  | ds_dispatcher w w' : dispatcher_step w w' → dispatch_step w w'
  | ds_store ob act req pub db' :
      step (ob_db ob) db' → NoDup (map dl_id (db_deliveries db')) →
      dispatch_step (mk_world ob act req pub) (mk_world (set_db db' ob) act req pub)
  | ds_restart ob act req pub notices :
      dispatch_step (mk_world ob act req pub)
        (mk_world (mk_outbox (ob_db ob) (ob_intents ob) (ob_evidence ob) notices) act req pub).

(** A store no dispatcher has worked on yet. *)
Record undispatched (db : Db) : Prop := {
  ud_sound : sound db;
  ud_ids : NoDup (map dl_id (db_deliveries db));
  ud_open : ∀ d, d ∈ db_deliveries db → dl_state d ≠ DDelivered;
}.

Definition opening (db : Db) (notices : list RestartNoticeRow) : World :=
  mk_world (mk_outbox db [] [] notices) [] [] [].
End publication.
