(* ===== verification/ExactlyOnce.v ===== *)
(** * Exactly once

    The invariant of the publication system of [Publication], and what follows
    from it: no notice is published twice, and a notice recorded as delivered
    was published. *)

From stdpp Require Import relations.
From S2P Require Import Prelude Text Float64 Json Canonical Catalogs Lifecycle Requests PoolDomain.
From S2P Require Import Tables Demo Roster World History WorkerStore Sessions ServiceRestart.
From S2P Require Import PoolEnrollment PoolLog PoolWrites PoolSettle Settlement PoolReplace PoolAdmit.
From S2P Require Import Replacement Replays Admissions WorkerFinish Terminal Steps Posts PoolSystem.
From S2P Require Import Reachable Protocol Redact Notices Evidence Outbox Dispatch Publication.

(** ** The invariant *)

(** A dispatcher between freezing its intention and calling the Bridge may
    still cause a publication, unless it is only going to ask for the status. *)
Definition token (p : Dispatcher) : option (string * BridgeIntent) :=
  match dp_phase p with
  | PhPrepared i => if cl_bridge_unknown (dp_claim p) then None else Some (cl_delivery (dp_claim p), i)
  | _ => None
  end.

(** Every publication that happened or may happen without a further claim. *)
Definition tokens (act : list Dispatcher) (req pub : list (string * BridgeIntent)) : list (string * BridgeIntent) :=
  omap token act ++ req ++ pub.

Definition frozen (rows : list IntentRow) (id : string) (i : BridgeIntent) : Prop :=
  ∃ r, r ∈ rows ∧ ir_delivery r = id ∧ ir_intent r = Some i.

Definition events (pub : list (string * BridgeIntent)) : list string := map (λ x, bi_event_id (snd x)) pub.

(** No later claim has superseded the one of this dispatcher. *)
Definition current (ds : list DeliveryRow) (c : Claim) : Prop :=
  ∃ d, d ∈ ds ∧ dl_id d = cl_delivery c ∧ dl_attempts d = cl_attempt c.

Definition claim_key (p : Dispatcher) : string * Z := (cl_delivery (dp_claim p), cl_attempt (dp_claim p)).

Section invariant.
Context `{Sha256}.

Definition event_of (id : string) : string := "ar-notice-" +:+ sha256 (bytes id).

(** What each phase of a dispatcher relies on. *)
Definition phase_ok (ds : list DeliveryRow) (rows : list IntentRow) (toks pub : list (string * BridgeIntent))
  (p : Dispatcher) : Prop :=
  let c := dp_claim p in
  let id := cl_delivery c in
  match dp_phase p with
  | PhClaimed =>
      (∀ i, cl_bridge_intent c = Some i → frozen rows id i) ∧
      (current ds c → cl_bridge_unknown c = false → ∀ r, r ∈ rows → ir_delivery r = id → ir_custody r = CuPending)
  | PhPrepared i => frozen rows id i
  | PhObserved e _ =>
      (ee_classifier e = "bridge_custody_accepted"%string → ∃ i, frozen rows id i ∧ bi_event_id i ∈ events pub) ∧
      (definite e → cl_bridge_unknown c = false ∧ (current ds c → id ∉ map fst toks))
  end.

Record inv (ds : list DeliveryRow) (rows : list IntentRow) (act : list Dispatcher)
  (req pub : list (string * BridgeIntent)) : Prop := {
  iv_ids : NoDup (map dl_id ds);
  iv_rows : NoDup (map ir_delivery rows);
  iv_home : ∀ r, r ∈ rows → ∃ d, d ∈ ds ∧ dl_id d = ir_delivery r;
  iv_events : ∀ id i, frozen rows id i → bi_event_id i = event_of id;
  iv_accepted : ∀ r, r ∈ rows → ir_custody r = CuAccepted →
                ∃ d, d ∈ ds ∧ dl_id d = ir_delivery r ∧ dl_state d = DDelivered;
  iv_delivered : ∀ d, d ∈ ds → dl_state d = DDelivered →
                 ∃ r i receipt, r ∈ rows ∧ ir_delivery r = dl_id d ∧ ir_custody r = CuAccepted ∧
                   ir_intent r = Some i ∧ ir_receipt r = Some receipt ∧ receipt_matches receipt i = true ∧
                   bi_event_id i ∈ events pub;
  iv_claims : ∀ p, p ∈ act → ∃ d, d ∈ ds ∧ dl_id d = cl_delivery (dp_claim p) ∧
              cl_attempt (dp_claim p) ≤ dl_attempts d;
  iv_attempts : NoDup (map claim_key act);
  iv_tokens : NoDup (map fst (tokens act req pub));
  iv_fenced : ∀ id i, (id, i) ∈ tokens act req pub →
              ∃ r, r ∈ rows ∧ ir_delivery r = id ∧ ir_intent r = Some i ∧ ir_custody r ≠ CuPending;
  iv_phases : ∀ p, p ∈ act → phase_ok ds rows (tokens act req pub) pub p;
}.

(** ** Frames *)

Lemma published_once ds rows act req pub : inv ds rows act req pub → NoDup (map fst pub).
Proof.
  intros I. pose proof (iv_tokens _ _ _ _ _ I) as Hn. unfold tokens in Hn. rewrite !map_app in Hn.
  by apply NoDup_app in Hn as (_ & _ & (_ & _ & ?)%NoDup_app).
Qed.

Lemma phase_mono ds rows toks pub ds' rows' toks' pub' p :
  (∀ i, frozen rows (cl_delivery (dp_claim p)) i → frozen rows' (cl_delivery (dp_claim p)) i) →
  (current ds' (dp_claim p) → current ds (dp_claim p)) →
  (current ds' (dp_claim p) → ∀ r', r' ∈ rows' → ir_delivery r' = cl_delivery (dp_claim p) →
     ir_custody r' = CuPending ∨ ∃ r, r ∈ rows ∧ ir_delivery r = cl_delivery (dp_claim p) ∧ ir_custody r = ir_custody r') →
  (current ds' (dp_claim p) → cl_delivery (dp_claim p) ∈ map fst toks' → cl_delivery (dp_claim p) ∈ map fst toks) →
  (∀ x, x ∈ events pub → x ∈ events pub') →
  phase_ok ds rows toks pub p → phase_ok ds' rows' toks' pub' p.
Proof.
  intros Hf Hc Hr Ht Hp. unfold phase_ok. destruct (dp_phase p) as [|i|e receipt].
  - intros [H1 H2]. split; [by intros i Hi; apply Hf, H1|]. intros Hcur Hu r' Hr' Hid.
    destruct (Hr Hcur r' Hr' Hid) as [|(r & Hin & Hrid & <-)]; [done|]. by apply H2; auto.
  - apply Hf.
  - intros [H1 H2]. split.
    + intros Ha. destruct (H1 Ha) as (i & Hi & He). exists i. auto.
    + intros Hd. destruct (H2 Hd) as [Hu Hn]. split; [done|]. intros Hcur Hin. apply Hn; auto.
Qed.

Lemma fewer_NoDup {A} (l k : list A) : l ⊆+ k → NoDup k → NoDup l.
Proof. intros (x & Hx)%submseteq_Permutation. rewrite Hx. by intros (? & _)%NoDup_app. Qed.

Lemma filter_key {A} (f : A → string) l x : NoDup (map f l) → x ∈ l → filter (λ y, f y = f x) l = [x].
Proof.
  induction l as [|y l IH]; [by intros _ ?%elem_of_nil|]. simpl. intros [Hy Hn]%NoDup_cons [->|Hx]%elem_of_cons.
  - rewrite filter_cons_True by done. f_equal. apply filter_none. intros z Hz E. apply Hy, list_elem_of_fmap. by exists z.
  - rewrite filter_cons_False; [by apply IH|]. intros E. apply Hy, list_elem_of_fmap. by exists x.
Qed.

(** The rows after an update by key. *)
Lemma elem_of_update_key {A} (k : A → string) (f : A → A) l id y :
  y ∈ update_where (λ x, k x = id) f l ↔ (y ∈ l ∧ k y ≠ id) ∨ ∃ x, x ∈ l ∧ k x = id ∧ y = f x.
Proof.
  rewrite elem_of_update_where. split.
  - intros (x & Hx & ->). case_decide; [right; by exists x|by left].
  - intros [[Hy Hid]|(x & Hx & Hid & ->)]; [exists y|exists x]; (split; [done|]).
    + by rewrite decide_False.
    + by rewrite decide_True.
Qed.

Lemma tokens_cons p act req pub :
  tokens (p :: act) req pub = match token p with Some t => t :: tokens act req pub | None => tokens act req pub end.
Proof. unfold tokens. simpl. by destruct (token p). Qed.

Lemma tokens_fewer act act' req req' pub pub' :
  act' ⊆+ act → req' ++ pub' ⊆+ req ++ pub → tokens act' req' pub' ⊆+ tokens act req pub.
Proof.
  intros (k & Hk)%submseteq_Permutation Hr. unfold tokens. rewrite Hk, omap_app, <-app_assoc.
  apply submseteq_skips_l. by apply submseteq_inserts_l.
Qed.

(** The store stays; dispatchers and requests move on without a new token. *)
Lemma inv_moves ds rows act act' req req' pub pub' :
  tokens act' req' pub' ⊆+ tokens act req pub → pub ⊆ pub' → map claim_key act' ⊆+ map claim_key act →
  (∀ p, p ∈ act' → p ∈ act ∨ phase_ok ds rows (tokens act' req' pub') pub' p) →
  inv ds rows act req pub → inv ds rows act' req' pub'.
Proof.
  intros Ht Hp Hk Hph [].
  assert (map fst (tokens act' req' pub') ⊆+ map fst (tokens act req pub)) as Hf by (by apply (fmap_submseteq fst)).
  assert (∀ x, x ∈ events pub → x ∈ events pub') as He.
  { intros x (y & -> & Hy)%list_elem_of_fmap. apply list_elem_of_fmap. exists y. auto. }
  split; auto.
  - intros d Hd Hs. destruct (iv_delivered0 d Hd Hs) as (r & i & receipt & ?). exists r, i, receipt. naive_solver.
  - intros p Hin. assert (claim_key p ∈ map claim_key act) as (q & Eq & Hq)%list_elem_of_fmap.
    { eapply elem_of_submseteq; [|exact Hk]. apply list_elem_of_fmap. by exists p. }
    injection Eq as -> ->. by apply iv_claims0.
  - by eapply fewer_NoDup.
  - by eapply fewer_NoDup.
  - intros id i Hi. apply iv_fenced0. by eapply elem_of_submseteq.
  - intros p Hin. destruct (Hph p Hin) as [Hq|]; [|done]. eapply phase_mono; [..|by apply iv_phases0]; eauto.
    intros _ Hid. by eapply elem_of_submseteq.
Qed.

(** Dispatchers and requests may be forgotten, reordered, or take effect. *)
Lemma inv_fewer ds rows act act' req req' pub pub' :
  act' ⊆+ act → req' ++ pub' ⊆+ req ++ pub → pub ⊆ pub' →
  inv ds rows act req pub → inv ds rows act' req' pub'.
Proof.
  intros Ha Hr Hp. apply inv_moves; [by apply tokens_fewer|done|by apply (fmap_submseteq claim_key)|].
  intros p Hin. left. by eapply elem_of_submseteq.
Qed.

Lemma inv_middle ds rows l1 p l2 req pub : inv ds rows (l1 ++ p :: l2) req pub ↔ inv ds rows (p :: l1 ++ l2) req pub.
Proof. split; apply inv_fewer; try done; by rewrite <-Permutation_middle. Qed.

(** The claim of a dispatcher is current when it is that of the row itself. *)
Lemma current_row ds c d :
  NoDup (map dl_id ds) → d ∈ ds → dl_id d = cl_delivery c → current ds c ↔ dl_attempts d = cl_attempt c.
Proof.
  intros Hn Hd Hid. split; [|by exists d].
  intros (d' & Hd' & Hid' & Ha). rewrite <-Ha. f_equal. apply (primary_key dl_id ds); congruence.
Qed.

(** Deliveries that are rescheduled, withdrawn or added. *)
Lemma inv_deliveries ds rows act req pub old new :
  Forall2 unclaimed ds old → Forall (λ d, dl_state d ≠ DDelivered) new → NoDup (map dl_id (old ++ new)) →
  inv ds rows act req pub → inv (old ++ new) rows act req pub.
Proof.
  intros F Hnew Hn [].
  assert (∀ d, d ∈ ds → ∃ d', d' ∈ old ++ new ∧ unclaimed d d') as Hto.
  { intros d Hd. destruct (related_l _ _ _ _ F Hd) as (d' & Hd' & U). exists d'. split; [|done].
    apply elem_of_app. by left. }
  split; auto.
  - intros r Hr. destruct (iv_home0 r Hr) as (d & Hd & E). destruct (Hto d Hd) as (d' & Hd' & [U _ _]).
    exists d'. split; [done|congruence].
  - intros r Hr Hc. destruct (iv_accepted0 r Hr Hc) as (d & Hd & E & Es). destruct (Hto d Hd) as (d' & Hd' & [U _ Us]).
    exists d'. split_and!; [done|congruence|by apply Us].
  - intros d' [Hd'|Hd']%elem_of_app Hs; [|by apply (proj1 (Forall_forall _ _) Hnew) in Hd'].
    destruct (related_r _ _ _ _ F Hd') as (d & Hd & [-> _ Us]). by apply iv_delivered0, Us.
  - intros p Hp. destruct (iv_claims0 p Hp) as (d & Hd & E & Ea). destruct (Hto d Hd) as (d' & Hd' & [U Ua _]).
    exists d'. split_and!; [done|congruence|lia].
  - intros p Hp. destruct (iv_claims0 p Hp) as (d & Hd & E & Ea). destruct (Hto d Hd) as (d' & Hd' & [U Ua _]).
    assert (current (old ++ new) (dp_claim p) → current ds (dp_claim p)) as Hc.
    { rewrite (current_row _ _ d'), (current_row ds _ d) by congruence. congruence. }
    eapply phase_mono; [..|by apply iv_phases0]; eauto.
Qed.

(** A claimed delivery gets a row for its intention. *)
Lemma inv_new_row ds rows act req pub d :
  d ∈ ds → (∀ r, r ∈ rows → ir_delivery r ≠ dl_id d) →
  inv ds rows act req pub → inv ds (rows ++ [mk_intent_row (dl_id d) None None CuPending]) act req pub.
Proof.
  intros Hd Hfresh []. set (row := mk_intent_row _ _ _ _).
  assert (∀ r, r ∈ rows → r ∈ rows ++ [row]) as Hin by (intros; apply elem_of_app; by left).
  assert (∀ r, r ∈ rows ++ [row] → r ∈ rows ∨ r = row) as Hout.
  { intros r [?|?%list_elem_of_singleton]%elem_of_app; auto. }
  assert (∀ id i, frozen (rows ++ [row]) id i ↔ frozen rows id i) as Hfr.
  { intros id i. split; intros (r & Hr & ?); [|by exists r; auto]. destruct (Hout r Hr) as [?| ->]; [by exists r|naive_solver]. }
  split; auto.
  - rewrite map_app. apply NoDup_app. split; [done|]. split; [|apply NoDup_singleton].
    intros x (r & -> & Hr)%list_elem_of_fmap ?%list_elem_of_singleton. by apply (Hfresh r).
  - intros r Hr. destruct (Hout r Hr) as [?| ->]; [auto|]. by exists d.
  - intros id i. rewrite Hfr. auto.
  - intros r Hr. destruct (Hout r Hr) as [?| ->]; [auto|done].
  - intros x Hx Hs. destruct (iv_delivered0 x Hx Hs) as (r & i & receipt & ?). exists r, i, receipt. naive_solver.
  - intros id i Hi. destruct (iv_fenced0 id i Hi) as (r & ?). exists r. naive_solver.
  - intros p Hp. eapply phase_mono; [..|by apply iv_phases0]; eauto.
    + intros i. by rewrite Hfr.
    + intros _ r' Hr' Hid. destruct (Hout r' Hr') as [?| ->]; [eauto|by left].
Qed.

(** A delivery is claimed. *)
Lemma inv_lease ds rows act req pub d r f c config policy :
  d ∈ ds → dl_state d ≠ DDelivered → cl_delivery c = dl_id d → cl_attempt c = dl_attempts d + 1 →
  (∀ x, dl_id (f x) = dl_id x ∧ dl_attempts (f x) = cl_attempt c ∧ dl_state (f x) = DSending) →
  r ∈ rows → ir_delivery r = dl_id d → cl_bridge_intent c = ir_intent r →
  cl_bridge_unknown c = bool_decide (ir_custody r = CuUnknown) →
  inv ds rows act req pub →
  inv (update_where (λ x, dl_id x = dl_id d) f ds) rows (mk_dispatcher c config policy PhClaimed :: act) req pub.
Proof.
  intros Hd Hs Hid Ha Hf Hr Hrid Hint Hu [].
  set (ds' := update_where _ _ _).
  assert (∀ x, x ∈ ds → dl_id x = dl_id d → x = d) as Hkey by (intros; by apply (primary_key dl_id ds)).
  assert (∀ y, y ∈ ds' ↔ (y ∈ ds ∧ dl_id y ≠ dl_id d) ∨ y = f d) as Hds.
  { intros y. unfold ds'. rewrite (elem_of_update_key dl_id). split; [|naive_solver].
    intros [?|(x & Hx & E & ->)]; [by left|]. right. f_equal. auto. }
  assert (NoDup (map dl_id ds')) as Hn.
  { unfold ds'. rewrite map_update_where; [done|]. intros x _ _. apply Hf. }
  assert (∀ p, p ∈ act → current ds' (dp_claim p) → current ds (dp_claim p) ∧ cl_delivery (dp_claim p) ≠ dl_id d) as Hcur.
  { intros p Hp (y & Hy & Ey & Ea). destruct (iv_claims0 p Hp) as (x & Hx & Ex & Eax). apply Hds in Hy as [[Hy Hne]| ->].
    - split; [by exists y|congruence].
    - destruct (Hf d) as (Fi & Fa & _). rewrite (Hkey x Hx) in Eax by congruence. lia. }
  split; auto.
  - intros q Hq. destruct (iv_home0 q Hq) as (x & Hx & E). destruct (decide (dl_id x = dl_id d)) as [Ed|Ed].
    + exists (f d). rewrite Hds. destruct (Hf d) as (-> & _). split; [by right|congruence].
    + exists x. rewrite Hds. auto.
  - intros q Hq Hc. destruct (iv_accepted0 q Hq Hc) as (x & Hx & E & Es). exists x. rewrite Hds. split; [|done].
    left. split; [done|]. intros Ed. by rewrite (Hkey x Hx Ed) in Es.
  - intros y [[Hy _]| ->]%Hds Es; [by apply iv_delivered0|]. destruct (Hf d) as (_ & _ & E). congruence.
  - intros p [-> |Hp]%elem_of_cons.
    + exists (f d). rewrite Hds. destruct (Hf d) as (Fi & Fa & _). split_and!; [by right|simpl; congruence|simpl; lia].
    + destruct (iv_claims0 p Hp) as (x & Hx & E & Ex). destruct (decide (dl_id x = dl_id d)) as [Ed|Ed].
      * rewrite (Hkey x Hx Ed) in *. exists (f d). rewrite Hds. destruct (Hf d) as (Fi & Fa & _).
        split_and!; [by right|congruence|lia].
      * exists x. rewrite Hds. auto.
  - simpl. apply NoDup_cons. split; [|done]. intros (p & Ek & Hp)%list_elem_of_fmap. injection Ek as Ei Ea.
    destruct (iv_claims0 p Hp) as (x & Hx & E & Ex). simpl in *. rewrite (Hkey x Hx) in Ex by congruence. lia.
  - intros p [-> |Hp]%elem_of_cons.
    + split; [intros i Hi; exists r; simpl in *; split_and!; congruence|]. simpl. intros _ Hk q Hq Eq.
      assert (q = r) as -> by (apply (primary_key ir_delivery rows); congruence).
      rewrite Hu in Hk. apply bool_decide_eq_false in Hk. destruct (ir_custody r) eqn:Ec; try done. exfalso.
      destruct (iv_accepted0 r Hr Ec) as (x & Hx & E & Es). rewrite (Hkey x Hx) in Es by congruence. done.
    + eapply phase_mono; [..|by apply iv_phases0]; eauto. intros Hc. by apply Hcur.
Qed.

(** At most one dispatcher of a delivery is current. *)
Lemma other_claim ds act p p' :
  NoDup (map dl_id ds) → NoDup (map claim_key (p :: act)) → current ds (dp_claim p) →
  p' ∈ act → current ds (dp_claim p') → cl_delivery (dp_claim p') ≠ cl_delivery (dp_claim p).
Proof.
  intros Hn [Hk _]%NoDup_cons (d & Hd & Ei & Ea) Hp' Hc' E. apply Hk, list_elem_of_fmap. exists p'. split; [|done].
  apply (current_row ds _ d) in Hc'; [|done..|congruence]. unfold claim_key. congruence.
Qed.

(** A current dispatcher that knows custody to be open owns no publication yet. *)
Lemma claimed_untouched ds rows act req pub c config policy :
  inv ds rows (mk_dispatcher c config policy PhClaimed :: act) req pub → current ds c →
  cl_bridge_unknown c = false → cl_delivery c ∉ map fst (tokens act req pub).
Proof.
  intros [] Hc Hu ([id i] & E & Ht)%list_elem_of_fmap. simpl in E. subst id. destruct (iv_phases0 _ (list_elem_of_here _ _)) as [_ Hp].
  destruct (iv_fenced0 _ i Ht) as (r & Hr & Hid & _ & Hn). by apply Hn, Hp.
Qed.

(** An intention is frozen. *)
Lemma inv_prepare ds rows act req pub c config policy i r cu :
  current ds c → r ∈ rows → ir_delivery r = cl_delivery c → ir_intent r = None ∨ ir_intent r = Some i →
  cu = (if decide (ir_custody r = CuAccepted) then CuAccepted else CuUnknown) → bi_event_id i = event_of (cl_delivery c) →
  inv ds rows (mk_dispatcher c config policy PhClaimed :: act) req pub →
  inv ds (update_where (λ r, ir_delivery r = cl_delivery c)
            (λ r, mk_intent_row (cl_delivery c) (Some i) (ir_receipt r) cu) rows)
    (mk_dispatcher c config policy (PhPrepared i) :: act) req pub.
Proof.
  intros Hc Hr Hid Hi Hcu He I. pose proof (claimed_untouched _ _ _ _ _ _ _ _ I Hc) as Hfree.
  pose proof (λ p', other_claim ds act _ p' (iv_ids _ _ _ _ _ I) (iv_attempts _ _ _ _ _ I) Hc) as Hother. destruct I.
  set (rows' := update_where _ _ _). set (new := mk_intent_row (cl_delivery c) (Some i) (ir_receipt r) cu).
  assert (∀ q, q ∈ rows → ir_delivery q = cl_delivery c → q = r) as Hkey.
  { intros. apply (primary_key ir_delivery rows); congruence. }
  assert (∀ y, y ∈ rows' ↔ (y ∈ rows ∧ ir_delivery y ≠ cl_delivery c) ∨ y = new) as Hrows.
  { intros y. unfold rows'. rewrite (elem_of_update_key ir_delivery). split; [|intros [?| ->]; [by left|right; by exists r]].
    intros [?|(x & Hx & E & ->)]; [by left|]. right. by rewrite (Hkey x Hx E). }
  assert (new ∈ rows') as Hnew by (apply Hrows; by right).
  assert (∀ q, q ∈ rows → ir_delivery q ≠ cl_delivery c → q ∈ rows') as Hkeep by (intros; apply Hrows; by left).
  assert (∀ j, ir_intent r = Some j → j = i) as Hij by (intros j Ej; destruct Hi; congruence).
  assert (∀ id j, frozen rows id j → frozen rows' id j) as Hup.
  { intros id j (q & Hq & Eq & Ej). destruct (decide (id = cl_delivery c)) as [->|Hne].
    - rewrite (Hkey q Hq Eq) in Ej. exists new. by rewrite (Hij j Ej).
    - exists q. subst id. auto. }
  assert (∀ t, t ∈ tokens (mk_dispatcher c config policy (PhPrepared i) :: act) req pub →
    t ∈ tokens act req pub ∨ (cl_bridge_unknown c = false ∧ t = (cl_delivery c, i))) as Htok.
  { intros t. rewrite tokens_cons. unfold token. simpl. destruct (cl_bridge_unknown c); [by left|]. rewrite elem_of_cons. tauto. }
  assert (cu ≠ CuPending) as Hnp by (rewrite Hcu; by case_decide).
  split; auto.
  - unfold rows'. rewrite map_update_where; [done|]. by intros x _ ->.
  - intros q [[Hq _]| ->]%Hrows; [auto|]. destruct (iv_home0 r Hr) as (d & Hd & E). exists d. simpl. split; [done|congruence].
  - intros id j (q & [[Hq Hne]| ->]%Hrows & Eq & Ej); [apply iv_events0; by exists q|]. simpl in *. congruence.
  - intros q [[Hq _]| ->]%Hrows Ec; [auto|]. simpl in *. rewrite Hcu in Ec. case_decide; [|done].
    destruct (iv_accepted0 r Hr) as (d & ? & ? & ?); [done|]. exists d. split_and!; congruence.
  - intros d Hd Es. destruct (iv_delivered0 d Hd Es) as (q & j & receipt & Hq & Eq & Ec & Ej & ?).
    destruct (decide (ir_delivery q = cl_delivery c)) as [E|E].
    + rewrite (Hkey q Hq E) in *. rewrite (Hij j Ej) in *. exists new, i, receipt. split; [done|]. split; [change (cl_delivery c = dl_id d); congruence|].
      simpl. by rewrite Hcu, Ec.
    + exists q, j, receipt. split; [auto|]. done.
  - intros p [-> |Hp]%elem_of_cons; [apply (iv_claims0 _ (list_elem_of_here _ _))|apply iv_claims0; by right].
  - rewrite tokens_cons. unfold token. simpl. destruct (cl_bridge_unknown c); [done|]. simpl. apply NoDup_cons. split; [by apply Hfree|done].
  - intros id j [Ht|[_ [= -> ->]]]%Htok; [|by exists new].
    destruct (iv_fenced0 id j Ht) as (q & Hq & Eq & Ej & Ec). destruct (decide (id = cl_delivery c)) as [->|Hne].
    + rewrite (Hkey q Hq Eq) in Ej. exists new. by rewrite (Hij j Ej).
    + exists q. subst id. auto.
  - intros p [-> |Hp]%elem_of_cons; [by exists new|].
    eapply phase_mono; [..|apply iv_phases0; by right]; eauto.
    + intros Hp' q [[Hq Hne]| ->]%Hrows Eq; [eauto|]. by destruct (Hother p Hp Hp').
    + intros Hp' ([id j] & E & [Ht|[_ [= -> ->]]]%Htok)%list_elem_of_fmap; [|by destruct (Hother p Hp Hp')].
      apply list_elem_of_fmap. by exists (id, j).
Qed.

(** A dispatcher has its verdict, and its token has become a request or is
    spent. *)
Lemma inv_observe ds rows act req pub c config policy ph ev receipt x req' pub' :
  let p := mk_dispatcher c config policy ph in
  x = [] ∨ (∃ t, token p = Some t ∧ x = [t]) → submitted x req pub req' pub' →
  (ee_classifier ev = "bridge_custody_accepted"%string →
     ∃ i, frozen rows (cl_delivery c) i ∧ bi_event_id i ∈ events pub') →
  (definite ev → cl_bridge_unknown c = false ∧ (current ds c → cl_delivery c ∉ map fst (tokens act req' pub'))) →
  inv ds rows (p :: act) req pub →
  inv ds rows (mk_dispatcher c config policy (PhObserved ev receipt) :: act) req' pub'.
Proof.
  intros p Hx Hsub Hacc Hdef. apply inv_moves.
  - rewrite !tokens_cons. cbn [token dp_phase]. assert (tokens act req' pub' ≡ₚ x ++ tokens act req pub) as ->.
    { unfold tokens. destruct Hsub as [[-> ->]|[-> ->]]; solve_Permutation. }
    destruct Hx as [->|(t & -> & ->)]; [|done]. destruct (token p); [by apply submseteq_cons|done].
  - destruct Hsub as [[_ ->]|[_ ->]]; [done|]. by apply list_subseteq_app_r.
  - done.
  - intros q [-> |Hq]%elem_of_cons; [|left; by right]. right. split; [done|]. intros Hd. rewrite tokens_cons. by apply Hdef.
Qed.

(** What the conclusion of an attempt leaves of the row of its intention. *)
Definition concludes (pub toks : list (string * BridgeIntent)) (accepted : bool) (id : string) (r r' : IntentRow) : Prop :=
  if accepted
  then ir_custody r' = CuAccepted ∧ ∃ i receipt, ir_intent r' = Some i ∧ ir_receipt r' = Some receipt ∧
         receipt_matches receipt i = true ∧ bi_event_id i ∈ events pub
  else ir_custody r' ≠ CuAccepted ∧ (ir_custody r' = CuPending → id ∉ map fst toks).

(** An attempt is concluded. *)
Lemma inv_conclude ds rows act req pub c config policy ev receipt d f g accepted :
  let id := cl_delivery c in
  d ∈ ds → dl_id d = id → dl_attempts d = cl_attempt c → dl_state d = DSending →
  (∀ x, dl_id (f x) = dl_id x ∧ dl_attempts (f x) = dl_attempts x ∧ (dl_state (f x) = DDelivered ↔ accepted = true)) →
  (∀ r, ir_delivery (g r) = ir_delivery r ∧ ir_intent (g r) = ir_intent r) →
  (∀ r, r ∈ rows → ir_delivery r ≠ id → g r = r) →
  (∀ r, r ∈ rows → ir_delivery r = id → concludes pub (tokens act req pub) accepted id r (g r)) →
  (accepted = true → ∃ r, r ∈ rows ∧ ir_delivery r = id) →
  inv ds rows (mk_dispatcher c config policy (PhObserved ev receipt) :: act) req pub →
  inv (update_where (λ x, dl_id x = id) f ds) (map g rows) act req pub.
Proof.
  intros id Hd Hid Ha Hs Hf Hg Hsame Hown Hex I. assert (current ds c) as Hc by (by exists d).
  pose proof (λ p', other_claim ds act _ p' (iv_ids _ _ _ _ _ I) (iv_attempts _ _ _ _ _ I) Hc) as Hother.
  apply (inv_fewer _ _ _ act _ req _ pub) in I as I'; [|by apply submseteq_cons|done..]. clear I. destruct I'.
  set (ds' := update_where _ _ _).
  assert (∀ y, y ∈ ds' ↔ (y ∈ ds ∧ dl_id y ≠ id) ∨ y = f d) as Hds.
  { intros y. unfold ds'. rewrite (elem_of_update_key dl_id). split; [|naive_solver].
    intros [?|(x & Hx & E & ->)]; [by left|]. right. f_equal. apply (primary_key dl_id ds); congruence. }
  assert (∀ x, x ∈ ds → ∃ y, y ∈ ds' ∧ dl_id y = dl_id x ∧ dl_attempts y = dl_attempts x) as Hto.
  { intros x Hx. destruct (decide (dl_id x = id)) as [E|E]; [|exists x; rewrite Hds; auto].
    rewrite (primary_key dl_id ds x d) by congruence. exists (f d). rewrite Hds. split; [by right|]. by destruct (Hf d) as (? & ? & _). }
  assert (∀ id' j, frozen (map g rows) id' j ↔ frozen rows id' j) as Hfr.
  { intros id' j. split.
    - intros (y & (r & -> & Hr)%list_elem_of_fmap & E & Ej). exists r. by destruct (Hg r) as [<- <-].
    - intros (r & Hr & E & Ej). exists (g r). destruct (Hg r) as [-> ->]. split; [|done]. apply list_elem_of_fmap. by exists r. }
  assert (∀ r, r ∈ rows → g r ∈ map g rows) as Hin by (intros r Hr; apply list_elem_of_fmap; by exists r).
  split; auto.
  - unfold ds'. rewrite map_update_where; [done|]. intros x _ _. apply Hf.
  - rewrite map_map. erewrite map_ext; [exact iv_rows0|]. intros r. apply Hg.
  - intros y (r & -> & Hr)%list_elem_of_fmap. destruct (iv_home0 r Hr) as (x & Hx & E). destruct (Hto x Hx) as (y & Hy & Ey & _).
    exists y. destruct (Hg r) as [-> _]. split; [done|congruence].
  - intros id' j ?%Hfr. by apply iv_events0.
  - intros y (r & -> & Hr)%list_elem_of_fmap Ec. destruct (decide (ir_delivery r = id)) as [E|E].
    + pose proof (Hown r Hr E) as Ho. destruct accepted; [|by destruct Ho]. exists (f d). destruct (Hf d) as (-> & _ & Es).
      destruct (Hg r) as [-> _]. rewrite Hds. split_and!; [by right|congruence|by apply Es].
    + rewrite (Hsame r Hr E) in *. destruct (iv_accepted0 r Hr Ec) as (x & Hx & Ex & Es). exists x. rewrite Hds.
      split; [left; split; congruence|done].
  - intros y [[Hy Hne]| ->]%Hds Es.
    + destruct (iv_delivered0 y Hy Es) as (r & i & v & Hr & Er & ?). exists r, i, v.
      rewrite <-(Hsame r Hr) at 1 by congruence. auto.
    + destruct (Hf d) as (Ei & _ & Ef). apply Ef in Es as ->. destruct (Hex eq_refl) as (r & Hr & Er).
      destruct (Hown r Hr Er) as (Ec & i & v & ?). exists (g r), i, v. destruct (Hg r) as [-> _]. split; [auto|]. split; [congruence|done].
  - intros p Hp. destruct (iv_claims0 p Hp) as (x & Hx & E & Ex). destruct (Hto x Hx) as (y & Hy & Ey & Ay).
    exists y. split_and!; [done|congruence|lia].
  - intros id' i Hi. destruct (iv_fenced0 id' i Hi) as (r & Hr & E & Ei & Ec). exists (g r). destruct (Hg r) as [-> ->].
    split_and!; auto. destruct (decide (id' = id)) as [->|Hne]; [|by rewrite (Hsame r Hr) by congruence].
    pose proof (Hown r Hr E) as Ho. destruct accepted; [by destruct Ho as [-> _]|]. intros Hpend. apply (proj2 Ho Hpend).
    apply list_elem_of_fmap. by exists (id, i).
  - intros p Hp. assert (current ds' (dp_claim p) → current ds (dp_claim p)) as Hcur.
    { intros (y & [[Hy _]| ->]%Hds & Ey & Ay); [by exists y|]. exists d. destruct (Hf d) as (E1 & E2 & _). split_and!; congruence. }
    eapply phase_mono; [..|by apply iv_phases0]; eauto.
    + intros i. by rewrite Hfr.
    + intros Hcp y (r & -> & Hr)%list_elem_of_fmap Er. right. exists r. destruct (Hg r) as [G _]. rewrite G in Er.
      split_and!; [done..|]. f_equal. symmetry. apply Hsame; [done|]. intros E. apply (Hother p Hp); [auto|]. by rewrite <-Er.
Qed.

End invariant.

(** ** Preservation *)

Section preservation.
Context {Inputs : Type} `{Admission Inputs, Serde, EventJson, Unicode, Host, Sha256, JsonSchema}.
Context `{BridgeSdk, JsonText}.

Definition world_inv (w : World) : Prop :=
  sound (ob_db (w_outbox w)) ∧
  inv (deliveries (w_outbox w)) (ob_intents (w_outbox w)) (w_active w) (w_requests w) (w_published w).

Lemma sound_deliveries ds db : sound db → sound (set_deliveries ds db).
Proof.
  intros [Hw Hr Hl Hb]. split.
  - apply (wf_frame db _ Hw); try done. by destruct (wf_keys _ Hw).
  - by apply (recorded_frame db _ [] []); rewrite ?app_nil_r.
  - by apply (settled_frame db _ []); rewrite ?app_nil_r.
  - intros pool. by apply (within_same db).
Qed.

Lemma claim_intent_event c config reply i :
  claim_intent c config reply = Ok i → cl_bridge_intent c = Some i ∨ bi_event_id i = event_of (cl_delivery c).
Proof.
  unfold claim_intent. destruct (cl_bridge_intent c); [intros [= ->]; by left|]. destruct config as [config|]; [|done].
  intros E. right. unfold intent in E. by run E.
Qed.

Lemma rescheduled_holds ob ob' act req pub ds :
  ob_intents ob' = ob_intents ob → ob_db ob' = set_deliveries ds (ob_db ob) → Forall2 unclaimed (deliveries ob) ds →
  world_inv (mk_world ob act req pub) → world_inv (mk_world ob' act req pub).
Proof.
  intros Ei Ed F [Hs I]. unfold world_inv, deliveries in *. simpl in *. rewrite Ei, Ed. split; [by apply sound_deliveries|].
  simpl. rewrite <-(app_nil_r ds). eapply inv_deliveries; [done|constructor| |done].
  rewrite app_nil_r, (unclaimed_ids _ _ F). apply (iv_ids _ _ _ _ _ I).
Qed.

Lemma claim_holds ob act req pub owner time policy config ob' o :
  claim_delivery_lease ob owner time policy = Ok (ob', o) →
  world_inv (mk_world ob act req pub) → world_inv (mk_world ob' (act ++ started o config policy) req pub).
Proof.
  intros E [Hs I]. apply claim_Ok in E; [|apply (iv_ids _ _ _ _ _ I)].
  destruct E as [(-> & Ei & ds & Ed & F)|(c & ds & d & f & -> & [F (Hd & Hst & Hid & Ha) Ei Eu Eint Hf Ed])].
  { rewrite app_nil_r. by eapply rescheduled_holds. }
  split; simpl in *; [rewrite Ed; by apply sound_deliveries|]. unfold deliveries in *. rewrite Ed. simpl.
  assert (inv ds (ob_intents ob) act req pub) as I1.
  { rewrite <-(app_nil_r ds). eapply inv_deliveries; [done|constructor| |done].
    rewrite app_nil_r, (unclaimed_ids _ _ F). apply (iv_ids _ _ _ _ _ I). }
  assert (∃ r, r ∈ ob_intents ob' ∧ ir_delivery r = dl_id d ∧ cl_bridge_intent c = ir_intent r ∧
    cl_bridge_unknown c = bool_decide (ir_custody r = CuUnknown) ∧ inv ds (ob_intents ob') act req pub)
    as (r & Hr & Er & Eri & Eru & I2).
  { destruct (intent_row ob (dl_id d)) as [r|] eqn:Erow; rewrite Ei.
    - apply intent_row_Some in Erow as [? ?]. by exists r.
    - exists (mk_intent_row (dl_id d) None None CuPending). split; [apply elem_of_app; right; by left|].
      split_and!; try done. apply inv_new_row; [done| |done]. intros q Hq Eq. unfold intent_row in Erow.
      rewrite first_where_None in Erow. by apply (Erow q). }
  unfold started. destruct (decoded (cl_payload c)) as [p|].
  - eapply inv_fewer; [..|apply (inv_lease ds _ act req pub d r f (with_payload p c) config policy); done]; try done.
    by rewrite <-Permutation_cons_append.
  - rewrite app_nil_r.
    eapply inv_fewer; [..|apply (inv_lease ds _ act req pub d r f c config policy); done]; try done. by apply submseteq_cons.
Qed.

Lemma prepare_holds ob l1 c config policy l2 req pub reply i at_ ob' i' :
  claim_intent c config reply = Ok i →
  prepare_bridge_delivery ob (cl_delivery c) (cl_owner c) (cl_attempt c) i at_ = Ok (ob', i') →
  world_inv (mk_world ob (l1 ++ mk_dispatcher c config policy PhClaimed :: l2) req pub) →
  world_inv (mk_world ob' (l1 ++ mk_dispatcher c config policy (PhPrepared i') :: l2) req pub).
Proof.
  intros Hi E [Hs I]. simpl in *. apply prepare_Ok in E as (-> & Ed & Hcur & r & cu & Hr & Er & Eint & Ecu & Ei);
    [|apply (iv_rows _ _ _ _ _ I)].
  assert (bi_event_id i = event_of (cl_delivery c)) as He.
  { destruct (claim_intent_event _ _ _ _ Hi) as [Hf|]; [|done]. apply (iv_events _ _ _ _ _ I).
    by apply (iv_phases _ _ _ _ _ I (mk_dispatcher c config policy PhClaimed)); [apply elem_of_app; right; left|]. }
  split; simpl; unfold deliveries in *; rewrite Ed; [done|]. rewrite Ei.
  apply inv_middle, (inv_prepare _ _ _ _ _ c config policy i r); try done. by apply inv_middle.
Qed.

Lemma no_intent_holds ob l1 c config policy l2 req pub e :
  world_inv (mk_world ob (l1 ++ mk_dispatcher c config policy PhClaimed :: l2) req pub) →
  world_inv (mk_world ob (l1 ++ mk_dispatcher c config policy (PhObserved (no_intent_evidence c config e) None) :: l2)
           req pub).
Proof.
  intros [Hs I%inv_middle]. split; [done|]. apply inv_middle. simpl in *.
  eapply (inv_observe _ _ _ _ _ c config policy PhClaimed _ _ []); [by left|by left| | |done].
  - unfold no_intent_evidence. destruct (cl_bridge_unknown c); [done|]. by destruct (_ || _).
  - intros Hd. destruct (cl_bridge_unknown c) eqn:Eu.
    + unfold no_intent_evidence in Hd. rewrite Eu in Hd. by destruct Hd as [_ []].
    + split; [done|]. intros Hc. by eapply claimed_untouched.
Qed.

(** A token that is spent without a request leaves none of its delivery. *)
Lemma prepared_spent ds rows act req pub c config policy i :
  inv ds rows (mk_dispatcher c config policy (PhPrepared i) :: act) req pub → cl_bridge_unknown c = false →
  cl_delivery c ∉ map fst (tokens act req pub).
Proof.
  intros I Hu. pose proof (iv_tokens _ _ _ _ _ I) as Hn. rewrite tokens_cons in Hn. unfold token in Hn. simpl in Hn.
  rewrite Hu in Hn. by apply NoDup_cons in Hn as [? _].
Qed.

Lemma observed_holds ob l1 c config policy i l2 req pub ev receipt (called : bool) req' pub' :
  submitted (if called then [(cl_delivery c, i)] else []) req pub req' pub' →
  (called = true → ¬ definite ev) → (cl_bridge_unknown c = true → called = false ∧ ¬ definite ev) →
  (ee_classifier ev = "bridge_custody_accepted"%string → bi_event_id i ∈ events pub') →
  world_inv (mk_world ob (l1 ++ mk_dispatcher c config policy (PhPrepared i) :: l2) req pub) →
  world_inv (mk_world ob (l1 ++ mk_dispatcher c config policy (PhObserved ev receipt) :: l2) req' pub').
Proof.
  intros Hsub Hcall Hunk Hacc [Hs I%inv_middle]. split; [done|]. apply inv_middle. simpl in *.
  eapply (inv_observe _ _ _ _ _ c config policy (PhPrepared i)); [|exact Hsub| | |done].
  - destruct called; [right|by left]. exists (cl_delivery c, i). unfold token. simpl.
    destruct (cl_bridge_unknown c); [by destruct Hunk|done].
  - intros Ha. exists i. split; [|auto]. apply (iv_phases _ _ _ _ _ I _ (list_elem_of_here _ _)).
  - intros Hd. destruct called; [by destruct Hcall|]. destruct (cl_bridge_unknown c) eqn:Eu; [by destruct Hunk|].
    split; [done|]. intros _. destruct Hsub as [[-> ->]|[-> ->]]; by eapply prepared_spent.
Qed.

Lemma complete_holds ob l1 c config policy ev receipt l2 req pub ms at_ done_ ob' o :
  conclusion c policy (with_duration ms ev) receipt at_ = Ok done_ →
  complete_delivery_attempt ob done_ = Ok (ob', o) →
  world_inv (mk_world ob (l1 ++ mk_dispatcher c config policy (PhObserved ev receipt) :: l2) req pub) →
  world_inv (mk_world ob' (l1 ++ l2) req pub).
Proof.
  intros Hd Hc [Hs I%inv_middle]. simpl in *.
  assert (dc_delivery done_ = cl_delivery c ∧ dc_attempt done_ = cl_attempt c ∧
    dc_accepted done_ = bool_decide (ee_classifier ev = "bridge_custody_accepted"%string) ∧
    dc_ambiguous done_ = bool_decide (ee_classifier ev = "bridge_outcome_unknown"%string)) as (Ei & Ea & Eacc & Eamb).
  { unfold conclusion in Hd. by run Hd. }
  apply complete_Ok in Hc as [[-> _]|(f & [(d & Hdin & Hdid & Hda & Hds) Hf Hafter Hcus])].
  { split; [done|]. simpl. eapply inv_fewer; [..|done]; try done. by apply submseteq_cons. }
  rewrite Ei in *. rewrite Ea in *. split; simpl; [rewrite Hafter; by apply sound_deliveries|].
  unfold deliveries in *. rewrite Hafter. cbn [db_deliveries set_deliveries].
  destruct (iv_phases _ _ _ _ _ I _ (list_elem_of_here _ _)) as [Hacc Hdef]. rewrite tokens_cons in Hdef. simpl in Hacc, Hdef.
  assert (∀ r, r ∈ ob_intents ob → ir_delivery r = cl_delivery c → ir_custody r ≠ CuAccepted) as Hopen.
  { intros r Hr Er Ec. destruct (iv_accepted _ _ _ _ _ I r Hr Ec) as (x & Hx & Ex & Es).
    rewrite (primary_key dl_id _ x d (iv_ids _ _ _ _ _ I) Hx Hdin) in Es by congruence. congruence. }
  destruct (dc_accepted done_) eqn:Eok; symmetry in Eacc.
  - destruct Hcus as (v & r & i & Hr & Er & Hi & Hm & ->). apply bool_decide_eq_true in Eacc.
    eapply (inv_conclude _ _ _ _ _ c config policy ev receipt d f _ true); try done.
    + intros x. by destruct (decide _).
    + intros x _ Hx. by rewrite decide_False.
    + intros x Hx Ex. assert (x = r) as -> by (apply (primary_key ir_delivery _ _ _ (iv_rows _ _ _ _ _ I)); congruence).
      rewrite decide_True by done. split; [done|]. exists i, v. split_and!; try done.
      destruct (Hacc Eacc) as (j & (q & Hq & Eq & Ej) & He).
      rewrite (primary_key ir_delivery _ q r (iv_rows _ _ _ _ _ I)) in Ej by congruence. congruence.
    + by exists r.
  - apply bool_decide_eq_false in Eacc. rewrite Hcus.
    eapply (inv_conclude _ _ _ _ _ c config policy ev receipt d f _ false); try done.
    + intros x. by destruct (decide _).
    + intros x _ Hx. by rewrite decide_False by tauto.
    + intros x Hx Ex. rewrite decide_True by auto. split; [by destruct (dc_ambiguous done_)|]. simpl. intros Ep.
      destruct (dc_ambiguous done_); [done|]. symmetry in Eamb. apply bool_decide_eq_false in Eamb.
      apply Hdef; [done|]. by exists d.
Qed.

Lemma store_holds ob act req pub db' :
  step (ob_db ob) db' → NoDup (map dl_id (db_deliveries db')) →
  world_inv (mk_world ob act req pub) → world_inv (mk_world (set_db db' ob) act req pub).
Proof.
  intros S Hn [Hs I]. unfold world_inv, deliveries in *. simpl in *. split; [by apply (step_sound _ _ Hs S)|].
  destruct (step_queue _ _ Hs S) as (old & new & E & F & U). rewrite E in *. eapply inv_deliveries; [..|exact I].
  - eapply Forall2_impl; [exact F|]. apply rescheduled_unclaimed.
  - eapply Forall_impl; [exact U|]. intros d [_ _ _ Hd] Hx. rewrite Hx in Hd. naive_solver.
  - done.
Qed.

Lemma dispatcher_holds w w' : world_inv w → dispatcher_step w w' → world_inv w'.
Proof.
  intros Hh S. destruct S as [? ? ? ? ? ? ? ? ? ? E|? ? ? ? ? ? ? ? ? ? ? ? ? Ei E|? ? ? ? ? ? ? ? ? ? E
    |? ? ? ? ? ? ? ? ? ? ? ? ? ? ? E Hsub Ht|? ? ? ? ? ? ? ? ? ? ? ? ? ? ? E Hsub|ob act r1 x r2 pub|ob act r1 x r2 pub
    |? ? ? ? ? ? ? ? ? ? ? ? ? ? ? Ec E|ob l1 p l2 req pub|? ? ? ? ? ? ? E|? ? ? ? ? ? ? ? E].
  - by eapply claim_holds.
  - by eapply prepare_holds.
  - by apply no_intent_holds.
  - eapply observed_holds; [exact Hsub|..|exact Hh].
    + intros [-> Hne]%andb_true_iff. eapply send_effect; [exact E|]. by destruct (no_effect _).
    + intros Hu. rewrite Hu in E. destruct (send_unknown _ _ _ _ _ _ E) as [-> ?]. done.
    + intros Ha. by eapply send_accepted.
  - eapply observed_holds; [exact Hsub|..|exact Hh].
    + intros _. apply observation_unknown.
    + intros Hu. rewrite Hu in E. destruct (send_unknown _ _ _ _ _ _ E) as [-> _]. split; [done|]. apply observation_unknown.
    + done.
  - destruct Hh as [Hs I]. split; [done|]. simpl in *. eapply inv_fewer; [..|exact I]; [done| |by apply list_subseteq_cons].
    by rewrite <-!Permutation_middle.
  - destruct Hh as [Hs I]. split; [done|]. simpl in *. eapply inv_fewer; [..|exact I]; [done| |done].
    apply submseteq_skips_r. rewrite <-Permutation_middle. by apply submseteq_cons.
  - by eapply complete_holds.
  - destruct Hh as [Hs I]. split; [done|]. simpl in *. eapply inv_fewer; [..|exact I]; [|done..].
    rewrite <-Permutation_middle. by apply submseteq_cons.
  - apply cancel_Ok in E as (? & ds & ? & ?). by eapply rescheduled_holds.
  - apply expire_Ok in E as (? & ds & ? & ?). by eapply rescheduled_holds.
Qed.

Lemma dispatch_holds w w' : world_inv w → dispatch_step w w' → world_inv w'.
Proof.
  intros Hh S. destruct S as [x x' S|? ? ? ? ? S Hn|]; [exact (dispatcher_holds _ _ Hh S)|by apply store_holds|done].
Qed.

Lemma opening_holds db notices : undispatched db → world_inv (opening db notices).
Proof.
  intros [Hsd Hids Hopen]. split; [done|]. split; simpl; try done; try (by intros ? ?%elem_of_nil); try apply NoDup_nil_2.
  - by intros id i (r & ?%elem_of_nil & _).
  - intros d Hd Hs. by apply Hopen in Hs.
  - by intros id i ?%elem_of_nil.
Qed.

Lemma run_holds db notices w : undispatched db → rtc dispatch_step (opening db notices) w → world_inv w.
Proof.
  intros Hu R. assert (world_inv (opening db notices)) as Hh by (by apply opening_holds). clear Hu.
  induction R as [|x y z S R IH]; [done|]. apply IH. by eapply dispatch_holds.
Qed.

(** C6: No notice is published twice.  Whatever the dispatchers, the answers
    and losses of the Bridge, expired leases, crashes between any two steps
    and the other transactions of the store, the Bridge accepts at most one
    publication per delivery.  What it accepted is the intention frozen in the
    store for that delivery, under the event identifier derived from it, and
    the store never shows such a delivery as merely pending: its public state
    is that custody was accepted, or that the outcome is unknown. *)
Theorem published_at_most_once db notices w :
  undispatched db → rtc dispatch_step (opening db notices) w →
  NoDup (map fst (w_published w)) ∧
  ∀ id i, (id, i) ∈ w_published w →
    bi_event_id i = event_of id ∧
    (∃ r, intent_row (w_outbox w) id = Some r ∧ ir_intent r = Some i) ∧
    ∀ s, public_state_on (w_outbox w) id s = PCustodyAccepted ∨ public_state_on (w_outbox w) id s = POutcomeUnknown.
Proof.
  intros Hu R. destruct (run_holds _ _ _ Hu R) as [_ I]. split.
  - by apply (published_once _ _ _ _ _ I).
  - intros id i Hi. destruct (iv_fenced _ _ _ _ _ I id i) as (r & Hr & <- & Ei & Ec); [unfold tokens; set_solver|].
    split; [apply (iv_events _ _ _ _ _ I); by exists r|].
    pose proof (intent_row_key _ r (iv_rows _ _ _ _ _ I) Hr) as Er. split; [by exists r|].
    intros s. unfold public_state_on. rewrite Er. destruct (ir_custody r); [done|by left|by right].
Qed.

(** C7: A notice recorded as delivered was published.  When no two deliveries
    of the store share the SHA-256 of their identifiers, a delivered notice
    has a frozen intention, the Bridge accepted exactly one publication for
    it, that of this intention, and the stored receipt repeats its event,
    destination, fingerprint and producer. *)
Theorem delivered_was_published db notices w d :
  undispatched db → rtc dispatch_step (opening db notices) w →
  (∀ x y, x ∈ deliveries (w_outbox w) → y ∈ deliveries (w_outbox w) →
     sha256 (bytes (dl_id x)) = sha256 (bytes (dl_id y)) → dl_id x = dl_id y) →
  d ∈ deliveries (w_outbox w) → dl_state d = DDelivered →
  ∃ i receipt, intent_row (w_outbox w) (dl_id d) = Some (mk_intent_row (dl_id d) (Some i) (Some receipt) CuAccepted) ∧
    receipt_matches receipt i = true ∧ filter (λ x, fst x = dl_id d) (w_published w) = [(dl_id d, i)].
Proof.
  intros Hu R Hinj Hd Hs. destruct (run_holds _ _ _ Hu R) as [_ I].
  destruct (iv_delivered _ _ _ _ _ I d Hd Hs) as (r & i & receipt & Hr & Er & Ec & Ei & Ev & Hm & He).
  exists i, receipt. pose proof (intent_row_key _ r (iv_rows _ _ _ _ _ I) Hr) as Erow.
  split; [rewrite <-Er, Erow; destruct r; simpl in *; congruence|]. split; [done|].
  apply list_elem_of_fmap in He as ([id j] & Ej & Hj). simpl in Ej.
  destruct (iv_fenced _ _ _ _ _ I id j) as (q & Hq & Eq & Eqj & _); [unfold tokens; set_solver|].
  destruct (iv_home _ _ _ _ _ I q Hq) as (x & Hx & Ex).
  assert (dl_id x = dl_id d) as Exd.
  { apply Hinj; try done. rewrite (iv_events _ _ _ _ _ I id j), (iv_events _ _ _ _ _ I (dl_id d) i) in Ej;
      [|by exists r|by exists q]. unfold event_of in Ej. apply (inj (String.append _)) in Ej. congruence. }
  assert (q = r) as -> by (apply (primary_key ir_delivery _ _ _ (iv_rows _ _ _ _ _ I)); congruence).
  assert (id = dl_id d) as -> by congruence. assert (j = i) as -> by congruence.
  apply (filter_key fst _ (dl_id d, i)); [by apply (published_once _ _ _ _ _ I)|done].
Qed.
End preservation.

(** ** A concrete run *)

(** The agreed pool is bound to a session of its orchestrator. *)
Definition demo_bound : Db :=
  match bind_pool demo_settled "pool-9" (mk_orchestrator "codex" "thread-1" None) (of_Z 310) "os-1" (λ a, a) with
  | Ok (db, _) => db
  | Err _ => demo_settled
  end.

Definition demo_sdk : BridgeSdk := {|
  native_address := Some;
  payload_fits := λ s, len s <=? 65536;
  publication_fingerprint := λ p, Some ("fp-" +:+ pm_event_id p);
  receipt_value := λ r,
    Some (Obj [("event_id", Str (rc_event_id r)); ("destination", Obj [("address", Str (rc_address r))]);
               ("intent_hash", Str (rc_intent_hash r)); ("producer", Str (rc_producer r));
               ("acceptance_seq", Num (PosInt (rc_acceptance_seq r)))]%string);
|}.
#[local] Existing Instance demo_sdk.
#[local] Existing Instance demo_json.

Definition demo_config : BridgeConfig := mk_bridge_config "/r.sock" "/c.sock" "/token" "host" (Some "codex-store"%string) None.
Definition demo_policy : DeliveryPolicy := mk_policy (of_Z 1) (of_Z 60) 5 (of_Z 30).

Definition demo_reply (i : BridgeIntent) : BridgeReply :=
  mk_reply (inr "cred"%string) (inr None)
    (inr (mk_capabilities 1 true ["publish"; "status"]%string true true true true ["*"%string] 65536))
    (inr (mk_event_receipt "agent-run" (bi_event_id i) (bi_intent_hash i) (bi_address i) None None None 7)).

Definition demo_outbox : Outbox := mk_outbox demo_bound [] [] [].

Definition demo_leased : Outbox * option Claim :=
  match claim_delivery_lease demo_outbox "worker-1" (of_Z 320) demo_policy with Ok x => x | Err _ => (demo_outbox, None) end.

Definition demo_claim : Claim :=
  match started (snd demo_leased) (Some demo_config) demo_policy with
  | p :: _ => dp_claim p
  | [] => mk_claim "" "" 0 "" "" (PayRestart "" None) None false
  end.

Definition demo_blank : BridgeIntent := mk_intent (mk_owner "" "" "" "" "") "" "" "" "" "" None "".
Definition demo_intent : BridgeIntent :=
  match claim_intent demo_claim (Some demo_config) (demo_reply demo_blank) with Ok i => i | Err _ => demo_blank end.

Definition demo_prepared : Outbox :=
  match prepare_bridge_delivery (fst demo_leased) "ntf_u" "worker-1" 1 demo_intent (of_Z 321) with
  | Ok (ob, _) => ob
  | Err _ => demo_outbox
  end.

Definition demo_sent : Evidence * option Value * bool :=
  send (Some demo_config) demo_intent false (demo_reply demo_intent).

Definition demo_conclusion : DeliveryCompletion :=
  match conclusion demo_claim demo_policy (with_duration 12 (fst (fst demo_sent))) (snd (fst demo_sent)) (of_Z 322) with
  | Ok c => c
  | Err _ => mk_done "" "" 0 "" false false "" None None demo_policy (of_Z 0)
  end.
Definition demo_published : Outbox :=
  match complete_delivery_attempt demo_prepared demo_conclusion with Ok (ob, _) => ob | Err _ => demo_outbox end.

Definition demo_world : World := mk_world demo_published [] [] [("ntf_u"%string, demo_intent)].

Lemma demo_bound_undispatched : undispatched demo_bound.
Proof.
  assert (rtc step initial demo_bound) as R.
  { etrans; [exact demo_history|]. apply rtc_once.
    eapply (step_bind _ _ "pool-9" (mk_orchestrator "codex" "thread-1" None) (of_Z 310) "os-1" (λ a, a)). by vm_compute. }
  split; [apply (steps_sound _ _ initial_sound R)|apply (bool_decide_unpack _); by vm_compute|].
  apply Forall_forall. apply (bool_decide_unpack _). by vm_compute.
Qed.

Lemma demo_started_once : started (snd demo_leased) (Some demo_config) demo_policy =
  [mk_dispatcher demo_claim (Some demo_config) demo_policy PhClaimed].
Proof. by vm_compute. Qed.

Lemma demo_truthful i id pub : truthful (demo_reply i) ((id, i) :: pub).
Proof. intros receipt [[= <-]|?]; [by left|done]. Qed.

Lemma demo_dispatch : rtc dispatch_step (opening demo_bound []) demo_world.
Proof.
  eapply rtc_l.
  { eapply ds_dispatcher, (ds_claim demo_outbox [] [] [] "worker-1" (of_Z 320) demo_policy (Some demo_config) (fst demo_leased) (snd demo_leased)).
    by vm_compute. }
  rewrite demo_started_once. eapply rtc_l.
  { eapply ds_dispatcher, (ds_prepare _ [] demo_claim (Some demo_config) demo_policy [] [] [] (demo_reply demo_blank) demo_intent (of_Z 321)
              demo_prepared demo_intent); by vm_compute. }
  eapply rtc_l.
  { eapply ds_dispatcher, (ds_send _ [] demo_claim (Some demo_config) demo_policy demo_intent [] [] [] (demo_reply demo_intent)
              (fst (fst demo_sent)) (snd (fst demo_sent)) true [] [("ntf_u"%string, demo_intent)]); [by vm_compute|right; by vm_compute|].
    apply demo_truthful. }
  apply rtc_once, ds_dispatcher.
  refine (ds_complete demo_prepared [] demo_claim (Some demo_config) demo_policy (fst (fst demo_sent)) (snd (fst demo_sent))
            [] [] [("ntf_u"%string, demo_intent)] 12 (of_Z 322) demo_conclusion demo_published (Some DDelivered) _ _); by vm_compute.
Qed.

Lemma published_at_most_once_witness : NoDup (map fst (w_published demo_world)) ∧ bi_event_id demo_intent = event_of "ntf_u".
Proof.
  destruct (published_at_most_once demo_bound [] demo_world demo_bound_undispatched demo_dispatch) as [Hn Hp].
  split; [exact Hn|]. apply (Hp "ntf_u"%string demo_intent). by left.
Defined.

Definition demo_row : DeliveryRow :=
  match deliveries demo_published with d :: _ => d | [] => mk_delivery "" None None None WaitingBinding None end.

Lemma demo_rows : deliveries demo_published = [demo_row] ∧ dl_id demo_row = "ntf_u"%string ∧ dl_state demo_row = DDelivered.
Proof. by vm_compute. Qed.

Lemma delivered_was_published_witness : ∃ i, filter (λ x, fst x = "ntf_u"%string) (w_published demo_world) = [("ntf_u"%string, i)].
Proof.
  destruct demo_rows as (Er & Eid & Es).
  destruct (delivered_was_published demo_bound [] demo_world demo_row demo_bound_undispatched demo_dispatch)
    as (i & receipt & _ & _ & Hf); [| |exact Es|].
  - change (w_outbox demo_world) with demo_published. rewrite Er. by intros x y ->%list_elem_of_singleton ->%list_elem_of_singleton.
  - change (w_outbox demo_world) with demo_published. rewrite Er. by left.
  - rewrite Eid in Hf. by exists i.
Defined.
