(* ===== verification/Restart.v ===== *)
(** * The service restart

    The transactions of [service_restart.rs]: admissions are barred, the
    executions at work are captured, warned and, after a minute, stopped; the
    service manager restarts the broker; the captured executions are resumed,
    their outcomes awaited and reported, and admissions reopen.  The user's
    cancellation ([lib.rs], [enqueue]) wins over a continuation. *)

From S2P Require Import Prelude Text Float64 Json Canonical Catalogs Lifecycle Requests PoolDomain.
From S2P Require Import Tables Roster WorkerStore Sessions ServiceRestart Redact Notices Evidence Outbox.

(** ** State *)

(** [service_restart_recipients]. *)
Record RecipientRow := mk_recipient {
  rr_restart : Z;
  rr_transport : string;
  rr_session : string;                    (* external_session_id *)
  rr_had_agents : bool;
  rr_tried_start : bool;
}.

(** The outbox with the recipients of restarts, the last restart number given
    out, and the epoch of the writer in charge. *)
Record Maintenance := mk_maintenance {
  mn_outbox : Outbox;
  mn_recipients : list RecipientRow;
  mn_seq : Z;
  mn_writer : option Z;                   (* writer_authority.epoch *)
}.

Definition mn_db (mn : Maintenance) : Db := ob_db (mn_outbox mn).
Definition on_db (f : Db → Db) (mn : Maintenance) : Maintenance :=
  mk_maintenance (set_db (f (mn_db mn)) (mn_outbox mn)) (mn_recipients mn) (mn_seq mn) (mn_writer mn).
Definition set_recipients (l : list RecipientRow) (mn : Maintenance) : Maintenance :=
  mk_maintenance (mn_outbox mn) l (mn_seq mn) (mn_writer mn).
Definition set_notices (l : list RestartNoticeRow) (mn : Maintenance) : Maintenance :=
  let ob := mn_outbox mn in
  mk_maintenance (mk_outbox (ob_db ob) (ob_intents ob) (ob_evidence ob) l) (mn_recipients mn) (mn_seq mn)
    (mn_writer mn).

Definition restarts (mn : Maintenance) : list RestartRow := db_restarts (mn_db mn).
Definition captured (mn : Maintenance) : list RestartAgentRow := db_restart_agents (mn_db mn).
Definition update_restarts (P : RestartRow → Prop) `{∀ r, Decision (P r)} (f : RestartRow → RestartRow)
  (mn : Maintenance) : Maintenance :=
  on_db (λ db, set_restarts (update_where P f (db_restarts db)) db) mn.
Definition update_captured (P : RestartAgentRow → Prop) `{∀ a, Decision (P a)}
  (f : RestartAgentRow → RestartAgentRow) (mn : Maintenance) : Maintenance :=
  on_db (λ db, set_restart_agents (update_where P f (db_restart_agents db)) db) mn.

(** Column updates. *)
Definition in_phase (p : RestartPhase) (r : RestartRow) : RestartRow :=
  mk_restart (rs_id r) (rs_request r) p (rs_boot r) (rs_notice_wait r) (rs_epoch r) (rs_finished_at r).
Definition recovering_on (boot : string) (r : RestartRow) : RestartRow :=
  mk_restart (rs_id r) (rs_request r) RRecovering boot (rs_notice_wait r) (rs_epoch r) (rs_finished_at r).
Definition completed_at (at_ : f64) (r : RestartRow) : RestartRow :=
  mk_restart (rs_id r) (rs_request r) RComplete (rs_boot r) (rs_notice_wait r) (rs_epoch r) (Some at_).
Definition waiting_since (now_ns : Z) (r : RestartRow) : RestartRow :=
  mk_restart (rs_id r) (rs_request r) (rs_phase r) (rs_boot r) (Some (default now_ns (rs_notice_wait r)))
    (rs_epoch r) (rs_finished_at r).

Definition with_status (s : ResumeStatus) (error : option string) (a : RestartAgentRow) : RestartAgentRow :=
  mk_restart_agent (ra_restart a) (ra_agent a) (ra_session a) (ra_cancelled_before a) (ra_first_ns a)
    (ra_second_ns a) (ra_force_ns a) (ra_requested_ns a) (ra_resumed_execution a) s error.
Definition requested_at (now_ns : Z) (a : RestartAgentRow) : RestartAgentRow :=
  mk_restart_agent (ra_restart a) (ra_agent a) (ra_session a) (ra_cancelled_before a) (ra_first_ns a)
    (ra_second_ns a) (ra_force_ns a) (Some (default now_ns (ra_requested_ns a))) (ra_resumed_execution a)
    (ra_resume_status a) (ra_error a).
Definition resumed_as (child : string) (a : RestartAgentRow) : RestartAgentRow :=
  mk_restart_agent (ra_restart a) (ra_agent a) (ra_session a) (ra_cancelled_before a) (ra_first_ns a)
    (ra_second_ns a) (ra_force_ns a) (ra_requested_ns a) (Some child) (ra_resume_status a) (ra_error a).
Definition bound_to (session : string) (a : RestartAgentRow) : RestartAgentRow :=
  mk_restart_agent (ra_restart a) (ra_agent a) (Some session) (ra_cancelled_before a) (ra_first_ns a)
    (ra_second_ns a) (ra_force_ns a) (ra_requested_ns a) (ra_resumed_execution a) (ra_resume_status a)
    (ra_error a).

(** ** Constants and texts *)

Definition WARNING_DELAY_NS : Z := 30000000000.
Definition RESUME_CONFIRM_NS : Z := 60000000000.
Definition NOTICE_WAIT_NS : Z := 10000000000.
Definition FIRST_NOTICE : string :=
  "Agent Run is preparing to restart. Stop your work and call finish with status done and a concise summary of completed and remaining work. This is a temporary interruption; you will resume after the restart. Do not include credentials.".
Definition SECOND_NOTICE : string :=
  "Agent Run is restarting. Call finish immediately with status done and the context needed to continue. If you do not stop within 30 seconds, your work will be interrupted.".
Definition BEFORE_NOTICE : string :=
  "Agent Run is preparing a service restart. Your agents will pause and resume afterwards. You will receive their restart results.".
Definition AFTER_NOTICE : string :=
  "Agent Run has finished its restart procedure. New agent starts are available again.".

(** [i64::saturating_sub]. *)
Definition i64_MIN : Z := - 2 ^ 63.
Definition saturating_sub (a b : Z) : Z := Z.max i64_MIN (Z.min i64_MAX (a - b)).

(** [i64::try_from(now_ns)]. *)
Definition clock (now_ns : Z) : result Z :=
  if now_ns <=? i64_MAX then Ok now_ns else Err (invalid "invalid restart clock").

(** [resume_result]. *)
Definition resume_result (s : ResumeStatus) (reason : option string) : string :=
  match s with
  | RsStarted => "resumed"
  | RsFinished => "finished before restart"
  | RsCancelled => "cancelled by the orchestrator"
  | RsFailed => "failed — " +:+ default "reason unavailable"%string reason
  | RsPending | RsUnconfirmed => "not confirmed — " +:+ default "reason unavailable"%string reason
  end.

(** [str::parse::<i64>]: an optional sign and decimal digits, within range. *)
Fixpoint digits_value (acc : Z) (bs : list Z) : option Z :=
  match bs with
  | [] => Some acc
  | b :: bs => if is_ascii_digit b then digits_value (10 * acc + (b - 48)) bs else None
  end.
Definition parse_i64 (s : string) : option Z :=
  let magnitude sign bs :=
    match bs with
    | [] => None
    | _ =>
        match digits_value 0 bs with
        | Some n => let v := sign * n in if (i64_MIN <=? v) && (v <=? i64_MAX) then Some v else None
        | None => None
        end
    end in
  match bytes s with
  | 45 :: bs => magnitude (-1) bs
  | 43 :: bs => magnitude 1 bs
  | bs => magnitude 1 bs
  end.

(** [trim_start_matches(&str)]; every match consumes part of the text. *)
Fixpoint trim_start_matches (fuel : nat) (p s : string) : string :=
  match fuel with
  | O => s
  | S fuel => match strip_prefix p s with Some rest => trim_start_matches fuel p rest | None => s end
  end.

(** [blocked_restart_id]. *)
Definition blocked_restart_id (message : string) : option Z :=
  let message := trim_start_matches (String.length message) "invalid agent transition: " message in
  tail ← strip_prefix BLOCKED_PREFIX message;
  i ← str_find "]" tail;
  id ← parse_i64 (slice tail 0 i);
  if 0 <? id then Some id else None.

(** ** Notices *)

(** [enqueue_notice]; [fresh] yields the identifiers of the recipient's new
    session and delivery rows. *)
Definition enqueue_notice (mn : Maintenance) (restart : Z) (transport session : string) (stage : Stage)
  (message : string) (now : f64) (fresh : string → string → string * string) : result Maintenance :=
  if exists_where
       (λ n, nr_restart n = restart ∧ nr_transport n = transport ∧ nr_session n = session ∧ nr_stage n = stage)
       (ob_notices (mn_outbox mn))
  then Ok mn
  else
    let '(fresh_session, uuid) := fresh transport session in
    let? (db, session_id) :=
      session_for_reference (mn_db mn) (mk_orchestrator transport session None) fresh_session in
    let delivery := "ntf_" +:+ uuid in
    let db := insert_delivery db (mk_delivery delivery None (Some session_id) None DPending (Some now)) in
    let notice := mk_restart_notice restart transport session stage message delivery in
    Ok (set_notices (ob_notices (mn_outbox mn) ++ [notice]) (on_db (λ _, db) mn)).

(** The transport spelled as recipients are keyed. *)
Definition transport_case (t : string) : string :=
  if bool_decide (t = "codex"%string) then "codex_queue"%string
  else if bool_decide (t = "claude"%string) then "claude_uds"%string else t.

Definition execution_le (x y : AgentRow * RestartAgentRow) : Prop :=
  String.leb (ag_id (fst x)) (ag_id (fst y)) = true.
#[global] Instance execution_le_dec : RelDecision execution_le.
Proof. intros x y. unfold execution_le. apply _. Defined.

(** The captured executions of a recipient, by execution. *)
Definition recipient_agents (db : Db) (restart : Z) (transport session : string)
  : list (AgentRow * RestartAgentRow) :=
  merge_sort execution_le
    (omap (λ r,
       a ← first_where (λ a, ag_id a = ra_agent r) (db_agents db);
       id ← ra_session r;
       o ← first_where (λ o, os_id o = id) (db_sessions db);
       if bool_decide (os_external_session_id o = session) && bool_decide (transport_case (os_transport o) = transport)
       then Some (a, r) else None)
     (filter (λ r, ra_restart r = restart ∧ ra_cancelled_before r = false) (db_restart_agents db))).

Definition result_line (x : AgentRow * RestartAgentRow) : string :=
  NL +:+ "- " +:+ root_of (fst x) +:+ ": " +:+ resume_result (ra_resume_status (snd x)) (ra_error (snd x)).

Definition after_message (db : Db) (restart : Z) (transport session : string) : string :=
  fold_left String.append (map result_line (recipient_agents db restart transport session)) AFTER_NOTICE.

(** A delivery nobody has worked on. *)
Definition untouched (ob : Outbox) (id : string) : bool :=
  exists_where (λ d, dl_id d = id ∧ dl_state d = DPending ∧ dl_attempts d = 0) (deliveries ob)
  && negb (is_some (intent_row ob id)).

Definition with_text (text : string) (n : RestartNoticeRow) : RestartNoticeRow :=
  mk_restart_notice (nr_restart n) (nr_transport n) (nr_session n) (nr_stage n) text (nr_delivery n).

(** [queue_restart_result]. *)
Definition queue_restart_result (mn : Maintenance) (restart : Z) (transport session : string) (now : f64)
  (fresh : string → string → string * string) : result Maintenance :=
  let message := after_message (mn_db mn) restart transport session in
  let ob := mn_outbox mn in
  let mn :=
    set_notices
      (update_where
         (λ n, nr_restart n = restart ∧ nr_transport n = transport ∧ nr_session n = session ∧
               nr_stage n = SAfter ∧ untouched ob (nr_delivery n) = true) (with_text message) (ob_notices ob)) mn in
  enqueue_notice mn restart transport session SAfter message now fresh.

(** [ORDER BY transport,external_session_id]. *)
Definition recipient_le (x y : RecipientRow) : Prop :=
  (if bool_decide (rr_transport x = rr_transport y) then String.leb (rr_session x) (rr_session y)
   else String.leb (rr_transport x) (rr_transport y)) = true.
#[global] Instance recipient_le_dec : RelDecision recipient_le.
Proof. intros x y. unfold recipient_le. apply _. Defined.

(** [queue_restart_results]. *)
Definition queue_restart_results (mn : Maintenance) (restart : Z) (now : f64)
  (fresh : string → string → string * string) : result Maintenance :=
  try_fold (λ mn r, queue_restart_result mn restart (rr_transport r) (rr_session r) now fresh) mn
    (merge_sort recipient_le (filter (λ r, rr_restart r = restart) (mn_recipients mn))).

(** [INSERT .. ON CONFLICT DO UPDATE]: a recipient is added, or its column set. *)
Definition upsert_recipient (restart : Z) (transport session : string) (had tried : bool) (mn : Maintenance)
  : Maintenance :=
  let key r := rr_restart r = restart ∧ rr_transport r = transport ∧ rr_session r = session in
  if exists_where key (mn_recipients mn)
  then set_recipients
         (update_where key
            (λ r, mk_recipient restart transport session (rr_had_agents r || had) (rr_tried_start r || tried))
            (mn_recipients mn)) mn
  else set_recipients (mn_recipients mn ++ [mk_recipient restart transport session had tried]) mn.

(** ** Beginning *)

(** An owned attempt of the execution has declared its finish. *)
Definition finish_recorded (db : Db) (id : string) : bool :=
  exists_where
    (λ l, is_some (wl_finish l) = true ∧
          exists_where (λ t, at_id t = wl_attempt l ∧ at_agent t = id ∧ at_owned t = true) (db_attempts db) = true)
    (db_lifecycles db).

(** A cancellation that is on its way or was accepted. *)
Definition cancel_before (db : Db) (id : string) : bool :=
  exists_where
    (λ c, cm_agent c = id ∧ cm_kind c = CancelCommand ∧
          ((cm_state c = CPending ∨ cm_state c = CClaimed) ∨ (cm_state c = CCompleted ∧ cm_accepted c = true)))
    (db_commands db).

Definition capture (db : Db) (restart : Z) (a : AgentRow) : RestartAgentRow :=
  let cancelled := bool_decide (ag_status a = Cancelling) || cancel_before db (ag_id a) in
  mk_restart_agent restart (ag_id a) (ag_session a) cancelled None None None None None
    (if cancelled then RsCancelled else RsPending) None.

Definition captures (db : Db) (restart : Z) : list RestartAgentRow :=
  map (capture db restart)
    (filter (λ a, ag_status a ∈ ACTIVE ∧ finish_recorded db (ag_id a) = false) (db_agents db)).

(** The session of a captured execution, as a recipient. *)
Definition captured_recipient (db : Db) (a : RestartAgentRow) : option (string * string) :=
  if ra_cancelled_before a then None
  else id ← ra_session a;
       o ← first_where (λ o, os_id o = id) (db_sessions db);
       Some (transport_case (os_transport o), os_external_session_id o).

(** [begin_service_restart]; [boot] is the boot identifier of the machine. *)
Definition begin_service_restart (mn : Maintenance) (request_id : string) (at_ : f64) (boot : string) (now : f64)
  (fresh : string → string → string * string) : result (Maintenance * Z) :=
  fail? blank request_id || (256 <? len request_id) || existsb is_control (chars request_id)
        || negb (is_finite at_) || flt at_ (of_Z 0) with invalid "invalid service restart request";
  match first_where (λ r, rs_request r = request_id) (restarts mn) with
  | Some r => Ok (mn, rs_id r)
  | None =>
      fail? exists_where (λ r, rs_finished r = false) (restarts mn) with Conflict;
      let id := mn_seq mn + 1 in
      let db := mn_db mn in
      let rows := captures db id in
      let mn :=
        mk_maintenance
          (set_db (set_restart_agents (db_restart_agents db ++ rows)
                     (set_restarts (db_restarts db ++ [mk_restart id request_id RPreparing boot None (mn_writer mn) None])
                        db)) (mn_outbox mn)) (mn_recipients mn) id (mn_writer mn) in
      let recipients := remove_dups (omap (captured_recipient db) rows) in
      let mn := fold_left (λ mn '(t, s), upsert_recipient id t s true false mn) recipients mn in
      let? mn :=
        try_fold (λ mn '(t, s), enqueue_notice mn id t s SBefore BEFORE_NOTICE now fresh) mn recipients in
      Ok (mn, id)
  end.

(** [remember_service_restart_caller]. *)
Definition remember_service_restart_caller (mn : Maintenance) (restart : Z) (r : OrchestratorRef) (now : f64)
  (fresh : string → string → string * string) : result Maintenance :=
  try? orchestrator_validate r;
  let? t := canonical_transport_name (transport r) in
  let? row := ok_or (invalid "unknown service restart") (first_where (λ r, rs_id r = restart) (restarts mn)) in
  let mn := upsert_recipient restart t (external_session_id r) false true mn in
  if bool_decide (rs_phase row = RComplete)
  then queue_restart_result mn restart t (external_session_id r) now fresh
  else Ok mn.

(** [bind_captured_agent]. *)
Definition bind_captured_agent (mn : Maintenance) (agent session_id : string) (r : OrchestratorRef) (now : f64)
  (fresh : string → string → string * string) : result Maintenance :=
  let? t := canonical_transport_name (transport r) in
  let rows :=
    omap (λ a,
      if bool_decide (ra_agent a = agent) && negb (is_some (ra_session a)) && negb (ra_cancelled_before a)
      then option_map (λ s, (rs_id s, rs_phase s)) (first_where (λ s, rs_id s = ra_restart a) (restarts mn))
      else None) (captured mn) in
  try_fold
    (λ mn '(id, phase),
       let mn :=
         update_captured (λ a, ra_restart a = id ∧ ra_agent a = agent ∧ ra_session a = None) (bound_to session_id) mn in
       let mn := upsert_recipient id t (external_session_id r) true false mn in
       match phase with
       | RComplete => queue_restart_result mn id t (external_session_id r) now fresh
       | RPreparing => enqueue_notice mn id t (external_session_id r) SBefore BEFORE_NOTICE now fresh
       | _ => Ok mn
       end) mn rows.

(** ** Preparing *)

(** The columns [advance_service_restart] reads of an execution. *)
Record Warned := mk_warned {
  wd_agent : string;
  wd_first : option Z;
  wd_second : option Z;
  wd_forced : option Z;
  wd_finished : bool;
  wd_restart_finish : bool;
}.

(** A finish accepted for this restart. *)
Definition restart_finish (db : Db) (id : string) (restart : Z) : bool :=
  exists_where
    (λ e, ev_agent e = id ∧ match ev_data e with EFinishAccepted _ _ _ r => r | _ => None end = Some restart)
    (db_events db).

(** A cancellation on its way. *)
Definition cancel_pending (db : Db) (id : string) : bool :=
  exists_where
    (λ c, cm_agent c = id ∧ cm_kind c = CancelCommand ∧ (cm_state c = CPending ∨ cm_state c = CClaimed))
    (db_commands db).

Definition members_of_restart (db : Db) (restart : Z) : list Warned :=
  omap (λ r,
    a ← first_where (λ a, ag_id a = ra_agent r) (db_agents db);
    if bool_decide (ra_restart r = restart) && bool_decide (ag_status a ∈ [Created; Starting; Running])
       && negb (ra_cancelled_before r) && bool_decide (ra_resume_status r = RsPending)
       && negb (cancel_pending db (ag_id a))
    then Some (mk_warned (ra_agent r) (ra_first_ns r) (ra_second_ns r) (ra_force_ns r)
                 (finish_recorded db (ag_id a)) (restart_finish db (ag_id a) restart))
    else None) (db_restart_agents db).

(** What happens next to an execution. *)
Inductive Warning := WFirst | WSecond | WForce.
#[global] Instance warning_eq_dec : EqDecision Warning.
Proof. solve_decision. Defined.

Definition decision (now_ns : Z) (w : Warned) : option Warning :=
  match wd_first w, wd_second w, wd_forced w with
  | _, _, Some _ => None
  | None, None, None => if negb (wd_finished w) then Some WFirst else None
  | None, Some second, None =>
      if negb (wd_finished w) then Some WFirst
      else if (negb (wd_finished w) || wd_restart_finish w)
              && (WARNING_DELAY_NS <=? saturating_sub now_ns second)
      then Some WForce else None
  | Some first, None, None =>
      if (WARNING_DELAY_NS <=? saturating_sub now_ns first) && negb (wd_finished w) then Some WSecond
      else if wd_finished w && wd_restart_finish w && (2 * WARNING_DELAY_NS <=? saturating_sub now_ns first)
      then Some WForce else None
  | Some _, Some second, None =>
      if (negb (wd_finished w) || wd_restart_finish w)
         && (WARNING_DELAY_NS <=? saturating_sub now_ns second)
      then Some WForce else None
  end.

Definition warning_text (text : string) (restart : Z) : string :=
  text +:+ " Begin the finish summary with this exact line followed by a newline: " +:+ finish_marker restart.

Definition warning_command (restart : Z) (w : Warning) : CommandKind :=
  match w with
  | WFirst => Steer (warning_text FIRST_NOTICE restart) None false
  | WSecond => Steer (warning_text SECOND_NOTICE restart) None false
  | WForce => CancelCommand
  end.

Definition warned_at (now_ns : Z) (w : Warning) (a : RestartAgentRow) : RestartAgentRow :=
  let column (x : Warning) old := if bool_decide (x = w) then Some now_ns else old in
  mk_restart_agent (ra_restart a) (ra_agent a) (ra_session a) (ra_cancelled_before a)
    (column WFirst (ra_first_ns a)) (column WSecond (ra_second_ns a)) (column WForce (ra_force_ns a))
    (ra_requested_ns a) (ra_resumed_execution a) (ra_resume_status a) (ra_error a).

Definition warn (restart now_ns : Z) (mn : Maintenance) (w : Warned) : Maintenance :=
  match decision now_ns w with
  | Some k =>
      update_captured (λ a, ra_restart a = restart ∧ ra_agent a = wd_agent w) (warned_at now_ns k)
        (on_db (λ db, insert_command db (wd_agent w) (warning_command restart k)) mn)
  | None => mn
  end.

(** A warning to a recipient that the dispatcher has not sent yet. *)
Definition awaiting_notice (ob : Outbox) (restart : Z) : bool :=
  exists_where
    (λ n, nr_restart n = restart ∧ nr_stage n = SBefore ∧
          exists_where (λ d, dl_id d = nr_delivery n ∧ (dl_state d = DPending ∨ dl_state d = DSending))
            (deliveries ob) = true) (ob_notices ob).

Definition working (db : Db) : bool := exists_where (λ a, ag_status a ∈ ACTIVE) (db_agents db).

(** [advance_service_restart]: the number of commands queued. *)
Definition advance_service_restart (mn : Maintenance) (restart : Z) (boot : string) (now_ns : Z)
  : result (Maintenance * Z) :=
  let? now_ns := clock now_ns in
  fail? negb (exists_where (λ r, rs_id r = restart ∧ rs_phase r = RPreparing ∧ rs_boot r = boot) (restarts mn)) with
    Conflict;
  let awaiting := awaiting_notice (mn_outbox mn) restart in
  let mn := if awaiting then update_restarts (λ r, rs_id r = restart) (waiting_since now_ns) mn else mn in
  let? started :=
    if awaiting
    then let? r := row (first_where (λ r, rs_id r = restart) (restarts mn)) in
         Ok (rs_notice_wait r)
    else Ok None in
  if match started with Some started => saturating_sub now_ns started <? NOTICE_WAIT_NS | None => false end
  then Ok (mn, 0)
  else
    let members := members_of_restart (mn_db mn) restart in
    let queued := count_where (λ w, is_some (decision now_ns w) = true) members in
    let mn := fold_left (warn restart now_ns) members mn in
    let mn :=
      if working (mn_db mn) then mn
      else update_restarts (λ r, rs_id r = restart ∧ rs_phase r = RPreparing) (in_phase RReady) mn in
    Ok (mn, queued).

(** ** Restarting *)

(** [claim_service_restart]. *)
Definition claim_service_restart (mn : Maintenance) (restart : Z) : Maintenance * bool :=
  let claimable r :=
    rs_id r = restart ∧ rs_phase r = RReady ∧ is_some (rs_epoch r) = true ∧ rs_epoch r = mn_writer mn in
  (update_restarts claimable (in_phase RRequesting) mn, count_where claimable (restarts mn) =? 1).

(** [recover_service_restart_for]; [boot] is the boot identifier of the machine. *)
Definition recover_service_restart_for (mn : Maintenance) (failed_restart : option Z) (boot : string)
  : result (Maintenance * option Z) :=
  match first_where (λ r, rs_finished r = false) (restarts mn) with
  | None => Ok (mn, None)
  | Some r =>
      let id := rs_id r in
      fail? match failed_restart with Some requested => negb (requested =? id) | None => false end with Conflict;
      if bool_decide (rs_phase r = RRecovering) then Ok (mn, Some id)
      else
        let new_writer :=
          match rs_epoch r, mn_writer mn with Some old, Some new => old <? new | _, _ => false end in
        let failed_on_same_writer :=
          bool_decide (failed_restart = Some id)
          && match rs_epoch r, mn_writer mn with Some old, Some new => new =? old | _, _ => false end in
        if negb (bool_decide (rs_phase r ∈ [RReady; RRequesting])) || negb (new_writer || failed_on_same_writer)
        then Ok (mn, None)
        else
          Ok (update_restarts (λ r, rs_id r = id ∧ rs_phase r ∈ [RReady; RRequesting]) (recovering_on boot) mn, Some id)
  end.

(** ** Resuming *)

(** [require_restart_resume]. *)
Definition require_restart_resume (db : Db) (restart : Z) (agent : string) : result () :=
  fail? negb (exists_where (λ r, rs_id r = restart ∧ rs_phase r = RRecovering ∧ rs_finished r = false) (db_restarts db)
              && exists_where
                   (λ a, ra_restart a = restart ∧ ra_agent a = agent ∧ ra_cancelled_before a = false ∧
                         ra_resume_status a = RsPending ∧ ra_resumed_execution a = None) (db_restart_agents db)) with
    Conflict;
  Ok ().

(** [request_service_restart_resume]. *)
Definition request_service_restart_resume (mn : Maintenance) (restart : Z) (agent boot : string) (now_ns : Z)
  : result Maintenance :=
  let? now_ns := clock now_ns in
  let active :=
    exists_where (λ r, rs_id r = restart ∧ rs_phase r = RRecovering ∧ rs_boot r = boot) (restarts mn) in
  let pending a :=
    ra_restart a = restart ∧ ra_agent a = agent ∧ ra_cancelled_before a = false ∧ ra_resume_status a = RsPending ∧
    active = true in
  fail? negb (count_where pending (captured mn) =? 1) with Conflict;
  Ok (update_captured pending (requested_at now_ns) mn).

(** [fail_service_restart_resume]. *)
Definition fail_service_restart_resume (mn : Maintenance) (restart : Z) (agent reason : string)
  : result Maintenance :=
  fail? is_empty reason || (256 <? len reason) || existsb is_control (chars reason) with
    invalid "invalid restart failure reason";
  let active := exists_where (λ r, rs_id r = restart ∧ rs_phase r = RRecovering) (restarts mn) in
  let refused a :=
    ra_restart a = restart ∧ ra_agent a = agent ∧ ra_resume_status a = RsPending ∧
    is_some (ra_requested_ns a) = true ∧ ra_resumed_execution a = None ∧ active = true in
  fail? negb (count_where refused (captured mn) =? 1) with Conflict;
  Ok (update_captured refused (with_status RsFailed (Some reason)) mn).

(** A failure kind that may be shown. *)
Definition is_kind_byte (b : Z) : bool := is_ascii_alphanumeric b || (b =? 95) || (b =? 45) || (b =? 46).
Definition shown_kind (failure : option string) : string :=
  match failure with
  | Some kind =>
      if negb (is_empty kind) && (len kind <=? 128) && forallb is_kind_byte (bytes kind) then kind
      else "execution_ended"%string
  | None => "execution_ended"%string
  end.

Definition is_resume_event (d : EventData) : bool := match d with ENativeResumeAccepted => true | _ => false end.

(** What is known of a continuation. *)
Definition resume_outcome (db : Db) (now_ns requested : Z) (child : option string)
  : result (option (ResumeStatus * option string)) :=
  let? (accepted, terminal, failure) :=
    match child with
    | Some child =>
        let? a := row (first_where (λ a, ag_id a = child) (db_agents db)) in
        Ok (bool_decide (ag_status a = Succeeded)
            || exists_where (λ e, ev_agent e = ag_id a ∧ is_resume_event (ev_data e) = true) (db_events db),
            bool_decide (ag_status a ∈ TERMINAL), ag_failure_kind a)
    | None => Ok (false, false, None)
    end in
  Ok (if accepted then Some (RsStarted, None)
      else if terminal
      then Some (RsFailed, Some ("Continuation ended before confirmation: " +:+ shown_kind failure))
      else if RESUME_CONFIRM_NS <=? saturating_sub now_ns requested
      then Some (RsUnconfirmed,
                 Some "No continuation confirmation within 60 seconds; the outcome is unknown."%string)
      else None).

(** One pending continuation is examined. *)
Definition refresh_row (restart now_ns : Z) (mn : Maintenance) (a : RestartAgentRow) : result Maintenance :=
  match ra_requested_ns a with
  | None => Ok mn
  | Some requested =>
      let? outcome := resume_outcome (mn_db mn) now_ns requested (ra_resumed_execution a) in
      Ok (match outcome with
          | Some (s, reason) =>
              update_captured
                (λ x, ra_restart x = restart ∧ ra_agent x = ra_agent a ∧ ra_resume_status x = RsPending)
                (with_status s reason) mn
          | None => mn
          end)
  end.

(** A captured execution without a result, or a cancelled one whose
    continuation has not ended. *)
Definition outstanding (db : Db) (a : RestartAgentRow) : Prop :=
  ra_resume_status a = RsPending ∨
  (ra_resume_status a = RsCancelled ∧
   exists_where (λ c, Some (ag_id c) = ra_resumed_execution a ∧ ag_status c ∈ ACTIVE) (db_agents db) = true).
#[global] Instance outstanding_dec db a : Decision (outstanding db a).
Proof. unfold outstanding. apply _. Defined.

(** [refresh_service_restart]. *)
Definition refresh_service_restart (mn : Maintenance) (restart : Z) (boot : string) (now_ns : Z) (at_ now : f64)
  (fresh : string → string → string * string) : result (Maintenance * bool) :=
  let? now_ns := clock now_ns in
  fail? negb (is_finite at_) || flt at_ (of_Z 0) with invalid "invalid restart time";
  fail? negb (exists_where (λ r, rs_id r = restart ∧ rs_phase r = RRecovering ∧ rs_boot r = boot) (restarts mn)) with
    Conflict;
  let rows :=
    filter (λ a, ra_restart a = restart ∧ ra_resume_status a = RsPending ∧ is_some (ra_requested_ns a) = true)
      (captured mn) in
  let? mn := try_fold (refresh_row restart now_ns) mn rows in
  if exists_where (λ a, ra_restart a = restart ∧ outstanding (mn_db mn) a) (captured mn)
  then Ok (mn, false)
  else
    let? mn := queue_restart_results mn restart now fresh in
    Ok (update_restarts (λ r, rs_id r = restart ∧ rs_phase r = RRecovering) (completed_at at_) mn, true).

(** ** Cancelling *)

(** The kinds of command a user may enqueue. *)
Inductive UserCommand := UCancel | USteer (text : string) (native_completion : bool) | UPool (seq : Z).

Definition command_of (k : UserCommand) : CommandKind :=
  match k with UCancel => CancelCommand | USteer text native => Steer text None native | UPool seq => PoolPush seq end.

Definition is_cancel (k : UserCommand) : bool := match k with UCancel => true | _ => false end.

(** The restart row a cancellation of this execution concerns. *)
Definition concerns (db : Db) (id : string) (r : RestartAgentRow) : Prop :=
  ra_cancelled_before r = false ∧ (ra_agent r = id ∨ ra_resumed_execution r = Some id) ∧
  ((restart_open db (ra_restart r) = true ∧ (ra_resume_status r = RsPending ∨ ra_resume_status r = RsStarted)) ∨
   ra_resume_status r = RsUnconfirmed ∨
   (exists_where (λ s, rs_id s = ra_restart r ∧ rs_finished s = true) (db_restarts db) = true ∧
    ra_resume_status r = RsStarted ∧ ra_agent r = id)).
#[global] Instance concerns_dec db id r : Decision (concerns db id r).
Proof. unfold concerns. apply _. Defined.

(** [ORDER BY (finished_at IS NULL) DESC, restart_id DESC]. *)
Definition concern_le (db : Db) (x y : RestartAgentRow) : bool :=
  let o r := restart_open db (ra_restart r) in
  if Bool.eqb (o x) (o y) then ra_restart x <=? ra_restart y else negb (o x).

(** The continuation is called off. *)
Definition cancel_resume (db : Db) (id : string) (restart : option RestartAgentRow) : Db :=
  match restart with
  | Some r =>
      if restart_open db (ra_restart r) || bool_decide (ra_resume_status r = RsUnconfirmed)
      then set_restart_agents
             (update_where
                (λ x, ra_restart x = ra_restart r ∧ (ra_agent x = id ∨ ra_resumed_execution x = Some id) ∧
                      ra_resume_status x ∈ [RsPending; RsStarted; RsUnconfirmed]) (with_status RsCancelled None)
                (db_restart_agents db)) db
      else db
  | None => db
  end.

(** [enqueue]: whether the command is already completed. *)
Definition enqueue (db : Db) (id : string) (kind : UserCommand) : result (Db * bool) :=
  let? a := ok_or (NotFound id) (first_where (λ a, ag_id a = id) (db_agents db)) in
  let restart :=
    if is_cancel kind then best_by (concern_le db) (filter (concerns db id) (db_restart_agents db)) else None in
  let? (target, stopped) :=
    if Status.terminal (ag_status a) then
      let? r := ok_or (invalid "agent is already terminal") restart in
      fail? negb (is_restart_stop db id) with invalid "agent is already terminal";
      match ra_resumed_execution r with
      | Some child =>
          let? c := row (first_where (λ c, ag_id c = child) (db_agents db)) in
          fail? negb (bool_decide (ag_status c ∈ ACTIVE)) with invalid "agent is already terminal";
          Ok (child, false)
      | None => Ok (id, true)
      end
    else Ok (id, false) in
  let db := cancel_resume db id restart in
  if stopped
  then
    let cid := db_command_seq db + 1 in
    Ok (set_command_seq cid
          (set_commands (db_commands db ++ [mk_command cid id CancelCommand CCompleted true]) db), true)
  else
    fail? negb (is_cancel kind) && finish_recorded db id with
      invalid "finish already accepted; no new turn may be admitted";
    Ok (insert_command db target (command_of kind), false).
