(* ===== verification/ProviderCatalog.v ===== *)
(** * The provider catalog

    [catalog.rs] with [provider_connection.rs], [credential_ref.rs] and the
    scalars of [types.rs] it is built from: identities, credential references,
    provider definitions, the validated catalog, physical quota keys, the frozen
    launch authority and the candidate set quota hands to admission.  A newtype
    over a string is that string; [from_str] is its only way in.  [url]'s parser
    is a parameter. *)

From S2P Require Import Prelude Text Float64 Json Canonical Requests PoolDomain.

(** [str::split_once] for a nonempty separator. *)
Fixpoint split_once (sep s : string) : option (string * string) :=
  match strip_prefix sep s with
  | Some rest => Some (""%string, rest)
  | None =>
      match s with
      | EmptyString => None
      | String c s' =>
          match split_once sep s' with
          | Some (a, b) => Some (String c a, b)
          | None => None
          end
      end
  end.

(** [map.get(key)] on the sorted list of a [BTreeMap] or a JSON object. *)
Definition map_get {A} (key : string) (m : list (string * A)) : option A :=
  option_map snd (first_where (λ kv, fst kv = key) m).

(** The first byte satisfies the class. *)
Definition head_byte (f : Z → bool) (s : string) : bool :=
  match bytes s with b :: _ => f b | [] => false end.

(** ** Identities *)

(** [identifier]. *)
Definition identifier (label value : string) (max : Z) : result () :=
  fail? is_empty value || (max <? len value) || negb (head_byte is_ascii_alphanumeric value)
        || negb (forallb is_key_byte (bytes value)) with
    invalid (label +:+ " must be 1..=" +:+ dec max +:+ " ASCII characters starting alphanumeric");
  Ok ().

Inductive HarnessId := Codex | ClaudeCode | OpenCode.
#[global] Instance harness_eq_dec : EqDecision HarnessId.
Proof. solve_decision. Defined.

Definition harnesses : list HarnessId := [Codex; ClaudeCode; OpenCode].

(** [HarnessId::as_str]. *)
Definition harness_str (h : HarnessId) : string :=
  match h with Codex => "codex" | ClaudeCode => "claude-code" | OpenCode => "opencode" end.

(** [HarnessId::from_str]. *)
Definition harness_from_str (value : string) : result HarnessId :=
  ok_or (invalid "unknown harness; expected codex, claude-code or opencode")
    (first_where (λ h, harness_str h = value) harnesses).

(** [ProviderId::from_str]. *)
Definition provider_id_from_str (value : string) : result string :=
  try? identifier "provider id" value 64;
  Ok value.

(** The bytes of an account identity. *)
Definition is_account_byte (b : Z) : bool :=
  is_ascii_lowercase b || is_ascii_digit b || (b =? 95) || (b =? 46) || (b =? 45).

(** [AccountId::from_str]. *)
Definition account_id_from_str (value : string) : result string :=
  fail? is_empty value || (96 <? len value) || negb (head_byte is_ascii_lowercase value)
        || negb (forallb is_account_byte (bytes value)) with
    invalid "account id must be 1..=96 ASCII characters starting lowercase";
  Ok value.

(** [AuthFamily::from_str]. *)
Definition auth_family_from_str (value : string) : result string :=
  fail? is_empty value || (32 <? len value)
        || negb (forallb (λ b, is_ascii_lowercase b || is_ascii_digit b || (b =? 45)) (bytes value)) with
    invalid "auth family must be 1..=32 lowercase ASCII characters";
  Ok value.

(** [types.rs] [AccountLabel::from_str]. *)
Definition account_label_from_str (value : string) : result string :=
  fail? negb ((1 <=? len value) && (len value <=? 32)
              && forallb (λ b, is_ascii_lowercase b || is_ascii_digit b || (b =? 95) || (b =? 45))
                   (bytes value)) with
    invalid "invalid account label";
  Ok value.

(** [types.rs] [Sha256Digest::from_str]. *)
Definition sha256_digest_from_str (value : string) : result string :=
  fail? negb ((len value =? 64) && forallb is_lower_hex (bytes value)) with
    invalid "sha256 must be 64 lowercase hexadecimal characters";
  Ok value.

(** [types.rs] [PositiveFinite::try_from]. *)
Definition positive_finite (value : f64) : result f64 :=
  fail? negb (is_finite value && flt (of_Z 0) value) with invalid "value must be positive and finite";
  Ok value.

(** ** Credential references, [credential_ref.rs] *)

Inductive CredentialRef :=
  | CrNative (harness : HarnessId)
  | CrNamed (harness : HarnessId) (label : string)
  | CrEnvironment (name : string)
  | CrFile (path : string)
  | CrKeychain (service account : string).

Definition is_env_byte (b : Z) : bool := is_ascii_uppercase b || is_ascii_digit b || (b =? 95).

Definition keychain_name (name : string) : bool :=
  negb (is_empty name) && forallb is_key_byte (bytes name).

(** [CredentialRef::from_secret]. *)
Definition credential_from_secret (value : string) : result CredentialRef :=
  match strip_prefix "native:" value with
  | Some harness => let? h := harness_from_str harness in Ok (CrNative h)
  | None =>
  match strip_prefix "named:" value with
  | Some named =>
      let? (harness, label) := ok_or (invalid "invalid named credential reference") (split_once ":" named) in
      let? h := harness_from_str harness in
      let? l := account_label_from_str label in
      Ok (CrNamed h l)
  | None =>
  match strip_prefix "env:" value with
  | Some name =>
      fail? is_empty name || negb (head_byte (λ b, is_ascii_uppercase b || (b =? 95)) name)
            || negb (forallb is_env_byte (bytes name)) with
        invalid "invalid environment credential reference";
      Ok (CrEnvironment name)
  | None =>
  match strip_prefix "file:" value with
  | Some path =>
      fail? negb (is_absolute path) with invalid "credential file path must be absolute";
      Ok (CrFile path)
  | None =>
  match strip_prefix "keychain:" value with
  | Some names =>
      let? (service, account) :=
        ok_or (invalid "invalid Keychain credential reference") (split_once ":" names) in
      fail? negb (keychain_name service && keychain_name account) with
        invalid "invalid Keychain credential reference";
      Ok (CrKeychain service account)
  | None => Err (invalid "unsupported credential reference kind")
  end end end end end.

(** [CredentialRef::kind]. *)
Definition credential_kind (c : CredentialRef) : string :=
  match c with
  | CrNative _ => "native"
  | CrNamed _ _ => "named"
  | CrEnvironment _ => "environment"
  | CrFile _ => "file"
  | CrKeychain _ _ => "keychain"
  end.

(** The auth family of a harness login. *)
Definition family_of (h : HarnessId) : string :=
  match h with Codex => "openai" | ClaudeCode => "anthropic" | OpenCode => "opencode" end.

(** [CredentialRef::matches_family]. *)
Definition matches_family (c : CredentialRef) (family : string) : bool :=
  match c with
  | CrNative h | CrNamed h _ => bool_decide (family = family_of h)
  | _ => true
  end.

(** [SecretRef::from_str]. *)
Definition secret_ref_from_str (value : string) : result string :=
  try? nonblank "secret ref" value;
  fail? (256 <? len value) || negb (bool_decide (trim value = value)) with
    invalid "secret ref must be canonical and at most 256 bytes";
  try? credential_from_secret value;
  Ok value.

(** ** Connections, [provider_connection.rs] *)

Inductive ProviderProtocol := Responses | Messages.
Inductive CredentialHeader := Bearer | XApiKey.
Inductive LimitsSource := CodexAppserver | Lua | Exec | NoLimits.

Inductive ProviderConnection :=
  | Native
  | Custom (endpoint : string) (protocol : ProviderProtocol) (auth_header : CredentialHeader)
      (allow_loopback_http : bool).

#[global] Instance protocol_eq_dec : EqDecision ProviderProtocol.
Proof. solve_decision. Defined.
#[global] Instance credential_header_eq_dec : EqDecision CredentialHeader.
Proof. solve_decision. Defined.
#[global] Instance limits_source_eq_dec : EqDecision LimitsSource.
Proof. solve_decision. Defined.
#[global] Instance connection_eq_dec : EqDecision ProviderConnection.
Proof. solve_decision. Defined.

(** What the code reads of a parsed [url::Url]. *)
Record Url := mk_url {
  url_scheme : string;
  url_host : option string;
  url_username : string;
  url_password : option string;
  url_fragment : option string;
}.

(** [Url::parse]. *)
Class UrlParser := { url_parse : string → option Url }.

(** The hosts plain HTTP is allowed for. *)
Definition loopback_host (host : option string) : bool :=
  bool_decide (host = Some "localhost"%string ∨ host = Some "127.0.0.1"%string
               ∨ host = Some "[::1]"%string).

(** [ProviderConnection::validate]. *)
Definition connection_validate `{UrlParser} (c : ProviderConnection) (harness : HarnessId)
  : result () :=
  match c with
  | Native => Ok ()
  | Custom endpoint protocol auth_header allow_loopback_http =>
      let? url := ok_or (invalid "invalid provider protocol endpoint") (url_parse endpoint) in
      fail? negb (is_some (url_host url))
            || negb (is_empty (url_username url))
            || is_some (url_password url)
            || is_some (url_fragment url)
            || negb (bool_decide (url_scheme url = "https"%string)
                     || (allow_loopback_http && bool_decide (url_scheme url = "http"%string)
                         && loopback_host (url_host url)))
            || negb (bool_decide ((harness, protocol) = (Codex, Responses)
                                  ∨ (harness, protocol) = (ClaudeCode, Messages)))
            || (bool_decide (harness = Codex) && negb (bool_decide (auth_header = Bearer))) with
        invalid "unsupported provider protocol endpoint";
      Ok ()
  end.

(** ** Provider definitions *)

(** [external_model_id]. *)
Definition external_model_id (value : string) : result () :=
  try? nonblank "model id" value;
  fail? 256 <? len value with invalid "model id exceeds 256 bytes";
  Ok ().

Record ProviderModel := mk_model {
  pmd_id : string;
  pmd_native_model : option string;
  pmd_params : list (string * string);
  pmd_allowed_params : list (string * list string);
  pmd_recommendations : list string;
  pmd_restrictions : list Constraint;
}.

(** [for x in l { f(x)?; }]. *)
Fixpoint check_all {A} (f : A → result ()) (l : list A) : result () :=
  match l with
  | [] => Ok ()
  | x :: l' => try? f x; check_all f l'
  end.

(** [ProviderModel::validate]. *)
Definition model_validate (m : ProviderModel) : result () :=
  try? external_model_id (pmd_id m);
  try? check_opt external_model_id (pmd_native_model m);
  try? check_all
         (λ '(key, value), try? nonblank "model param key" key; nonblank "model param value" value)
         (pmd_params m);
  try? check_all
         (λ '(key, allowed),
            try? nonblank "allowed model param" key;
            fail? (64 <? len key)
                  || bool_decide (allowed = [])
                  || (32 <? Z.of_nat (length allowed))
                  || existsb blank allowed
                  || existsb (λ value, 128 <? len value) allowed
                  || has_dup allowed
                  || is_some_and (λ value, negb (bool_decide (value ∈ allowed)))
                       (map_get key (pmd_params m)) with
              invalid "invalid allowed model parameters or fixed default";
            Ok ())
         (pmd_allowed_params m);
  fail? has_dup (pmd_restrictions m) with invalid "model restrictions must not repeat";
  Ok ().

(** [ProviderModel::permits_effort]. *)
Definition permits_effort (m : ProviderModel) (effort : option string) : result () :=
  match effort, map_get "effort" (pmd_allowed_params m) with
  | Some value, Some allowed =>
      fail? negb (bool_decide (value ∈ allowed)) with invalid "effort is not allowed for this model";
      Ok ()
  | _, _ => Ok ()
  end.

Record ProviderBinding := mk_binding {
  pb_label : string;
  pb_account : string;
  pb_models : option (list string);
  pb_connection : option ProviderConnection;
  pb_multiplier : f64;
}.

(** The binding serves the model: its subset names it, or it has none. *)
Definition serves (model : string) (b : ProviderBinding) : bool :=
  is_none_or (λ models, bool_decide (model ∈ models)) (pb_models b).

Record CollectorBinding := mk_collector {
  cb_command : string;
  cb_args : list string;
  cb_source : string;
  cb_timeout_seconds : Z;
  cb_env_from : list string;
  cb_exhaustion_windows : list (string * string);
  cb_legacy : list (string * Value);
}.

Definition is_env_name (name : string) : bool :=
  negb (is_empty name || (128 <? len name) || head_byte is_ascii_digit name
        || negb (forallb (λ b, is_ascii_alphanumeric b || (b =? 95)) (bytes name))).

(** [CollectorBinding::validate]. *)
Definition collector_validate (c : CollectorBinding) : result () :=
  fail? negb (bool_decide (cb_legacy c = [])) with
    invalid "unknown collector field; configure command and args for exec";
  fail? negb (is_absolute (cb_command c)) || (4096 <? len (cb_command c)) with
    invalid "collector command must be an absolute path";
  fail? negb ((1 <=? cb_timeout_seconds c) && (cb_timeout_seconds c <=? 300))
        || (64 <? Z.of_nat (length (cb_args c)))
        || existsb (λ arg, (4096 <? len arg) || has_nul arg) (cb_args c) with
    invalid "invalid collector arguments or timeout";
  fail? (128 <? len (cb_source c)) || existsb is_control (chars (cb_source c)) with
    invalid "invalid collector source";
  fail? (32 <? Z.of_nat (length (cb_env_from c)))
        || existsb (λ name, negb (is_env_name name)) (cb_env_from c) with
    invalid "invalid collector environment name";
  check_all
    (λ '(window, pool),
       try? nonblank "collector exhaustion window" window;
       try? nonblank "collector exhaustion pool" pool;
       fail? (128 <? len window) || (128 <? len pool) with
         invalid "collector exhaustion mapping is too long";
       Ok ())
    (cb_exhaustion_windows c).

Record ProviderDefinition := mk_definition {
  df_id : string;
  df_harness : HarnessId;
  df_connection : ProviderConnection;
  df_auth_family : string;
  df_recommendations : list string;
  df_priority_multiplier : f64;
  df_limits_source : LimitsSource;
  df_collector : option CollectorBinding;
  df_models : list ProviderModel;
  df_bindings : list ProviderBinding;
  df_ordered_accounts : bool;
}.

(** The loop over [self.models]: the ids in use. *)
Fixpoint models_validate (model_ids : list string) (models : list ProviderModel) : result (list string) :=
  match models with
  | [] => Ok model_ids
  | m :: models' =>
      try? model_validate m;
      fail? bool_decide (pmd_id m ∈ model_ids) with invalid "provider models must be unique";
      models_validate (pmd_id m :: model_ids) models'
  end.

(** The loop over one binding's model subset. *)
Fixpoint subset_validate (model_ids seen subset : list string) : result () :=
  match subset with
  | [] => Ok ()
  | id :: subset' =>
      fail? negb (bool_decide (id ∈ model_ids)) with
        invalid "binding model subset must be contained in provider models";
      fail? bool_decide (id ∈ seen) with invalid "binding model subset must not repeat a model";
      subset_validate model_ids (id :: seen) subset'
  end.

(** The loop over [self.bindings]. *)
Fixpoint bindings_validate (ordered : bool) (model_ids labels accounts : list string)
  (bindings : list ProviderBinding) : result () :=
  match bindings with
  | [] => Ok ()
  | b :: bindings' =>
      fail? bool_decide (pb_label b ∈ labels) with invalid "provider binding labels must be unique";
      fail? is_some_and (λ c, negb ordered || negb (bool_decide (c = Native))) (pb_connection b) with
        invalid "binding connection override requires ordered accounts and a native connection";
      fail? ordered && bool_decide (pb_account b ∈ accounts) with
        invalid "ordered provider accounts must be unique";
      try? check_opt (subset_validate model_ids []) (pb_models b);
      bindings_validate ordered model_ids (pb_label b :: labels)
        (if ordered then pb_account b :: accounts else accounts) bindings'
  end.

(** [ProviderDefinition::validate]. *)
Definition definition_validate `{UrlParser} (d : ProviderDefinition) : result () :=
  fail? bool_decide (df_models d = []) with invalid "provider must offer at least one model";
  try? (match df_limits_source d, df_collector d with
        | Exec, Some binding => collector_validate binding
        | Lua, Some _ => Ok ()
        | Exec, None | Lua, None => Err (invalid "limits source requires a collector binding")
        | _, None => Ok ()
        | _, Some _ => Err (invalid "collector binding requires the exec limits source")
        end);
  try? check_all (nonblank "provider recommendation") (df_recommendations d);
  try? connection_validate (df_connection d) (df_harness d);
  fail? df_ordered_accounts d
        && (negb (bool_decide (df_harness d = ClaudeCode))
            || negb (bool_decide (df_limits_source d = NoLimits))
            || negb (match df_connection d with Custom _ Messages _ _ => true | _ => false end)) with
    invalid "ordered accounts require Claude Code, a custom Messages connection and no quota collector";
  fail? bool_decide (df_limits_source d = CodexAppserver)
        && (negb (bool_decide (df_harness d = Codex)) || negb (bool_decide (df_connection d = Native))) with
    invalid "codex_appserver limits require the codex harness and a native connection";
  fail? negb (bool_decide (df_auth_family d = family_of (df_harness d))) with
    invalid "provider auth family does not match harness";
  let? model_ids := models_validate [] (df_models d) in
  bindings_validate (df_ordered_accounts d) model_ids [] [] (df_bindings d).

(** [ProviderDefinition::binding]. *)
Definition binding (d : ProviderDefinition) (label : string) : option ProviderBinding :=
  first_where (λ b, pb_label b = label) (df_bindings d).

(** [self.models.iter().any(|offering| offering.id == model)]. *)
Definition offers (d : ProviderDefinition) (model : string) : bool :=
  existsb (λ offering, bool_decide (pmd_id offering = model)) (df_models d).

(** [ProviderDefinition::connection_for]. *)
Definition connection_for (d : ProviderDefinition) (account model : string) : option ProviderConnection :=
  if offers d model then
    option_map (λ b, default (df_connection d) (pb_connection b))
      (first_where (λ b, pb_account b = account ∧ serves model b = true) (df_bindings d))
  else None.

(** A stable sort, [sort_by] with the order [le]. *)
Fixpoint insert_by {A} (le : A → A → bool) (x : A) (l : list A) : list A :=
  match l with
  | [] => [x]
  | y :: l' => if le x y then x :: y :: l' else y :: insert_by le x l'
  end.
Definition sort_by {A} (le : A → A → bool) (l : list A) : list A := foldr (insert_by le) [] l.

(** [b.multiplier.total_cmp(&a.multiplier) != Greater]; on positive finite
    values [total_cmp] is the numeric order. *)
Definition heavier (a b : ProviderBinding) : bool := fle (pb_multiplier b) (pb_multiplier a).

(** [ProviderDefinition::ordered_bindings]. *)
Definition ordered_bindings (d : ProviderDefinition) (model : string) : list ProviderBinding :=
  if offers d model then sort_by heavier (List.filter (serves model) (df_bindings d)) else [].

(** ** The catalog *)

Inductive AccountStatus := Enabled | Disabled.
#[global] Instance account_status_eq_dec : EqDecision AccountStatus.
Proof. solve_decision. Defined.

Definition account_status_str (s : AccountStatus) : string :=
  match s with Enabled => "enabled" | Disabled => "disabled" end.

(** [AccountStatus::from_str]. *)
Definition account_status_from_str (value : string) : result AccountStatus :=
  if bool_decide (value = "enabled"%string) then Ok Enabled
  else if bool_decide (value = "disabled"%string) then Ok Disabled
  else Err (invalid "unknown account status").

Record AccountRecord := mk_account_record {
  acr_id : string;
  acr_family : string;
  acr_secret : string;
  acr_status : AccountStatus;
}.

Record ProviderCatalog := mk_catalog {
  pc_accounts : list AccountRecord;
  pc_providers : list ProviderDefinition;
}.

(** The loop over [accounts] of [ProviderCatalog::new]. *)
Fixpoint register_all (storage : list (string * string)) (registry accounts : list AccountRecord)
  : result (list AccountRecord) :=
  match accounts with
  | [] => Ok registry
  | a :: accounts' =>
      fail? bool_decide ((acr_family a, acr_secret a) ∈ storage) with
        invalid "credential storage identity must be unique";
      fail? existsb (λ x, bool_decide (acr_id x = acr_id a)) registry with
        invalid "account ids must be unique";
      register_all ((acr_family a, acr_secret a) :: storage) (registry ++ [a]) accounts'
  end.

Definition account_in (registry : list AccountRecord) (id : string) : option AccountRecord :=
  first_where (λ a, acr_id a = id) registry.

(** The check of one binding against the registry. *)
Definition binding_registered (registry : list AccountRecord) (d : ProviderDefinition)
  (b : ProviderBinding) : result () :=
  let? account := ok_or (invalid "binding references an unregistered account")
                    (account_in registry (pb_account b)) in
  fail? negb (bool_decide (acr_family account = df_auth_family d)) with
    invalid "binding auth family must equal the provider auth family";
  if bool_decide (df_limits_source d = CodexAppserver) then
    let? reference := credential_from_secret (acr_secret account) in
    fail? negb (match reference with CrNative Codex | CrNamed Codex _ => true | _ => false end) with
      invalid "codex_appserver limits require native or named codex account logins";
    Ok ()
  else Ok ().

(** The loop over [providers]. *)
Fixpoint providers_validate `{UrlParser} (registry : list AccountRecord) (ids : list string)
  (providers : list ProviderDefinition) : result () :=
  match providers with
  | [] => Ok ()
  | d :: providers' =>
      try? definition_validate d;
      fail? bool_decide (df_id d ∈ ids) with invalid "provider ids must be unique";
      try? check_all (binding_registered registry d) (df_bindings d);
      providers_validate registry (df_id d :: ids) providers'
  end.

(** [ProviderCatalog::new]; the registry is read back in id order. *)
Definition catalog_new `{UrlParser} (accounts : list AccountRecord) (providers : list ProviderDefinition)
  : result ProviderCatalog :=
  let? registry := register_all [] [] accounts in
  try? providers_validate registry [] providers;
  Ok (mk_catalog (sort_by (λ a b, bool_decide (String.le (acr_id a) (acr_id b))) registry) providers).

(** [ProviderCatalog::account]. *)
Definition catalog_account (c : ProviderCatalog) (id : string) : option AccountRecord :=
  account_in (pc_accounts c) id.

(** [ProviderCatalog::provider]. *)
Definition catalog_provider (c : ProviderCatalog) (id : string) : option ProviderDefinition :=
  first_where (λ d, df_id d = id) (pc_providers c).

(** [ProviderCatalog::aliases_of]. *)
Definition aliases_of (c : ProviderCatalog) (account : string) : list (ProviderDefinition * string) :=
  concat (map (λ d, map (λ b, (d, pb_label b)) (filter (λ b, pb_account b = account) (df_bindings d)))
            (pc_providers c)).

(** ** Physical quota keys *)

(** [PhysicalQuotaKey::new]. *)
Definition quota_key_new (account lane : string) : result string :=
  try? nonblank "quota lane" lane;
  fail? 128 <? len lane with invalid "quota lane exceeds 128 bytes";
  Ok (account +:+ "::" +:+ lane).

(** [PhysicalQuotaKey::belongs_to]. *)
Definition belongs_to (key account : string) : bool :=
  match strip_prefix account key with
  | Some rest =>
      is_some_and (λ lane, negb (is_empty lane) && (len lane <=? 128) && negb (has_nul lane))
        (strip_prefix "::" rest)
  | None => false
  end.

(** [PhysicalQuotaKey::deserialize] of a JSON string; a refusal becomes a
    decoding error. *)
Definition quota_key_decode (text : string) : option string :=
  match split_once "::" text with
  | Some (account, lane) =>
      match account_id_from_str account with
      | Ok account => ok (quota_key_new account lane)
      | Err _ => None
      end
  | None => None
  end.

(** ** The launch authority *)

(** [value[key]]. *)
Definition json_index (key : string) (v : Value) : Value :=
  match v with Obj m => default Null (map_get key m) | _ => Null end.

(** [value.get(key)]. *)
Definition json_get (key : string) (v : Value) : option Value :=
  match v with Obj m => map_get key m | _ => None end.

(** [object.remove(key)]: what is left. *)
Definition without {A} (key : string) (m : list (string * A)) : list (string * A) :=
  filter (λ kv, fst kv ≠ key) m.

Record ResolvedLaunchAuthority := mk_authority {
  au_provider : string;
  au_harness : HarnessId;
  au_connection : ProviderConnection;
  au_model : string;
  au_effort : option string;
  au_profile : string;
  au_workdir : string;
  au_role_payload : Value;
  au_assets_sha256 : string;
  au_eligible_accounts : list string;
}.

(** The role document without its sealed revision, and the revision. *)
Definition sealed_role (payload : Value) : option (Value * string) :=
  match payload with
  | Obj m =>
      match map_get "config_revision" m with
      | Some (Str revision) => Some (Obj (without "config_revision" m), revision)
      | _ => None
      end
  | _ => None
  end.

(** [ResolvedLaunchAuthority::validate]. *)
Definition authority_validate `{Sha256} (a : ResolvedLaunchAuthority) : result () :=
  try? nonblank "model" (au_model a);
  try? check_opt (nonblank "effort") (au_effort a);
  try? nonblank "profile" (au_profile a);
  let? (role, revision) := ok_or (invalid "authority role payload lacks a revision")
                             (sealed_role (au_role_payload a)) in
  fail? negb (bool_decide (json_index "role_name" role = Str (au_profile a)))
        || negb (bool_decide (sha256_hex role true = revision)) with
    invalid "authority role payload does not match its sealed revision";
  fail? negb (is_absolute (au_workdir a)) with invalid "authority workdir must be absolute";
  fail? has_nul (au_workdir a) with invalid "authority workdir must be NUL-free";
  fail? has_dup (au_eligible_accounts a) with invalid "eligible accounts must not repeat";
  Ok ().

(** ** Credentials of an attempt *)

Record AttemptCredentials := mk_credentials { cred_account : string; cred_secret : string }.

(** [AttemptCredentials::from_selected]. *)
Definition from_selected (c : ProviderCatalog) (provider model account : string)
  : result AttemptCredentials :=
  let? definition := ok_or (invalid "unknown provider") (catalog_provider c provider) in
  fail? negb (offers definition model)
        || negb (existsb (λ b, bool_decide (pb_account b = account) && serves model b)
                   (df_bindings definition)) with
    invalid "selected account is outside provider model scope";
  let? record := ok_or (invalid "unknown account") (catalog_account c account) in
  fail? negb (bool_decide (acr_status record = Enabled))
        || negb (bool_decide (acr_family record = df_auth_family definition)) with
    invalid "selected account is not enabled for provider";
  Ok (mk_credentials account (acr_secret record)).

(** ** Candidates *)

Inductive SelectionIntent := Auto | Pinned (account : string).
#[global] Instance selection_intent_eq_dec : EqDecision SelectionIntent.
Proof. solve_decision. Defined.

Record QuotaCandidate := mk_candidate {
  qc_account : string;
  qc_rank : Z;
  qc_physical_keys : list string;
  qc_multiplier : f64;
  qc_quota_known : bool;
}.

Record QuotaCandidateSet := mk_candidates {
  qs_provider : string;
  qs_model : string;
  qs_intent : SelectionIntent;
  qs_candidates : list QuotaCandidate;
  qs_capacity_revision : Z;
}.

(** The loop over the candidates: the accounts seen. *)
Fixpoint candidates_validate (previous_rank : option Z) (seen : list string) (l : list QuotaCandidate)
  : result (list string) :=
  match l with
  | [] => Ok seen
  | c :: l' =>
      fail? is_some_and (λ rank, qc_rank c <? rank) previous_rank with
        invalid "quota candidates must be ordered by rank";
      fail? bool_decide (qc_account c ∈ seen) with invalid "quota candidates must not repeat an account";
      fail? (qc_quota_known c && bool_decide (qc_physical_keys c = []))
            || (32 <? Z.of_nat (length (qc_physical_keys c)))
            || existsb (λ key, negb (belongs_to key (qc_account c))) (qc_physical_keys c)
            || has_dup (qc_physical_keys c) with
        invalid "candidate physical keys must be distinct, account-bound, and nonempty for known capacity";
      candidates_validate (Some (qc_rank c)) (qc_account c :: seen) l'
  end.

(** [QuotaCandidateSet::validate]. *)
Definition candidate_set_validate (s : QuotaCandidateSet) : result () :=
  try? nonblank "model" (qs_model s);
  let? seen := candidates_validate None [] (qs_candidates s) in
  fail? match qs_intent s with Pinned account => negb (bool_decide (account ∈ seen)) | Auto => false end with
    invalid "pinned account must appear among the candidates";
  fail? qs_capacity_revision s <? 0 with invalid "capacity revision must be nonnegative";
  Ok ().

(** ** Lemmas *)

Lemma free_cons b c s : free b (String c s) = true ↔ u8 c ≠ b ∧ free b s = true.
Proof. unfold free. rewrite !bool_decide_eq_true. simpl. rewrite not_elem_of_cons. naive_solver. Qed.

(** The separator [::] is found behind a text without colons. *)
Lemma split_once_colons s r : free 58 s = true → split_once "::" (s +:+ "::" +:+ r) = Some (s, r).
Proof.
  induction s as [|c s IH]; intros Hf.
  - change ("" +:+ "::" +:+ r) with (String (of_u8 58) (String (of_u8 58) r)). cbn [split_once].
    change (String (of_u8 58) (String (of_u8 58) r)) with ("::" +:+ r). by rewrite strip_prefix_self.
  - apply free_cons in Hf as [Hc Hf].
    change (String c s +:+ "::" +:+ r) with (String c (s +:+ "::" +:+ r)). cbn [split_once].
    destruct (strip_prefix "::" _) as [x|] eqn:E.
    { apply strip_prefix_Some in E. injection E as -> _. by destruct Hc. }
    by rewrite (IH Hf).
Qed.

(** An account identity has no colon. *)
Lemma account_free a : account_id_from_str a = Ok a → free 58 a = true.
Proof.
  unfold account_id_from_str. intros E. run_code E. unfold free. apply bool_decide_eq_true. intros Hin.
  rename select (forallb _ _ = true) into Hall. rewrite forallb_forall in Hall.
  apply list_elem_of_In, Hall in Hin. done.
Qed.

Lemma colons_inj a b l1 l2 :
  free 58 a = true → free 58 b = true → a +:+ "::" +:+ l1 = b +:+ "::" +:+ l2 → a = b ∧ l1 = l2.
Proof.
  intros Ha Hb E. destruct (string_sep_inj 58 a b (":" +:+ l1) (":" +:+ l2)) as [-> E']; [done..|].
  split; [done|]. by injection E'.
Qed.

Lemma belongs_to_true key account :
  belongs_to key account = true ↔
  ∃ lane, key = account +:+ "::" +:+ lane ∧ lane ≠ ""%string ∧ len lane ≤ 128 ∧ has_nul lane = false.
Proof.
  unfold belongs_to. split.
  - destruct (strip_prefix account key) as [rest|] eqn:E; [|done]. apply strip_prefix_Some in E as ->.
    destruct (strip_prefix "::" rest) as [lane|] eqn:E; [|done]. apply strip_prefix_Some in E as ->.
    simpl. intros Hl. to_prop. exists lane. split; [done|]. split; [by apply is_empty_false|done].
  - intros (lane & -> & He & Hl & Hn). rewrite strip_prefix_self, strip_prefix_self. simpl.
    rewrite (proj2 (is_empty_false lane) He), Hn. by rewrite (proj2 (Z.leb_le _ _) Hl).
Qed.

(** Reservations never cross accounts.  A quota key built for an account
    belongs to it, decodes to itself from the wire, and names its lane; and no
    key belongs to two accounts, so one physical pool has one owner whatever
    aliases its providers use. *)
Theorem quota_keys_partition a lane key :
  account_id_from_str a = Ok a → quota_key_new a lane = Ok key →
  belongs_to key a = true ∧ quota_key_decode key = Some key ∧
  (∀ b, account_id_from_str b = Ok b → belongs_to key b = true → b = a) ∧
  (∀ lane', quota_key_new a lane' = Ok key → lane' = lane).
Proof.
  intros Ha E. pose proof (account_free a Ha) as Fa. unfold quota_key_new in E.
  destruct (nonblank _ lane) as [[]|] eqn:En; [|done]. destruct (128 <? len lane) eqn:El; [done|].
  injection E as <-. to_prop. unfold nonblank in En. run_code En.
  rename select (blank lane = false) into Hb.
  assert (belongs_to (a +:+ "::" +:+ lane) a = true) as Hbt.
  { apply belongs_to_true. exists lane. split; [done|]. split; [|done]. intros ->. by rewrite blank_empty in Hb. }
  split; [done|]. split; [|split].
  - unfold quota_key_decode. rewrite split_once_colons, Ha by done. unfold quota_key_new, nonblank.
    rename select (has_nul lane = false) into Hn. rewrite Hb, Hn. simpl. by rewrite (proj2 (Z.ltb_ge _ _) El).
  - intros b Hb' (l & Ek & _)%belongs_to_true. by destruct (colons_inj a b lane l Fa (account_free b Hb') Ek).
  - intros l' E. unfold quota_key_new in E. destruct (nonblank _ l'); [|done]. destruct (128 <? len l'); [done|].
    injection E as E%eq_sym. by destruct (colons_inj a a lane l' Fa Fa E).
Qed.

Lemma quota_keys_partition_witness :
  belongs_to "acct-1::codex" "acct-1" = true ∧ quota_key_decode "acct-1::codex" = Some "acct-1::codex"%string.
Proof.
  destruct (quota_keys_partition "acct-1" "codex" "acct-1::codex") as (H1 & H2 & _); [done..|].
  split; [exact H1|exact H2].
Defined.

(** *** Sorting *)

Section sort_by.
Context {A : Type} (le : A → A → bool).

Lemma insert_by_perm x l : insert_by le x l ≡ₚ x :: l.
Proof.
  induction l as [|y l IH]; simpl; [done|]. destruct (le x y); [done|]. by rewrite IH, Permutation_swap.
Qed.

Lemma sort_by_perm l : sort_by le l ≡ₚ l.
Proof. induction l as [|x l IH]; simpl; [done|]. by rewrite insert_by_perm, IH. Qed.

Lemma elem_of_sort_by x l : x ∈ sort_by le l ↔ x ∈ l.
Proof. by rewrite sort_by_perm. Qed.

Hypothesis le_trans : ∀ x y z, le x y = true → le y z = true → le x z = true.

Lemma sort_by_sorted (P : A → Prop) l :
  (∀ x y, P x → P y → le x y = true ∨ le y x = true) → Forall P l →
  StronglySorted (λ x y, le x y = true) (sort_by le l).
Proof.
  intros total. induction l as [|x l IH]; intros HP; simpl; [constructor|].
  inversion HP as [|? ? Px Pl]; subst. specialize (IH Pl).
  assert (Forall P (sort_by le l)) as PS by (by rewrite sort_by_perm).
  induction IH as [|y s Ss IHs Hy]; simpl; [by repeat constructor|].
  inversion PS as [|? ? Py Ps]; subst. destruct (le x y) eqn:E.
  - constructor; [by constructor|]. constructor; [done|].
    eapply Forall_impl; [exact Hy|]. intros z Hz. by eapply le_trans.
  - constructor; [by apply IHs|]. rewrite insert_by_perm. constructor; [|done].
    destruct (total x y Px Py); congruence.
Qed.

(** Equal elements keep their order: the part of the input that one element
    can stand before and after is unchanged. *)
Lemma sort_by_stable (P : A → bool) l :
  (∀ x y, P x = true → P y = true → le x y = true) → List.filter P (sort_by le l) = List.filter P l.
Proof.
  intros HP. induction l as [|x l IH]; simpl; [done|]. rewrite <-IH. clear IH.
  destruct (P x) eqn:Px; induction (sort_by le l) as [|y s IHs]; simpl; rewrite ?Px; try done;
    destruct (le x y) eqn:E; simpl; rewrite ?Px; try done; destruct (P y) eqn:Py; rewrite ?IHs; try done.
  by rewrite (HP x y Px Py) in E.
Qed.
End sort_by.

(** *** What validation establishes *)

Lemma check_all_Ok {A} (f : A → result ()) l : check_all f l = Ok () ↔ Forall (λ x, f x = Ok ()) l.
Proof.
  induction l as [|x l IH]; simpl; [by split; [constructor|]|]. rewrite Forall_cons, <-IH.
  destruct (f x) as [[]|]; naive_solver.
Qed.

Lemma models_validate_Ok ids models ids' :
  models_validate ids models = Ok ids' → NoDup ids →
  NoDup ids' ∧ ids' ≡ₚ map pmd_id models ++ ids ∧ Forall (λ m, model_validate m = Ok ()) models.
Proof.
  revert ids. induction models as [|m models IH]; intros ids; simpl; [intros [= ->]; auto|].
  destruct (model_validate m) as [[]|] eqn:Em; [|done]. destruct (bool_decide _) eqn:Eb; [done|]. to_prop.
  intros E Hn. destruct (IH _ E) as (Hn' & Hp & Hf); [by constructor|].
  split; [done|]. split; [|by constructor]. rewrite Hp. by rewrite Permutation_middle.
Qed.

Lemma subset_validate_Ok ids seen subset :
  subset_validate ids seen subset = Ok () →
  NoDup subset ∧ subset ⊆ ids ∧ (∀ id, id ∈ subset → id ∉ seen).
Proof.
  revert seen. induction subset as [|id subset IH]; intros seen; simpl.
  { intros _. split; [constructor|]. split; [by intros x ?%elem_of_nil|]. by intros id ?%elem_of_nil. }
  intros E. run_code E. destruct (IH _ E) as (Hn & Hs & Hd). split; [|split].
  - constructor; [|done]. intros Hin. apply (Hd id Hin). left.
  - intros x [->|Hx]%elem_of_cons; [done|by apply Hs].
  - intros x [->|Hx]%elem_of_cons; [done|]. specialize (Hd x Hx). set_solver.
Qed.

(** A binding of a validated definition. *)
Record binding_ok (ordered : bool) (model_ids : list string) (b : ProviderBinding) : Prop := {
  bo_override : ∀ c, pb_connection b = Some c → ordered = true ∧ c = Native;
  bo_subset : ∀ subset, pb_models b = Some subset → NoDup subset ∧ subset ⊆ model_ids;
}.

Lemma bindings_validate_Ok ordered ids labels accounts bindings :
  bindings_validate ordered ids labels accounts bindings = Ok () →
  NoDup (map pb_label bindings) ∧ (∀ b, b ∈ bindings → pb_label b ∉ labels) ∧
  (ordered = true → NoDup (map pb_account bindings) ∧ ∀ b, b ∈ bindings → pb_account b ∉ accounts) ∧
  Forall (binding_ok ordered ids) bindings.
Proof.
  revert labels accounts. induction bindings as [|b bindings IH]; intros labels accounts; simpl.
  { intros _. split; [apply NoDup_nil_2|]. split; [by intros ? ?%elem_of_nil|]. split; [|apply Forall_nil_2].
    intros _. split; [apply NoDup_nil_2|]. by intros ? ?%elem_of_nil. }
  intros E. destruct (bool_decide (pb_label b ∈ labels)) eqn:El; [done|].
  destruct (is_some_and _ _) eqn:Ec; [done|]. destruct (ordered && _) eqn:Ea; [done|].
  destruct (check_opt _ _) as [[]|] eqn:Es; [|done]. to_prop.
  destruct (IH _ _ E) as (Hn & Hl & Ha & Hb). split; [|split; [|split]].
  - constructor; [|done]. intros (x & Ex & Hx)%list_elem_of_fmap. apply (Hl x Hx). rewrite <-Ex. left.
  - intros x [->|Hx]%elem_of_cons; [done|]. specialize (Hl x Hx). set_solver.
  - intros ->. simpl in Ea. to_prop. destruct (Ha eq_refl) as [Hna Hda]. split.
    + constructor; [|done]. intros (x & Ex & Hx)%list_elem_of_fmap. apply (Hda x Hx). rewrite <-Ex. left.
    + intros x [->|Hx]%elem_of_cons; [done|]. specialize (Hda x Hx). set_solver.
  - constructor; [|done]. split.
    + intros c Hc. rewrite Hc in Ec. simpl in Ec. to_prop. done.
    + intros subset Hs. rewrite Hs in Es. simpl in Es. by apply subset_validate_Ok in Es as (? & ? & _).
Qed.

(** A validated provider. *)
Record provider_ok `{UrlParser} (d : ProviderDefinition) : Prop := {
  po_models : df_models d ≠ [] ∧ NoDup (map pmd_id (df_models d));
  po_labels : NoDup (map pb_label (df_bindings d));
  po_family : df_auth_family d = family_of (df_harness d);
  po_connection : connection_validate (df_connection d) (df_harness d) = Ok ();
  po_ordered : df_ordered_accounts d = true →
    df_harness d = ClaudeCode ∧ df_limits_source d = NoLimits ∧ NoDup (map pb_account (df_bindings d));
  po_bindings : Forall (binding_ok (df_ordered_accounts d) (map pmd_id (df_models d))) (df_bindings d);
}.

Lemma definition_validate_Ok `{UrlParser} d : definition_validate d = Ok () → provider_ok d.
Proof.
  unfold definition_validate. intros E. walk E. to_prop.
  rename select (models_validate _ _ = _) into Em. apply models_validate_Ok in Em as (Hn & Hp & _); [|constructor].
  rewrite app_nil_r in Hp. destruct (bindings_validate_Ok _ _ _ _ _ E) as (Hl & _ & Ha & Hb).
  split; [by rewrite <-Hp|done|done|by match goal with u : () |- _ => destruct u end| |].
  - intros Ho. rewrite Ho in *. simpl in *. to_prop. split; [done|]. split; [done|by apply Ha].
  - eapply Forall_impl; [exact Hb|]. intros b [Ho Hs]. split; [done|]. intros subset Hsub.
    destruct (Hs subset Hsub) as [? Hin]. split; [done|]. intros x Hx. rewrite <-Hp. by apply Hin.
Qed.

Definition storage_of (a : AccountRecord) : string * string := (acr_family a, acr_secret a).

Lemma register_all_Ok storage registry accounts r :
  register_all storage registry accounts = Ok r →
  (∀ a, a ∈ registry → storage_of a ∈ storage) → NoDup (map storage_of registry) →
  NoDup (map acr_id registry) →
  r = registry ++ accounts ∧ NoDup (map storage_of r) ∧ NoDup (map acr_id r).
Proof.
  revert storage registry. induction accounts as [|a accounts IH]; intros storage registry; simpl.
  { intros [= ->] _ ? ?. by rewrite app_nil_r. }
  destruct (bool_decide _) eqn:Es; [done|]. destruct (existsb _ _) eqn:Ei; [done|]. to_prop.
  intros E Hst Hs Hi. destruct (IH _ _ E) as (Er & ? & ?); [..|rewrite <-app_assoc in Er; by subst r].
  - intros x [Hx| ->%list_elem_of_singleton]%elem_of_app; [right; by apply Hst|left].
  - rewrite map_app. apply NoDup_app. split; [done|]. split; [|apply NoDup_singleton].
    intros x (y & -> & Hy)%list_elem_of_fmap Ex%list_elem_of_singleton. apply Es.
    change (storage_of a ∈ storage). rewrite <-Ex. by apply Hst.
  - rewrite map_app. apply NoDup_app. split; [done|]. split; [|apply NoDup_singleton].
    intros x (y & -> & Hy)%list_elem_of_fmap Ex%list_elem_of_singleton.
    assert (existsb (λ x, bool_decide (acr_id x = acr_id a)) registry = true) as Et; [|congruence].
    apply existsb_exists. exists y. split; [by apply list_elem_of_In|]. by apply bool_decide_eq_true.
Qed.

Lemma account_in_elem registry a :
  NoDup (map acr_id registry) → a ∈ registry → account_in registry (acr_id a) = Some a.
Proof. apply first_where_key. Qed.

(** A lookup by id does not depend on the order of the registry. *)
Lemma account_in_perm l l' id : NoDup (map acr_id l) → l ≡ₚ l' → account_in l id = account_in l' id.
Proof.
  intros Hn Hp. assert (NoDup (map acr_id l')) as Hn' by (by rewrite <-Hp).
  destruct (account_in l id) as [a|] eqn:E.
  - apply first_where_Some in E as [<- Ha]. symmetry. apply account_in_elem; [done|by rewrite <-Hp].
  - symmetry. unfold account_in in *. rewrite first_where_None in E |- *. intros x Hx. apply E. by rewrite Hp.
Qed.

Lemma providers_validate_Ok `{UrlParser} registry ids providers :
  providers_validate registry ids providers = Ok () →
  NoDup (map df_id providers) ∧ (∀ d, d ∈ providers → df_id d ∉ ids) ∧
  Forall (λ d, provider_ok d ∧ Forall (λ b, binding_registered registry d b = Ok ()) (df_bindings d)) providers.
Proof.
  revert ids. induction providers as [|d providers IH]; intros ids; simpl.
  { intros _. split; [apply NoDup_nil_2|]. split; [by intros ? ?%elem_of_nil|apply Forall_nil_2]. }
  destruct (definition_validate d) as [[]|] eqn:Ed; [|done]. destruct (bool_decide _) eqn:Ei; [done|].
  destruct (check_all _ _) as [[]|] eqn:Eb; [|done]. to_prop. intros E.
  destruct (IH _ E) as (Hn & Hi & Hf). split; [|split].
  - constructor; [|done]. intros (x & Ex & Hx)%list_elem_of_fmap. apply (Hi x Hx). rewrite <-Ex. left.
  - intros x [->|Hx]%elem_of_cons; [done|]. specialize (Hi x Hx). set_solver.
  - constructor; [|done]. split; [by apply definition_validate_Ok|by apply check_all_Ok].
Qed.

(** A catalog as admission may rely on it. *)
Record catalog_ok `{UrlParser} (c : ProviderCatalog) : Prop := {
  co_accounts : NoDup (map acr_id (pc_accounts c));
  co_storage : NoDup (map storage_of (pc_accounts c));
  co_providers : NoDup (map df_id (pc_providers c));
  co_definitions : Forall provider_ok (pc_providers c);
  co_bindings : ∀ d b, d ∈ pc_providers c → b ∈ df_bindings d →
    ∃ a, catalog_account c (pb_account b) = Some a ∧ acr_family a = family_of (df_harness d);
}.

(** C20: Construction is the validation boundary of the catalog.  A catalog
    that was constructed has distinct accounts, credential stores and
    providers, valid definitions (distinct models and labels, subsets of the
    offered models, overrides only for ordered providers), and every binding
    resolves to a registered account of the family of the provider's harness;
    it holds exactly the given accounts and providers; and an account can be
    leased for a model exactly if its provider offers the model through a
    binding of the account and the account is enabled. *)
Theorem catalog_sound `{UrlParser} accounts providers c :
  catalog_new accounts providers = Ok c →
  catalog_ok c ∧ pc_accounts c ≡ₚ accounts ∧ pc_providers c = providers ∧
  ∀ provider model account cred,
    from_selected c provider model account = Ok cred ↔
    ∃ d b a, d ∈ providers ∧ df_id d = provider ∧ offers d model = true ∧
      b ∈ df_bindings d ∧ pb_account b = account ∧ serves model b = true ∧
      a ∈ accounts ∧ acr_id a = account ∧ acr_status a = Enabled ∧
      cred = mk_credentials account (acr_secret a).
Proof.
  unfold catalog_new. intros E. destruct (register_all _ _ _) as [registry|] eqn:Er; [|done].
  destruct (providers_validate _ _ _) as [[]|] eqn:Ep; [|done]. injection E as <-. cbn [pc_accounts pc_providers].
  destruct (register_all_Ok _ _ _ _ Er) as (E & Hst & Hid);
    [by intros ? ?%elem_of_nil|apply NoDup_nil_2..|]. simpl in E. subst registry.
  destruct (providers_validate_Ok _ _ _ Ep) as (Hn & _ & Hf). rewrite Forall_forall in Hf.
  set (sorted := sort_by _ accounts). assert (sorted ≡ₚ accounts) as Hp by apply sort_by_perm.
  assert (∀ id, account_in sorted id = account_in accounts id) as Hin.
  { intros id. apply account_in_perm; [by rewrite Hp|done]. }
  assert (∀ d b, d ∈ providers → b ∈ df_bindings d →
            ∃ a, account_in accounts (pb_account b) = Some a ∧ acr_family a = df_auth_family d) as Hb.
  { intros d b Hd Hb. destruct (Hf d Hd) as [_ Hr]. rewrite Forall_forall in Hr. specialize (Hr b Hb).
    unfold binding_registered in Hr. destruct (account_in accounts _) as [a|]; [|done]. simpl in Hr.
    destruct (negb _) eqn:En; [done|]. to_prop. eauto. }
  split; [|split; [done|split; [done|]]].
  - split; cbn [pc_accounts pc_providers]; [by rewrite Hp|by rewrite Hp|done| |].
    + apply Forall_forall. intros d Hd. by destruct (Hf d Hd).
    + intros d b Hd Hbd. unfold catalog_account. cbn [pc_accounts]. rewrite Hin.
      destruct (Hb d b Hd Hbd) as (a & -> & Ea). exists a. split; [done|].
      rewrite Ea. apply (po_family _ (proj1 (Hf d Hd))).
  - intros provider model account cred. unfold from_selected, catalog_provider, catalog_account. cbn [pc_accounts pc_providers].
    rewrite Hin. split.
    + intros E. destruct (first_where _ _) as [d|] eqn:Ed; [|done]. apply first_where_Some in Ed as [Hd1 Hd2]. simpl in E.
      destruct (_ || _) eqn:Eo; [done|]. to_prop. destruct (account_in _ _) as [a|] eqn:Ea; [|done]. simpl in E.
      destruct (negb (bool_decide (acr_status a = Enabled)) || _) eqn:Es; [done|]. to_prop. injection E as <-.
      rename select (existsb _ _ = true) into Hex. apply existsb_exists in Hex as (b & Hb1%list_elem_of_In & Hb2).
      to_prop. apply first_where_Some in Ea as [Ea1 Ea2]. exists d, b, a. by split_and!.
    + intros (d & b & a & Hd & <- & Ho & Hbd & <- & Hs & Ha & Ea & Hen & ->).
      rewrite (first_where_key df_id _ _ Hn Hd). simpl. rewrite Ho.
      assert (existsb (λ b0, bool_decide (pb_account b0 = pb_account b) && serves model b0) (df_bindings d) = true) as ->.
      { apply existsb_exists. exists b. split; [by apply list_elem_of_In|]. by rewrite bool_decide_true. }
      rewrite <-Ea, (account_in_elem accounts a Hid Ha). simpl. rewrite Hen.
      destruct (Hb d b Hd Hbd) as (a' & Ea' & Ef). rewrite <-Ea, (account_in_elem accounts a Hid Ha) in Ea'.
      injection Ea' as <-. by rewrite Ef, !bool_decide_true.
Qed.

(** Model-bound bindings come in descending weight, equal weights in the
    declared order. *)
Lemma ordered_bindings_order d model :
  Forall (λ b, is_finite (pb_multiplier b) = true) (df_bindings d) → offers d model = true →
  ordered_bindings d model ≡ₚ List.filter (serves model) (df_bindings d) ∧
  StronglySorted (λ a b, fle (pb_multiplier b) (pb_multiplier a) = true) (ordered_bindings d model) ∧
  ∀ w, is_nan w = false →
    List.filter (λ b, bool_decide (pb_multiplier b = w)) (ordered_bindings d model) =
    List.filter (λ b, bool_decide (pb_multiplier b = w)) (List.filter (serves model) (df_bindings d)).
Proof.
  intros Hfin Ho. unfold ordered_bindings. rewrite Ho. split; [apply sort_by_perm|]. split.
  - apply (sort_by_sorted heavier (λ x y z Hxy Hyz, fle_trans _ _ _ Hyz Hxy)
             (λ b, is_nan (pb_multiplier b) = false)).
    + intros x y Hx Hy. by apply fle_total.
    + rewrite Forall_forall in Hfin |- *. intros b [Hb _]%list_elem_of_In%filter_In.
      by apply is_finite_not_nan, Hfin, list_elem_of_In.
  - intros w Hw. apply sort_by_stable. unfold heavier. intros x y Hx Hy. to_prop. rewrite Hx, Hy.
    by destruct (fle_total w w Hw Hw).
Qed.

(** ** A concrete catalog *)

(** A parser for plain [https] endpoints. *)
#[export] Instance demo_url : UrlParser :=
  {| url_parse := λ s, option_map (λ host, mk_url "https" (Some host) "" None None) (strip_prefix "https://" s) |}.

Definition demo_model : ProviderModel := mk_model "glm-5" None [] [] [] [].

(** Two bindings in preference order. *)
Definition demo_provider : ProviderDefinition :=
  mk_definition "glm" ClaudeCode (Custom "https://gateway" Messages Bearer false) "anthropic" [] (of_Z 1)
    NoLimits None [demo_model]
    [mk_binding "first" "acct-1" None None (of_Z 2); mk_binding "second" "acct-2" None None (of_Z 1)] true.

Definition demo_accounts : list AccountRecord :=
  [mk_account_record "acct-2" "anthropic" "env:KEY_TWO" Enabled;
   mk_account_record "acct-1" "anthropic" "env:KEY_ONE" Enabled].

Definition demo_catalog : ProviderCatalog := mk_catalog (reverse demo_accounts) [demo_provider].

Lemma catalog_sound_witness :
  catalog_ok demo_catalog ∧
  from_selected demo_catalog "glm" "glm-5" "acct-2" = Ok (mk_credentials "acct-2" "env:KEY_TWO").
Proof.
  destruct (catalog_sound demo_accounts [demo_provider] demo_catalog) as (Hc & _ & _ & Hs); [by vm_compute|].
  split; [exact Hc|]. apply Hs. eexists _, (mk_binding "second" "acct-2" None None (of_Z 1)), _.
  split; [left|]. split; [reflexivity|]. split; [reflexivity|]. split; [right; left|].
  split; [reflexivity|]. split; [reflexivity|]. split; [left|]. by split_and!.
Defined.
