(* ===== verification/LaunchIdentity.v ===== *)
(** * The frozen launch identity

    What an admission freezes into [identity_json]: the provider request, the
    launch authority and the configuration they came from, as [serde] writes
    them, and the checks of [provider_admission.rs] that tie these documents
    together.  The decoders [serde] derives are a parameter: of them the code
    relies on reading back what was written. *)

From S2P Require Import Prelude Text Float64 Json Canonical Requests PoolDomain ProviderCatalog.
From S2P Require Import Evidence.

(** ** Serialized types *)

Definition constraint_str (c : Constraint) : string :=
  match c with
  | WebToolsDisabled => "web_tools_disabled"
  | ExternalNetworkIsolation => "external_network_isolation"
  | LoopbackTcpIsolation => "loopback_tcp_isolation"
  | UnixIpcIsolation => "unix_ipc_isolation"
  | McpIpcIsolation => "mcp_ipc_isolation"
  | FilesystemWriteIsolation => "filesystem_write_isolation"
  | FilesystemReadIsolation => "filesystem_read_isolation"
  | PluginImmutability => "plugin_immutability"
  | ResearchToolsOnly => "research_tools_only"
  end.

Definition ping_str (p : PingPolicy) : string :=
  match p with POff => "off" | PObserve => "observe" | PRecover => "recover" end.

Definition texts (l : list string) : Value := Arr (map Str l).

(** A field of an object. *)
Definition fld (key : string) (v : Value) : string * Value := (key, v).

(** A field with [skip_serializing_if]. *)
Definition field_if (b : bool) (key : string) (v : Value) : list (string * Value) :=
  if b then [(key, v)] else [].

Definition connection_json (c : ProviderConnection) : Value :=
  match c with
  | Native => Obj [fld "kind" (Str "native")]
  | Custom endpoint protocol auth_header allow =>
      Obj [fld "allow_loopback_http" (Bool allow);
           fld "auth_header" (Str (match auth_header with Bearer => "bearer" | XApiKey => "x_api_key" end));
           fld "endpoint" (Str endpoint); fld "kind" (Str "custom");
           fld "protocol" (Str (match protocol with Responses => "responses" | Messages => "messages" end))]
  end.

(** [ResolvedLaunchAuthority]. *)
Definition authority_value (a : ResolvedLaunchAuthority) : Value :=
  Obj [fld "assets_sha256" (Str (au_assets_sha256 a)); fld "connection" (connection_json (au_connection a));
       fld "effort" (opt_value Str (au_effort a)); fld "eligible_accounts" (texts (au_eligible_accounts a));
       fld "harness" (Str (harness_str (au_harness a))); fld "model" (Str (au_model a));
       fld "profile" (Str (au_profile a)); fld "provider" (Str (au_provider a));
       fld "role_payload" (au_role_payload a); fld "workdir" (Str (au_workdir a))].

Definition orchestrator_json (r : OrchestratorRef) : Value :=
  Obj [fld "external_session_id" (Str (external_session_id r));
       fld "external_turn_id" (opt_value Str (external_turn_id r)); fld "transport" (Str (transport r))].

(** [ProviderStartRequest]. *)
Definition request_value (p : ProviderStartRequest) : Value :=
  Obj ([fld "account" (opt_value Str (ps_account p))]
       ++ field_if (is_some (ps_display_name p)) "display_name" (opt_value Str (ps_display_name p))
       ++ [fld "effort" (opt_value Str (ps_effort p)); fld "explicit_finish" (Bool (ps_explicit_finish p));
           fld "fast" (Bool (ps_fast p))]
       ++ field_if (negb (bool_decide (ps_idle_ping p = PObserve))) "idle_ping" (Str (ping_str (ps_idle_ping p)))
       ++ [fld "model" (Str (ps_model p)); fld "orchestrator" (opt_value orchestrator_json (ps_orchestrator p));
           fld "output_schema" (opt_value Obj (ps_output_schema p)); fld "profile" (Str (ps_profile p));
           fld "provider" (Str (ps_provider p)); fld "read_roots" (texts (ps_read_roots p));
           fld "request_id" (opt_value Str (ps_request_id p));
           fld "required_constraints" (texts (map constraint_str (ps_required_constraints p)))]
       ++ field_if (negb (bool_decide (ps_required_mcp p = []))) "required_mcp"
            (Obj (map (λ '(server, tools), (server, texts tools)) (ps_required_mcp p)))
       ++ [fld "task" (Str (ps_task p)); fld "workdir" (Str (ps_workdir p)); fld "write" (Bool (ps_write p))]).

(** [ProviderModel]. *)
Definition model_value (m : ProviderModel) : Value :=
  Obj [fld "allowed_params" (Obj (map (λ '(key, values), (key, texts values)) (pmd_allowed_params m)));
       fld "id" (Str (pmd_id m)); fld "native_model" (opt_value Str (pmd_native_model m));
       fld "params" (Obj (map (λ '(key, value), (key, Str value)) (pmd_params m)));
       fld "recommendations" (texts (pmd_recommendations m));
       fld "restrictions" (texts (map constraint_str (pmd_restrictions m)))].

(** [ProviderBinding]. *)
Definition binding_value (b : ProviderBinding) : Value :=
  Obj ([fld "account" (Str (pb_account b))]
       ++ field_if (is_some (pb_connection b)) "connection" (opt_value connection_json (pb_connection b))
       ++ [fld "label" (Str (pb_label b)); fld "models" (opt_value texts (pb_models b));
           fld "priority_multiplier" (Num (Float (pb_multiplier b)))]).

(** Entries in key order. *)
Definition json_key_le (x y : string * Value) : bool := bool_decide (String.le (fst x) (fst y)).

(** [CollectorBinding]; the legacy fields are flattened into it. *)
Definition collector_value (c : CollectorBinding) : Value :=
  Obj (sort_by json_key_le
         (field_if (negb (bool_decide (cb_args c = []))) "args" (texts (cb_args c))
          ++ field_if (negb (is_empty (cb_command c))) "command" (Str (cb_command c))
          ++ field_if (negb (bool_decide (cb_env_from c = []))) "env_from" (texts (cb_env_from c))
          ++ field_if (negb (bool_decide (cb_exhaustion_windows c = []))) "exhaustion_windows"
               (Obj (map (λ '(window, pool), (window, Str pool)) (cb_exhaustion_windows c)))
          ++ field_if (negb (is_empty (cb_source c))) "source" (Str (cb_source c))
          ++ field_if (negb (cb_timeout_seconds c =? 30)) "timeout_seconds" (num (cb_timeout_seconds c))
          ++ cb_legacy c)).

Definition limits_str (l : LimitsSource) : string :=
  match l with CodexAppserver => "codex_appserver" | Lua => "lua" | Exec => "exec" | NoLimits => "none" end.

(** [ProviderDefinition] without its [id]. *)
Definition definition_value (d : ProviderDefinition) : Value :=
  Obj ([fld "auth_family" (Str (df_auth_family d)); fld "bindings" (Arr (map binding_value (df_bindings d)));
        fld "collector" (opt_value collector_value (df_collector d));
        fld "connection" (connection_json (df_connection d)); fld "harness" (Str (harness_str (df_harness d)));
        fld "limits_source" (Str (limits_str (df_limits_source d)));
        fld "models" (Arr (map model_value (df_models d)))]
       ++ field_if (df_ordered_accounts d) "ordered_accounts" (Bool true)
       ++ [fld "priority_multiplier" (Num (Float (df_priority_multiplier d)));
           fld "recommendations" (texts (df_recommendations d))]).

(** ** Reading back *)

(** The authority as its Rust type admits it: identities are parsed ones. *)
Record authority_typed (a : ResolvedLaunchAuthority) : Prop := {
  aty_provider : provider_id_from_str (au_provider a) = Ok (au_provider a);
  aty_assets : sha256_digest_from_str (au_assets_sha256 a) = Ok (au_assets_sha256 a);
  aty_accounts : Forall (λ account, account_id_from_str account = Ok account) (au_eligible_accounts a);
}.

(** [serde_json::from_value] of the frozen documents. *)
Class LaunchSerde := {
  authority_from_value : Value → option ResolvedLaunchAuthority;
  authority_reads_back : ∀ a, authority_typed a → authority_from_value (authority_value a) = Some a;
  request_from_value : Value → option ProviderStartRequest;
  connection_from_value : Value → option ProviderConnection;
  bindings_from_value : Value → option (list ProviderBinding);
}.

(** ** The configuration snapshot *)

Definition obj_keys (v : Value) : option (list string) :=
  match v with Obj m => Some (map fst m) | _ => None end.

(** [provider_config.rs] [snapshot_document]. *)
Definition snapshot_document `{Sha256} (document : Value) : result Value :=
  let? harnesses := ok_or (invalid "serialized harness configuration is malformed")
                      (obj_keys (json_index "harnesses" document)) in
  let? providers := ok_or (invalid "serialized provider configuration is malformed")
                      (obj_keys (json_index "providers" document)) in
  Ok (Obj [fld "harnesses" (texts harnesses); fld "providers" (texts providers);
           fld "schema_version" (num 2); fld "sha256" (Str (sha256_hex document true))]).

(** [check_ordered_snapshot]. *)
Definition check_ordered_snapshot `{Sha256} (identity : Value) (definition : ProviderDefinition) : result () :=
  let document := json_get "provider_config" identity in
  let frozen :=
    match document with
    | Some document =>
        match json_get "providers" document with
        | Some providers => json_get (df_id definition) providers
        | None => None
        end
    | None => None
    end in
  let? ordered :=
    match (match frozen with Some provider => json_get "ordered_accounts" provider | None => None end) with
    | Some (Bool ordered) => Ok ordered
    | None => Ok false
    | Some _ => Err (Integrity "frozen account ordering is malformed")
    end in
  if negb ordered && negb (df_ordered_accounts definition) then Ok ()
  else
    let? document := ok_or (Integrity "frozen provider config is missing") document in
    let? same :=
      if negb ordered || negb (df_ordered_accounts definition) then Ok false
      else
        match snapshot_document document with
        | Ok snapshot => Ok (bool_decide (snapshot = json_index "provider_config_snapshot" identity))
        | Err _ => Err (Integrity "frozen provider config is malformed")
        end in
    fail? negb same with Integrity "frozen provider ordering changed";
    fail? negb (bool_decide (frozen = Some (definition_value definition))) with
      Integrity "provider differs from frozen ordering";
    Ok ().

(** ** The inputs of an admission *)

Record AdmissionInputs := mk_inputs {
  in_request : ProviderStartRequest;
  in_effective : StartRequest;
  in_authority : ResolvedLaunchAuthority;
  in_candidates : QuotaCandidateSet;
  in_identity : Value;
  in_global_cap : Z;
  in_harness_cap : option Z;
  in_pinned : option string;
}.

(** [PathBuf] equality. *)
Definition path_eq (p q : string) : bool :=
  bool_decide (is_absolute p = is_absolute q ∧ components p = components q).

(** The digest a replay of the request is recognized by. *)
Definition request_digest `{Sha256} (p : ProviderStartRequest) : string := sha256_hex (request_value p) true.

(** The long test of [admit_in_tx]: the inputs agree with each other, with the
    definition and with the frozen identity. *)
Definition inputs_agree `{Sha256} (i : AdmissionInputs) (definition : ProviderDefinition) : bool :=
  let request := in_request i in
  let effective := in_effective i in
  let authority := in_authority i in
  let candidates := in_candidates i in
  let identity := in_identity i in
  bool_decide (qs_provider candidates = ps_provider request)
  && bool_decide (qs_model candidates = ps_model request)
  && bool_decide (au_provider authority = ps_provider request)
  && bool_decide (au_model authority = ps_model request)
  && bool_decide (au_harness authority = df_harness definition)
  && bool_decide (au_connection authority = df_connection definition)
  && bool_decide (au_profile authority = ps_profile request)
  && path_eq (au_workdir authority) (sq_workdir effective)
  && bool_decide (sq_runtime effective = ps_provider request)
  && bool_decide (sq_model effective = ps_model request)
  && bool_decide (sq_task effective = ps_task request)
  && bool_decide (sq_display_name effective = ps_display_name request)
  && negb (in_global_cap i =? 0)
  && negb (bool_decide (in_harness_cap i = Some 0))
  && bool_decide (json_index "provider_identity_version" identity = num 2)
  && bool_decide (json_index "provider_request" identity = request_value request)
  && bool_decide (json_index "authority" identity = authority_value authority)
  && bool_decide (json_index "replay_request_sha256" identity = Str (request_digest request))
  && match qs_intent candidates, in_pinned i with
     | Auto, None => true
     | Pinned id, Some account => bool_decide (id = account)
     | _, _ => false
     end.
