(* ===== verification/ProviderAdmit.v ===== *)
(** * Admitting one execution

    The account registry ([accounts.rs]), the choice of an account and the
    admission of one provider execution ([provider_admission.rs], with the
    parts of [admission.rs] and [lineage.rs] it calls).  [admit_in_tx] runs in
    its caller's transaction; the instance at the end is what the pool
    transactions are proved against. *)

From S2P Require Import Prelude Text Float64 Json Canonical Lifecycle Requests PoolDomain.
From S2P Require Import ProviderCatalog Tables Roster World WorkerStore Sessions ServiceRestart.
From S2P Require Import PoolReplace Evidence LaunchIdentity Restart.

(** ** The tables of launches *)

Definition set_launches (x : list LaunchRow) (t : LaunchTables) : LaunchTables :=
  mk_launch_tables x (lt_evidence t) (lt_accounts t) (lt_keys t) (lt_cooldowns t) (lt_gates t)
    (lt_leases t) (lt_prepared_homes t).
Definition set_attempt_evidence (x : list LaunchEvidenceRow) (t : LaunchTables) : LaunchTables :=
  mk_launch_tables (lt_launches t) x (lt_accounts t) (lt_keys t) (lt_cooldowns t) (lt_gates t)
    (lt_leases t) (lt_prepared_homes t).
Definition set_accounts (x : list AccountRow) (t : LaunchTables) : LaunchTables :=
  mk_launch_tables (lt_launches t) (lt_evidence t) x (lt_keys t) (lt_cooldowns t) (lt_gates t)
    (lt_leases t) (lt_prepared_homes t).
Definition set_keys (x : list QuotaKeyRow) (t : LaunchTables) : LaunchTables :=
  mk_launch_tables (lt_launches t) (lt_evidence t) (lt_accounts t) x (lt_cooldowns t) (lt_gates t)
    (lt_leases t) (lt_prepared_homes t).
Definition set_cooldowns (x : list CooldownRow) (t : LaunchTables) : LaunchTables :=
  mk_launch_tables (lt_launches t) (lt_evidence t) (lt_accounts t) (lt_keys t) x (lt_gates t)
    (lt_leases t) (lt_prepared_homes t).
Definition set_gates (x : list GateRow) (t : LaunchTables) : LaunchTables :=
  mk_launch_tables (lt_launches t) (lt_evidence t) (lt_accounts t) (lt_keys t) (lt_cooldowns t) x
    (lt_leases t) (lt_prepared_homes t).

(** Changing one of them. *)
Definition on_launch (f : LaunchTables → LaunchTables) (db : Db) : Db := set_launch (f (db_launch db)) db.

Definition launches (db : Db) : list LaunchRow := lt_launches (db_launch db).
Definition attempt_evidence (db : Db) : list LaunchEvidenceRow := lt_evidence (db_launch db).
Definition accounts (db : Db) : list AccountRow := lt_accounts (db_launch db).
Definition quota_keys (db : Db) : list QuotaKeyRow := lt_keys (db_launch db).
Definition cooldowns (db : Db) : list CooldownRow := lt_cooldowns (db_launch db).

(** ** The account registry, [accounts.rs] *)

(** [account_record]. *)
Definition account_record (row : AccountRow) : result AccountRecord :=
  let? id := account_id_from_str (ar_id row) in
  let? family := auth_family_from_str (ar_family row) in
  let? secret := secret_ref_from_str (ar_secret row) in
  Ok (mk_account_record id family secret (if ar_enabled row then Enabled else Disabled)).

(** [list_at]. *)
Definition list_accounts (db : Db) : result (list AccountRecord) :=
  traverse account_record (sort_by (λ a b, bool_decide (String.le (ar_id a) (ar_id b))) (accounts db)).

(** [Store::account]. *)
Definition store_account (db : Db) (id : string) : result (option AccountRecord) :=
  match first_where (λ a, ar_id a = id) (accounts db) with
  | Some row => let? r := account_record row in Ok (Some r)
  | None => Ok None
  end.

(** [Store::register_account]. *)
Definition register_account (db : Db) (record : AccountRecord) : result Db :=
  let? reference := credential_from_secret (acr_secret record) in
  fail? negb (matches_family reference (acr_family record)) with
    invalid "native credential family does not match account";
  fail? exists_where
          (λ a, ar_id a = acr_id record
                ∨ (ar_family a = acr_family record ∧ ar_secret a = acr_secret record)) (accounts db) with
    invalid "account id or credential reference is already registered";
  advance_capacity
    (on_launch
       (set_accounts (accounts db ++ [mk_account (acr_id record) (acr_family record) (acr_secret record)
                                        (bool_decide (acr_status record = Enabled))])) db).

Definition disabled (a : AccountRow) : AccountRow := mk_account (ar_id a) (ar_family a) (ar_secret a) false.

(** [Store::disable_account]. *)
Definition disable_account (db : Db) (id : string) : result Db :=
  fail? negb (exists_where (λ a, ar_id a = id) (accounts db)) with invalid "account is not registered";
  advance_capacity (on_launch (set_accounts (update_where (λ a, ar_id a = id) disabled (accounts db))) db).

(** ** Choosing an account *)

(** [(x.ceil() as u64)]. *)
Definition ceil_u64 (x : f64) : Z :=
  match x with
  | S754_finite false m e =>
      Z.min (2 ^ 64 - 1) (if 0 <=? e then Z.pos m * 2 ^ e else (Z.pos m + 2 ^ (- e) - 1) / 2 ^ (- e))
  | S754_infinity false => 2 ^ 64 - 1
  | _ => 0
  end.

(** [binding_cooldown]. *)
Definition binding_cooldown (db : Db) (provider account : string) (at_ : f64)
  : result (option (BindingCooldownReason * Z)) :=
  fail? negb (is_finite at_) || flt at_ (of_Z 0) with invalid "invalid binding cooldown time";
  match first_where (λ c, bc_provider c = provider ∧ bc_account c = account ∧
                          flt at_ (bc_blocked_until c) = true) (cooldowns db) with
  | None => Ok None
  | Some c =>
      fail? negb (is_finite (bc_blocked_until c)) with Integrity "binding cooldown is malformed";
      Ok (Some (bc_reason c, Z.max (ceil_u64 (fsub (bc_blocked_until c) at_)) 1))
  end.

(** [active_attempt_counts_in] for one account. *)
Definition active_attempts (db : Db) (account : string) : Z :=
  count_where (λ t, at_account t = Some account ∧ at_owned t = true) (db_attempts db).

(** [active_reservation_counts_in] for one key. *)
Definition active_reservations (db : Db) (key : string) : Z :=
  count_where
    (λ k, qk_key k = key ∧
          exists_where (λ t, at_id t = qk_attempt k ∧ at_owned t = true) (db_attempts db) = true)
    (quota_keys db).

(** [active.max(reserved.values().copied().max().unwrap_or(0))]. *)
Definition candidate_load (db : Db) (c : QuotaCandidate) : Z :=
  foldr Z.max (active_attempts db (qc_account c)) (map (active_reservations db) (qc_physical_keys c)).

(** [(kept, rank, load, account)] in the order of tuples. *)
Definition Key : Type := bool * Z * Z * string.
Definition key_lt (x y : Key) : bool :=
  match x, y with
  | (k1, r1, l1, a1), (k2, r2, l2, a2) =>
      if bool_decide (k1 = k2) then
        if r1 =? r2 then
          if l1 =? l2 then bool_decide (String.le a1 a2 ∧ a1 ≠ a2) else l1 <? l2
        else r1 <? r2
      else negb k1
  end.

(** What the loop of [choose] makes of one candidate. *)
Inductive Considered :=
  | Skipped
  | Cooling (reason : BindingCooldownReason) (seconds : Z)
  | Usable (key : Key).

(** The frozen binding order: the account's last position in it. *)
Definition order_position (d : ProviderDefinition) (model account : string) : option Z :=
  option_map fst
    (last (filter (λ p, pb_account (snd p) = account)
             (zip (map Z.of_nat (seq 0 (length (ordered_bindings d model)))) (ordered_bindings d model)))).

Section choose.
Context (db : Db) (catalog : ProviderCatalog) (definition : ProviderDefinition)
  (provider model : string) (authority : ResolvedLaunchAuthority)
  (pinned prefer : option string) (exclude : list string) (at_ : f64).

(** The committed registry row agrees with the catalog and is enabled. *)
Definition registry_agrees (account : string) : bool :=
  match first_where (λ a, ar_id a = account) (accounts db), catalog_account catalog account with
  | Some row, Some registered =>
      ar_enabled row && bool_decide (ar_family row = acr_family registered)
      && bool_decide (ar_secret row = acr_secret registered)
  | _, _ => false
  end.

(** One iteration up to its choice. *)
Definition consider (c : QuotaCandidate) : result Considered :=
  if is_some_and (λ account, negb (bool_decide (qc_account c = account))) pinned
     || bool_decide (qc_account c ∈ exclude)
     || negb (bool_decide (qc_account c ∈ au_eligible_accounts authority))
     || negb (is_ok (from_selected catalog provider model (qc_account c)))
     || negb (registry_agrees (qc_account c))
  then Ok Skipped
  else
    let? cooldown := binding_cooldown db provider (qc_account c) at_ in
    match cooldown with
    | Some (reason, seconds) => Ok (Cooling reason seconds)
    | None =>
        let load := candidate_load db c in
        let kept := is_none_or (λ account, negb (bool_decide (qc_account c = account))) prefer in
        let rank :=
          if df_ordered_accounts definition then order_position definition model (qc_account c)
          else Some (qc_rank c) in
        Ok (match rank with
            | Some rank => Usable (kept, rank, load, qc_account c)
            | None => Skipped
            end)
    end.

Definition Chosen : Type :=
  option (Key * QuotaCandidate) * option (string * BindingCooldownReason * Z).

(** The rest of an iteration: the best so far, and the shortest cooldown. *)
Definition choose_step (st : Chosen) (c : QuotaCandidate) : result Chosen :=
  let? considered := consider c in
  Ok (match considered with
      | Skipped => st
      | Cooling reason seconds =>
          if is_none_or (λ b, seconds <? snd b) (snd st)
          then (fst st, Some (qc_account c, reason, seconds)) else st
      | Usable key =>
          if is_none_or (λ b, key_lt key (fst b)) (fst st) then (Some (key, c), snd st) else st
      end).
End choose.

(** [choose]. *)
Definition choose (db : Db) (catalog : ProviderCatalog) (provider model : string)
  (authority : ResolvedLaunchAuthority) (candidates : QuotaCandidateSet)
  (pinned prefer : option string) (exclude : list string) (at_ : f64) : result QuotaCandidate :=
  let? definition := ok_or (QuotaAdmission (QaNoEligibleAccount provider model))
                       (catalog_provider catalog provider) in
  let? (chosen, blocked) :=
    try_fold (choose_step db catalog definition provider model authority pinned prefer exclude at_)
      (None, None) (qs_candidates candidates) in
  match chosen with
  | Some (_, candidate) => Ok candidate
  | None =>
      Err (QuotaAdmission
             (match blocked with
              | Some (account, reason, seconds) => QaBindingCooldown provider model account reason seconds
              | None => QaNoEligibleAccount provider model
              end))
  end.

(** ** Rows of an admission *)

(** [str::split_whitespace] on characters; [word] is the word being read. *)
Fixpoint words (word cs : list Z) : list (list Z) :=
  let done := if bool_decide (word = []) then [] else [reverse word] in
  match cs with
  | [] => done
  | c :: cs' => if is_whitespace c then done ++ words [] cs' else words (c :: word) cs'
  end.

(** [join(" ")]. *)
Fixpoint join_words (l : list (list Z)) : list Z :=
  match l with
  | [] => []
  | [w] => w
  | w :: l' => w ++ 32 :: join_words l'
  end.

(** [task.split_whitespace().collect::<Vec<_>>().join(" ").chars().take(160)]. *)
Definition task_summary (task : string) : string :=
  of_chars (take 160 (join_words (words [] (chars task)))).

Definition is_active (a : AgentRow) : Prop := ag_status a ∈ ACTIVE.

(** [COUNT of agents WHERE status IN ACTIVE]. *)
Definition active_agents (db : Db) : Z := count_where is_active (db_agents db).

(** [json_extract(identity_json,'$.authority.harness')] of an agent. *)
Definition launch_of (db : Db) (agent : string) : option LaunchRow :=
  first_where (λ l, la_agent l = agent) (launches db).
Definition harness_of (db : Db) (agent : string) : option string :=
  match launch_of db agent with
  | Some l =>
      match la_identity l with
      | Some frozen => json_str (json_index "harness" (json_index "authority" frozen))
      | None => None
      end
  | None => None
  end.
Definition active_on (db : Db) (harness : HarnessId) : Z :=
  count_where (λ a, is_active a ∧ harness_of db (ag_id a) = Some (harness_str harness)) (db_agents db).

(** [UNIQUE (orchestrator_session_id, request_id)]. *)
Definition request_taken (db : Db) (session request : option string) : bool :=
  match session, request with
  | Some s, Some r =>
      exists_where
        (λ a, ag_session a = Some s ∧
              exists_where (λ l, la_agent l = ag_id a ∧ la_request_id l = Some r) (launches db) = true)
        (db_agents db)
  | _, _ => false
  end.

(** [INSERT INTO agents], with the keys of the table. *)
Definition insert_agent (db : Db) (a : AgentRow) (l : LaunchRow) : result Db :=
  fail? exists_where (λ x, ag_id x = ag_id a) (db_agents db)
        || request_taken db (ag_session a) (la_request_id l)
        || is_some_and (λ p, exists_where (λ x, la_parent x = Some p) (launches db)
                             || negb (exists_where (λ x, ag_id x = p) (db_agents db))) (la_parent l)
        || is_some_and (λ s, negb (exists_where (λ x, os_id x = s) (db_sessions db))) (ag_session a)
        || (ag_sequence a <? 1) with Sql ConstraintViolation;
  Ok (set_agents (db_agents db ++ [a]) (on_launch (set_launches (launches db ++ [l])) db)).

Definition with_owner (owner : string * f64) (l : LaunchRow) : LaunchRow :=
  mk_launch (la_agent l) (la_request_id l) (la_profile l) (la_task_summary l) (la_workdir l)
    (la_config_revision l) (la_parent l) (la_resume_of l) (la_identity l) (la_intent l)
    (la_requested_account l) (Some owner) (la_supervisor l) (la_process_group l).

(** [INSERT INTO attempts], with the keys of the table. *)
Definition insert_attempt (db : Db) (t : AttemptRow) (e : LaunchEvidenceRow) : result Db :=
  fail? exists_where (λ x, at_id x = at_id t ∨ (at_agent x = at_agent t ∧ at_number x = at_number t)) (db_attempts db)
        || (at_owned t && exists_where (λ x, at_agent x = at_agent t ∧ at_owned x = true) (db_attempts db))
        || negb (exists_where (λ x, ag_id x = at_agent t) (db_agents db)) with Sql ConstraintViolation;
  Ok (set_attempts (db_attempts db ++ [t]) (on_launch (set_attempt_evidence (attempt_evidence db ++ [e])) db)).

(** [INSERT INTO attempt_quota_keys] with its guard trigger. *)
Definition insert_quota_key (attempt : string) (db : Db) (key : string) : result Db :=
  fail? exists_where (λ k, qk_attempt k = attempt ∧ qk_key k = key) (quota_keys db)
        || negb (exists_where
                   (λ t, at_id t = attempt ∧
                         is_some_and (λ account, is_some_and (λ lane, negb (is_empty lane))
                                                   (strip_prefix (account +:+ "::") key))
                           (at_account t) = true) (db_attempts db)) with Sql ConstraintViolation;
  Ok (on_launch (set_keys (quota_keys db ++ [mk_quota_key attempt key])) db).

(** [INSERT INTO agent_service_gates]. *)
Definition insert_gate (db : Db) (agent : string) : result Db :=
  fail? exists_where (λ g, sg_agent g = agent) (lt_gates (db_launch db)) with Sql ConstraintViolation;
  Ok (on_launch (set_gates (lt_gates (db_launch db) ++ [mk_gate agent GPending])) db).

(** A prepared, owned attempt. *)
Definition prepared_attempt (id agent : string) (number : Z) (account : string) : AttemptRow :=
  mk_attempt id agent number "prepared" None true (Some "prepared"%string) None false (Some account).
Definition fresh_evidence (attempt : string) (at_ : f64) : LaunchEvidenceRow :=
  mk_attempt_evidence attempt at_ (Obj []) None None None.

(** ** Lineage *)

Record ResumeLineage := mk_lineage { rl_root : string; rl_sequence : Z; rl_session : string }.

Record ProviderResume := mk_resume {
  rm_parent : string;
  rm_prefer : string;
  rm_digest : option string;              (* preflight_digest *)
  rm_restart : option Z;                  (* restart_id *)
}.

(** [libc::killpg] with signal 0: the group is gone. *)
Class ProcessTable := { group_absent : Z → bool }.

(** [group_is_gone]. *)
Definition group_is_gone `{ProcessTable} (pgid : Z) : bool := if pgid <=? 1 then false else group_absent pgid.

(** [resume_parent]. *)
Definition resume_parent `{ProcessTable} (db : Db) (parent : string) : result ResumeLineage :=
  let? a := row (first_where (λ a, ag_id a = parent) (db_agents db)) in
  let launch := launch_of db parent in
  fail? negb (Status.terminal (ag_status a)) with
    invalid ("agent " +:+ parent +:+ " is not resumable in status " +:+ Status.as_str (ag_status a));
  let quiescent :=
    match (match launch with Some l => la_process_group l | None => None end) with
    | Some pgid => group_is_gone pgid
    | None => negb (is_some_and (λ l, is_some (la_supervisor l)) launch)
    end in
  fail? negb quiescent with
    invalid ("agent " +:+ parent +:+ " finished but its runtime process is still alive or unprovable; refusing to attach to a session it may own");
  let session :=
    match ag_runtime_session a with
    | Some s => Some s
    | None => match launch with Some l => la_resume_of l | None => None end
    end in
  let? session := ok_or (invalid ("agent " +:+ parent +:+ " recorded no runtime session to resume")) session in
  fail? blank session with invalid ("agent " +:+ parent +:+ " recorded no runtime session to resume");
  fail? 2 ^ 32 - 1 <=? ag_sequence a with invalid "lineage sequence overflow";
  Ok (mk_lineage (root_of a) (ag_sequence a + 1) session).

(** ** The admission *)

(** The clock, fresh identifiers and the inspected process of an admission. *)
Record LaunchEnv := mk_launch_env {
  le_now : f64;
  le_session : string;
  le_attempt : string;
  le_owner : option (string * f64);
}.

Record ProviderAdmission := mk_provider_admission {
  pv_agent : string;
  pv_attempt : string;
  pv_account : string;
  pv_created : bool;
}.

(** [upsert_session]. *)
Definition upsert_session (db : Db) (request : StartRequest) (fresh : string) : result (Db * option string) :=
  match sq_orchestrator request with
  | None => Ok (db, None)
  | Some reference =>
      let? (db, session) := session_for_reference db reference fresh in Ok (db, Some session)
  end.

(** The new rows of [agents]. *)
Definition admitted_agent (i : AdmissionInputs) (id : string) (session : option string)
  (lineage : option ResumeLineage) (at_ : f64) : AgentRow :=
  let effective := in_effective i in
  mk_agent id (match lineage with Some l => rl_root l | None => id end)
    (match lineage with Some l => rl_sequence l | None => 1 end) at_ Starting None session effective true
    None None None None None (sq_display_name effective) (Some false)
    (ps_provider (in_request i)) (ps_model (in_request i)).

Definition admitted_launch (i : AdmissionInputs) (id : string) (resume : option (ProviderResume * ResumeLineage))
  : LaunchRow :=
  mk_launch id (ps_request_id (in_request i)) (ps_profile (in_request i)) (task_summary (ps_task (in_request i)))
    (sq_workdir (in_effective i)) "pending:provider-v2"
    (option_map (λ r, rm_parent (fst r)) resume) (option_map (λ r, rl_session (snd r)) resume)
    (Some (in_identity i)) (Some (if is_some (in_pinned i) then SkPinned else SkAuto)) (in_pinned i)
    None None None.

(** The configuration of the identity names services. *)
Definition has_services (identity : Value) : bool :=
  match json_index "services" (json_index "provider_config" identity) with
  | Obj m => negb (bool_decide (m = []))
  | _ => false
  end.

(** The global and the harness cap. *)
Definition capacity_left (db : Db) (i : AdmissionInputs) : bool :=
  (active_agents db <? in_global_cap i)
  && is_none_or (λ cap, active_on db (au_harness (in_authority i)) <? cap) (in_harness_cap i).

(** The checks of [admit_in_tx] before it writes: the chosen candidate. *)
Definition admissible_candidate `{Sha256} (db : Db) (catalog : ProviderCatalog) (i : AdmissionInputs)
  (prefer : option string) (at_ : f64) : result QuotaCandidate :=
  let request := in_request i in
  try? candidate_set_validate (in_candidates i);
  try? authority_validate (in_authority i);
  let? definition := ok_or (invalid "provider is not configured")
                       (catalog_provider catalog (ps_provider request)) in
  fail? negb (inputs_agree i definition) with invalid "provider admission inputs disagree";
  try? check_ordered_snapshot (in_identity i) definition;
  fail? negb (db_capacity_revision db =? qs_capacity_revision (in_candidates i)) with
    QuotaAdmission (QaSelectionStale (qs_capacity_revision (in_candidates i)) (db_capacity_revision db));
  fail? negb (capacity_left db i) with Capacity;
  choose db catalog (ps_provider request) (ps_model request) (in_authority i) (in_candidates i)
    (in_pinned i) prefer [] at_.

(** [admit_in_tx]. *)
Definition admit_provider_in_tx `{Sha256} (db : Db) (catalog : ProviderCatalog) (id : string)
  (i : AdmissionInputs) (resume : option (ProviderResume * ResumeLineage)) (env : LaunchEnv)
  : result (Db * ProviderAdmission) :=
  let at_ := le_now env in
  let? candidate :=
    admissible_candidate db catalog i (option_map (λ r, rm_prefer (fst r)) resume) at_ in
  let? (db, session) := upsert_session db (in_effective i) (le_session env) in
  let attempt := "att_" +:+ le_attempt env in
  let? db :=
    match insert_agent db (admitted_agent i id session (option_map snd resume) at_) (admitted_launch i id resume),
          resume with
    | Err (Sql ConstraintViolation), Some (r, _) =>
        Err (invalid ("agent " +:+ rm_parent r +:+ " has already been resumed"))
    | inserted, _ => inserted
    end in
  let db :=
    match le_owner env with
    | Some owner =>
        on_launch (set_launches (update_where (λ l, la_agent l = id) (with_owner owner) (launches db))) db
    | None => db
    end in
  let? db := insert_attempt db (prepared_attempt attempt id 1 (qc_account candidate)) (fresh_evidence attempt at_) in
  let? db := if has_services (in_identity i) then insert_gate db id else Ok db in
  let? db := try_fold (insert_quota_key attempt) db (qc_physical_keys candidate) in
  let db := fst (tx_event db id at_ ECreated) in
  let db := fst (tx_event db id at_ (EStartAccepted (option_map (λ r, rm_parent (fst r)) resume))) in
  Ok (db, mk_provider_admission id attempt (qc_account candidate) true).

(** ** The interface of the pool transactions *)

(** An admission without a parent, as the pool transactions start it. *)
Record Launch := mk_launch_call {
  lc_catalog : ProviderCatalog;
  lc_inputs : AdmissionInputs;
  lc_env : LaunchEnv;
}.

Definition launch_in_tx `{Sha256} (db : Db) (id : string) (l : Launch) : result Db :=
  let? (db, _) := admit_provider_in_tx db (lc_catalog l) id (lc_inputs l) None (lc_env l) in Ok db.

(** ** What an admission writes *)

(** The tables an admission and an attempt leave alone. *)
Record tables_untouched (db db' : Db) : Prop := {
  un_capabilities : db_capabilities db' = db_capabilities db;
  un_lifecycles : db_lifecycles db' = db_lifecycles db;
  un_commands : db_commands db' = db_commands db ∧ db_command_seq db' = db_command_seq db;
  un_deliveries : db_deliveries db' = db_deliveries db;
  un_notifications : db_notifications db' = db_notifications db;
  un_pools : db_pools db' = db_pools db;
  un_members : db_members db' = db_members db;
  un_entries : db_entries db' = db_entries db ∧ db_entry_seq db' = db_entry_seq db;
  un_enrollments : db_enrollments db' = db_enrollments db;
  un_restarts : db_restarts db' = db_restarts db ∧ db_restart_agents db' = db_restart_agents db;
}.


(** The state a transaction has reached: the tables it writes, in full. *)
Record moved (db d : Db) (agents : list AgentRow) (attempts : list AttemptRow)
  (j : list EventRow * Z) (launch : LaunchTables) : Prop := {
  mv_agents : db_agents d = agents;
  mv_attempts : db_attempts d = attempts;
  mv_journal : journal d = j;
  mv_launch : db_launch d = launch;
  mv_capacity : db_capacity_revision d = db_capacity_revision db;
  mv_rest : tables_untouched db d;
}.

Local Ltac track := split; simpl; try done; split; simpl; done.

Lemma moved_start db : moved db db (db_agents db) (db_attempts db) (journal db) (db_launch db).
Proof. track. Qed.

Section moved.
Context (db d : Db) (A : list AgentRow) (T : list AttemptRow) (J : list EventRow * Z) (L : LaunchTables).
Hypothesis M : moved db d A T J L.

Lemma moved_agents A' : moved db (set_agents A' d) A' T J L.
Proof. destruct M as [? ? ? ? ? []]. track. Qed.

Lemma moved_attempts T' : moved db (set_attempts T' d) A T' J L.
Proof. destruct M as [? ? ? ? ? []]. track. Qed.

Lemma moved_launch f : moved db (on_launch f d) A T J (f L).
Proof. destruct M as [? ? ? <- ? []]. track. Qed.

Lemma moved_event agent at_ data :
  moved db (fst (tx_event d agent at_ data)) A T
    (fst J ++ [mk_event (snd J + 1) agent
                 (option_map at_id (first_where (λ t, at_agent t = agent ∧ at_owned t = true) T)) at_ data],
     snd J + 1) L.
Proof. destruct M as [<- <- <- <- ? []]. track. Qed.

Lemma moved_session request fresh d' session :
  upsert_session d request fresh = Ok (d', session) → moved db d' A T J L.
Proof.
  unfold upsert_session, session_for_reference, touch_row. intros E. destruct M as [? ? ? ? ? []].
  destruct (sq_orchestrator request) as [r|]; [|by apply ok_pair_inj in E as [<- _]].
  destruct (orchestrator_validate r); [|done]. destruct (canonical_transport_name _); [|done].
  destruct (session_ids_for_reference d r) as [[|s l]|]; [..|done]; apply ok_pair_inj in E as [<- _]; track.
Qed.

Lemma moved_insert_agent a l d' :
  insert_agent d a l = Ok d' →
  moved db d' (A ++ [a]) T J (set_launches (lt_launches L ++ [l]) L) ∧
  (∀ x, x ∈ A → ag_id x ≠ ag_id a) ∧ 1 ≤ ag_sequence a.
Proof.
  unfold insert_agent. destruct (_ || _) eqn:E; [done|]. intros [= <-]. to_prop.
  destruct M as [<- <- <- <- ? []]. split; [track|]. split; [|done]. by rewrite exists_where_false in *.
Qed.

Lemma moved_insert_attempt t e d' :
  insert_attempt d t e = Ok d' →
  moved db d' A (T ++ [t]) J (set_attempt_evidence (lt_evidence L ++ [e]) L) ∧
  (∀ x, x ∈ T → at_id x ≠ at_id t ∧ (at_agent x = at_agent t → at_number x ≠ at_number t)) ∧
  (at_owned t = true → ∀ x, x ∈ T → at_agent x = at_agent t → at_owned x = false).
Proof.
  unfold insert_attempt. destruct (_ || _) eqn:E; [done|]. intros [= <-]. to_prop.
  destruct M as [<- <- <- <- ? []]. split; [track|].
  rename select (exists_where (λ x, _ ∨ _) _ = false) into Hdup. rewrite exists_where_false in Hdup.
  rename select (_ && _ = false) into Hone. split.
  - intros x Hx. specialize (Hdup x Hx). naive_solver.
  - intros Ho x Hx Ha. rewrite Ho in Hone. simpl in Hone. rewrite exists_where_false in Hone. specialize (Hone x Hx).
    destruct (at_owned x); naive_solver.
Qed.

Lemma moved_gate (b : bool) id d' :
  (if b then insert_gate d id else Ok d) = Ok d' → ∃ gates, moved db d' A T J (set_gates gates L).
Proof.
  unfold insert_gate. destruct b.
  - destruct (exists_where _ _); [done|]. intros [= <-]. eexists. apply moved_launch.
  - intros [= <-]. exists (lt_gates L). by destruct L.
Qed.
End moved.

Lemma moved_keys db d A T J L attempt keys d' :
  moved db d A T J L → try_fold (insert_quota_key attempt) d keys = Ok d' →
  moved db d' A T J (set_keys (lt_keys L ++ map (mk_quota_key attempt) keys) L).
Proof.
  revert d L. induction keys as [|key keys IH]; intros d L M; cbn [try_fold map].
  - rewrite app_nil_r. intros [= <-]. by destruct L.
  - unfold insert_quota_key at 1. destruct (_ || _); [done|]. intros E.
    apply (IH _ _ (moved_launch _ _ _ _ _ _ M _)) in E. cbn [set_keys lt_keys] in E.
    unfold quota_keys in E. rewrite (mv_launch _ _ _ _ _ _ M), <-app_assoc in E. exact E.
Qed.

(** The rows of an accepted admission: one agent, one owned attempt on the
    chosen account with its reservations, two events. *)
Record provider_admitted `{Sha256} (db : Db) (catalog : ProviderCatalog) (id : string) (i : AdmissionInputs)
  (resume : option (ProviderResume * ResumeLineage)) (env : LaunchEnv) (db' : Db) (r : ProviderAdmission)
  (c : QuotaCandidate) : Prop := {
  ad_choice : admissible_candidate db catalog i (option_map (λ r, rm_prefer (fst r)) resume) (le_now env) = Ok c;
  ad_answer : r = mk_provider_admission id ("att_" +:+ le_attempt env) (qc_account c) true;
  ad_agents : ∃ session d, upsert_session db (in_effective i) (le_session env) = Ok (d, session) ∧
    db_agents db' = db_agents db ++ [admitted_agent i id session (option_map snd resume) (le_now env)];
  ad_fresh : ∀ x, x ∈ db_agents db → ag_id x ≠ id;
  ad_attempts : db_attempts db' = db_attempts db ++ [prepared_attempt (pv_attempt r) id 1 (qc_account c)];
  ad_new_attempt : ∀ x, x ∈ db_attempts db → at_id x ≠ pv_attempt r ∧ (at_agent x = id → at_owned x = false ∧ at_number x ≠ 1);
  ad_launches : ∃ l, la_agent l = id ∧ la_identity l = Some (in_identity i) ∧
    la_intent l = Some (if is_some (in_pinned i) then SkPinned else SkAuto) ∧
    la_parent l = option_map (λ r, rm_parent (fst r)) resume ∧ la_request_id l = ps_request_id (in_request i) ∧
    launches db' = match le_owner env with
                   | Some owner => update_where (λ l, la_agent l = id) (with_owner owner) (launches db ++ [l])
                   | None => launches db ++ [l]
                   end;
  ad_evidence : attempt_evidence db' = attempt_evidence db ++ [fresh_evidence (pv_attempt r) (le_now env)];
  ad_keys : quota_keys db' = quota_keys db ++ map (mk_quota_key (pv_attempt r)) (qc_physical_keys c);
  ad_registry : accounts db' = accounts db ∧ cooldowns db' = cooldowns db;
  ad_events : ∃ e1 e2, db_events db' = db_events db ++ [e1; e2] ∧ db_event_seq db' = db_event_seq db + 2 ∧
    ev_no e1 = db_event_seq db + 1 ∧ ev_no e2 = db_event_seq db + 2 ∧
    ev_agent e1 = id ∧ ev_agent e2 = id ∧ plain_event e1 ∧ plain_event e2;
  ad_rest : tables_untouched db db' ∧ db_capacity_revision db' = db_capacity_revision db;
}.

Lemma admit_provider_Ok `{Sha256} db catalog id i resume env db' r :
  admit_provider_in_tx db catalog id i resume env = Ok (db', r) →
  ∃ c, provider_admitted db catalog id i resume env db' r c.
Proof.
  unfold admit_provider_in_tx. intros E. cbv zeta in E.
  destruct (admissible_candidate _ _ _ _ _) as [c|] eqn:Ec; [|done].
  destruct (upsert_session _ _ _) as [[d1 session]|] eqn:Es; [|done].
  pose proof Es as Hsession. apply (moved_session db db _ _ _ _ (moved_start db)) in Es.
  destruct (insert_agent _ _ _) as [d2|e] eqn:Ea; [|by repeat case_match].
  apply (moved_insert_agent _ _ _ _ _ _ Es) in Ea as (M2 & Hfresh & _).
  match type of E with context [insert_attempt ?d _ _] => set (d3 := d) in E end.
  assert (∃ ls, moved db d3 (db_agents db ++ [admitted_agent i id session (option_map snd resume) (le_now env)])
                  (db_attempts db) (journal db) (set_launches ls (db_launch db)) ∧
                ls = match le_owner env with
                     | Some owner => update_where (λ l, la_agent l = id) (with_owner owner)
                                       (launches db ++ [admitted_launch i id resume])
                     | None => launches db ++ [admitted_launch i id resume]
                     end) as (ls & M3 & Els).
  { subst d3. destruct (le_owner env) as [owner|]; eexists; (split; [|reflexivity]); [|exact M2].
    unfold launches at 1. rewrite (mv_launch _ _ _ _ _ _ M2). exact (moved_launch _ _ _ _ _ _ M2 _). }
  clearbody d3. clear Es M2 d2.
  destruct (insert_attempt d3 _ _) as [d4|] eqn:Et; [|done].
  apply (moved_insert_attempt _ _ _ _ _ _ M3) in Et as (M4 & Hnew & Hown). clear M3 d3.
  destruct (if has_services _ then _ else _) as [d5|] eqn:Eg; [|done].
  apply (moved_gate _ _ _ _ _ _ M4) in Eg as [gates M5]. clear M4 d4.
  destruct (try_fold _ _ _) as [d6|] eqn:Ek; [|done]. apply (moved_keys _ _ _ _ _ _ _ _ _ M5) in Ek. clear M5 d5.
  apply ok_pair_inj in E as [<- <-]. exists c.
  pose proof (moved_event _ _ _ _ _ _ Ek id (le_now env) ECreated) as M6.
  pose proof (moved_event _ _ _ _ _ _ M6 id (le_now env) (EStartAccepted (option_map (λ r, rm_parent (fst r)) resume))) as M7.
  clear M6. match type of M7 with moved _ ?d _ _ _ _ => set (db' := d) in * end. clearbody db'.
  cbn [fst snd] in M7. rewrite <-app_assoc in M7.
  split; cbn [pv_attempt].
  - done.
  - done.
  - exists session, d1. split; [done|]. apply (mv_agents _ _ _ _ _ _ M7).
  - done.
  - apply (mv_attempts _ _ _ _ _ _ M7).
  - intros x Hx. destruct (Hnew x Hx). split; [done|]. intros Ex. split; [by apply Hown|auto].
  - exists (admitted_launch i id resume). unfold launches at 1. rewrite (mv_launch _ _ _ _ _ _ M7). by split_and!.
  - unfold attempt_evidence at 1. by rewrite (mv_launch _ _ _ _ _ _ M7).
  - unfold quota_keys at 1. by rewrite (mv_launch _ _ _ _ _ _ M7).
  - unfold accounts, cooldowns. by rewrite (mv_launch _ _ _ _ _ _ M7).
  - pose proof (mv_journal _ _ _ _ _ _ M7) as Ej. apply pair_equal_spec in Ej as [Ee En].
    eexists _, _. split; [exact Ee|]. rewrite En. simpl. split_and!; done || lia.
  - split; [apply (mv_rest _ _ _ _ _ _ M7)|apply (mv_capacity _ _ _ _ _ _ M7)].
Qed.

Lemma NoDup_snoc {A B} (f : A → B) (l : list A) x :
  NoDup (map f l) → (∀ y, y ∈ l → f y ≠ f x) → NoDup (map f (l ++ [x])).
Proof.
  intros Hn Hx. rewrite map_app. apply NoDup_app. split; [done|]. split; [|apply NoDup_singleton].
  intros z (y & -> & Hy)%list_elem_of_fmap E%list_elem_of_singleton. by apply (Hx y).
Qed.

Lemma admitted_frame `{Sha256} db catalog id i resume env db' r c :
  provider_admitted db catalog id i resume env db' r c → admission_frame db id db'.
Proof.
  intros []. destruct ad_agents0 as (session & d & _ & Ea), ad_rest0 as [[] _].
  destruct ad_events0 as (e1 & e2 & Ee & Es & N1 & N2 & A1 & A2 & P1 & P2). split.
  - eexists. by split.
  - destruct un_entries0 as [En Eq]. intros [].
    split; rewrite ?Ea, ?ad_attempts0, ?un_capabilities0, ?un_lifecycles0, ?un_pools0, ?un_members0,
      ?un_enrollments0, ?En, ?Eq; try done.
    + by apply NoDup_snoc.
    + apply NoDup_snoc; [done|]. intros y Hy. apply (ad_new_attempt0 y Hy).
  - done.
  - done.
  - done.
  - done.
  - exists [e1; e2]. split; [done|]. by repeat constructor; try apply P1; try apply P2.
  - unfold numbered, journal. simpl. rewrite Ee, Es. intros N. apply Forall_app. split.
    + eapply Forall_impl; [exact N|]. simpl. lia.
    + repeat constructor; lia.
  - rewrite un_deliveries0. done.
  - eexists. split; [exact ad_attempts0|]. by constructor.
Qed.

(** The admission the pool transactions rely on. *)
#[export] Program Instance provider_admission `{Sha256} : Admission Launch :=
  {| effective_orchestrator := λ l, sq_orchestrator (in_effective (lc_inputs l)); admit_in_tx := launch_in_tx |}.
Next Obligation.
  intros ? db id l db' E. unfold launch_in_tx in E.
  destruct (admit_provider_in_tx _ _ _ _ _ _) as [[d r]|] eqn:Ea; [|done]. injection E as <-.
  apply admit_provider_Ok in Ea as [c Ha]. by eapply admitted_frame.
Qed.
