(* ===== verification/Selection.v ===== *)
(** * The choice of an account

    [choose] against what it is meant to pick: the least contender, where a
    contender is a candidate inside the frozen scope whose registry row is
    enabled and unchanged and whose binding is not cooling down. *)

From S2P Require Import Prelude Text Float64 Json Canonical Lifecycle Requests PoolDomain.
From S2P Require Import ProviderCatalog Tables Demo LaunchIdentity ProviderAdmit.

(** ** The order of keys *)

Lemma key_lt_spec x y :
  key_lt x y = true ↔
  match x, y with
  | (k1, r1, l1, a1), (k2, r2, l2, a2) =>
      (k1 = false ∧ k2 = true) ∨
      (k1 = k2 ∧ (r1 < r2 ∨ (r1 = r2 ∧ (l1 < l2 ∨ (l1 = l2 ∧ String.le a1 a2 ∧ a1 ≠ a2)))))
  end.
Proof.
  destruct x as [[[k1 r1] l1] a1], y as [[[k2 r2] l2] a2]. unfold key_lt.
  destruct (bool_decide (k1 = k2)) eqn:Ek; to_prop.
  - subst k2. destruct (Z.eqb_spec r1 r2) as [->|]; [destruct (Z.eqb_spec l1 l2) as [->|]|].
    + rewrite bool_decide_eq_true. split; [by auto 10|]. intros [[-> [=]]|[_ [?|[_ [?|[_ ?]]]]]]; [lia|lia|done].
    + rewrite Z.ltb_lt. split; [by auto 10|]. intros [[-> [=]]|[_ [?|[_ [?|[? _]]]]]]; [lia|done|done].
    + rewrite Z.ltb_lt. split; [by auto|]. intros [[-> [=]]|[_ [?|[? _]]]]; done.
  - destruct k1, k2; naive_solver.
Qed.

Lemma key_lt_irrefl x : key_lt x x = false.
Proof.
  destruct (key_lt x x) eqn:E; [|done]. apply key_lt_spec in E. destruct x as [[[[] r] l] a]; naive_solver lia.
Qed.

Lemma key_lt_trans x y z : key_lt x y = true → key_lt y z = true → key_lt x z = true.
Proof.
  rewrite !key_lt_spec. destruct x as [[[k1 r1] l1] a1], y as [[[k2 r2] l2] a2], z as [[[k3 r3] l3] a3].
  intros [[-> ->]|[-> H1]] [[E ->]|[-> H2]]; [done|by left|by left; subst|]. right. split; [done|].
  destruct H1 as [?|[-> H1]], H2 as [?|[-> H2]]; [left; lia|auto|auto|]. right. split; [done|].
  destruct H1 as [?|(-> & L1 & N1)], H2 as [?|(-> & L2 & N2)]; [left; lia|auto|auto|]. right. split; [done|].
  split; [by etrans|]. intros ->. apply N1. by apply (anti_symm String.le).
Qed.

(** ** Contenders *)

Section selection.
Context (db : Db) (catalog : ProviderCatalog) (d : ProviderDefinition)
  (provider model : string) (authority : ResolvedLaunchAuthority)
  (pinned prefer : option string) (exclude : list string) (at_ : f64).

Local Abbreviation consider := (consider db catalog d provider model authority pinned prefer exclude at_).

(** The account may be used at all. *)
Record eligible (c : QuotaCandidate) : Prop := {
  el_pinned : ∀ account, pinned = Some account → qc_account c = account;
  el_untried : qc_account c ∉ exclude;
  el_scope : qc_account c ∈ au_eligible_accounts authority;
  el_lease : ∃ cred, from_selected catalog provider model (qc_account c) = Ok cred;
  el_registered : ∃ row a, first_where (λ x, ar_id x = qc_account c) (accounts db) = Some row ∧
    catalog_account catalog (qc_account c) = Some a ∧ ar_enabled row = true ∧
    ar_family row = acr_family a ∧ ar_secret row = acr_secret a;
}.

(** The rank of a candidate: its frozen position for an ordered provider, the
    producer's rank otherwise. *)
Definition rank_of (c : QuotaCandidate) : option Z :=
  if df_ordered_accounts d then order_position d model (qc_account c) else Some (qc_rank c).

(** It takes part in the choice under this key: a kept account first, then by
    rank, load and name. *)
Record contends (c : QuotaCandidate) (k : Key) : Prop := {
  ct_eligible : eligible c;
  ct_ready : binding_cooldown db provider (qc_account c) at_ = Ok None;
  ct_key : ∃ rank, rank_of c = Some rank ∧
    k = (negb (bool_decide (prefer = Some (qc_account c))), rank, candidate_load db c, qc_account c);
}.

(** It would, but its binding is cooling down. *)
Record cools (c : QuotaCandidate) (reason : BindingCooldownReason) (seconds : Z) : Prop := {
  cl_eligible : eligible c;
  cl_cooldown : binding_cooldown db provider (qc_account c) at_ = Ok (Some (reason, seconds));
}.

Lemma registry_agrees_true account :
  registry_agrees db catalog account = true ↔
  ∃ row a, first_where (λ x, ar_id x = account) (accounts db) = Some row ∧
    catalog_account catalog account = Some a ∧ ar_enabled row = true ∧
    ar_family row = acr_family a ∧ ar_secret row = acr_secret a.
Proof.
  unfold registry_agrees. split.
  - intros E. destruct (first_where _ _) as [row|], (catalog_account _ _) as [a|]; try done. to_prop.
    exists row, a. by split_and!.
  - intros (row & a & -> & -> & -> & -> & ->). by rewrite !bool_decide_true.
Qed.

(** The tests of the loop decide eligibility. *)
Lemma eligible_tests c :
  is_some_and (λ account, negb (bool_decide (qc_account c = account))) pinned
  || bool_decide (qc_account c ∈ exclude)
  || negb (bool_decide (qc_account c ∈ au_eligible_accounts authority))
  || negb (is_ok (from_selected catalog provider model (qc_account c)))
  || negb (registry_agrees db catalog (qc_account c)) = false ↔ eligible c.
Proof.
  rewrite !orb_false_iff, !negb_false_iff, registry_agrees_true, bool_decide_eq_false, bool_decide_eq_true. split.
  - intros ((((Hp & Hx) & Hs) & Hl) & Hr). split; [|done|done| |done].
    + intros account ->. simpl in Hp. by to_prop.
    + destruct (from_selected _ _ _ _) as [cred|]; [by exists cred|done].
  - intros [Hp Hx Hs [cred Hl] Hr]. split; [|done]. split; [|by rewrite Hl]. split; [|done]. split; [|done].
    destruct pinned as [account|]; [|done]. simpl. by rewrite (Hp account eq_refl), bool_decide_true.
Qed.

(** What the loop makes of a candidate is what it is. *)
Lemma consider_spec c :
  match consider c with
  | Ok (Usable k) => contends c k
  | Ok (Cooling reason seconds) => cools c reason seconds
  | Ok Skipped => (∀ k, ¬ contends c k) ∧ (∀ reason seconds, ¬ cools c reason seconds)
  | Err e => eligible c ∧ binding_cooldown db provider (qc_account c) at_ = Err e
  end.
Proof.
  unfold ProviderAdmit.consider. destruct (_ || _) eqn:E.
  { assert (¬ eligible c) as Hn by (rewrite <-eligible_tests; congruence).
    split; [by intros k []|by intros ? ? []]. }
  apply eligible_tests in E. destruct (binding_cooldown _ _ _ _) as [[[reason seconds]|]|e] eqn:Eb; [done| |done].
  change (if df_ordered_accounts d then _ else _) with (rank_of c).
  destruct (rank_of c) as [rank|] eqn:Er.
  - split; [done|done|]. exists rank. split; [done|]. f_equal. f_equal. f_equal. unfold is_none_or.
    destruct prefer as [a|]; [|by rewrite bool_decide_false]. f_equal. apply bool_decide_ext. naive_solver.
  - split; [intros k [_ _ (rank & E' & _)]; congruence|]. intros ? ? [_ E']. congruence.
Qed.

Local Abbreviation choose_step := (choose_step db catalog d provider model authority pinned prefer exclude at_).

(** The best contender of a list, if it has one. *)
Record best_of (l : list QuotaCandidate) (best : option (Key * QuotaCandidate)) : Prop := {
  bo_in : ∀ k c, best = Some (k, c) → c ∈ l ∧ contends c k;
  bo_least : ∀ c k, c ∈ l → contends c k → ∃ k' c', best = Some (k', c') ∧ key_lt k k' = false;
}.

(** The binding of a list that is back first, if one is cooling down. *)
Record first_back (l : list QuotaCandidate) (blocked : option (string * BindingCooldownReason * Z)) : Prop := {
  fb_in : ∀ a r n, blocked = Some (a, r, n) → ∃ c, c ∈ l ∧ qc_account c = a ∧ cools c r n;
  fb_least : ∀ c r n, c ∈ l → cools c r n → ∃ a r' n', blocked = Some (a, r', n') ∧ n' ≤ n;
}.

Lemma contends_key c k k' : contends c k → contends c k' → k = k'.
Proof. intros [_ _ (r & E & ->)] [_ _ (r' & E' & ->)]. by simplify_eq. Qed.

Lemma contends_cools c k r n : contends c k → ¬ cools c r n.
Proof. intros [_ E _] [_ E']. congruence. Qed.

Lemma cools_same c r r' n n' : cools c r n → cools c r' n' → r = r' ∧ n = n'.
Proof. intros [_ E] [_ E']. rewrite E in E'. by injection E'. Qed.

Lemma best_of_snoc l best c : (∀ k, ¬ contends c k) → best_of l best → best_of (l ++ [c]) best.
Proof.
  intros Hn [Hi Hl]. split.
  - intros k x E. destruct (Hi k x E). split; [apply elem_of_app; by left|done].
  - intros x k [Hx| ->%list_elem_of_singleton]%elem_of_app Hk; [eauto|by destruct (Hn k)].
Qed.

Lemma best_of_offer l best c k : contends c k → best_of l best →
  best_of (l ++ [c]) (if is_none_or (λ b, key_lt k (fst b)) best then Some (k, c) else best).
Proof.
  intros Hc [Hi Hl]. destruct (is_none_or _ best) eqn:E; split.
  - intros k' x [= <- <-]. split; [apply elem_of_app; right; left|done].
  - intros x k' [Hx| ->%list_elem_of_singleton]%elem_of_app Hk; exists k, c; split; try done.
    + destruct (Hl x k' Hx Hk) as (k1 & c1 & -> & L). simpl in E. destruct (key_lt k' k) eqn:E'; [|done].
      by rewrite (key_lt_trans k' k k1) in L.
    + rewrite (contends_key c k' k) by done. apply key_lt_irrefl.
  - intros k' x E'. destruct (Hi k' x E'). split; [apply elem_of_app; by left|done].
  - intros x k' [Hx| ->%list_elem_of_singleton]%elem_of_app Hk; [eauto|].
    destruct best as [[k1 c1]|]; [|done]. rewrite (contends_key c k' k) by done. by exists k1, c1.
Qed.

Lemma first_back_snoc l blocked c : (∀ r n, ¬ cools c r n) → first_back l blocked → first_back (l ++ [c]) blocked.
Proof.
  intros Hn [Hi Hl]. split.
  - intros a r n E. destruct (Hi a r n E) as (x & ? & ?). exists x. split; [apply elem_of_app; by left|done].
  - intros x r n [Hx| ->%list_elem_of_singleton]%elem_of_app Hk; [eauto|by destruct (Hn r n)].
Qed.

Lemma first_back_offer l blocked c r n : cools c r n → first_back l blocked →
  first_back (l ++ [c]) (if is_none_or (λ b, n <? snd b) blocked then Some (qc_account c, r, n) else blocked).
Proof.
  intros Hc [Hi Hl]. destruct (is_none_or _ blocked) eqn:E; split.
  - intros a r' n' [= <- <- <-]. exists c. split; [apply elem_of_app; right; left|done].
  - intros x r' n' [Hx| ->%list_elem_of_singleton]%elem_of_app Hk; exists (qc_account c), r, n; split; try done.
    + destruct (Hl x r' n' Hx Hk) as (a1 & r1 & n1 & -> & L). simpl in E. lia.
    + destruct (cools_same c r r' n n'); [done|done|lia].
  - intros a r' n' E'. destruct (Hi a r' n' E') as (x & ? & ?). exists x. split; [apply elem_of_app; by left|done].
  - intros x r' n' [Hx| ->%list_elem_of_singleton]%elem_of_app Hk; [eauto|].
    destruct blocked as [[[a1 r1] n1]|]; [|done]. destruct (cools_same c r r' n n'); [done|done|]. simpl in E.
    exists a1, r1, n1. split; [done|lia].
Qed.

Lemma choose_step_spec l st c st' :
  best_of l (fst st) → first_back l (snd st) → choose_step st c = Ok st' →
  best_of (l ++ [c]) (fst st') ∧ first_back (l ++ [c]) (snd st').
Proof.
  intros Hb Hf. unfold ProviderAdmit.choose_step. pose proof (consider_spec c) as Hv.
  destruct (consider c) as [[|r n|k]|]; [| | |done]; intros [= <-].
  - destruct Hv. split; [by apply best_of_snoc|by apply first_back_snoc].
  - split; [|pose proof (first_back_offer l _ c r n Hv Hf)]; destruct (is_none_or _ _); try done;
      apply best_of_snoc; try done; by intros k Hk%(contends_cools c k r n).
  - split; [pose proof (best_of_offer l _ c k Hv Hb)|]; destruct (is_none_or _ _); try done;
      apply first_back_snoc; try done; intros r n; by apply (contends_cools c k).
Qed.

(** The whole loop. *)
Lemma choose_loop l st : try_fold choose_step (None, None) l = Ok st → best_of l (fst st) ∧ first_back l (snd st).
Proof.
  enough (∀ seen st0, best_of seen (fst st0) → first_back seen (snd st0) →
    try_fold choose_step st0 l = Ok st → best_of (seen ++ l) (fst st) ∧ first_back (seen ++ l) (snd st)) as H.
  { apply (H [] (None, None)); (split; [done|]); [intros c k|intros c r n]; by intros ?%elem_of_nil. }
  induction l as [|c l IH]; intros seen st0 Hb Hf; cbn [try_fold].
  - intros [= ->]. by rewrite app_nil_r.
  - destruct (choose_step st0 c) as [st1|] eqn:E; [|done].
    destruct (choose_step_spec seen st0 c st1 Hb Hf E) as [Hb1 Hf1]. intros E'.
    change (c :: l) with ([c] ++ l). rewrite (assoc_L (++)). by apply (IH _ st1).
Qed.

(** It fails only on a cooldown that cannot be read. *)
Lemma choose_loop_Err l st e : try_fold choose_step st l = Err e →
  ∃ c, c ∈ l ∧ binding_cooldown db provider (qc_account c) at_ = Err e.
Proof.
  revert st. induction l as [|c l IH]; intros st; cbn [try_fold]; [done|].
  destruct (choose_step st c) as [st1|e1] eqn:E.
  - intros E'. destruct (IH st1 E') as (x & ? & ?). exists x. split; [by right|done].
  - intros [= ->]. exists c. split; [left|]. unfold ProviderAdmit.choose_step in E.
    pose proof (consider_spec c) as Hv. destruct (consider c); [done|]. simplify_eq/=. by destruct Hv.
Qed.
End selection.

(** A chosen candidate is an eligible one. *)
Lemma choose_eligible db catalog provider model authority candidates pinned prefer exclude at_ c :
  choose db catalog provider model authority candidates pinned prefer exclude at_ = Ok c →
  c ∈ qs_candidates candidates ∧ eligible db catalog provider model authority pinned exclude c.
Proof.
  unfold choose. destruct (catalog_provider _ _) as [d|]; [|done]. cbn [ok_or].
  destruct (try_fold _ _ _) as [[best blocked]|] eqn:E; [|done]. apply choose_loop in E as [[Hi _] _].
  destruct best as [[k x]|]; [|done]. intros [= <-]. by destruct (Hi k x eq_refl) as [? []].
Qed.

(** C19: what the choice answers: the least contender; without one, the binding
    that is back first; without that, that there is none. *)
Theorem choose_best db catalog provider model authority candidates pinned prefer exclude at_ definition :
  catalog_provider catalog provider = Some definition →
  is_finite at_ = true → flt at_ (of_Z 0) = false →
  (∀ c, c ∈ cooldowns db → is_finite (bc_blocked_until c) = true) →
  let contends := contends db catalog definition provider model authority pinned prefer exclude at_ in
  let cools := cools db catalog provider model authority pinned exclude at_ in
  match choose db catalog provider model authority candidates pinned prefer exclude at_ with
  | Ok c =>
      c ∈ qs_candidates candidates ∧ ∃ k, contends c k ∧
      ∀ c' k', c' ∈ qs_candidates candidates → contends c' k' → key_lt k' k = false
  | Err e =>
      (∀ c k, c ∈ qs_candidates candidates → ¬ contends c k) ∧
      ((∃ c reason seconds, e = QuotaAdmission (QaBindingCooldown provider model (qc_account c) reason seconds) ∧
          c ∈ qs_candidates candidates ∧ cools c reason seconds ∧
          ∀ c' reason' seconds', c' ∈ qs_candidates candidates → cools c' reason' seconds' → seconds ≤ seconds') ∨
       (e = QuotaAdmission (QaNoEligibleAccount provider model) ∧
          ∀ c reason seconds, c ∈ qs_candidates candidates → ¬ cools c reason seconds))
  end.
Proof.
  intros Ed Ef Eg Hc. cbn zeta. unfold choose. rewrite Ed. cbn [ok_or].
  destruct (try_fold _ _ _) as [[best blocked]|e] eqn:E.
  2: { destruct (choose_loop_Err _ _ _ _ _ _ _ _ _ _ _ _ _ E) as (c & _ & E'). unfold binding_cooldown in E'.
       rewrite Ef, Eg in E'. destruct (first_where _ _) as [x|] eqn:Ex; [|done].
       apply first_where_Some in Ex as [_ Hx]. by rewrite (Hc x Hx) in E'. }
  apply choose_loop in E as [[Hi Hl] [Hbi Hbl]]. simpl in *. destruct best as [[k c]|].
  - destruct (Hi k c eq_refl) as [Hin Hk]. split; [done|]. exists k. split; [done|]. intros c' k' Hc' Hk'.
    destruct (Hl c' k' Hc' Hk') as (k1 & c1 & [= <- <-] & ?). done.
  - split; [intros c k Hin Hk; by destruct (Hl c k Hin Hk) as (? & ? & ? & ?)|].
    destruct blocked as [[[a r] n]|].
    + destruct (Hbi a r n eq_refl) as (c & Hin & <- & Hk). left. exists c, r, n. split_and!; try done.
      intros c' r' n' Hc' Hk'. destruct (Hbl c' r' n' Hc' Hk') as (? & ? & ? & [= <- <- <-] & ?). done.
    + right. split; [done|]. intros c r n Hin Hk. by destruct (Hbl c r n Hin Hk) as (? & ? & ? & ? & ?).
Qed.

(** ** A concrete choice *)

(** Both accounts of the catalog are enabled; the first, which the provider
    prefers, is cooling down for another ten seconds. *)
Definition demo_registry (until : f64) : Db :=
  set_launch
    {| lt_launches := []; lt_evidence := [];
       lt_accounts := [mk_account "acct-1" "anthropic" "env:KEY_ONE" true;
                       mk_account "acct-2" "anthropic" "env:KEY_TWO" true];
       lt_keys := []; lt_cooldowns := [mk_cooldown "glm" "acct-1" BcQuotaExhausted (of_Z 90) until "att_0"];
       lt_gates := []; lt_leases := []; lt_prepared_homes := [] |} demo_db.

Definition demo_authority : ResolvedLaunchAuthority :=
  mk_authority "glm" ClaudeCode (Custom "https://gateway" Messages Bearer false) "glm-5" None "default" "/work"
    (Obj []) "" ["acct-1"; "acct-2"].

Definition demo_candidates : QuotaCandidateSet :=
  mk_candidates "glm" "glm-5" Auto
    [mk_candidate "acct-1" 0 ["acct-1::five_hour"] (of_Z 1) true; mk_candidate "acct-2" 1 ["acct-2::five_hour"] (of_Z 1) true] 0.

Lemma choose_best_witness :
  choose (demo_registry (of_Z 110)) demo_catalog "glm" "glm-5" demo_authority demo_candidates None None [] (of_Z 100) =
    Ok (mk_candidate "acct-2" 1 ["acct-2::five_hour"] (of_Z 1) true) ∧
  ∀ k, ¬ contends (demo_registry (of_Z 110)) demo_catalog demo_provider "glm" "glm-5" demo_authority
           (Some "acct-1") None [] (of_Z 100) (mk_candidate "acct-1" 0 ["acct-1::five_hour"] (of_Z 1) true) k.
Proof.
  split; [by vm_compute|]. intros k.
  destruct (choose_best (demo_registry (of_Z 110)) demo_catalog "glm" "glm-5" demo_authority demo_candidates
    (Some "acct-1") None [] (of_Z 100) demo_provider) as [Hn _].
  1-3: by vm_compute.
  - intros c Hc. apply list_elem_of_singleton in Hc as ->. by vm_compute.
  - apply Hn. left.
Defined.
