(* ===== verification/Attempts.v ===== *)
(** * The attempts of an execution

    The phases an attempt passes through between its admission and its
    cleanup, the evidence recorded for it, and [allocate_next_attempt], which
    moves an execution to another account after a quota or billing failure
    ([provider_admission.rs]). *)

From S2P Require Import Prelude Text Float64 Json Canonical Lifecycle Requests PoolDomain.
From S2P Require Import ProviderCatalog Tables Roster World WorkerStore Sessions ServiceRestart.
From S2P Require Import PoolReplace WorkerFinish Evidence LaunchIdentity Terminal Restart ProviderAdmit.

(** ** Rows *)

Definition with_phase (phase : string) (t : AttemptRow) : AttemptRow :=
  mk_attempt (at_id t) (at_agent t) (at_number t) (at_state t) (at_finished_at t) (at_owned t)
    (Some phase) (at_cleanup_proof t) (at_process t) (at_account t).
Definition with_state (state : string) (t : AttemptRow) : AttemptRow :=
  mk_attempt (at_id t) (at_agent t) (at_number t) state (at_finished_at t) (at_owned t)
    (at_phase t) (at_cleanup_proof t) (at_process t) (at_account t).
Definition with_process (t : AttemptRow) : AttemptRow :=
  mk_attempt (at_id t) (at_agent t) (at_number t) (at_state t) (at_finished_at t) (at_owned t)
    (at_phase t) (at_cleanup_proof t) true (at_account t).
Definition with_proof (proof : Value) (t : AttemptRow) : AttemptRow :=
  mk_attempt (at_id t) (at_agent t) (at_number t) (at_state t) (at_finished_at t) (at_owned t)
    (Some "cleanup_complete"%string) (Some proof) (at_process t) (at_account t).
Definition surrendered (state : string) (time : f64) (t : AttemptRow) : AttemptRow :=
  mk_attempt (at_id t) (at_agent t) (at_number t) state (Some time) false
    (at_phase t) (at_cleanup_proof t) (at_process t) (at_account t).

Definition with_adapter_state (state : Value) (e : LaunchEvidenceRow) : LaunchEvidenceRow :=
  mk_attempt_evidence (ae_attempt e) (ae_created_at e) state (ae_process_identity e) (ae_process_birth e)
    (ae_session_facts e).
Definition with_leader (token : string) (birth : f64) (facts : option Value) (e : LaunchEvidenceRow) : LaunchEvidenceRow :=
  mk_attempt_evidence (ae_attempt e) (ae_created_at e) (ae_adapter_state e) (Some token) (Some birth) facts.
Definition with_group (pgid : Z) (l : LaunchRow) : LaunchRow :=
  mk_launch (la_agent l) (la_request_id l) (la_profile l) (la_task_summary l) (la_workdir l)
    (la_config_revision l) (la_parent l) (la_resume_of l) (la_identity l) (la_intent l)
    (la_requested_account l) (la_owner l) (la_supervisor l) (Some pgid).

(** The evidence columns of an attempt. *)
Definition evidence_of (db : Db) (attempt : string) : option LaunchEvidenceRow :=
  first_where (λ e, ae_attempt e = attempt) (attempt_evidence db).
Definition leader_of (db : Db) (attempt : string) : option string :=
  match evidence_of db attempt with Some e => ae_process_identity e | None => None end.
Definition adapter_state (db : Db) (attempt : string) : Value :=
  match evidence_of db attempt with Some e => ae_adapter_state e | None => Obj [] end.

(** [WHERE id=? AND agent_id=? AND ownership_active=1]. *)
Definition owned_attempt_of (id attempt : string) (t : AttemptRow) : Prop :=
  at_id t = attempt ∧ at_agent t = id ∧ at_owned t = true.
#[global] Instance owned_attempt_of_dec id attempt t : Decision (owned_attempt_of id attempt t).
Proof. unfold owned_attempt_of. apply _. Defined.

(** An [UPDATE attempts] that must change exactly one row. *)
Definition update_one (P : AttemptRow → Prop) `{∀ t, Decision (P t)} (f : AttemptRow → AttemptRow) (db : Db)
  : result Db :=
  fail? negb (count_where P (db_attempts db) =? 1) with Conflict;
  Ok (set_attempts (update_where P f (db_attempts db)) db).

Definition update_evidence (attempt : string) (f : LaunchEvidenceRow → LaunchEvidenceRow) (db : Db) : Db :=
  on_launch (set_attempt_evidence (update_where (λ e, ae_attempt e = attempt) f (attempt_evidence db))) db.

(** ** Reads *)

(** [provider_attempt]: the owned attempt and its account. *)
Definition owned_provider_attempt (db : Db) (id : string) : result (string * string) :=
  let? t := row (first_where (λ t, at_agent t = id ∧ at_owned t = true) (db_attempts db)) in
  let? account := ok_or (Sql InvalidColumnType) (at_account t) in
  let? account := account_id_from_str account in
  Ok (at_id t, account).

(** The attempt with the greatest number. *)
Definition latest_attempt (db : Db) (id : string) : option AttemptRow :=
  best_by (λ x y, at_number x <=? at_number y) (filter (λ t, at_agent t = id) (db_attempts db)).

(** [recorded_account]. *)
Definition recorded_account (db : Db) (id : string) : result string :=
  let account := match latest_attempt db id with Some t => at_account t | None => None end in
  match account with
  | Some value =>
      fail? blank value with invalid ("agent " +:+ id +:+ " has no recorded account selection");
      account_id_from_str value
  | None => Err (invalid ("agent " +:+ id +:+ " has no recorded account selection"))
  end.

(** [latest_attempt_state]. *)
Definition latest_attempt_state (db : Db) (id : string) : result Value :=
  let? t := row (latest_attempt db id) in Ok (adapter_state db (at_id t)).

(** ** Phases *)

(** No gate of the execution is shut, no leased generation unready. *)
Definition services_ready (db : Db) (id : string) : bool :=
  negb (exists_where (λ g, sg_agent g = id ∧ sg_state g ≠ GReady) (lt_gates (db_launch db)))
  && negb (exists_where (λ l, ml_agent l = id ∧ ml_released l = false ∧ ml_ready l = false)
             (lt_leases (db_launch db))).

(** [provider_spawning]. *)
Definition provider_spawning (db : Db) (id attempt : string) : result (Db * bool) :=
  let claimable t :=
    owned_attempt_of id attempt t ∧ at_phase t = Some "prepared"%string ∧
    cancel_requested db id = false ∧ services_ready db id = true in
  match update_one claimable (λ t, with_state "starting" (with_phase "spawning" t)) db with
  | Ok db => Ok (db, true)
  | Err _ => if cancel_requested db id then Ok (db, false) else Err Conflict
  end.

(** [provider_spawn_failed]. *)
Definition provider_spawn_failed (db : Db) (id attempt : string) : result Db :=
  update_one (λ t, owned_attempt_of id attempt t ∧ at_phase t = Some "spawning"%string ∧
                   leader_of db attempt = None) (with_phase "prepared") db.

(** [process.rs] [Identity], the parts stored. *)
Record Identity := mk_identity { id_token : string; id_birth : f64 }.

(** [integration.rs]. *)
Record NativeIntegration := mk_integration {
  ni_harness : HarnessId;
  ni_store : string;
  ni_session : option string;
}.

(** [NativeIntegration::validate]. *)
Definition integration_validate (n : NativeIntegration) : result () :=
  fail? negb (is_absolute (ni_store n)) || (4096 <? len (ni_store n)) || existsb is_control (chars (ni_store n))
        || is_some_and (λ s, is_empty s || (256 <? len s) || existsb is_control (chars s)) (ni_session n) with
    invalid "invalid native integration evidence";
  Ok ().

Definition integration_value (n : NativeIntegration) : Value :=
  Obj (fld "harness" (Str (harness_str (ni_harness n)))
       :: field_if (is_some (ni_session n)) "session" (Str (default "" (ni_session n))) ++ [fld "store" (Str (ni_store n))]).

(** [provider_process_evidence]. *)
Definition provider_process_evidence (db : Db) (id attempt : string) (leader : Identity)
  (integration : option NativeIntegration) : result Db :=
  try? check_opt integration_validate integration;
  fail? is_some_and (λ n, is_some (ni_session n)) integration with
    invalid "native session must be observed by the adapter";
  let? db' := update_one (λ t, owned_attempt_of id attempt t ∧ at_phase t = Some "spawning"%string ∧
                               leader_of db attempt = None) with_process db in
  Ok (update_evidence attempt
        (with_leader (id_token leader) (id_birth leader) (option_map integration_value integration)) db').

(** [provider_process]. *)
Definition provider_process (db : Db) (id attempt : string) (leader : Identity) : result Db :=
  provider_process_evidence db id attempt leader None.

(** [process.rs] [Cleanup]. *)
Record Cleanup := mk_cleanup {
  cn_signals : list string;
  cn_scope : string;
  cn_group_gone : bool;
  cn_descendants_gone : option bool;
  cn_confirmed : bool;
  cn_process_group : option Z;
}.

Definition cleanup_value (c : Cleanup) : Value :=
  Obj [fld "confirmed" (Bool (cn_confirmed c));
       fld "descendants_gone" (match cn_descendants_gone c with Some b => Bool b | None => Null end);
       fld "group_gone" (Bool (cn_group_gone c));
       fld "process_group_id" (match cn_process_group c with Some n => num n | None => Null end);
       fld "scope" (Str (cn_scope c)); fld "signals" (texts (cn_signals c))].

(** [provider_cleanup]. *)
Definition provider_cleanup (db : Db) (id attempt : string) (proof : Cleanup) : result Db :=
  fail? negb (cn_confirmed proof) with invalid "provider process cleanup is unverified";
  update_one (λ t, owned_attempt_of id attempt t ∧ leader_of db attempt ≠ None)
    (with_proof (cleanup_value proof)) db.

(** [provider_rerunning]. *)
Definition provider_rerunning (db : Db) (id attempt : string) (pgid : Z) : result Db :=
  let agents := count_where (λ a, ag_id a = id ∧ ag_status a = Running) (db_agents db) in
  let? db' := update_one (λ t, owned_attempt_of id attempt t ∧ at_phase t = Some "spawning"%string ∧
                               leader_of db attempt ≠ None) (with_state "running") db in
  fail? negb (agents =? 1) with Conflict;
  Ok (on_launch (set_launches (update_where (λ l, la_agent l = id) (with_group pgid) (launches db'))) db').

(** [provider_never_spawned]. *)
Definition provider_never_spawned (db : Db) (id : string) : Db * bool :=
  let silent t := at_agent t = id ∧ never_spawned db t in
  (set_attempts (update_where silent with_never_spawned (db_attempts db)) db,
   count_where silent (db_attempts db) =? 1).

(** ** History and cooldowns *)

Definition BINDING_COOLDOWN_SECONDS : f64 := of_Z 3600.

Definition is_custom (c : ProviderConnection) : bool := match c with Custom _ _ _ _ => true | Native => false end.

(** The windows of a rejected rate limit. *)
Definition rejected_windows : list string :=
  ["five_hour"; "seven_day"; "seven_day_opus"; "seven_day_sonnet"; "seven_day_overage_included"; "overage"]%string.

(** [length(trim(x)) = 0] of SQLite, which trims spaces. *)
Definition sql_blank (s : string) : bool := forallb (Z.eqb 32) (bytes s).

(** The upsert into [binding_cooldowns], with the constraints of the table:
    whether a row changed. *)
Definition record_cooldown (db : Db) (c : CooldownRow) : result (Db * bool) :=
  let same x := bc_account x = bc_account c ∧ bc_provider x = bc_provider c in
  fail? flt (bc_observed_at c) (of_Z 0) || negb (flt (bc_observed_at c) (bc_blocked_until c))
        || sql_blank (bc_provider c) || sql_blank (bc_attempt c)
        || negb (exists_where (λ a, ar_id a = bc_account c) (accounts db)) with Sql ConstraintViolation;
  match first_where same (cooldowns db) with
  | None => Ok (on_launch (set_cooldowns (cooldowns db ++ [c])) db, true)
  | Some old =>
      if flt (bc_blocked_until old) (bc_blocked_until c)
      then Ok (on_launch (set_cooldowns (update_where same (λ _, c) (cooldowns db))) db, true)
      else Ok (db, false)
  end.

(** The long test: the failure is the frozen attempt's own. *)
Definition cooldown_matches (identity provider native : Value) (authority : ResolvedLaunchAuthority)
  (account attempt : string) (connection : ProviderConnection) (binding : ProviderBinding)
  (reason : BindingCooldownReason) : bool :=
  bool_decide (json_index "provider_identity_version" identity = num 2)
  && bool_decide (json_index "ordered_accounts" provider = Bool true)
  && bool_decide (au_harness authority = ClaudeCode)
  && bool_decide (json_index "harness" provider = Str (harness_str (au_harness authority)))
  && bool_decide (connection = au_connection authority)
  && bool_decide (account ∈ au_eligible_accounts authority)
  && bool_decide (json_index "class" native = Str (cooldown_reason_str reason))
  && bool_decide (json_index "attempt" native = Str attempt)
  && bool_decide (json_index "account" native = Str account)
  && bool_decide (json_index "provider" native = Str (au_provider authority))
  && bool_decide (json_index "model" native = Str (au_model authority))
  && match reason with
     | BillingUnavailable => is_custom (default connection (pb_connection binding))
     | BcQuotaExhausted =>
         bool_decide (json_index "signal" native = Str "claude.rate_limit_event.rejected")
         && is_some_and (λ w, bool_decide (w ∈ rejected_windows)) (json_str (json_index "window" native))
     end.

(** The account and the provider a cooldown is for. *)
Definition cooldown_subject `{LaunchSerde} (frozen : option Value) (account : option string) (attempt : string)
  (state : Value) (reason : BindingCooldownReason) : result (string * string) :=
  let? identity := ok_or (Integrity "provider identity is missing") frozen in
  let? authority := ok_or (Integrity "provider authority is malformed")
                      (authority_from_value (json_index "authority" identity)) in
  let? account := ok_or (invalid "attempt account is missing") account in
  let? account := account_id_from_str account in
  let provider := json_index (au_provider authority) (json_index "providers" (json_index "provider_config" identity)) in
  let? connection := ok_or (Integrity "provider connection is malformed")
                       (connection_from_value (json_index "connection" provider)) in
  let? bindings := ok_or (Integrity "provider bindings are malformed")
                     (bindings_from_value (json_index "bindings" provider)) in
  match filter (λ b, pb_account b = account ∧ serves (au_model authority) b = true) bindings with
  | [] => Err (invalid "attempt binding is unavailable")
  | binding :: others =>
      fail? negb (bool_decide (others = []))
            || negb (cooldown_matches identity provider (json_index "native_failure" state) authority account
                       attempt connection binding reason) with
        invalid "binding cooldown does not match the frozen attempt";
      Ok (au_provider authority, account)
  end.

(** [provider_history_with_cooldown]. *)
Definition provider_history_with_cooldown `{LaunchSerde} (db : Db) (id attempt : string) (state : Value)
  (cooldown : option BindingCooldownReason) (at_ : f64) : result Db :=
  let cleaned t := at_id t = attempt ∧ at_agent t = id ∧ at_phase t = Some "cleanup_complete"%string in
  let? _ := row (first_where (λ a, ag_id a = id) (db_agents db)) in
  let? t := row (first_where cleaned (db_attempts db)) in
  let old_reason := json_get "binding_cooldown_recorded" (adapter_state db attempt) in
  let new_reason := json_get "binding_cooldown_recorded" state in
  fail? negb (Bool.eqb (is_some new_reason) (is_some cooldown)) with
    invalid "binding cooldown evidence is malformed";
  fail? is_some old_reason && negb (bool_decide (old_reason = new_reason)) with Conflict;
  let? db :=
    match cooldown with
    | None => Ok db
    | Some reason =>
        fail? negb (is_finite at_) || flt at_ (of_Z 0) || negb (is_finite (fadd at_ BINDING_COOLDOWN_SECONDS)) with
          invalid "invalid binding cooldown time";
        fail? negb (bool_decide (json_index "binding_cooldown_recorded" state = Str (cooldown_reason_str reason))) with
          invalid "binding cooldown evidence is malformed";
        let frozen := match launch_of db id with Some l => la_identity l | None => None end in
        let? (provider, account) := cooldown_subject frozen (at_account t) attempt state reason in
        if is_some old_reason then Ok db
        else
          let? (db, changed) :=
            record_cooldown db (mk_cooldown provider account reason at_ (fadd at_ BINDING_COOLDOWN_SECONDS) attempt) in
          if changed then advance_capacity db else Ok db
    end in
  Ok (update_evidence attempt (with_adapter_state state) db).

(** [provider_history]. *)
Definition provider_history `{LaunchSerde} (db : Db) (id attempt : string) (state : Value) (at_ : f64) : result Db :=
  provider_history_with_cooldown db id attempt state None at_.

(** ** The next attempt *)

Record NextAttempt := mk_next {
  nx_attempt : string;
  nx_number : Z;
  nx_account : string;
  nx_released : string;
}.

(** The failure that permits another attempt, as the state the failed one is
    closed with. *)
Definition closing_state `{Sha256} (catalog : ProviderCatalog) (identity evidence : Value)
  (authority : ResolvedLaunchAuthority) (previous : AttemptRow) : result string :=
  let native := json_index "native_failure" evidence in
  match json_str (json_index "class" native) with
  | Some class =>
      if bool_decide (class = "quota_exhausted"%string) then Ok "exhausted"%string
      else if bool_decide (class = "billing_unavailable"%string) then
        let? definition := ok_or (invalid "ordered billing fallback has no frozen provider")
                             (catalog_provider catalog (au_provider authority)) in
        try? check_ordered_snapshot identity definition;
        let? account := ok_or (Integrity "attempt account is missing") (at_account previous) in
        let? account := account_id_from_str account in
        fail? negb (df_ordered_accounts definition)
              || negb (bool_decide (au_harness authority = ClaudeCode))
              || negb (bool_decide (df_harness definition = au_harness authority))
              || negb (bool_decide (df_connection definition = au_connection authority))
              || negb (bool_decide (account ∈ au_eligible_accounts authority))
              || negb (is_some_and is_custom (connection_for definition account (au_model authority)))
              || negb (bool_decide (json_str (json_index "attempt" native) = Some (at_id previous)))
              || negb (bool_decide (json_str (json_index "account" native) = Some account))
              || negb (bool_decide (json_str (json_index "provider" native) = Some (au_provider authority)))
              || negb (bool_decide (json_str (json_index "model" native) = Some (au_model authority))) with
          invalid "billing fallback does not match the frozen attempt";
        Ok "failed"%string
      else Err (invalid "only a recorded quota or eligible billing failure allows another attempt")
  | None => Err (invalid "only a recorded quota or eligible billing failure allows another attempt")
  end.

(** The sealed history continues this request's own conversation. *)
Definition continuation_proven (evidence : Value) : result () :=
  let history := json_index "native_history" evidence in
  fail? bool_decide (json_index "seal" history = Null) with
    Unsupported "continuation_unavailable: the previous attempt recorded no native history seal";
  fail? negb (bool_decide (json_index "task_proven" history = Bool true)) with
    Unsupported "continuation_unavailable: the admitted task never reached native history";
  Ok ().

(** The candidates are for the frozen provider at the committed revision, and
    an ordered provider is the frozen one. *)
Definition next_inputs `{Sha256} (db : Db) (catalog : ProviderCatalog) (identity : Value)
  (authority : ResolvedLaunchAuthority) (candidates : QuotaCandidateSet) : result () :=
  try? candidate_set_validate candidates;
  fail? negb (bool_decide (qs_provider candidates = au_provider authority))
        || negb (bool_decide (qs_model candidates = au_model authority))
        || negb (match qs_intent candidates with Auto => true | Pinned _ => false end) with
    invalid "next-attempt inputs disagree with the frozen authority";
  fail? negb (db_capacity_revision db =? qs_capacity_revision candidates) with
    QuotaAdmission (QaSelectionStale (qs_capacity_revision candidates) (db_capacity_revision db));
  let? definition := ok_or (QuotaAdmission (QaNoEligibleAccount (au_provider authority) (au_model authority)))
                       (catalog_provider catalog (au_provider authority)) in
  try? check_ordered_snapshot identity definition;
  fail? df_ordered_accounts definition
        && (negb (bool_decide (au_harness authority = df_harness definition))
            || negb (bool_decide (au_connection authority = df_connection definition))
            || negb (offers definition (au_model authority))) with
    Integrity "ordered provider authority changed";
  Ok ().

(** The accounts the execution has had. *)
Definition tried_accounts (db : Db) (id : string) : list string :=
  omap (λ t, if decide (at_agent t = id) then at_account t else None) (db_attempts db).

(** The frozen identity of a provider run. *)
Definition frozen_identity (db : Db) (id : string) : option Value :=
  match launch_of db id with
  | Some l =>
      match la_identity l with
      | Some frozen =>
          if decide (json_index "provider_identity_version" frozen = num 2) then Some frozen else None
      | None => None
      end
  | None => None
  end.

(** [allocate_next_attempt] up to its writes: the attempt to close, the state
    it is closed with, and the chosen candidate. *)
Definition next_candidate `{Sha256, LaunchSerde} (db : Db) (id : string) (catalog : ProviderCatalog)
  (candidates : QuotaCandidateSet) (at_ : f64) : result (AttemptRow * string * QuotaCandidate) :=
  let? a := row (first_where (λ a, ag_id a = id) (db_agents db)) in
  fail? Status.terminal (ag_status a) with invalid "a terminal agent cannot take another attempt";
  fail? cancel_requested db id with invalid "a cancelled agent cannot take another attempt";
  let? frozen := ok_or (invalid "only provider runs take another attempt") (frozen_identity db id) in
  let? authority := ok_or (Integrity "stored provider authority is malformed")
                      (authority_from_value (json_index "authority" frozen)) in
  let? intent := ok_or (Sql InvalidColumnType)
                   (match launch_of db id with Some l => la_intent l | None => None end) in
  fail? negb (bool_decide (intent = SkAuto)) with
    QuotaAdmission (QaNoEligibleAccount (au_provider authority) (au_model authority));
  let owned := count_where (λ t, at_agent t = id ∧ at_owned t = true) (db_attempts db) in
  let? previous := row (latest_attempt db id) in
  fail? negb (owned =? 1) || negb (at_owned previous) with Conflict;
  fail? negb (bool_decide (at_phase previous = Some "cleanup_complete"%string))
        || negb (is_some (at_cleanup_proof previous)) with
    invalid "the previous attempt has no verified cleanup";
  let evidence := adapter_state db (at_id previous) in
  let? state := closing_state catalog frozen evidence authority previous in
  try? continuation_proven evidence;
  try? next_inputs db catalog frozen authority candidates;
  let tried := tried_accounts db id in
  try? try_fold (λ _, account_id_from_str) ""%string tried;
  let? candidate := choose db catalog (au_provider authority) (au_model authority) authority candidates
                      None None tried at_ in
  Ok (previous, state, candidate).

(** [allocate_next_attempt]; [fresh] is the new UUID, the number is a [u32]. *)
Definition allocate_next_attempt `{Sha256, LaunchSerde} (db : Db) (id : string) (catalog : ProviderCatalog)
  (candidates : QuotaCandidateSet) (at_ : f64) (fresh : string) : result (Db * NextAttempt) :=
  let? (previous, state, candidate) := next_candidate db id catalog candidates at_ in
  let? db := update_one (owned_attempt_of id (at_id previous)) (surrendered state at_) db in
  let attempt := "att_" +:+ fresh in
  let number := (at_number previous + 1) `mod` 2 ^ 32 in
  let? db := insert_attempt db (prepared_attempt attempt id number (qc_account candidate))
               (fresh_evidence attempt at_) in
  let? db := try_fold (insert_quota_key attempt) db (qc_physical_keys candidate) in
  let? db := advance_capacity db in
  let db := fst (tx_event db id at_ (EAttemptAllocated (at_id previous) number (qc_account candidate))) in
  Ok (db, mk_next attempt number (qc_account candidate) (at_id previous)).

(** ** What an allocation writes *)

(** The checks an allocation has passed. *)
Record may_continue `{Sha256, LaunchSerde} (db : Db) (id : string) (catalog : ProviderCatalog)
  (candidates : QuotaCandidateSet) (at_ : f64) (previous : AttemptRow) (c : QuotaCandidate)
  (authority : ResolvedLaunchAuthority) : Prop := {
  mc_alive : ∃ a, first_where (λ a, ag_id a = id) (db_agents db) = Some a ∧ Status.terminal (ag_status a) = false;
  mc_wanted : cancel_requested db id = false;
  mc_authority : ∃ frozen, frozen_identity db id = Some frozen ∧
    authority_from_value (json_index "authority" frozen) = Some authority;
  mc_intent : ∃ l, launch_of db id = Some l ∧ la_intent l = Some SkAuto;
  mc_latest : latest_attempt db id = Some previous;
  mc_owned : at_owned previous = true ∧
    count_where (λ t, at_agent t = id ∧ at_owned t = true) (db_attempts db) = 1;
  mc_cleaned : at_phase previous = Some "cleanup_complete"%string ∧ is_some (at_cleanup_proof previous) = true;
  mc_proven : continuation_proven (adapter_state db (at_id previous)) = Ok ();
  mc_choice : choose db catalog (au_provider authority) (au_model authority) authority candidates
                None None (tried_accounts db id) at_ = Ok c;
}.

Lemma next_candidate_Ok `{Sha256, LaunchSerde} db id catalog candidates at_ previous state c :
  next_candidate db id catalog candidates at_ = Ok (previous, state, c) →
  ∃ authority, may_continue db id catalog candidates at_ previous c authority.
Proof.
  unfold next_candidate. intros E.
  destruct (first_where _ (db_agents db)) as [a|] eqn:Ea; [|done]. simpl in E.
  destruct (Status.terminal _) eqn:Et; [done|]. destruct (cancel_requested db id) eqn:Ec; [done|].
  destruct (frozen_identity db id) as [frozen|] eqn:Ef; [|done]. cbn [ok_or] in E.
  destruct (authority_from_value _) as [authority|] eqn:Eu; [|done]. cbn [ok_or] in E.
  destruct (launch_of db id) as [l|] eqn:El; [|done]. destruct (la_intent l) as [intent|] eqn:Ei; [|done].
  cbn [ok_or] in E. destruct (bool_decide (intent = SkAuto)) eqn:Eb; [|done]. cbn [negb] in E.
  destruct (latest_attempt db id) as [p|] eqn:Ep; [|done]. cbn [row ok_or] in E.
  destruct (_ || negb (at_owned p)) eqn:Eo; [done|].
  destruct (_ || negb (is_some _)) eqn:Eh; [done|].
  destruct (closing_state _ _ _ _ _) as [st|]; [|done].
  destruct (continuation_proven _) as [[]|] eqn:Eq; [|done].
  destruct (next_inputs _ _ _ _ _); [|done]. destruct (try_fold _ _ _); [|done].
  destruct (choose _ _ _ _ _ _ _ _ _ _) as [c'|] eqn:Ech; [|done]. injection E as <- <- <-.
  to_prop. exists authority. split; try done; eauto. by subst intent; eauto.
Qed.

Record allocated `{Sha256, LaunchSerde} (db : Db) (id : string) (catalog : ProviderCatalog)
  (candidates : QuotaCandidateSet) (at_ : f64) (fresh : string) (db' : Db) (r : NextAttempt)
  (previous : AttemptRow) (state : string) (c : QuotaCandidate) : Prop := {
  al_checks : ∃ authority, may_continue db id catalog candidates at_ previous c authority;
  al_answer : r = mk_next ("att_" +:+ fresh) ((at_number previous + 1) `mod` 2 ^ 32) (qc_account c) (at_id previous);
  al_attempts : db_attempts db' =
    update_where (owned_attempt_of id (at_id previous)) (surrendered state at_) (db_attempts db)
    ++ [prepared_attempt (nx_attempt r) id (nx_number r) (qc_account c)];
  al_new : ∀ x, x ∈ db_attempts db → at_id x ≠ nx_attempt r;
  al_agents : db_agents db' = db_agents db;
  al_launches : launches db' = launches db;
  al_keys : quota_keys db' = quota_keys db ++ map (mk_quota_key (nx_attempt r)) (qc_physical_keys c);
  al_revision : db_capacity_revision db' = db_capacity_revision db + 1;
  al_rest : tables_untouched db db';
}.

Lemma allocate_Ok `{Sha256, LaunchSerde} db id catalog candidates at_ fresh db' r :
  allocate_next_attempt db id catalog candidates at_ fresh = Ok (db', r) →
  ∃ previous state c, allocated db id catalog candidates at_ fresh db' r previous state c.
Proof.
  unfold allocate_next_attempt. intros E. cbv zeta in E.
  destruct (next_candidate _ _ _ _ _) as [[[p st] c]|] eqn:En; [|done]. apply next_candidate_Ok in En.
  unfold update_one in E. destruct (negb _); [done|].
  pose proof (moved_attempts _ _ _ _ _ _ (moved_start db)
    (update_where (owned_attempt_of id (at_id p)) (surrendered st at_) (db_attempts db))) as M1.
  match type of M1 with moved _ ?d _ _ _ _ => set (d1 := d) in * end. clearbody d1.
  destruct (insert_attempt d1 _ _) as [d2|] eqn:Ei; [|done].
  apply (moved_insert_attempt _ _ _ _ _ _ M1) in Ei as (M2 & Hnew & _). clear M1 d1.
  destruct (try_fold _ _ _) as [d3|] eqn:Ek; [|done]. apply (moved_keys _ _ _ _ _ _ _ _ _ M2) in Ek. clear M2 d2.
  unfold advance_capacity in E. destruct (negb _); [done|]. apply ok_pair_inj in E as [<- <-].
  exists p, st, c. destruct Ek as [EA ET _ EL EC [U1 U2 U3 U4 U5 U6 U7 U8 U9 U10]].
  split; cbn [nx_attempt nx_number]; [done|done|exact ET| |exact EA| | | |].
  - intros x Hx Hid.
    assert (at_id x ∈ map at_id (update_where (owned_attempt_of id (at_id p)) (surrendered st at_) (db_attempts db)))
      as Hin by (rewrite map_update_where by done; by apply list_elem_of_fmap_2).
    apply list_elem_of_fmap in Hin as (y & Ey & Hy). destruct (Hnew y Hy) as [Hn _]. apply Hn. simpl. congruence.
  - unfold launches. cbn [fst tx_event insert_event db_launch set_capacity_revision]. simpl. by rewrite EL.
  - unfold quota_keys at 1. simpl. by rewrite EL.
  - simpl. by rewrite EC.
  - by split.
Qed.
