(* ===== verification/Starts.v ===== *)
(** * Starting an execution

    [admit_provider_lineage] of [provider_admission.rs]: the replay of a
    request, the lineage of a resume and the admission of a new execution in
    one transaction; and the admission of historical runtime requests of
    [admission.rs]. *)

From S2P Require Import Prelude Text Float64 Json Canonical Lifecycle Requests PoolDomain.
From S2P Require Import ProviderCatalog Tables Roster World WorkerStore Sessions ServiceRestart.
From S2P Require Import PoolReplace WorkerFinish Evidence LaunchIdentity Restart ProviderAdmit Attempts.

(** ** Replays *)

Definition request_id_of (db : Db) (a : AgentRow) : option string :=
  match launch_of db (ag_id a) with Some l => la_request_id l | None => None end.
Definition parent_of (db : Db) (a : AgentRow) : option string :=
  match launch_of db (ag_id a) with Some l => la_parent l | None => None end.
Definition identity_of (db : Db) (a : AgentRow) : option Value :=
  match launch_of db (ag_id a) with Some l => la_identity l | None => None end.

(** [replay_session]. *)
Definition replay_session (db : Db) (request : StartRequest) : result (option string) :=
  match sq_orchestrator request with
  | None => Ok None
  | Some reference => let? sessions := session_ids_for_reference db reference in Ok (head sessions)
  end.

(** The rows of a request without an orchestrator, the oldest first. *)
Definition local_row (db : Db) (request_id : string) (a : AgentRow) : Prop :=
  request_id_of db a = Some request_id ∧ (ag_session a = None ∨ sq_orchestrator (ag_request a) = None).
#[global] Instance local_row_dec db request_id a : Decision (local_row db request_id a).
Proof. unfold local_row. apply _. Defined.
Definition local_replay (db : Db) (request_id : string) : option AgentRow :=
  best_by (λ x y, flt (ag_created_at y) (ag_created_at x)) (filter (local_row db request_id) (db_agents db)).

(** The transport of the session an agent is joined with, in the family. *)
Definition family_transport (db : Db) (external canonical legacy : string) (a : AgentRow) : option string :=
  match ag_session a with
  | Some s =>
      option_map os_transport
        (first_where (λ o, os_id o = s ∧ os_external_session_id o = external ∧
                           (os_transport o = canonical ∨ os_transport o = legacy)) (db_sessions db))
  | None => None
  end.

(** The rows of a session family, the canonical transport first, then by age. *)
Definition family_row (db : Db) (request_id external canonical legacy : string) (a : AgentRow) : Prop :=
  request_id_of db a = Some request_id ∧ family_transport db external canonical legacy a ≠ None.
#[global] Instance family_row_dec db request_id external canonical legacy a :
  Decision (family_row db request_id external canonical legacy a).
Proof. unfold family_row. apply _. Defined.
Definition family_le (db : Db) (external canonical legacy : string) (x y : AgentRow) : bool :=
  let canonical_row a := bool_decide (family_transport db external canonical legacy a = Some canonical) in
  if Bool.eqb (canonical_row x) (canonical_row y) then flt (ag_created_at y) (ag_created_at x) else canonical_row y.
Definition session_replay (db : Db) (request_id external canonical legacy : string) : option AgentRow :=
  best_by (family_le db external canonical legacy)
    (filter (family_row db request_id external canonical legacy) (db_agents db)).

(** [replay_in_transaction]. *)
Definition replay_in_transaction (db : Db) (request : StartRequest) (session : option string)
  : result (option AgentRow) :=
  match sq_request_id request with
  | None => Ok None
  | Some request_id =>
      match sq_orchestrator request with
      | None => Ok (local_replay db request_id)
      | Some reference =>
          if is_some session then
            let? canonical := canonical_transport_name (transport reference) in
            let? legacy := legacy_transport reference in
            Ok (session_replay db request_id (external_session_id reference) canonical legacy)
          else Ok None
      end
  end.

(** [replay_request], the read outside a transaction. *)
Definition replay_request (db : Db) (request : StartRequest) : result (option AgentRow) :=
  match sq_request_id request with
  | None => Ok None
  | Some request_id =>
      match sq_orchestrator request with
      | None => Ok (local_replay db request_id)
      | Some reference =>
          let? canonical := canonical_transport_name (transport reference) in
          let? legacy := legacy_transport reference in
          Ok (session_replay db request_id (external_session_id reference) canonical legacy)
      end
  end.

(** [value[key] = v] on an object. *)
Fixpoint map_set {A} (key : string) (v : A) (m : list (string * A)) : list (string * A) :=
  match m with
  | [] => [(key, v)]
  | (k, w) :: m' =>
      if bool_decide (k = key) then (key, v) :: m'
      else if bool_decide (String.le key k) then (key, v) :: m
      else (k, w) :: map_set key v m'
  end.
Definition json_set (key : string) (v value : Value) : Value :=
  match value with Obj m => Obj (map_set key v m) | Null => Obj [(key, v)] | other => other end.

(** The request document with another spelling of its transport. *)
Definition respelled (transport : string) (request : Value) : Value :=
  json_set "orchestrator" (json_set "transport" (Str transport) (json_index "orchestrator" request)) request.

(** [ProviderStartRequest::from_history]. *)
Definition from_history `{LaunchSerde} (document : Value) : result ProviderStartRequest :=
  let document :=
    match document with
    | Obj m =>
        let m := without "timeout_seconds" m in
        Obj (if is_some (map_get "explicit_finish" m) then m else map_set "explicit_finish" (Bool false) m)
    | other => other
    end in
  ok_or JsonFailure (request_from_value document).

(** The digests a stored request may have been recorded under. *)
Definition original_digests `{Sha256} (raw : Value) (historical : ProviderStartRequest) : result (list string) :=
  match ps_orchestrator historical with
  | None => Ok [sha256_hex raw true]
  | Some reference =>
      let? canonical := canonical_transport_name (transport reference) in
      let? legacy := legacy_transport reference in
      Ok [sha256_hex raw true; sha256_hex (respelled canonical raw) true; sha256_hex (respelled legacy raw) true]
  end.

(** The digests the repeated request is recognized by. *)
Definition fingerprints `{Sha256} (request : ProviderStartRequest) : result (list string) :=
  match ps_orchestrator request with
  | None => Ok [request_digest request]
  | Some reference =>
      let? alias := legacy_transport reference in
      Ok [request_digest request; sha256_hex (respelled alias (request_value request)) true]
  end.

(** [replayed]. *)
Definition replayed_admission `{Sha256, LaunchSerde} (db : Db) (found : AgentRow) (request : ProviderStartRequest)
  : result ProviderAdmission :=
  let? prints := fingerprints request in
  let? frozen := ok_or Conflict (identity_of db found) in
  let raw := json_index "provider_request" frozen in
  let? historical := from_history raw in
  let? originals := original_digests raw historical in
  fail? negb (bool_decide (json_index "provider_identity_version" frozen = num 2))
        || negb (is_some_and (λ previous, bool_decide (previous ∈ originals))
                   (json_str (json_index "replay_request_sha256" frozen)))
        || negb (bool_decide (request_digest historical ∈ prints)) with Conflict;
  let? t := row (first_where (λ t, at_agent t = ag_id found ∧ at_number t = 1) (db_attempts db)) in
  let? account := ok_or (Sql InvalidColumnType) (at_account t) in
  let? account := account_id_from_str account in
  Ok (mk_provider_admission (ag_id found) (at_id t) account false).

(** [replay]. *)
Definition replay_provider_request `{Sha256, LaunchSerde} (db : Db) (request : ProviderStartRequest)
  : result (option ProviderAdmission) :=
  let? found := replay_request db (storage_projection request) in
  match found with
  | Some found => let? admission := replayed_admission db found request in Ok (Some admission)
  | None => Ok None
  end.

(** ** Resumes *)

(** [serde_json::to_string] of the stored documents. *)
Class JsonWriter := { value_text : Value → string; request_text : StartRequest → string }.

(** [resume_preflight_digest]. *)
Definition resume_preflight_digest `{Sha256, JsonWriter} (db : Db) (parent : string) : result string :=
  let? a := row (first_where (λ a, ag_id a = parent) (db_agents db)) in
  let? t := row (latest_attempt db parent) in
  let? phase := ok_or (Sql InvalidColumnType) (at_phase t) in
  Ok (sha256_hex
        (Arr [Str (request_text (ag_request a)); opt_value (λ v, Str (value_text v)) (identity_of db a);
              Str (Status.as_str (ag_status a)); opt_value Str (ag_runtime_session a); Str (at_id t);
              Str (value_text (adapter_state db (at_id t))); opt_value Str (at_account t); Str phase;
              num (Z.b2z (at_owned t))]) true).

(** [refuse_prepared_resume_home]. *)
Definition refuse_prepared_resume_home (db : Db) (frozen : Value) : result () :=
  match json_str (json_index "runtime_home" frozen) with
  | Some home =>
      fail? negb (blank home) && bool_decide (home ∈ lt_prepared_homes (db_launch db)) with
        Unsupported ("continuation_unavailable: runtime home " +:+ home +:+ " has a prepared storage layout that must be committed before a new continuation is admitted");
      Ok ()
  | None => Ok ()
  end.

(** What a resume must prove of its parent. *)
Definition resume_lineage `{Sha256, JsonWriter, ProcessTable} (db : Db) (resume : ProviderResume)
  : result ResumeLineage :=
  let parent := rm_parent resume in
  let? lineage := resume_parent db parent in
  let? current :=
    match rm_digest resume with
    | Some expected => let? found := resume_preflight_digest db parent in Ok (bool_decide (found = expected))
    | None => Ok true
    end in
  fail? negb current with ExecutionChanged;
  fail? exists_where (λ t, at_agent t = parent ∧
                           (at_cleanup_proof t = None ∨
                            is_some_and (λ phase, negb (bool_decide (phase = "cleanup_complete"%string)))
                              (at_phase t) = true)) (db_attempts db) with
    Unsupported ("continuation_unavailable: agent " +:+ parent +:+ " has an attempt without cleanup proof");
  try? check_opt (refuse_prepared_resume_home db)
         (match launch_of db parent with Some l => la_identity l | None => None end);
  Ok lineage.

(** ** The transaction *)

(** The check a restart or the open service makes of an admission. *)
Definition admission_gate (db : Db) (restart : option Z) (parent : string) : result () :=
  match restart with
  | Some restart => require_restart_resume db restart parent
  | None => require_admissions_open db
  end.

(** [UPDATE service_restart_agents SET resumed_execution_id]. *)
Definition link_resumed (db : Db) (restart : option Z) (parent child : string) : result Db :=
  match restart with
  | None => Ok db
  | Some restart =>
      let open_row a := ra_restart a = restart ∧ ra_agent a = parent ∧ ra_resumed_execution a = None in
      fail? negb (count_where open_row (db_restart_agents db) =? 1) with Conflict;
      Ok (set_restart_agents (update_where open_row (resumed_as child) (db_restart_agents db)) db)
  end.

Section lineage.
Context `{Sha256, LaunchSerde, JsonWriter, ProcessTable}.

(** A recorded request of the same intent, if the session family is known. *)
Definition replay_found (db : Db) (request : StartRequest) : result (option AgentRow) :=
  let? session := replay_session db request in
  if negb (is_some (sq_orchestrator request)) || is_some session
  then replay_in_transaction db request session else Ok None.

(** [admit_provider_lineage]; [id] is [AgentId::new()]. *)
Definition admit_provider_lineage (db : Db) (catalog : ProviderCatalog) (i : AdmissionInputs)
  (resume : option ProviderResume) (id : string) (env : LaunchEnv) : result (Db * ProviderAdmission) :=
  let? found := replay_found db (in_effective i) in
  match found with
  | Some found =>
      fail? negb (bool_decide (parent_of db found = option_map rm_parent resume)) with Conflict;
      let? admission := replayed_admission db found (in_request i) in Ok (db, admission)
  | None =>
      let restart := match resume with Some r => rm_restart r | None => None end in
      let parent := match resume with Some r => rm_parent r | None => ""%string end in
      try? admission_gate db restart parent;
      let? lineage :=
        match resume with
        | Some r => let? lineage := resume_lineage db r in Ok (Some (r, lineage))
        | None => Ok None
        end in
      let? (db, admission) := admit_provider_in_tx db catalog id i lineage env in
      let? db := link_resumed db restart parent (pv_agent admission) in
      let? db := advance_capacity db in
      Ok (db, admission)
  end.

(** [admit_provider] and [admit_provider_resume]. *)
Definition admit_provider (db : Db) (catalog : ProviderCatalog) (i : AdmissionInputs) (id : string) (env : LaunchEnv) :=
  admit_provider_lineage db catalog i None id env.
Definition admit_provider_resume (db : Db) (catalog : ProviderCatalog) (i : AdmissionInputs)
  (resume : ProviderResume) (id : string) (env : LaunchEnv) :=
  admit_provider_lineage db catalog i (Some resume) id env.
End lineage.

(** ** Historical runtime requests *)

(** [config.rs]: the parts of the configuration an admission reads. *)
Record Runtime := mk_runtime { rt_name : string; rt_enabled : bool; rt_max_active : option Z }.
Record Config := mk_config { cf_max_active : Z; cf_runtimes : list Runtime }.

(** [Config::runtime]. *)
Definition config_runtime (c : Config) (name : string) : result Runtime :=
  match first_where (λ r, rt_name r = name) (cf_runtimes c) with
  | Some r => fail? negb (rt_enabled r) with invalid "runtime is not enabled"; Ok r
  | None => Err (invalid "runtime is not enabled")
  end.

#[global] Instance start_request_eq_dec : EqDecision StartRequest.
Proof. solve_decision. Defined.

(** [==] on requests: paths are compared by their components. *)
Fixpoint paths_eq (l l' : list string) : bool :=
  match l, l' with
  | [], [] => true
  | p :: l, p' :: l' => path_eq p p' && paths_eq l l'
  | _, _ => false
  end.
Definition start_request_eq (x y : StartRequest) : bool :=
  path_eq (sq_workdir x) (sq_workdir y) && paths_eq (sq_read_roots x) (sq_read_roots y)
  && bool_decide (sq_set_paths x "" [] = sq_set_paths y "" []).

(** [replay_request_equivalent]. *)
Definition replay_request_equivalent (found request : StartRequest) : bool :=
  match sq_orchestrator found, sq_orchestrator request with
  | Some f, Some r =>
      match canonical_transport_name (transport f), canonical_transport_name (transport r) with
      | Ok ft, Ok rt =>
          bool_decide (ft = rt) &&
          start_request_eq
            (sq_set_intent found (sq_display_name found)
               (Some (mk_orchestrator ft (external_session_id f) (external_turn_id f))))
            (sq_set_intent request (sq_display_name request)
               (Some (mk_orchestrator rt (external_session_id r) (external_turn_id r))))
      | _, _ => false
      end
  | None, None => start_request_eq found request
  | _, _ => false
  end.

(** [ensure_same_replay]. *)
Definition ensure_same_replay (db : Db) (found : AgentRow) (request : StartRequest) (frozen : Value)
  (parent : option string) : result () :=
  let hash v := json_str (json_index "replay_request_sha256" v) in
  let same :=
    match hash frozen, match identity_of db found with Some v => hash v | None => None end with
    | Some current, Some previous => bool_decide (current = previous)
    | _, _ => replay_request_equivalent (ag_request found) request
    end in
  fail? negb same || negb (bool_decide (parent_of db found = parent)) with Conflict;
  Ok ().

(** [replay_resume_child]. *)
Definition replay_resume_child (db : Db) (request : StartRequest) (parent : string) : result (option AgentRow) :=
  let? found := replay_request db request in
  Ok (match found with
      | Some f =>
          if bool_decide (parent_of db f = Some parent) && replay_request_equivalent (ag_request f) request
          then Some f else None
      | None => None
      end).

(** The caps of the configuration. *)
Definition runtime_capacity_left (db : Db) (config : Config) (runtime : Runtime) (name : string) : bool :=
  (active_agents db <? cf_max_active config)
  && is_none_or (λ limit, count_where (λ a, is_active a ∧ ag_runtime a = name) (db_agents db) <? limit)
       (rt_max_active runtime).

(** The rows of a historical admission. *)
Definition runtime_agent (request : StartRequest) (frozen : Value) (id : string) (session : option string)
  (lineage : option ResumeLineage) (at_ : f64) : AgentRow :=
  mk_agent id (match lineage with Some l => rl_root l | None => id end)
    (match lineage with Some l => rl_sequence l | None => 1 end) at_ Starting None session request
    (bool_decide (json_index "provider_identity_version" frozen = num 2))
    None None None None None (sq_display_name request) (Some false) (sq_runtime request) (sq_model request).
Definition runtime_launch (request : StartRequest) (revision : string) (frozen : Value) (id : string)
  (parent : option string) (lineage : option ResumeLineage) : LaunchRow :=
  mk_launch id (sq_request_id request) (sq_profile request) (task_summary (sq_task request)) (sq_workdir request)
    revision parent (option_map rl_session lineage) (Some frozen) None None None None None.

(** [admit_with_restart]: the new or the recorded execution, and whether it
    is new. *)
Definition admit_with_restart `{FileSystem, ProcessTable} (db : Db) (request : StartRequest) (config : Config)
  (revision : string) (frozen : Value) (parent : option string) (restart : option Z) (id : string) (env : LaunchEnv)
  : result (Db * (string * bool)) :=
  try? nonblank "config_revision" revision;
  let? checked := start_validate request in
  let? found := replay_found db checked in
  match found with
  | Some found => try? ensure_same_replay db found checked frozen parent; Ok (db, (ag_id found, false))
  | None =>
      fail? is_some restart && negb (is_some parent) with Conflict;
      try? admission_gate db restart (default "" parent);
      let? runtime := config_runtime config (sq_runtime checked) in
      fail? negb (runtime_capacity_left db config runtime (sq_runtime checked)) with Capacity;
      let? lineage :=
        match parent with
        | Some parent => let? lineage := resume_parent db parent in Ok (Some lineage)
        | None => Ok None
        end in
      try? check_opt (refuse_prepared_resume_home db)
             (match parent with
              | Some parent => match launch_of db parent with Some l => la_identity l | None => None end
              | None => None
              end);
      let? (db, session) := upsert_session db checked (le_session env) in
      let? db :=
        match insert_agent db (runtime_agent checked frozen id session lineage (le_now env))
                (runtime_launch checked revision frozen id parent lineage) with
        | Ok db => Ok db
        | Err e =>
            if is_some_and (λ p, exists_where (λ l, la_parent l = Some p) (launches db)) parent
            then Err Conflict else Err e
        end in
      let db :=
        match le_owner env with
        | Some owner =>
            on_launch (set_launches (update_where (λ l, la_agent l = id) (with_owner owner) (launches db))) db
        | None => db
        end in
      let db := fst (tx_event db id (le_now env) ECreated) in
      let db := fst (tx_event db id (le_now env) (EStartAccepted None)) in
      let? db := link_resumed db restart (default "" parent) id in
      Ok (db, (id, true))
  end.

(** [admit_with_config_revision] and [admit]. *)
Definition admit_with_config_revision `{FileSystem, ProcessTable} (db : Db) (request : StartRequest) (config : Config)
  (revision : string) (frozen : Value) (parent : option string) (id : string) (env : LaunchEnv) :=
  admit_with_restart db request config revision frozen parent None id env.
Definition admit_runtime `{FileSystem, ProcessTable} (db : Db) (request : StartRequest) (config : Config) (frozen : Value)
  (parent : option string) (id : string) (env : LaunchEnv) :=
  admit_with_config_revision db request config "pending:materialization" frozen parent id env.
