(* ===== verification/LaunchDemo.v ===== *)
(** * A concrete provider run

    Decoders for the frozen documents, and a run of the two-account provider
    of [ProviderCatalog] that exhausts its first account and continues on the
    second, for evaluating the definitions on real inputs. *)

From S2P Require Import Prelude Text Float64 Json Canonical Lifecycle Requests PoolDomain.
From S2P Require Import ProviderCatalog Tables Demo Evidence LaunchIdentity Restart ProviderAdmit.
From S2P Require Import Selection Attempts Starts.

(** ** Decoding *)

Definition str_at (key : string) (v : Value) : option string := json_str (json_index key v).
Definition strs_at (key : string) (v : Value) : option (list string) :=
  match json_index key v with Arr l => mapM json_str l | _ => None end.

Definition decode_connection (v : Value) : option ProviderConnection :=
  match str_at "kind" v with
  | Some kind =>
      if decide (kind = "native"%string) then Some Native
      else
        endpoint ← str_at "endpoint" v;
        protocol ← str_at "protocol" v;
        header ← str_at "auth_header" v;
        Some (Custom endpoint (if decide (protocol = "responses"%string) then Responses else Messages)
                (if decide (header = "bearer"%string) then Bearer else XApiKey)
                (bool_decide (json_index "allow_loopback_http" v = Bool true)))
  | None => None
  end.

Definition decode_authority (v : Value) : option ResolvedLaunchAuthority :=
  provider ← str_at "provider" v;
  harness ← str_at "harness" v;
  harness ← (match harness_from_str harness with Ok h => Some h | Err _ => None end);
  connection ← decode_connection (json_index "connection" v);
  model ← str_at "model" v;
  profile ← str_at "profile" v;
  workdir ← str_at "workdir" v;
  assets ← str_at "assets_sha256" v;
  accounts ← strs_at "eligible_accounts" v;
  Some (mk_authority provider harness connection model (str_at "effort" v) profile workdir
          (json_index "role_payload" v) assets accounts).

Lemma mapM_json_str l : mapM json_str (map Str l) = Some l.
Proof. induction l as [|s l IH]; [done|]. simpl. by rewrite IH. Qed.

Lemma decode_connection_json c : decode_connection (connection_json c) = Some c.
Proof. by destruct c as [|? [] [] []]. Qed.

Lemma decode_authority_value a : decode_authority (authority_value a) = Some a.
Proof.
  unfold decode_authority, strs_at, str_at. set (v := authority_value a).
  assert (json_index "provider" v = Str (au_provider a)) as -> by done.
  assert (json_index "harness" v = Str (harness_str (au_harness a))) as -> by done.
  assert (json_index "connection" v = connection_json (au_connection a)) as -> by done.
  assert (json_index "model" v = Str (au_model a)) as -> by done.
  assert (json_index "profile" v = Str (au_profile a)) as -> by done.
  assert (json_index "workdir" v = Str (au_workdir a)) as -> by done.
  assert (json_index "assets_sha256" v = Str (au_assets_sha256 a)) as -> by done.
  assert (json_index "eligible_accounts" v = Arr (map Str (au_eligible_accounts a))) as -> by done.
  assert (json_index "effort" v = opt_value Str (au_effort a)) as -> by done.
  assert (json_index "role_payload" v = au_role_payload a) as -> by done.
  rewrite decode_connection_json, mapM_json_str. cbn [json_str mbind option_bind].
  assert (harness_from_str (harness_str (au_harness a)) = Ok (au_harness a)) as -> by by destruct (au_harness a).
  cbn [mbind option_bind]. destruct a as [? ? ? ? [] ? ? ? ? ?]; done.
Qed.

(** ** A run *)

Definition demo_glm_start : ProviderStartRequest :=
  mk_provider_start "glm" "glm-5" "default" "fix  it" "/work" false [] None None None false true PObserve None
    (Some "req-1") None [] [].

#[export] Instance demo_launch_serde : LaunchSerde :=
  {| authority_from_value := decode_authority;
     authority_reads_back := λ a _, decode_authority_value a;
     request_from_value := λ v, if decide (v = request_value demo_glm_start) then Some demo_glm_start else None;
     connection_from_value := decode_connection;
     bindings_from_value := λ v,
       if decide (v = Arr (map binding_value (df_bindings demo_provider))) then Some (df_bindings demo_provider)
       else None |}.
#[export] Instance demo_writer : JsonWriter :=
  {| value_text := λ v, of_bytes (dumps v true); request_text := sq_task |}.
#[export] Instance demo_processes : ProcessTable := {| group_absent := λ _, true |}.

Definition demo_role : Value := Obj [fld "role_name" (Str "default")].
Definition demo_launch_authority : ResolvedLaunchAuthority :=
  mk_authority "glm" ClaudeCode (df_connection demo_provider) "glm-5" None "default" "/work"
    (Obj [fld "config_revision" (Str (sha256_hex demo_role true)); fld "role_name" (Str "default")])
    (of_bytes (repeat 97 64)) ["acct-1"; "acct-2"].

(** The configuration frozen into the identity. *)
Definition demo_document : Value :=
  Obj [fld "harnesses" (Obj []); fld "providers" (Obj [fld "glm" (definition_value demo_provider)])].
Definition demo_snapshot : Value := Eval vm_compute in
  match snapshot_document demo_document with Ok v => v | Err _ => Null end.

Definition demo_identity : Value :=
  Obj [fld "authority" (authority_value demo_launch_authority); fld "provider_config" demo_document;
       fld "provider_config_snapshot" demo_snapshot; fld "provider_identity_version" (num 2);
       fld "provider_request" (request_value demo_glm_start);
       fld "replay_request_sha256" (Str (request_digest demo_glm_start))].

Definition demo_inputs : AdmissionInputs :=
  mk_inputs demo_glm_start (storage_projection demo_glm_start) demo_launch_authority demo_candidates demo_identity 2 None None.

Definition demo_env : LaunchEnv := mk_launch_env (of_Z 100) "s1" "u1" (Some ("4711"%string, of_Z 90)).

(** An empty store with the two accounts registered. *)
Definition demo_store : Db :=
  set_launch
    (mk_launch_tables [] []
       [mk_account "acct-1" "anthropic" "env:KEY_ONE" true; mk_account "acct-2" "anthropic" "env:KEY_TWO" true]
       [] [] [] [] []) (mk_db [] [] [] [] [] [] [] [] [] [] [] [] [] [] [] 0 0 0 0 no_launches).

(** What a transaction commits. *)
Definition committed {A} (db : Db) (x : result (Db * A)) : Db := match x with Ok (db', _) => db' | Err _ => db end.
Definition kept_db (db : Db) (x : result Db) : Db := match x with Ok db' => db' | Err _ => db end.

Definition demo_glm_started : Db := Eval vm_compute in committed demo_store (admit_provider demo_store demo_catalog demo_inputs "ag-1" demo_env).
Definition demo_spawned : Db := Eval vm_compute in committed demo_glm_started (provider_spawning demo_glm_started "ag-1" "att_u1").
Definition demo_process : Db := Eval vm_compute in
  kept_db demo_spawned (provider_process_evidence demo_spawned "ag-1" "att_u1" (mk_identity "tok" (of_Z 101)) None).
Definition demo_cleanup : Cleanup := mk_cleanup ["SIGTERM"] "verified_descendants" true (Some true) true (Some 77).
Definition demo_stopped : Db := Eval vm_compute in kept_db demo_process (provider_cleanup demo_process "ag-1" "att_u1" demo_cleanup).

(** The provider rejected the first account's five-hour window. *)
Definition demo_failure : Value :=
  Obj [fld "binding_cooldown_recorded" (Str "quota_exhausted");
       fld "native_failure"
         (Obj [fld "account" (Str "acct-1"); fld "attempt" (Str "att_u1"); fld "class" (Str "quota_exhausted");
               fld "model" (Str "glm-5"); fld "provider" (Str "glm");
               fld "signal" (Str "claude.rate_limit_event.rejected"); fld "window" (Str "five_hour")]);
       fld "native_history" (Obj [fld "seal" (Str "s"); fld "task_proven" (Bool true)])].
Definition demo_exhausted : Db := Eval vm_compute in
  kept_db demo_stopped
    (provider_history_with_cooldown demo_stopped "ag-1" "att_u1" demo_failure (Some BcQuotaExhausted) (of_Z 200)).

(** The candidates at the revision the cooldown has left. *)
Definition demo_next_candidates : QuotaCandidateSet :=
  mk_candidates "glm" "glm-5" Auto (qs_candidates demo_candidates) 2.
Definition demo_switched : Db := Eval vm_compute in
  committed demo_exhausted
    (allocate_next_attempt demo_exhausted "ag-1" demo_catalog demo_next_candidates (of_Z 210) "u2").


(** The run ends on the second account. *)
Lemma demo_glm_run : owned_provider_attempt demo_switched "ag-1" = Ok ("att_u2"%string, "acct-2"%string).
Proof. by vm_compute. Qed.
