(* ===== verification/Supervision.v ===== *)
(** * Binding, sealing and running an execution

    The store units between the admission of an execution and its end that
    write its row: [bind_orchestrator] and [running] of [agent-run-store]
    [lib.rs] and [seal_identity] of [supervisor_units.rs]; and the stored form
    of a request as [service.rs] builds it for a start and for a resume. *)

From S2P Require Import Prelude Text Float64 Json Canonical Lifecycle Requests PoolDomain.
From S2P Require Import ProviderCatalog Tables Roster World WorkerStore Sessions ServiceRestart.
From S2P Require Import PoolSettle PoolReplace WorkerFinish Evidence Outbox LaunchIdentity Restart.
From S2P Require Import ProviderAdmit Attempts Starts.

(** ** The stored form of a request *)

(** The fields of the resolved profile and configuration that [prepare_provider]
    writes over the projection of a request. *)
Record ResolvedStart := mk_resolved {
  rv_codex_fast : bool;                   (* Codex harness in fast mode *)
  rv_effort : option string;
  rv_write : bool;
  rv_read_roots : list string;
  rv_constraints : list Constraint;
}.

(** [service.rs] [prepare_provider]: the effective request. *)
Definition start_effective (request : ProviderStartRequest) (v : ResolvedStart) : StartRequest :=
  let p := storage_projection request in
  mk_start (sq_runtime p) (sq_model p) (sq_profile p) (sq_task p) (sq_workdir p) (rv_write v)
    (sq_fast p || rv_codex_fast v) (sq_explicit_finish p) (sq_idle_ping p) (rv_effort v) (sq_display_name p)
    (rv_read_roots v) (sq_output_schema p) (sq_orchestrator p) (sq_request_id p) (sq_account p)
    (rv_constraints v).

(** [service.rs] [admit_provider_resume_for]: the effective request of a
    resume, from the stored request of its parent. *)
Definition resume_effective (parent : StartRequest) (request : ProviderStartRequest) (codex_fast : bool) : StartRequest :=
  mk_start (sq_runtime parent) (sq_model parent) (sq_profile parent) (ps_task request) (sq_workdir parent)
    (sq_write parent) (ps_fast request || codex_fast) (sq_explicit_finish parent) (sq_idle_ping parent)
    (sq_effort parent) (ps_display_name request) (sq_read_roots parent) (sq_output_schema parent)
    (ps_orchestrator request) (ps_request_id request) (sq_account parent) (sq_required_constraints parent).

(** The inputs of an admission as the service prepares them. *)
Definition prepared (i : AdmissionInputs) : Prop :=
  (∃ v, in_effective i = start_effective (in_request i) v) ∨
  (∃ parent fast, in_effective i = resume_effective parent (in_request i) fast).

Lemma prepared_identity i :
  prepared i →
  sq_request_id (in_effective i) = ps_request_id (in_request i) ∧
  sq_orchestrator (in_effective i) = ps_orchestrator (in_request i).
Proof. by intros [[v ->]|(parent & fast & ->)]. Qed.

(** ** Sealing *)

(** [hex64]. *)
Definition hex64 (label value : string) : result () :=
  fail? negb (len value =? 64) || negb (forallb is_lower_hex (bytes value)) with
    invalid (label +:+ " must be a lowercase SHA-256");
  Ok ().

(** [ops::UpdateIdentity]. *)
Record UpdateIdentity := mk_update_identity {
  ui_execution : string;
  ui_expected_revision : string;
  ui_new_revision : string;
  ui_runtime_home : string;
  ui_snapshot_sha256 : string;
  ui_assets_sha256 : option string;
}.

(** SQLite's [json_set] at [$.key]: it writes into an object and leaves every
    other value as it is. *)
Definition json_put (key : string) (v value : Value) : Value :=
  match value with Obj m => Obj (map_set key v m) | other => other end.

(** At [$.outer.key]: a missing outer object is created. *)
Definition json_put_in (outer key : string) (v value : Value) : Value :=
  match value with
  | Obj m => Obj (map_set outer (json_put key v (default (Obj []) (map_get outer m))) m)
  | other => other
  end.

(** The identity a seal stores. *)
Definition sealed_identity (op : UpdateIdentity) (identity : Value) : Value :=
  let value :=
    json_put "snapshot_sha256" (Str (ui_snapshot_sha256 op))
      (json_put "runtime_home" (Str (ui_runtime_home op)) identity) in
  match ui_assets_sha256 op with
  | Some assets => json_put_in "authority" "assets_sha256" (Str assets) value
  | None => value
  end.

Definition sealed_launch (op : UpdateIdentity) (l : LaunchRow) : LaunchRow :=
  mk_launch (la_agent l) (la_request_id l) (la_profile l) (la_task_summary l) (la_workdir l)
    (ui_new_revision op) (la_parent l) (la_resume_of l) (option_map (sealed_identity op) (la_identity l))
    (la_intent l) (la_requested_account l) (la_owner l) (la_supervisor l) (la_process_group l).

(** The row [seal_identity] updates. *)
Definition sealable (db : Db) (op : UpdateIdentity) (l : LaunchRow) : Prop :=
  la_agent l = ui_execution op ∧ la_config_revision l = ui_expected_revision op ∧ la_identity l ≠ None ∧
  exists_where (λ a, ag_id a = ui_execution op ∧ ag_status a = Starting) (db_agents db) = true.
#[global] Instance sealable_dec db op l : Decision (sealable db op l).
Proof. unfold sealable. apply _. Defined.

(** [seal_identity]. *)
Definition seal_identity (db : Db) (op : UpdateIdentity) : result Db :=
  try? hex64 "snapshot digest" (ui_snapshot_sha256 op);
  try? check_opt (hex64 "assets digest") (ui_assets_sha256 op);
  fail? is_empty (ui_runtime_home op) || is_empty (ui_new_revision op) || is_empty (ui_expected_revision op) with
    invalid "identity seal fields must be nonblank";
  fail? negb (count_where (sealable db op) (launches db) =? 1) with Conflict;
  Ok (on_launch (set_launches (update_where (sealable db op) (sealed_launch op) (launches db))) db).

(** ** Running *)

Definition with_status_of (status : Status) (a : AgentRow) : AgentRow :=
  mk_agent (ag_id a) (ag_root a) (ag_sequence a) (ag_created_at a) status
    (ag_finished_at a) (ag_session a) (ag_request a) (ag_identity_v2 a) (ag_exit_code a)
    (ag_failure_kind a) (ag_failure_text a) (ag_runtime_session a) (ag_answer a)
    (ag_display_name a) (ag_pool_history a) (ag_runtime a) (ag_model a).

(** The attempt of a historical runtime execution. *)
Definition runtime_attempt (id : string) : AttemptRow :=
  mk_attempt (id +:+ ":1") id 1 "running" None false None None false None.

Definition started_attempt (id : string) (t : AttemptRow) : Prop :=
  at_agent t = id ∧ at_owned t = true ∧ at_finished_at t = None.
#[global] Instance started_attempt_dec id t : Decision (started_attempt id t).
Proof. unfold started_attempt. apply _. Defined.

(** [running]. *)
Definition running (db : Db) (id : string) (pgid : Z) (now : f64) : result Db :=
  let? a := row (first_where (λ a, ag_id a = id) (db_agents db)) in
  let from := ag_status a in
  try? Status.transition from Running;
  let db := set_agents (update_where (λ a, ag_id a = id) (with_status_of Running) (db_agents db)) db in
  let db := on_launch (set_launches (update_where (λ l, la_agent l = id) (with_group pgid) (launches db))) db in
  let? db :=
    if ag_identity_v2 a then update_one (started_attempt id) (with_state "running") db
    else insert_attempt db (runtime_attempt id) (fresh_evidence (id +:+ ":1") now) in
  Ok (fst (tx_event db id now (EStatus from Running None false))).

(** ** Binding *)

(** A waiting notice of the execution becomes deliverable to its session. *)
Definition bound_delivery (session : string) (at_ : f64) (d : DeliveryRow) : DeliveryRow :=
  mk_delivery_row (dl_id d) (dl_agent d) (Some session) (dl_event d) DPending (Some at_) (dl_attempts d)
    (dl_lease_owner d) (dl_lease_until d) (dl_last_error d) (dl_ambiguous d).

(** A waiting notice that is not the common one of a pool. *)
Definition awaits_binding (db : Db) (id : string) (d : DeliveryRow) : Prop :=
  dl_agent d = Some id ∧ dl_state d = WaitingBinding ∧
  exists_where (λ p, pl_delivery p = Some (dl_id d)) (db_pools db) = false.
#[global] Instance awaits_binding_dec db id d : Decision (awaits_binding db id d).
Proof. unfold awaits_binding. apply _. Defined.

(** [UPDATE agents SET orchestrator_session_id], with the key of the table. *)
Definition bind_session (db : Db) (id session : string) : result Db :=
  let request := match launch_of db id with Some l => la_request_id l | None => None end in
  fail? match request with
        | Some r =>
            exists_where
              (λ a, ag_id a ≠ id ∧ ag_session a = Some session ∧
                    exists_where (λ l, la_agent l = ag_id a ∧ la_request_id l = Some r) (launches db) = true)
              (db_agents db)
        | None => false
        end with Sql ConstraintViolation;
  Ok (set_agents (update_where (λ a, ag_id a = id) (with_session session) (db_agents db)) db).

(** [bind_orchestrator]; [fresh_session] and [fresh_notice] are new UUIDs,
    [now] and [fresh] the clock and the identifiers of restart notices. *)
Definition bind_orchestrator (mn : Maintenance) (id : string) (r : OrchestratorRef) (at_ : f64)
  (fresh_session fresh_notice : string) (now : f64) (fresh : string → string → string * string)
  : result (Maintenance * string) :=
  try? orchestrator_validate r;
  fail? negb (is_finite at_) || flt at_ (of_Z 0) with invalid "binding time must be finite and nonnegative";
  let? a := ok_or (NotFound id) (first_where (λ a, ag_id a = id) (db_agents (mn_db mn))) in
  match ag_session a with
  | Some current =>
      let? matches := session_matches_reference (mn_db mn) current r in
      fail? negb matches with invalid "agent orchestration binding is immutable";
      let? db := touch_session_reference (mn_db mn) current r in
      let? mn := bind_captured_agent (on_db (λ _, db) mn) id current r now fresh in
      Ok (on_db (λ db, ensure_bound_terminal_notice db id current at_ fresh_notice) mn, current)
  | None =>
      let? (db, session) := session_for_reference (mn_db mn) r fresh_session in
      let? db := bind_session db id session in
      let? mn := bind_captured_agent (on_db (λ _, db) mn) id session r now fresh in
      let mn :=
        on_db (λ db, set_deliveries (update_where (awaits_binding db id) (bound_delivery session at_) (db_deliveries db)) db)
          mn in
      Ok (on_db (λ db, ensure_bound_terminal_notice db id session at_ fresh_notice) mn, session)
  end.
