(* ===== verification/StoreFrames.v ===== *)
(** * What a transaction leaves of an execution

    Every transaction of the store keeps the place of an execution: its row
    stays and moves along the lifecycle, its request and its parent do not
    change, the names a replay reads from its frozen identity do not change,
    its attempts keep their numbers and accounts, and it does not leave its
    session.  This file states that as relations on the tables and proves them
    of each transaction; an admission adds rows to them. *)

From stdpp Require Import relations.
From S2P Require Import Prelude Text Float64 Json Canonical Catalogs Lifecycle Requests PoolDomain.
From S2P Require Import ProviderCatalog Tables Roster World History WorkerStore Sessions ServiceRestart.
From S2P Require Import PoolEnrollment PoolLog PoolWrites PoolSettle Settlement PoolReplace PoolAdmit Replacement.
From S2P Require Import Admissions WorkerFinish Terminal Steps Posts PoolSystem Evidence Outbox LaunchIdentity Restart.
From S2P Require Import ProviderAdmit Attempts Starts Supervision.

(** ** Rows *)

Definition retained {A} (o o' : option A) : Prop := ∀ x, o = Some x → o' = Some x.
#[global] Instance retained_preorder {A} : PreOrder (@retained A).
Proof. split; [by intros o x|]. intros x y z Hxy Hyz v Hv. by apply Hyz, Hxy. Qed.

(** An execution: it moves along the lifecycle and stays in its session. *)
Record same_agent (a a' : AgentRow) : Prop := {
  sg_kept : agent_kept a a';
  sg_request : ag_request a' = ag_request a;
  sg_version : ag_identity_v2 a' = ag_identity_v2 a;
  sg_session : retained (ag_session a) (ag_session a');
}.

(** The names of an identity that a replay reads. *)
Definition replay_names : list string :=
  ["provider_identity_version"; "provider_request"; "replay_request_sha256"]%string.
Definition identity_kept (o o' : option Value) : Prop :=
  ∀ v, o = Some v → ∃ v', o' = Some v' ∧ ∀ name, name ∈ replay_names → json_index name v' = json_index name v.

(** The launch columns of an execution. *)
Record same_run (l l' : LaunchRow) : Prop := {
  sr_agent : la_agent l' = la_agent l;
  sr_request : la_request_id l' = la_request_id l;
  sr_parent : la_parent l' = la_parent l;
  sr_identity : identity_kept (la_identity l) (la_identity l');
}.

(** An attempt keeps its place and its account. *)
Record same_place (t t' : AttemptRow) : Prop := {
  pc_id : at_id t' = at_id t;
  pc_agent : at_agent t' = at_agent t;
  pc_number : at_number t' = at_number t;
  pc_account : at_account t' = at_account t;
}.

(** A session keeps its identity. *)
Record same_session (s s' : SessionRow) : Prop := {
  ss_id : os_id s' = os_id s;
  ss_transport : os_transport s' = os_transport s;
  ss_external : os_external_session_id s' = os_external_session_id s;
}.

#[global] Instance same_agent_preorder : PreOrder same_agent.
Proof. split; [by split|]. intros x y z [] []. split; [by etrans|congruence..|by etrans]. Qed.
#[global] Instance identity_kept_preorder : PreOrder identity_kept.
Proof.
  split; [intros o v ->; eauto|]. intros x y z Hxy Hyz v Hv. destruct (Hxy v Hv) as (w & Hw & E).
  destruct (Hyz w Hw) as (u & Hu & F). exists u. split; [done|]. intros name Hn. by rewrite F, E.
Qed.
#[global] Instance same_run_preorder : PreOrder same_run.
Proof. split; [by split|]. intros x y z [] []. split; [congruence..|by etrans]. Qed.
#[global] Instance same_place_preorder : PreOrder same_place.
Proof. split; [by split|]. intros x y z [] []. split; congruence. Qed.
#[global] Instance same_session_preorder : PreOrder same_session.
Proof. split; [by split|]. intros x y z [] []. split; congruence. Qed.

(** ** Tables *)

(** The transaction admits nothing: executions, attempts and sessions
    keep what identifies them. *)
Record spares (db db' : Db) : Prop := {
  sp_agents : Forall2 same_agent (db_agents db) (db_agents db');
  sp_attempts : rows_grow same_place (db_attempts db) (db_attempts db');
  sp_launches : Forall2 same_run (launches db) (launches db');
  sp_sessions : rows_grow same_session (db_sessions db) (db_sessions db');
}.
#[global] Instance spares_preorder : PreOrder spares.
Proof. split; [by split|]. intros x y z [] []. split; by etrans. Qed.

(** The tables of restarts are as they were. *)
Definition unrestarted (db db' : Db) : Prop :=
  db_restarts db' = db_restarts db ∧ db_restart_agents db' = db_restart_agents db.
#[global] Instance unrestarted_preorder : PreOrder unrestarted.
Proof. split; [by split|]. intros x y z [] []. split; congruence. Qed.

(** The transaction may admit executions, whose request identities satisfy [P]. *)
Record enlarges (P : option string → Prop) (db db' : Db) : Prop := {
  en_agents : rows_grow same_agent (db_agents db) (db_agents db');
  en_ids : NoDup (map ag_id (db_agents db)) → NoDup (map ag_id (db_agents db'));
  en_attempts : rows_grow same_place (db_attempts db) (db_attempts db');
  en_launches : ∃ old new, launches db' = old ++ new ∧ Forall2 same_run (launches db) old ∧
    Forall (λ l, P (la_request_id l)) new;
  en_sessions : rows_grow same_session (db_sessions db) (db_sessions db');
}.

Lemma same_ids l l' : Forall2 same_agent l l' → map ag_id l' = map ag_id l.
Proof. induction 1 as [|a a' l l' E F IH]; [done|]. simpl. by rewrite IH, (ak_id _ _ (sg_kept _ _ E)). Qed.

Lemma spares_enlarges P db db' : spares db db' → enlarges P db db'.
Proof.
  intros [Fa Ft Fl Fs]. split; [by apply rows_grow_same|by rewrite (same_ids _ _ Fa)|done| |done].
  exists (launches db'), []. by rewrite app_nil_r.
Qed.

#[global] Instance enlarges_preorder P : PreOrder (enlarges P).
Proof.
  split; [intros db; by apply spares_enlarges|].
  intros x y z [A1 N1 T1 (o1 & n1 & E1 & F1 & P1) S1] [A2 N2 T2 (o2 & n2 & E2 & F2 & P2) S2].
  split; [by etrans|auto|by etrans| |by etrans].
  rewrite E1 in F2. apply Forall2_app_inv_l in F2 as (o3 & n3 & F3 & F4 & ->).
  exists o3, (n3 ++ n2). rewrite E2, app_assoc. split; [done|]. split; [by etrans|].
  apply Forall_app. split; [|done]. clear -F4 P1. induction F4 as [|l l' n n' [_ E _ _] _ IH]; [constructor|].
  inversion P1; subst. constructor; [by rewrite E|auto].
Qed.

(** A transaction away from all of these tables. *)
Definition footing (db : Db) :=
  (db_agents db, db_attempts db, launches db, db_sessions db, (db_restarts db, db_restart_agents db)).
Definition beside (db db' : Db) : Prop := footing db' = footing db.
#[global] Instance beside_preorder : PreOrder beside.
Proof. split; [by intros db|]. unfold beside. intros x y z. congruence. Qed.

(** Executions stay, restarts are left alone. *)
Definition steady (db db' : Db) : Prop := spares db db' ∧ unrestarted db db'.
#[global] Instance steady_preorder : PreOrder steady.
Proof. split; [by split|]. intros x y z [] []. split; by etrans. Qed.

Lemma beside_steady db db' : beside db db' → steady db db'.
Proof.
  unfold beside, footing. intros E. injection E as Ea Et El Es Er Ec. split; [|by split].
  split; rewrite ?Ea, ?Et, ?El, ?Es; reflexivity.
Qed.

(** ** Pool transactions *)

Lemma try_fold_keeps {A S} (R : S → S → Prop) `{!PreOrder R} (f : S → A → result S) l s s' :
  (∀ d x d', x ∈ l → f d x = Ok d' → R d d') → try_fold f s l = Ok s' → R s s'.
Proof.
  intros Hf. apply (try_fold_inv (R s)); [|done]. intros d x d' Hx Hd E. etrans; [exact Hd|by eapply Hf].
Qed.

Lemma insert_event_beside db agent attempt at_ data : beside db (fst (insert_event db agent attempt at_ data)).
Proof. done. Qed.

Lemma reconcile_change_beside pool at_ fresh db change db' :
  reconcile_change pool at_ fresh db change = Ok db' → beside db db'.
Proof.
  unfold reconcile_change. destruct change as [root reason].
  destruct (row (first_where _ (db_enrollments db))) as [j|]; [|done].
  match goal with |- context [set_enrollments ?l db] => set (d := set_enrollments l db) end.
  assert (beside db d) as B by done. generalize dependent d. intros d B.
  destruct (covered d _ && _); [by intros [= <-]|]. destruct (negb _ && _); [|by intros [= <-]].
  rewrite (surjective_pairing (insert_event _ _ _ _ _)). destruct (row _) as [p|]; [|done]. by intros [= <-].
Qed.

Lemma reconcile_beside db pool at_ fresh db' :
  reconcile_pool_enrollments db pool at_ fresh = Ok db' → beside db db'.
Proof.
  unfold reconcile_pool_enrollments. destruct (enrollment_changes db pool) as [[|c cs]|]; [by intros [= <-]| |done].
  apply (try_fold_keeps beside). intros. by eapply reconcile_change_beside.
Qed.

Lemma fanout_beside db pool seat seq db' : fanout_entry db pool seat seq = Ok db' → beside db db'.
Proof. by intros (l & c & ->)%fanout_entry_frame. Qed.

Lemma insert_entry_beside `{Serde} db e db' seq : insert_entry db e = Ok (db', seq) → beside db db'.
Proof. by intros (_ & _ & _ & ->)%insert_entry_Ok. Qed.

Section pools.
Context `{Serde, EventJson, Unicode, Host, Sha256, JsonSchema}.

Lemma write_beside db run attempt token w now db' r :
  pool_write_tx db run attempt token w now = Ok (Accepted db' r) → beside db db'.
Proof.
  intros (m & _ & _ & [(_ & -> & _)|(_ & _ & ack & [_ _ _ _ _ (js & ds & l & c & _ & ->)])])%pool_write_tx_Accepted; done.
Qed.

Lemma operator_beside db pool key message db' r :
  pool_operator_post db pool key message = Ok (Accepted db' r) → beside db db'.
Proof.
  unfold pool_operator_post. destruct (first_where _ _) as [p|]; [|done].
  destruct (prior_entry _ _ _ _) as [e|]; [destruct (bool_decide _); [by intros [= <- _]|done]|].
  destruct (bool_decide _); [done|]. destruct (chat_exhausted _ _ _); [done|].
  destruct (insert_entry _ _) as [[d seq]|] eqn:Ei; [|done].
  destruct (fanout_entry _ _ _ _) as [d'|] eqn:Ef; [|done]. intros [= <- _].
  etrans; [by eapply insert_entry_beside|by eapply fanout_beside].
Qed.

Lemma notify_beside db run attempt token input at_ fresh db' r :
  notify_orchestrator db run attempt token input at_ fresh = Ok (db', r) → beside db db'.
Proof.
  unfold notify_orchestrator. destruct (notify_validate input); [|done]. destruct (_ || _); [done|].
  destruct (authenticate_attempt _ _ _ _ _) as [auth|]; [|done]. destruct (ok_or _ _) as [[auth' session]|]; [|done].
  destruct (prior_report _ _ _) as [[n d]|]; [destruct (_ || _); [done|]; by intros [= <- _]|].
  destruct (_ <=? _); [done|]. destruct (match latest_report db run with Some _ => _ | None => _ end); [done|].
  rewrite (surjective_pairing (insert_event _ _ _ _ _)).
  match goal with |- context [set_notifications ?l ?x] => set (d := set_notifications l x) end.
  assert (beside db d) as B by done. generalize dependent d. intros d B.
  destruct (open_seat d _) as [[m p]|]; [|by intros [= <- _]].
  destruct (insert_entry d _) as [[d1 seq]|] eqn:Ei; [|done].
  destruct (fanout_entry d1 _ _ _) as [d2|] eqn:Ef; [|done]. intros [= <- _]. etrans; [exact B|].
  etrans; [by eapply insert_entry_beside|by eapply fanout_beside].
Qed.

Lemma settle_beside db pool env db' r : settle_pool db pool env = (db', r) → beside db db'.
Proof.
  unfold settle_pool. destruct (reconcile_pool_enrollments _ _ _ _) as [d|] eqn:Er; [|by intros [= <- _]].
  apply reconcile_beside in Er.
  destruct (evaluate d pool) as [[|c| |ready]|] eqn:Ee; try by intros [= <- _].
  destruct (settle_in_tx d pool _ _) as [[d2 o]|] eqn:Es; [|by intros [= <- _]]. intros [= <- _].
  apply settle_in_tx_Ok in Es. destruct o as [c|]; [|by subst]. destruct (pc_created c); [|by destruct Es as [-> _]].
  by destruct Es as (ready' & _ & -> & _).
Qed.

Lemma issue_beside db run attempt token at_ db' u :
  issue_worker_capability db run attempt token at_ = Ok (db', u) → beside db db'.
Proof.
  unfold issue_worker_capability. destruct (_ || _); [done|]. destruct (negb _); [done|].
  destruct (first_where _ _) as [c|]; [destruct (negb _); [done|]|]; by intros [= <- _].
Qed.

Lemma register_beside db run attempt token version catalog at_ db' u :
  register_worker_catalog db run attempt token version catalog at_ = Ok (db', u) → beside db db'.
Proof.
  unfold register_worker_catalog. destruct (negb (known_pool_catalog _ _)); [done|].
  destruct (authenticate_attempt _ _ _ _ _) as [auth|]; [|done]. destruct (negb (is_some auth)); [done|].
  destruct (row _) as [c|]; [|done]. destruct (_ || _); [destruct (_ || _); [done|]|]; by intros [= <- _].
Qed.

Lemma finish_beside db run attempt token input at_ guard db' r :
  accept_worker_finish db run attempt token input at_ guard = Ok (db', r) → beside db db'.
Proof.
  intros (restart & l & _ & _ & E)%accept_gate. destruct (wl_finish l); [by destruct E as (_ & -> & _)|].
  by destruct E as (_ & _ & ->).
Qed.

Lemma turn_beside db run idle at_ db' b : worker_turn db run idle at_ = Ok (db', b) → beside db db'.
Proof.
  unfold worker_turn. destruct (bad_time at_); [done|]. case_bool_decide; [|by intros [= <- _]]. intros [= <- _].
  match goal with |- beside _ (foldl _ ?x ?l) => transitivity x; [done|generalize l; generalize x] end.
  intros d l. revert d. induction l as [|t l IH]; intros d; [done|]. simpl. etrans; [|apply IH]. done.
Qed.
End pools.

(** ** Sessions *)

Lemma touched_sessions P `{∀ s, Decision (P s)} turn l :
  rows_grow same_session l (update_where P (with_turn turn) l).
Proof. apply rows_grow_same, Forall2_update; [apply _|]. by intros s _ _. Qed.

(** Only the sessions differ, and they are kept. *)
Definition visits (db db' : Db) : Prop :=
  ∃ ss, db' = set_sessions ss db ∧ rows_grow same_session (db_sessions db) ss.
#[global] Instance visits_preorder : PreOrder visits.
Proof.
  split; [intros db; exists (db_sessions db); by destruct db|].
  intros x y z (s1 & -> & G1) (s2 & -> & G2). exists s2. split; [done|]. by etrans.
Qed.

Lemma touch_row_visits db session r : visits db (touch_row db session r).
Proof. eexists. split; [done|]. apply touched_sessions. Qed.

Lemma session_visits db r fresh db' s : session_for_reference db r fresh = Ok (db', s) → visits db db'.
Proof.
  unfold session_for_reference. destruct (orchestrator_validate r); [|done].
  destruct (canonical_transport_name _); [|done].
  destruct (session_ids_for_reference db r) as [[|x l]|]; [| |done]; intros [= <- _]; [|apply touch_row_visits].
  eexists. split; [done|]. apply rows_grow_app, _.
Qed.

Lemma touch_visits db s r db' : touch_session_reference db s r = Ok db' → visits db db'.
Proof.
  unfold touch_session_reference. destruct (session_matches_reference _ _ _) as [b|]; [|done].
  destruct (negb b); [done|]. intros [= <-]. apply touch_row_visits.
Qed.

Lemma visits_steady db db' : visits db db' → steady db db'.
Proof. by intros (ss & -> & G). Qed.

Lemma notice_beside db id s at_ fresh : beside db (ensure_bound_terminal_notice db id s at_ fresh).
Proof.
  unfold ensure_bound_terminal_notice, insert_terminal_notice. destruct (terminal_event db id); [|done].
  destruct (suppress_member_success _ _); [done|]. by destruct (first_where _ _).
Qed.

(** ** Executions *)

Lemma agents_steady db P `{∀ a, Decision (P a)} f :
  (∀ a, a ∈ db_agents db → P a → same_agent a (f a)) → steady db (set_agents (update_where P f (db_agents db)) db).
Proof. intros Hf. split; [|done]. split; try done. by apply Forall2_update; [apply _|]. Qed.

Lemma joins a session : ag_session a = None → same_agent a (with_session session a).
Proof. intros E. split; try done. by rewrite E. Qed.

Lemma bind_tip_steady session at_ fresh db tip db' :
  NoDup (map ag_id (db_agents db)) → bind_tip session at_ fresh db tip = Ok db' → steady db db'.
Proof.
  unfold bind_tip, agent_session. intros Hn. destruct (first_where _ _) as [a|] eqn:Ea; [|done]. simpl.
  apply first_where_Some in Ea as [<- Ha].
  destruct (ag_session a) as [s|] eqn:Es; intros [= <-]; [apply beside_steady, notice_beside|].
  etrans; [|apply beside_steady, notice_beside]. apply agents_steady. intros x Hx E. apply joins.
  by rewrite (primary_key ag_id _ x a Hn Hx Ha E).
Qed.

Lemma steady_ids db db' : steady db db' → map ag_id (db_agents db') = map ag_id (db_agents db).
Proof. intros [[F _ _ _] _]. by apply same_ids. Qed.

Lemma bind_pool_steady db pool r at_ fs fresh db' s :
  NoDup (map ag_id (db_agents db)) → bind_pool db pool r at_ fs fresh = Ok (db', s) → steady db db'.
Proof.
  intros Hn. unfold bind_pool. destruct (orchestrator_validate r); [|done].
  destruct (first_where (λ p, pl_id p = pool) (db_pools db)) as [p|] eqn:Ep; [|done]. cbn [ok_or].
  destruct (match pl_session p with Some _ => _ | None => _ end) as [b|]; [|done]. destruct (negb b); [done|].
  destruct (seat_tips db pool) as [tips|]; [|done].
  destruct (try_fold (bound_sessions_step db r) [] tips) as [bound|]; [|done].
  destruct (match pl_session p with Some _ => _ | None => _ end) as [[d1 session]|] eqn:E1; [|done].
  destruct (if is_some (pl_session p) then _ else _) as [d2|] eqn:E2; [|done].
  destruct (try_fold _ d2 bound) as [d3|] eqn:E3; [|done].
  assert (visits db d3) as V%visits_steady.
  { transitivity d1; [destruct (pl_session p); [by injection E1 as <- _|by eapply session_visits]|].
    transitivity d2; [destruct (is_some _); [by eapply touch_visits|by injection E2 as <-]|].
    revert E3. apply (try_fold_keeps visits). intros d x d' _ E.
    case_bool_decide; [by injection E as <-|by eapply touch_visits]. }
  destruct (try_fold (bind_tip _ _ _) _ tips) as [d5|] eqn:E4; [|done]. intros [= <- _].
  match type of E4 with try_fold _ ?x _ = _ => assert (steady db x) as V4 end.
  { etrans; [exact V|]. apply beside_steady. by destruct (pl_session p). }
  transitivity d5; [|by apply beside_steady]. revert E4.
  apply (try_fold_inv (steady db)); [|done]. intros d x d' _ Q E.
  etrans; [exact Q|]. eapply bind_tip_steady; [|exact E]. by rewrite (steady_ids _ _ Q).
Qed.

(** ** Attempts *)

Lemma attempts_steady db P `{∀ t, Decision (P t)} f :
  (∀ t, same_place t (f t)) → steady db (set_attempts (update_where P f (db_attempts db)) db).
Proof. intros Hf. split; [|done]. split; try done. apply rows_grow_same, Forall2_update; [apply _|]. auto. Qed.

Lemma update_one_steady P `{∀ t, Decision (P t)} f db db' :
  (∀ t, same_place t (f t)) → update_one P f db = Ok db' → steady db db'.
Proof. unfold update_one. intros Hf. destruct (negb _); [done|]. intros [= <-]. by apply attempts_steady. Qed.

Lemma launches_steady db P `{∀ l, Decision (P l)} f :
  (∀ l, l ∈ launches db → P l → same_run l (f l)) →
  steady db (on_launch (set_launches (update_where P f (launches db))) db).
Proof. intros Hf. split; [|done]. split; try done. by apply Forall2_update; [apply _|]. Qed.

Lemma insert_attempt_steady db t e db' : insert_attempt db t e = Ok db' → steady db db'.
Proof.
  unfold insert_attempt. destruct (_ || _); [done|]. intros [= <-]. split; [|done]. split; try done.
  apply rows_grow_app, _.
Qed.

Lemma insert_quota_key_beside attempt db key db' : insert_quota_key attempt db key = Ok db' → beside db db'.
Proof. unfold insert_quota_key. destruct (_ || _); [done|]. by intros [= <-]. Qed.

Lemma advance_capacity_beside db db' : advance_capacity db = Ok db' → beside db db'.
Proof. unfold advance_capacity. destruct (negb _); [done|]. by intros [= <-]. Qed.

Lemma record_cooldown_beside db c db' b : record_cooldown db c = Ok (db', b) → beside db db'.
Proof.
  unfold record_cooldown. destruct (_ || _); [done|]. destruct (first_where _ _) as [old|]; [|by intros [= <- _]].
  destruct (flt _ _); by intros [= <- _].
Qed.

Lemma spawning_steady db id attempt db' b : provider_spawning db id attempt = Ok (db', b) → steady db db'.
Proof.
  unfold provider_spawning. destruct (update_one _ _ _) as [d|] eqn:E.
  - intros [= <- _]. eapply update_one_steady; [|exact E]. by intros.
  - destruct (cancel_requested _ _); [|done]. by intros [= <- _].
Qed.

Lemma spawn_failed_steady db id attempt db' : provider_spawn_failed db id attempt = Ok db' → steady db db'.
Proof. apply update_one_steady. by intros. Qed.

Lemma process_evidence_steady db id attempt leader integration db' :
  provider_process_evidence db id attempt leader integration = Ok db' → steady db db'.
Proof.
  unfold provider_process_evidence. destruct (check_opt _ _); [|done]. destruct (is_some_and _ _); [done|].
  destruct (update_one _ _ _) as [d|] eqn:E; [|done]. intros [= <-].
  etrans; [eapply update_one_steady; [|exact E]; by intros|by apply beside_steady].
Qed.

Lemma cleanup_steady db id attempt proof db' : provider_cleanup db id attempt proof = Ok db' → steady db db'.
Proof. unfold provider_cleanup. destruct (negb _); [done|]. apply update_one_steady. by intros. Qed.

Lemma rerunning_steady db id attempt pgid db' : provider_rerunning db id attempt pgid = Ok db' → steady db db'.
Proof.
  unfold provider_rerunning. destruct (update_one _ _ _) as [d|] eqn:E; [|done]. destruct (negb _); [done|].
  intros [= <-]. etrans; [eapply update_one_steady; [|exact E]; by intros|].
  apply launches_steady. by intros.
Qed.

Lemma never_spawned_steady db id : steady db (provider_never_spawned db id).1.
Proof. unfold provider_never_spawned. by apply attempts_steady. Qed.

Lemma history_beside `{LaunchSerde} db id attempt state cooldown at_ db' :
  provider_history_with_cooldown db id attempt state cooldown at_ = Ok db' → beside db db'.
Proof.
  unfold provider_history_with_cooldown. destruct (row _); [|done]. destruct (row _) as [t|]; [|done].
  destruct (negb _); [done|]. destruct (_ && _); [done|].
  destruct (match cooldown with None => _ | Some _ => _ end) as [d|] eqn:E; [|done]. intros [= <-].
  transitivity d; [|done]. destruct cooldown as [reason|]; [|by injection E as <-].
  destruct (_ || _); [done|]. destruct (negb _); [done|].
  destruct (cooldown_subject _ _ _ _ _) as [[provider account]|]; [|done].
  destruct (is_some _); [by injection E as <-|]. destruct (record_cooldown _ _) as [[d1 changed]|] eqn:Ec; [|done].
  etrans; [by eapply record_cooldown_beside|]. destruct changed; [by eapply advance_capacity_beside|by injection E as <-].
Qed.

Lemma next_attempt_steady `{Sha256, LaunchSerde} db id catalog candidates at_ fresh db' n :
  allocate_next_attempt db id catalog candidates at_ fresh = Ok (db', n) → steady db db'.
Proof.
  unfold allocate_next_attempt. destruct (next_candidate _ _ _ _ _) as [[[previous state] candidate]|]; [|done].
  destruct (update_one _ _ _) as [d1|] eqn:E1; [|done]. destruct (insert_attempt _ _ _) as [d2|] eqn:E2; [|done].
  destruct (try_fold _ _ _) as [d3|] eqn:E3; [|done]. destruct (advance_capacity _) as [d4|] eqn:E4; [|done].
  intros [= <- _]. etrans; [eapply update_one_steady; [|exact E1]; by intros|].
  etrans; [by eapply insert_attempt_steady|]. transitivity d4; [|by apply beside_steady].
  apply beside_steady. etrans; [|by eapply advance_capacity_beside]. revert E3. apply (try_fold_keeps beside).
  intros. by eapply insert_quota_key_beside.
Qed.

(** ** Running and sealing *)

Lemma map_get_cons {A} name k (w : A) m :
  map_get name ((k, w) :: m) = if decide (k = name) then Some w else map_get name m.
Proof. unfold map_get, first_where. rewrite filter_cons. cbn [fst]. by case_decide. Qed.

Lemma map_get_set {A} name key (v : A) m : name ≠ key → map_get name (map_set key v m) = map_get name m.
Proof.
  intros Hne. induction m as [|[k w] m IH]; cbn [map_set]; [by rewrite map_get_cons, decide_False by congruence|].
  case_bool_decide as E; [subst k; by rewrite !map_get_cons, !(decide_False (P := key = name)) by congruence|].
  case_bool_decide; [by rewrite map_get_cons, decide_False by congruence|]. by rewrite !map_get_cons, IH.
Qed.

Lemma json_put_other name key v value : name ≠ key → json_index name (json_put key v value) = json_index name value.
Proof. intros Hne. destruct value; try done. simpl. by rewrite map_get_set. Qed.

Lemma json_put_in_other name outer key v value :
  name ≠ outer → json_index name (json_put_in outer key v value) = json_index name value.
Proof. intros Hne. destruct value; try done. simpl. by rewrite map_get_set. Qed.

(** A seal does not write the names a replay reads. *)
Lemma sealed_other op name value :
  name ≠ "snapshot_sha256"%string → name ≠ "runtime_home"%string → name ≠ "authority"%string →
  json_index name (sealed_identity op value) = json_index name value.
Proof.
  intros. unfold sealed_identity. cbv zeta. destruct (ui_assets_sha256 op); rewrite ?json_put_in_other by done;
    by rewrite !json_put_other.
Qed.

Lemma seal_steady db op db' : seal_identity db op = Ok db' → steady db db'.
Proof.
  unfold seal_identity. destruct (hex64 _ _); [|done]. destruct (check_opt _ _); [|done]. destruct (_ || _); [done|].
  destruct (negb _); [done|]. intros [= <-]. apply launches_steady. intros l _ _. split; try done.
  intros v E. exists (sealed_identity op v). simpl. rewrite E. split; [done|].
  intros name Hin. unfold replay_names in Hin. apply sealed_other; intros ->; set_solver.
Qed.

Lemma running_steady db id pgid now db' :
  NoDup (map ag_id (db_agents db)) → running db id pgid now = Ok db' → steady db db'.
Proof.
  unfold running. intros Hn. destruct (first_where _ _) as [a|] eqn:Ea; [|done]. simpl.
  apply first_where_Some in Ea as [<- Ha]. destruct (Status.transition _ _) as [[]|] eqn:Et; [|done].
  match goal with |- context [on_launch ?f ?x] => set (d := on_launch f x) end.
  assert (steady db d) as Q.
  { transitivity (set_agents (update_where (λ x, ag_id x = ag_id a) (with_status_of Running) (db_agents db)) db).
    - apply agents_steady. intros x Hx E. rewrite (primary_key ag_id _ x a Hn Hx Ha E). split; try done.
      split; try done. by apply rtc_once.
    - apply (launches_steady (set_agents _ db)). by intros. }
  clearbody d.
  destruct (if ag_identity_v2 a then _ else _) as [d'|] eqn:E; [|done]. intros [= <-].
  etrans; [exact Q|]. transitivity d'; [|by apply beside_steady].
  destruct (ag_identity_v2 a); [eapply update_one_steady; [|exact E]; by intros|by eapply insert_attempt_steady].
Qed.

(** ** The end of an execution *)

Lemma beside_spares db db' : beside db db' → spares db db'.
Proof. by intros [? _]%beside_steady. Qed.
Lemma steady_spares db db' : steady db db' → spares db db'.
Proof. by intros []. Qed.

Lemma closed_steady db id attempt to time : steady db (close_attempts db id attempt to time).
Proof. unfold close_attempts. destruct attempt; by apply attempts_steady. Qed.

Lemma released_steady db id attempt : steady db (release_attempts db id attempt).
Proof. unfold release_attempts. destruct attempt; by apply attempts_steady. Qed.

Lemma announce_beside db a o usage from to time fresh technical :
  beside db (announce db a o usage from to time fresh technical).
Proof.
  unfold announce. rewrite (surjective_pairing (tx_event db _ _ _)). cbv beta iota zeta.
  set (d := fst (tx_event db _ _ _)). assert (beside db d) as B by done. clearbody d.
  set (d' := if technical then d else _). assert (beside db d') as B'; [|by destruct usage].
  subst d'. destruct technical; [done|]. unfold insert_terminal_notice. destruct (suppress_member_success _ _); [done|].
  destruct (ag_session a); [|done]. by destruct (first_where _ _).
Qed.

Lemma compact_beside db id now summary : beside db (compact_terminal_processes db id now summary).
Proof. unfold compact_terminal_processes. destruct (_ && _); [|done]. by destruct summary. Qed.

Lemma provider_attempt_steady db a o db' attempt : provider_attempt db a o = Ok (db', attempt) → steady db db'.
Proof.
  unfold provider_attempt. intros E. destruct (ag_identity_v2 a); [|by injection E as <- <-].
  destruct (row _); [|discriminate E]. destruct (negb _); [discriminate E|]. injection E as <- _.
  destruct (bool_decide _); [done|]. by apply attempts_steady.
Qed.

Lemma mark_ended_spares db a o proof attempt cancel to time technical :
  (∀ x, x ∈ db_agents db → ag_id x = ag_id a → moves (ag_status x) to) →
  spares db (mark_ended db a o proof attempt cancel to time technical).
Proof.
  intros Hm. unfold mark_ended. cbv zeta. etrans; [|apply steady_spares, closed_steady].
  set (d := if technical then db else _). assert (beside db d ∨ db_agents d = db_agents db ∧ spares db d) as S.
  { subst d. destruct technical; [by left|right]. by split. }
  assert (db_agents d = db_agents db ∧ spares db d) as [Ea Sd].
  { destruct S as [B|S]; [|done]. split; [|by apply beside_spares]. unfold beside, footing in B. congruence. }
  clearbody d. clear S. match goal with |- context [set_agents ?l d] => transitivity (set_agents l d) end.
  - etrans; [exact Sd|]. apply steady_spares, agents_steady. rewrite Ea. intros x Hx E. split; try done.
    split; try done. by apply Hm.
  - apply beside_spares. by destruct cancel.
Qed.

Lemma terminal_spares `{Sha256} db id o proof usage time fresh summary db' r :
  NoDup (map ag_id (db_agents db)) →
  commit_terminal db id o proof usage time fresh summary = Ok (db', r) →
  spares db db' ∧ db_restarts db' = db_restarts db.
Proof.
  intros Hn E. split.
  2: { destruct (commit_terminal_frame _ _ _ _ _ _ _ _ _ _ E) as (R & _). unfold rest_of in R. congruence. }
  unfold commit_terminal in E. destruct (negb _) eqn:Ho; [discriminate E|]. destruct (_ && _); [discriminate E|].
  destruct (first_where _ _) as [a|] eqn:Ea; [|discriminate E]. cbn [row ok_or] in E. apply first_where_Some in Ea as [<- Ha].
  destruct (Status.terminal (ag_status a)) eqn:Hs; [by injection E as <- _|].
  destruct (explicit_checks _ _ _ _) as [[]|]; [|discriminate E].
  destruct (provider_attempt db a o) as [[d attempt]|] eqn:Ep; [|discriminate E].
  pose proof (provider_attempt_frame _ _ _ _ _ Ep) as (_ & Ad & _). apply provider_attempt_steady in Ep as [Sd _].
  cbv zeta in E. match type of E with context [terminal_path ?s ?o ?c] =>
    pose proof (terminal_path_moves s o c Hs) as Hm; destruct (terminal_path s o c) as [from to] end.
  destruct (Status.transition from to) as [[]|] eqn:Et; [|discriminate E]. injection E as <- _.
  apply negb_false_iff in Ho. specialize (Hm Ho Et). cbn [snd] in Hm.
  match goal with |- spares _ (write_terminal ?x _ _ _ _ _ _ _ _ _ _ _) => set (e := x) end.
  assert (spares db e ∧ db_agents e = db_agents db) as [Se Ae].
  { split; [etrans; [exact Sd|]; apply beside_spares|rewrite <-Ad]; subst e; by destruct (_ && _). }
  clearbody e. etrans; [exact Se|]. unfold write_terminal. cbv zeta.
  etrans; [|apply beside_spares, compact_beside]. etrans; [|apply steady_spares, released_steady].
  etrans; [|apply beside_spares, announce_beside]. apply mark_ended_spares. rewrite Ae. intros x Hx Ex.
  by rewrite (primary_key ag_id _ x a Hn Hx Ha Ex).
Qed.

(** ** Restarts *)

(** The transactions on restarts admit nothing. *)
Definition idles (mn mn' : Maintenance) : Prop := spares (mn_db mn) (mn_db mn').
#[global] Instance idles_preorder : PreOrder idles.
Proof. split; [intros mn; unfold idles; reflexivity|]. unfold idles. intros x y z. apply transitivity. Qed.

Lemma enqueue_notice_idles mn restart t s stage message now fresh mn' :
  enqueue_notice mn restart t s stage message now fresh = Ok mn' → idles mn mn'.
Proof.
  unfold enqueue_notice. destruct (exists_where _ _); [by intros [= <-]|]. destruct (fresh t s) as [fs uuid].
  destruct (session_for_reference _ _ _) as [[db id]|] eqn:E; [|done]. intros [= <-].
  apply session_visits, visits_steady, steady_spares in E. unfold idles. etrans; [exact E|].
  by apply beside_spares.
Qed.

Lemma queue_restart_result_idles mn restart t s now fresh mn' :
  queue_restart_result mn restart t s now fresh = Ok mn' → idles mn mn'.
Proof. unfold queue_restart_result. by intros ?%enqueue_notice_idles. Qed.

Lemma upsert_db id t s had tried mn : mn_db (upsert_recipient id t s had tried mn) = mn_db mn.
Proof. unfold upsert_recipient. by destruct (exists_where _ _). Qed.

Lemma upsert_idles id t s had tried mn : idles mn (upsert_recipient id t s had tried mn).
Proof. unfold idles. by rewrite upsert_db. Qed.

Lemma update_captured_idles P `{∀ a, Decision (P a)} f mn : idles mn (update_captured P f mn).
Proof. by split. Qed.
Lemma update_restarts_idles P `{∀ a, Decision (P a)} f mn : idles mn (update_restarts P f mn).
Proof. by split. Qed.

Lemma remember_idles mn restart r now fresh mn' :
  remember_service_restart_caller mn restart r now fresh = Ok mn' → idles mn mn'.
Proof.
  unfold remember_service_restart_caller. destruct (orchestrator_validate r); [|done].
  destruct (canonical_transport_name _) as [t|]; [|done]. destruct (ok_or _ _) as [row|]; [|done].
  intros E. etrans; [by eapply upsert_idles|]. case_bool_decide; [by eapply queue_restart_result_idles|by injection E as <-].
Qed.

Lemma bind_captured_idles mn agent session r now fresh mn' :
  bind_captured_agent mn agent session r now fresh = Ok mn' → idles mn mn'.
Proof.
  unfold bind_captured_agent. destruct (canonical_transport_name _) as [t|]; [|done].
  apply (try_fold_keeps idles). intros m [id phase] m' _ E.
  etrans; [eapply (update_captured_idles _ (bound_to session))|]. etrans; [by eapply upsert_idles|].
  destruct phase; first [by injection E as <-|by eapply enqueue_notice_idles|by eapply queue_restart_result_idles].
Qed.

Lemma begin_idles mn request at_ boot now fresh mn' id :
  begin_service_restart mn request at_ boot now fresh = Ok (mn', id) → idles mn mn'.
Proof.
  unfold begin_service_restart. destruct (_ || _); [done|]. destruct (first_where _ _); [by intros [= <- _]|].
  destruct (exists_where _ _); [done|].
  match goal with |- context [fold_left ?f ?l ?x] => set (m := fold_left f l x) end.
  assert (idles mn m) as I.
  { subst m. match goal with |- idles _ (fold_left _ ?l ?x) => transitivity x; [by split|]; generalize x; generalize l end.
    intros l. induction l as [|[t s] l IH]; intros m; [done|]. simpl. etrans; [|apply IH]. apply upsert_idles. }
  clearbody m. destruct (try_fold _ m _) as [m'|] eqn:E; [|done]. intros [= <- _]. etrans; [exact I|].
  revert E. apply (try_fold_keeps idles). intros d [t s] d' _. apply enqueue_notice_idles.
Qed.

Lemma warn_idles restart now mn w : idles mn (warn restart now mn w).
Proof. unfold warn. destruct (decision now w); [|done]. by split. Qed.

Lemma advance_idles mn restart boot now_ns mn' queued :
  advance_service_restart mn restart boot now_ns = Ok (mn', queued) → idles mn mn'.
Proof.
  unfold advance_service_restart. destruct (clock now_ns) as [now|]; [|done].
  destruct (exists_where _ _); [|done]. simpl.
  set (m := if awaiting_notice _ _ then _ else mn). assert (idles mn m) as I.
  { subst m. destruct (awaiting_notice _ _); [by split|done]. }
  clearbody m. destruct (if awaiting_notice _ _ then _ else _) as [started|]; [|done]. simpl.
  destruct (match started with Some _ => _ | None => _ end); [by intros [= <- _]|].
  match goal with |- context [fold_left ?f ?l ?x] => set (u := fold_left f l x) end.
  assert (idles mn u) as U.
  { subst u. match goal with |- idles _ (fold_left _ ?l _) => generalize l end.
    intros l. revert m I. induction l as [|w l IH]; intros m I; [done|].
    simpl. apply IH. etrans; [exact I|apply warn_idles]. }
  clearbody u. intros [= <- _]. destruct (working _); [done|]. etrans; [exact U|]. by split.
Qed.

Lemma recover_idles mn failed boot mn' id :
  recover_service_restart_for mn failed boot = Ok (mn', id) → idles mn mn'.
Proof.
  unfold recover_service_restart_for. destruct (first_where _ _) as [r|]; [|by intros [= <- _]].
  destruct (match failed with Some _ => _ | None => _ end); [done|].
  case_bool_decide; [by intros [= <- _]|]. destruct (_ || _); intros [= <- _]; [done|]. by split.
Qed.

Lemma request_idles mn restart agent boot now_ns mn' :
  request_service_restart_resume mn restart agent boot now_ns = Ok mn' → idles mn mn'.
Proof.
  unfold request_service_restart_resume. destruct (clock now_ns) as [now|]; [|done].
  destruct (negb _); [done|]. intros [= <-]. by split.
Qed.

Lemma fail_idles mn restart agent reason mn' :
  fail_service_restart_resume mn restart agent reason = Ok mn' → idles mn mn'.
Proof.
  unfold fail_service_restart_resume. destruct (_ || _); [done|]. destruct (negb _); [done|]. intros [= <-]. by split.
Qed.

Lemma refresh_idles mn restart boot now_ns at_ now fresh mn' complete :
  refresh_service_restart mn restart boot now_ns at_ now fresh = Ok (mn', complete) → idles mn mn'.
Proof.
  unfold refresh_service_restart. destruct (clock now_ns) as [now'|]; [|discriminate]. destruct (_ || _); [discriminate|].
  destruct (exists_where _ _); [|discriminate]. simpl.
  destruct (try_fold _ _ _) as [m|] eqn:E; [|discriminate].
  assert (idles mn m) as I.
  { revert E. apply (try_fold_keeps idles). intros d a d' _. unfold refresh_row.
    destruct (ra_requested_ns a); [|by intros [= <-]].
    destruct (resume_outcome _ _ _ _) as [[[s reason]|]|]; [..|done]; intros [= <-]; [by split|done]. }
  destruct (exists_where _ _); [by intros [= <- _]|].
  destruct (queue_restart_results _ _ _ _) as [m2|] eqn:Eq; [|discriminate]. intros [= <- _].
  etrans; [exact I|]. transitivity m2; [|by split]. revert Eq. apply (try_fold_keeps idles).
  intros d c d' _. apply queue_restart_result_idles.
Qed.

Lemma enqueue_spares db id kind db' completed : enqueue db id kind = Ok (db', completed) → spares db db'.
Proof.
  unfold enqueue. destruct (ok_or _ _) as [a|]; [|done].
  set (d := cancel_resume _ _ _). assert (spares db d) as S.
  { subst d. unfold cancel_resume. case_match; [|done]. destruct (_ || _); [|done]. by split. }
  clearbody d. destruct (if Status.terminal _ then _ else _) as [[target stopped]|]; [|done].
  destruct stopped; [|destruct (_ && _); [done|]]; intros [= <- _]; (etrans; [exact S|]; by apply beside_spares).
Qed.

(** [bind_orchestrator] gives an execution its session. *)
Lemma bind_orchestrator_idles mn id r at_ fs fn now fresh mn' s :
  NoDup (map ag_id (db_agents (mn_db mn))) →
  bind_orchestrator mn id r at_ fs fn now fresh = Ok (mn', s) → idles mn mn'.
Proof.
  intros Hn. unfold bind_orchestrator. destruct (orchestrator_validate r) as [[]|]; [|done]. destruct (_ || _); [done|].
  destruct (first_where _ _) as [a|] eqn:Ea; [|done]. simpl. apply first_where_Some in Ea as [<- Ha].
  destruct (ag_session a) as [current|] eqn:Es.
  - destruct (session_matches_reference _ _ _) as [b|]; [|done]. destruct (negb b); [done|].
    destruct (touch_session_reference _ _ _) as [db|] eqn:Et; [|done].
    destruct (bind_captured_agent _ _ _ _ _ _) as [m|] eqn:Eb; [|done]. intros [= <- _].
    apply touch_visits, visits_steady, steady_spares in Et. apply bind_captured_idles in Eb.
    unfold idles in *. etrans; [exact Et|]. etrans; [exact Eb|]. apply beside_spares, notice_beside.
  - destruct (session_for_reference _ _ _) as [[db session]|] eqn:Et; [|done].
    destruct (bind_session db _ _) as [db'|] eqn:Ej; [|done].
    destruct (bind_captured_agent _ _ _ _ _ _) as [m|] eqn:Eb; [|done]. intros [= <- _].
    apply session_visits in Et as (ss & -> & G). apply bind_captured_idles in Eb. unfold idles in *.
    transitivity (set_sessions ss (mn_db mn)); [by split|]. transitivity db'.
    { unfold bind_session in Ej. destruct (match _ with Some _ => _ | None => _ end); [done|]. injection Ej as <-.
      apply steady_spares, (agents_steady (set_sessions ss (mn_db mn))). intros x Hx E. apply joins.
      by rewrite (primary_key ag_id _ x a Hn Hx Ha E). }
    etrans; [exact Eb|]. etrans; [|apply beside_spares, notice_beside]. by apply beside_spares.
Qed.
