(* ===== verification/StoreSystem.v ===== *)
(** * The store as one system

    Every transaction that reads or writes an execution, a pool or an attempt
    as a step of one transition system over the durable state, in which each
    step is a committed transaction of the library.  A step is a run of steps
    of the pool system, and it keeps every execution: what it admits has passed
    the gate of admissions and carries the request identity it was asked for. *)

From stdpp Require Import relations.
From S2P Require Import Prelude Text Float64 Json Canonical Catalogs Lifecycle Requests PoolDomain.
From S2P Require Import ProviderCatalog Tables Roster World History WorkerStore Sessions ServiceRestart.
From S2P Require Import PoolEnrollment PoolLog PoolWrites PoolSettle Settlement PoolReplace PoolAdmit Replacement.
From S2P Require Import Admissions WorkerFinish Terminal Steps Posts PoolSystem Evidence Outbox LaunchIdentity Restart.
From S2P Require Import ProviderAdmit Attempts Starts Supervision StoreFrames.

(** ** One admission *)

(** An admission adds the execution [id] under the request identity [request]
    and leaves the restarts alone. *)
Record admits (id : string) (request : option string) (db db' : Db) : Prop := {
  as_frame : admission_frame db id db';
  as_enlarges : enlarges (λ q, q = request) db db';
  as_restarts : unrestarted db db';
  as_capacity : db_capacity_revision db' = db_capacity_revision db;
}.

Lemma upsert_visits db request fresh db' session : upsert_session db request fresh = Ok (db', session) → visits db db'.
Proof.
  unfold upsert_session. destruct (sq_orchestrator request) as [r|]; [|by intros [= <- _]].
  destruct (session_for_reference _ _ _) as [[d s]|] eqn:E; [|done]. intros [= <- _]. by eapply session_visits.
Qed.

(** The new launch row, whose owner may be recorded beside it. *)
Lemma owned_launch (owner : option (string * f64)) id old l ls :
  ls = match owner with
       | Some owner => update_where (λ l, la_agent l = id) (with_owner owner) (old ++ [l])
       | None => old ++ [l]
       end →
  ∃ old' l', ls = old' ++ [l'] ∧ Forall2 same_run old old' ∧ la_request_id l' = la_request_id l.
Proof.
  intros ->. destruct owner as [owner|]; [|by exists old, l].
  eexists (update_where (λ l, la_agent l = id) (with_owner owner) old), _. unfold update_where at 1. rewrite map_app.
  split; [done|]. split; [|by case_decide]. apply Forall2_update; [apply _|]. by intros.
Qed.

Lemma enlarges_intro P db db' a t l old :
  db_agents db' = db_agents db ++ [a] → (∀ x, x ∈ db_agents db → ag_id x ≠ ag_id a) →
  db_attempts db' = db_attempts db ++ t → launches db' = old ++ [l] → Forall2 same_run (launches db) old →
  P (la_request_id l) → rows_grow same_session (db_sessions db) (db_sessions db') → enlarges P db db'.
Proof.
  intros EA Hf ET EL F HP G. split.
  - rewrite EA. apply rows_grow_app, _.
  - rewrite EA. intros Hn. by apply NoDup_snoc.
  - rewrite ET. apply rows_grow_app, _.
  - exists old, [l]. split_and!; [done|done|by constructor].
  - done.
Qed.

Section launches.
Context `{Sha256}.

Lemma insert_agent_sessions d a l d' : insert_agent d a l = Ok d' → db_sessions d' = db_sessions d.
Proof. unfold insert_agent. destruct (_ || _); [done|]. by intros [= <-]. Qed.
Lemma insert_attempt_sessions d t e d' : insert_attempt d t e = Ok d' → db_sessions d' = db_sessions d.
Proof. unfold insert_attempt. destruct (_ || _); [done|]. by intros [= <-]. Qed.
Lemma insert_gate_sessions (b : bool) d id d' :
  (if b then insert_gate d id else Ok d) = Ok d' → db_sessions d' = db_sessions d.
Proof. unfold insert_gate. destruct b; [destruct (exists_where _ _); [done|]|]; by intros [= <-]. Qed.
Lemma insert_keys_sessions attempt keys d d' :
  try_fold (insert_quota_key attempt) d keys = Ok d' → db_sessions d' = db_sessions d.
Proof.
  revert d. induction keys as [|key keys IH]; intros d; cbn [try_fold]; [by intros [= <-]|].
  unfold insert_quota_key at 1. destruct (_ || _); [done|]. intros E. by apply IH in E as ->.
Qed.

Lemma admit_sessions db catalog id i resume env db' r d session :
  admit_provider_in_tx db catalog id i resume env = Ok (db', r) →
  upsert_session db (in_effective i) (le_session env) = Ok (d, session) → db_sessions db' = db_sessions d.
Proof.
  intros E Es. unfold admit_provider_in_tx in E. cbv zeta in E. rewrite Es in E.
  destruct (admissible_candidate _ _ _ _ _) as [c'|]; [|done].
  destruct (insert_agent d _ _) as [d2|] eqn:Ea; [|by repeat case_match]. apply insert_agent_sessions in Ea.
  match type of E with context [insert_attempt ?x _ _] => set (d3 := x) in E end.
  assert (db_sessions d3 = db_sessions d2) as E3 by (subst d3; by destruct (le_owner env)). clearbody d3.
  destruct (insert_attempt d3 _ _) as [d4|] eqn:Et; [|done]. apply insert_attempt_sessions in Et.
  destruct (if has_services _ then _ else _) as [d5|] eqn:Eg; [|done]. apply insert_gate_sessions in Eg.
  destruct (try_fold _ _ _) as [d6|] eqn:Ek; [|done]. apply insert_keys_sessions in Ek.
  apply ok_pair_inj in E as [<- _]. simpl. congruence.
Qed.

Lemma provider_admits db catalog id i resume env db' r :
  admit_provider_in_tx db catalog id i resume env = Ok (db', r) →
  admits id (ps_request_id (in_request i)) db db' ∧ pv_agent r = id.
Proof.
  intros E. pose proof E as Ha. apply admit_provider_Ok in Ha as [c Ha].
  pose proof (admitted_frame _ _ _ _ _ _ _ _ _ Ha) as F.
  destruct Ha as [_ -> (session & d & Es & EA) Hf ET _ (l & _ & _ & _ & _ & Er & EL) _ _ _ _ [[] EC]].
  split; [|done]. split; [done| |done|done].
  pose proof (admit_sessions _ _ _ _ _ _ _ _ _ _ E Es) as ES. apply upsert_visits in Es as (ss & -> & G).
  apply owned_launch in EL as (old & l' & EL & F' & El).
  eapply (enlarges_intro _ db db' _ _ l' old); [exact EA|done|exact ET|done|done|congruence|]. by rewrite ES.
Qed.

Lemma launch_admits db id l db' :
  launch_in_tx db id l = Ok db' → admits id (ps_request_id (in_request (lc_inputs l))) db db'.
Proof.
  unfold launch_in_tx. destruct (admit_provider_in_tx _ _ _ _ _ _) as [[d r]|] eqn:E; [|done]. intros [= <-].
  by apply provider_admits in E as [? _].
Qed.
End launches.

(** An admission that writes the tables it says: one execution, no attempt and
    two plain events. *)
Lemma moved_frame db d id a e1 e2 n L :
  moved db d (db_agents db ++ [a]) (db_attempts db) ((db_events db ++ [e1]) ++ [e2], n) L →
  ag_id a = id → Status.terminal (ag_status a) = false → (∀ x, x ∈ db_agents db → ag_id x ≠ id) →
  ev_agent e1 = id → plain_event e1 → ev_no e1 = db_event_seq db + 1 →
  ev_agent e2 = id → plain_event e2 → ev_no e2 = n → n = db_event_seq db + 2 →
  admission_frame db id d.
Proof.
  intros [EA ET EJ _ _ []] Ha Hs Hf A1 P1 N1 A2 P2 N2 En. apply pair_equal_spec in EJ as [Ee Eq]. split; try done.
  - by exists a.
  - destruct un_entries as [En' Eq']. intros [].
    split; rewrite ?EA, ?ET, ?un_capabilities, ?un_lifecycles, ?un_pools, ?un_members, ?un_enrollments, ?En', ?Eq';
      try done. apply NoDup_snoc; [done|]. by rewrite Ha.
  - exists [e1; e2]. split; [by rewrite Ee, <-app_assoc|]. by repeat constructor; try apply P1; try apply P2.
  - unfold numbered, journal. simpl. rewrite Ee, Eq. intros N. rewrite !Forall_app. split; [split|].
    + eapply Forall_impl; [exact N|]. simpl. lia.
    + repeat constructor; lia.
    + repeat constructor; lia.
  - by rewrite un_deliveries.
  - exists []. split; [by rewrite app_nil_r|constructor].
Qed.

(** The admission of a historical runtime request. *)
Lemma runtime_admits `{FileSystem, ProcessTable} db request config revision frozen parent restart id env db' r :
  admit_with_restart db request config revision frozen parent restart id env = Ok (db', r) →
  db' = db ∨
  ∃ checked d, start_validate request = Ok checked ∧ replay_found db checked = Ok None ∧
    admission_gate db restart (default ""%string parent) = Ok () ∧ admits id (sq_request_id checked) db d ∧
    link_resumed d restart (default ""%string parent) id = Ok db'.
Proof.
  unfold admit_with_restart. intros E. destruct (nonblank _ _) as [[]|]; [|done].
  destruct (start_validate request) as [checked|]; [|done].
  destruct (replay_found db checked) as [[found|]|] eqn:Ef; [| |done].
  { destruct (ensure_same_replay _ _ _ _ _) as [[]|]; [|done]. left. by apply ok_pair_inj in E as [<- _]. }
  right. exists checked. destruct (_ && _); [done|]. destruct (admission_gate _ _ _) as [[]|]; [|done].
  destruct (config_runtime _ _) as [runtime|]; [|done]. destruct (negb _); [done|].
  destruct (match parent with Some _ => _ | None => _ end) as [lineage|]; [|done].
  destruct (check_opt _ _) as [[]|]; [|done]. destruct (upsert_session _ _ _) as [[d1 session]|] eqn:Es; [|done].
  pose proof Es as Hv. apply upsert_visits in Hv as (ss & E1 & G).
  apply (moved_session db db _ _ _ _ (moved_start db)) in Es.
  destruct (insert_agent d1 _ _) as [d2|] eqn:Ea; [|by destruct (is_some_and _ _)].
  pose proof Ea as Hs. apply insert_agent_sessions in Hs.
  apply (moved_insert_agent _ _ _ _ _ _ Es) in Ea as (M2 & Hfresh & _).
  match type of E with context [tx_event ?d _ _ ECreated] => set (d3 := d) in E end.
  set (a := runtime_agent checked frozen id session lineage (le_now env)) in *.
  set (l := runtime_launch checked revision frozen id parent lineage) in *.
  assert (∃ ls, moved db d3 (db_agents db ++ [a]) (db_attempts db) (journal db) (set_launches ls (db_launch db)) ∧
                ls = match le_owner env with
                     | Some owner => update_where (λ l, la_agent l = id) (with_owner owner) (launches db ++ [l])
                     | None => launches db ++ [l]
                     end ∧ db_sessions d3 = db_sessions d2) as (ls & M3 & Els & E3).
  { subst d3. destruct (le_owner env) as [owner|]; eexists; (split; [|split; reflexivity]); [|exact M2].
    unfold launches at 1. rewrite (mv_launch _ _ _ _ _ _ M2). exact (moved_launch _ _ _ _ _ _ M2 _). }
  clearbody d3.
  pose proof (moved_event _ _ _ _ _ _ M3 id (le_now env) ECreated) as M4.
  pose proof (moved_event _ _ _ _ _ _ M4 id (le_now env) (EStartAccepted None)) as M5.
  match type of M5 with moved _ ?d _ _ _ _ => set (d5 := d) in * end.
  assert (db_sessions d5 = ss) as E5 by (transitivity (db_sessions d3); [done|]; rewrite E3, Hs, E1; done).
  clearbody d5. destruct (link_resumed _ _ _ _) as [d6|] eqn:El; [|done]. apply ok_pair_inj in E as [<- _].
  exists d5. split; [done|]. split; [done|]. split; [done|]. split; [|done]. cbn [fst snd] in M5. split.
  - eapply (moved_frame db d5 id a); try done. cbn. lia.
  - apply owned_launch in Els as (old & l' & EL & F & Er).
    eapply (enlarges_intro _ db d5 a [] l' old); [apply (mv_agents _ _ _ _ _ _ M5)|done| | |done|by rewrite Er|by rewrite E5].
    + rewrite app_nil_r. apply (mv_attempts _ _ _ _ _ _ M5).
    + unfold launches. by rewrite (mv_launch _ _ _ _ _ _ M5).
  - apply (mv_rest _ _ _ _ _ _ M5).
  - apply (mv_capacity _ _ _ _ _ _ M5).
Qed.

(** ** Starts and resumes *)

Definition restart_of (resume : option ProviderResume) : option Z :=
  match resume with Some r => rm_restart r | None => None end.
Definition parent_for (resume : option ProviderResume) : string :=
  match resume with Some r => rm_parent r | None => ""%string end.

Lemma start_admits `{Sha256, LaunchSerde, JsonWriter, ProcessTable} db catalog i resume id env db' r :
  admit_provider_lineage db catalog i resume id env = Ok (db', r) →
  db' = db ∨
  ∃ d d', replay_found db (in_effective i) = Ok None ∧
    admission_gate db (restart_of resume) (parent_for resume) = Ok () ∧
    admits id (ps_request_id (in_request i)) db d ∧
    link_resumed d (restart_of resume) (parent_for resume) id = Ok d' ∧ advance_capacity d' = Ok db'.
Proof.
  unfold admit_provider_lineage. intros E. destruct (replay_found _ _) as [[found|]|] eqn:Ef; [| |done].
  - left. destruct (negb _); [done|]. destruct (replayed_admission _ _ _); [|done]. by apply ok_pair_inj in E as [<- _].
  - right. cbv zeta in E. fold (restart_of resume) (parent_for resume) in E.
    destruct (admission_gate _ _ _) as [[]|] eqn:Eg; [|done].
    match type of E with match ?x with _ => _ end = _ => destruct x as [lineage|]; [|done] end.
    destruct (admit_provider_in_tx _ _ _ _ _ _) as [[d1 r1]|] eqn:Ea; [|done].
    apply provider_admits in Ea as [Ha Er]. rewrite Er in E.
    destruct (link_resumed _ _ _ _) as [d2|] eqn:E2; [|done].
    destruct (advance_capacity d2) as [d3|] eqn:E3; [|done]. apply ok_pair_inj in E as [<- _]. by exists d1, d2.
Qed.

(** ** Pools *)

(** Executions may be admitted; restarts are left alone. *)
Definition grown (P : option string → Prop) (db db' : Db) : Prop := enlarges P db db' ∧ unrestarted db db'.
#[global] Instance grown_preorder P : PreOrder (grown P).
Proof. split; [by split|]. intros x y z [] []. split; by etrans. Qed.

Lemma steady_grown P db db' : steady db db' → grown P db db'.
Proof. intros [S U]. split; [by apply spares_enlarges|done]. Qed.

Lemma admits_grown id request db db' : admits id request db db' → grown (λ q, q = request) db db'.
Proof. intros [_ E U _]. by split. Qed.

Lemma insert_member_steady db m db' : insert_member db m = Ok db' → steady db db'.
Proof.
  intros (-> & _)%insert_member_Ok. unfold remember_history.
  transitivity (set_members (db_members db ++ [m]) db); [by apply beside_steady|].
  apply (agents_steady (set_members _ db)). by intros.
Qed.

Lemma insert_pool_beside `{Serde} db p db' : insert_pool db p = Ok db' → beside db db'.
Proof. by intros (-> & _)%insert_pool_Ok. Qed.

Lemma insert_enrollment_beside db agent run attempt challenge db' :
  insert_enrollment db agent run attempt challenge = Ok db' → beside db db'.
Proof. unfold insert_enrollment. destruct (negb _); [done|]. by intros [= <-]. Qed.

Section pool_launches.
Context `{Sha256, Serde, Unicode, Host}.

(** The members the service launches carry no request identity of their own. *)
Definition unnamed (l : Launch) : Prop := ps_request_id (in_request (lc_inputs l)) = None.
Definition unnamed_members (input : PoolAdmissionInput Launch) : Prop :=
  ∀ m l, m ∈ pi_members input → pa_source m = New l → unnamed l.

Lemma enroll_steady (input : PoolAdmissionInput Launch) session uuid db m db' :
  enroll_member input session uuid db m = Ok db' → steady db db'.
Proof.
  unfold enroll_member. destruct (pa_source m) as [i|pin]; [by intros [= <-]|].
  set (d := match session with Some _ => _ | None => db end). assert (steady db d) as S.
  { subst d. destruct session as [s|]; [|done]. apply agents_steady. intros a _ [_ E]. by apply joins. }
  clearbody d. destruct (insert_enrollment _ _ _ _ _) as [d'|] eqn:E; [|done]. apply insert_enrollment_beside in E.
  destruct (_ <? _); [done|]. intros [= <-]. etrans; [exact S|]. apply beside_steady. etrans; [exact E|done].
Qed.

Lemma pool_session_visits db orchestrator fresh db' s :
  pool_session db orchestrator fresh = Ok (db', s) → visits db db'.
Proof.
  unfold pool_session. destruct orchestrator as [r|]; [|by intros [= <- _]].
  destruct (session_for_reference _ _ _) as [[d x]|] eqn:E; [|done]. intros [= <- _]. by eapply session_visits.
Qed.

Lemma admit_pool_grown db (input : PoolAdmissionInput Launch) fresh uuid db' r :
  unnamed_members input → admit_pool db input fresh uuid = Ok (db', r) →
  db' = db ∨ (require_admissions_open db = Ok () ∧ grown (λ q, q = None) db db').
Proof.
  intros Hu. unfold admit_pool. destruct (replay_pool _ _ _ _) as [[found|]|]; [by intros [= <- _]; left| |done].
  destruct (require_admissions_open db) as [[]|]; [|done]. destruct (bool_decide _); [done|].
  destruct (try_fold _ (db, []) _) as [[d1 names]|] eqn:E1; [|done].
  destruct (pool_session _ _ _) as [[d2 session]|] eqn:E2; [|done].
  destruct (insert_pool _ _) as [d3|] eqn:E3; [|done]. destruct (try_fold _ d3 _) as [d4|] eqn:E4; [|done].
  destruct (try_fold _ d4 _) as [d5|] eqn:E5; [|done].
  destruct (if existsb _ _ then _ else _) as [d6|] eqn:E6; [|done]. intros [= <- _]. right. split; [done|].
  transitivity d1.
  { change (grown (λ q, q = None) (fst (db, @nil string)) (fst (d1, names))).
    apply (try_fold_inv (λ st, grown (λ q, q = None) (fst (db, @nil string)) (fst st))) in E1; [done| |done].
    intros [d ns] m [d' ns'] Hm G E. etrans; [exact G|]. unfold admit_member in E. simpl.
    destruct (bool_decide _); [done|]. destruct (pa_source m) as [l|pin] eqn:Es.
    - destruct (negb _); [done|]. destruct (admit_in_tx _ _ _) as [d''|] eqn:Ea; [|done]. injection E as <- _.
      apply launch_admits, admits_grown in Ea. by rewrite (Hu m l Hm Es) in Ea.
    - destruct (pin_holds _ _ _ _); [|done]. by injection E as <- _. }
  apply steady_grown. etrans; [by eapply visits_steady, pool_session_visits|].
  etrans; [by eapply beside_steady, insert_pool_beside|]. transitivity d4.
  { revert E4. apply (try_fold_keeps steady). intros. by eapply insert_member_steady. }
  transitivity d5. { revert E5. apply (try_fold_keeps steady). intros. by eapply enroll_steady. }
  destruct (existsb _ _); [by eapply beside_steady, advance_capacity_beside|by injection E6 as <-].
Qed.

Lemma install_steady (input : PoolReplaceInput Launch) db old revision now db' r :
  install_replacement db input old revision now = Ok (db', r) → steady db db'.
Proof.
  unfold install_replacement, swap_seat, retire_seat. destruct (exists_where _ _); [done|].
  match goal with |- context [insert_member ?x _] => set (d := x) end. assert (beside db d) as B by done. clearbody d.
  destruct (insert_member d _) as [d1|] eqn:E1; [|done]. destruct (negb _); [done|].
  destruct (insert_entry _ _) as [[d2 seq]|] eqn:E2; [|done]. destruct (fanout_entry _ _ _ _) as [d3|] eqn:E3; [|done].
  destruct (advance_capacity _) as [d4|] eqn:E4; [|done]. destruct (record_of _ _ _); [|done]. intros [= <- _].
  apply insert_entry_beside in E2. apply fanout_beside in E3. apply advance_capacity_beside in E4.
  etrans; [by apply beside_steady|]. etrans; [by eapply insert_member_steady|]. apply beside_steady.
  etrans; [|exact E4]. transitivity d3; [|done]. etrans; [|exact E3]. exact E2.
Qed.

Lemma replace_grown db (input : PoolReplaceInput Launch) now db' r :
  unnamed (ri_inputs input) → replace_pool_member db input now = Ok (Accepted db' r) →
  db' = db ∨ (require_admissions_open db = Ok () ∧ grown (λ q, q = None) db db').
Proof.
  intros Hu. unfold replace_pool_member. destruct (replayed _ _ _ _) as [[[d|x]|]|]; [done|by intros [= <- _]; left| |done].
  destruct (require_admissions_open db) as [[]|]; [|done]. destruct (refusal _ _ _) as [[d|]|]; [done| |done].
  destruct (row _) as [p|]; [|done]. destruct (negb _); [done|]. destruct (current_name_taken _ _ _ _); [done|].
  destruct (admit_in_tx _ _ _) as [d1|] eqn:E1; [|done]. destruct (record_of _ _ _) as [old|]; [|done].
  destruct (install_replacement _ _ _ _ _) as [[d2 x]|] eqn:E2; [|done]. intros [= <- _]. right. split; [done|].
  apply launch_admits, admits_grown in E1. rewrite Hu in E1. etrans; [exact E1|].
  by eapply steady_grown, install_steady.
Qed.
End pool_launches.

(** ** Attempts are quiet *)

Lemma quiet_attempts db ts :
  (NoDup (map at_id (db_attempts db)) → NoDup (map at_id ts)) → quiet db (set_attempts ts db).
Proof. intros Hn. split; try done. intros []. split; try done. simpl. auto. Qed.

Lemma quiet_launch db f : quiet db (on_launch f db).
Proof. split; try done. by intros []. Qed.

Lemma quiet_capacity db db' : advance_capacity db = Ok db' → quiet db db'.
Proof. unfold advance_capacity. destruct (negb _); [done|]. intros [= <-]. split; try done. by intros []. Qed.

Lemma quiet_linked db restart parent child db' : link_resumed db restart parent child = Ok db' → quiet db db'.
Proof.
  unfold link_resumed. destruct restart; [|by intros [= <-]]. destruct (negb _); [done|]. intros [= <-].
  split; try done. by intros [].
Qed.

Lemma update_attempts_quiet db P `{∀ t, Decision (P t)} f :
  (∀ t, at_id (f t) = at_id t) → quiet db (set_attempts (update_where P f (db_attempts db)) db).
Proof. intros Hf. apply quiet_attempts. by rewrite map_update_where by (intros; apply Hf). Qed.

Lemma update_one_quiet P `{∀ t, Decision (P t)} f db db' :
  (∀ t, at_id (f t) = at_id t) → update_one P f db = Ok db' → quiet db db'.
Proof. unfold update_one. intros Hf. destruct (negb _); [done|]. intros [= <-]. by apply update_attempts_quiet. Qed.

Lemma insert_attempt_quiet db t e db' : insert_attempt db t e = Ok db' → quiet db db'.
Proof.
  unfold insert_attempt. destruct (_ || _) eqn:E; [done|]. intros [= <-]. to_prop.
  transitivity (on_launch (set_attempt_evidence (attempt_evidence db ++ [e])) db); [apply quiet_launch|].
  apply quiet_attempts. intros Hn. apply NoDup_snoc; [done|]. intros x Hx Ex.
  rename select (exists_where (λ x, _ ∨ _) _ = false) into Hd. rewrite exists_where_false in Hd. apply (Hd x Hx). by left.
Qed.

Lemma spawning_quiet db id attempt db' b : provider_spawning db id attempt = Ok (db', b) → quiet db db'.
Proof.
  unfold provider_spawning. destruct (update_one _ _ _) as [d|] eqn:E.
  - intros [= <- _]. eapply update_one_quiet; [|exact E]. by intros.
  - destruct (cancel_requested _ _); [|done]. by intros [= <- _].
Qed.

Lemma spawn_failed_quiet db id attempt db' : provider_spawn_failed db id attempt = Ok db' → quiet db db'.
Proof. apply update_one_quiet. by intros. Qed.

Lemma process_evidence_quiet db id attempt leader integration db' :
  provider_process_evidence db id attempt leader integration = Ok db' → quiet db db'.
Proof.
  unfold provider_process_evidence. destruct (check_opt _ _); [|done]. destruct (is_some_and _ _); [done|].
  destruct (update_one _ _ _) as [d|] eqn:E; [|done]. intros [= <-].
  etrans; [eapply update_one_quiet; [|exact E]; by intros|apply quiet_launch].
Qed.

Lemma cleanup_quiet db id attempt proof db' : provider_cleanup db id attempt proof = Ok db' → quiet db db'.
Proof. unfold provider_cleanup. destruct (negb _); [done|]. apply update_one_quiet. by intros. Qed.

Lemma rerunning_quiet db id attempt pgid db' : provider_rerunning db id attempt pgid = Ok db' → quiet db db'.
Proof.
  unfold provider_rerunning. destruct (update_one _ _ _) as [d|] eqn:E; [|done]. destruct (negb _); [done|].
  intros [= <-]. etrans; [eapply update_one_quiet; [|exact E]; by intros|apply quiet_launch].
Qed.

Lemma never_spawned_quiet db id : quiet db (provider_never_spawned db id).1.
Proof. unfold provider_never_spawned. by apply update_attempts_quiet. Qed.

Lemma history_quiet `{LaunchSerde} db id attempt state cooldown at_ db' :
  provider_history_with_cooldown db id attempt state cooldown at_ = Ok db' → quiet db db'.
Proof.
  unfold provider_history_with_cooldown. destruct (row _); [|done]. destruct (row _) as [t|]; [|done].
  destruct (negb _); [done|]. destruct (_ && _); [done|].
  destruct (match cooldown with None => _ | Some _ => _ end) as [d|] eqn:E; [|done]. intros [= <-].
  etrans; [|apply quiet_launch]. destruct cooldown as [reason|]; [|by injection E as <-].
  destruct (_ || _); [done|]. destruct (negb _); [done|].
  destruct (cooldown_subject _ _ _ _ _) as [[provider account]|]; [|done].
  destruct (is_some _); [by injection E as <-|]. destruct (record_cooldown _ _) as [[d1 changed]|] eqn:Ec; [|done].
  transitivity d1; [|destruct changed; [by eapply quiet_capacity|by injection E as <-]].
  unfold record_cooldown in Ec. destruct (_ || _); [done|]. destruct (first_where _ _); [destruct (flt _ _)|];
    injection Ec as <- _; (apply quiet_launch || done).
Qed.

Lemma next_attempt_quiet `{Sha256, LaunchSerde} db id catalog candidates at_ fresh db' n :
  allocate_next_attempt db id catalog candidates at_ fresh = Ok (db', n) → quiet db db'.
Proof.
  unfold allocate_next_attempt. destruct (next_candidate _ _ _ _ _) as [[[previous state] candidate]|]; [|done].
  destruct (update_one _ _ _) as [d1|] eqn:E1; [|done]. destruct (insert_attempt _ _ _) as [d2|] eqn:E2; [|done].
  destruct (try_fold _ _ _) as [d3|] eqn:E3; [|done]. destruct (advance_capacity _) as [d4|] eqn:E4; [|done].
  intros [= <- _]. etrans; [eapply update_one_quiet; [|exact E1]; by intros|].
  etrans; [by eapply insert_attempt_quiet|]. transitivity d3.
  { revert E3. apply (try_fold_keeps quiet). intros d key d' _. unfold insert_quota_key. destruct (_ || _); [done|].
    intros [= <-]. apply quiet_launch. }
  etrans; [by eapply quiet_capacity|]. by apply quiet_event.
Qed.

Lemma seal_quiet db op db' : seal_identity db op = Ok db' → quiet db db'.
Proof.
  unfold seal_identity. destruct (hex64 _ _); [|done]. destruct (check_opt _ _); [|done]. destruct (_ || _); [done|].
  destruct (negb _); [done|]. intros [= <-]. apply quiet_launch.
Qed.

Lemma running_quiet db id pgid now db' :
  NoDup (map ag_id (db_agents db)) → running db id pgid now = Ok db' → quiet db db'.
Proof.
  unfold running. intros Hn. destruct (first_where _ _) as [a|] eqn:Ea; [|done]. simpl.
  apply first_where_Some in Ea as [<- Ha]. destruct (Status.transition _ _) as [[]|] eqn:Et; [|done].
  match goal with |- context [on_launch ?f ?x] => set (d := on_launch f x) end.
  assert (quiet db d) as Q.
  { etrans; [|apply quiet_launch]. apply quiet_agents; [done| |done]. intros x Hx E.
    rewrite (primary_key ag_id _ x a Hn Hx Ha E). split; try done. by apply rtc_once. }
  clearbody d. destruct (if ag_identity_v2 a then _ else _) as [d'|] eqn:E; [|done]. intros [= <-].
  etrans; [exact Q|]. transitivity d'; [|by apply quiet_event].
  destruct (ag_identity_v2 a); [eapply update_one_quiet; [|exact E]; by intros|by eapply insert_attempt_quiet].
Qed.

(** ** The system *)

Section system.
Context `{Sha256, LaunchSerde, JsonWriter, Serde, EventJson, Unicode, Host, JsonSchema}.

(** One committed transaction.  Inputs are those the service has prepared and
    validated; [allowed] is what the callers ask to start.  The pool members
    the service launches carry no request identity of their own.  What the
    machine reports of files and process groups may differ at every step. *)
Inductive db_step (allowed : StartRequest → Prop) (db db' : Db) : Prop :=
  | by_write run attempt token w now r :
      pool_write_tx db run attempt token w now = Ok (Accepted db' r) → db_step allowed db db'
  | by_operator pool key message r :
      pool_post_validate (mk_post pool key message) = Ok () →
      pool_operator_post db pool key message = Ok (Accepted db' r) → db_step allowed db db'
  | by_report run attempt token input at_ fresh r :
      notify_orchestrator db run attempt token input at_ fresh = Ok (db', r) → db_step allowed db db'
  | by_settle pool env r : settle_pool db pool env = (db', r) → db_step allowed db db'
  | by_bind_pool pool reference at_ fresh_session fresh s :
      bind_pool db pool reference at_ fresh_session fresh = Ok (db', s) → db_step allowed db db'
  | by_replace (input : PoolReplaceInput Launch) now r :
      valid_input input → unnamed (ri_inputs input) →
      replace_pool_member db input now = Ok (Accepted db' r) → db_step allowed db db'
  | by_admit_pool (input : PoolAdmissionInput Launch) fresh uuid r :
      valid_pool input → unnamed_members input →
      admit_pool db input fresh uuid = Ok (db', r) → db_step allowed db db'
  | by_issue run attempt token at_ u :
      issue_worker_capability db run attempt token at_ = Ok (db', u) → db_step allowed db db'
  | by_register run attempt token version catalog at_ u :
      register_worker_catalog db run attempt token version catalog at_ = Ok (db', u) → db_step allowed db db'
  | by_finish run attempt token input at_ guard r :
      accept_worker_finish db run attempt token input at_ guard = Ok (db', r) → db_step allowed db db'
  | by_receipt run : db' = observe_worker_finish_receipt db run → db_step allowed db db'
  | by_turn run idle at_ b : worker_turn db run idle at_ = Ok (db', b) → db_step allowed db db'
  | by_start (processes : ProcessTable) catalog i resume id env r :
      prepared i → identity_ok id → allowed (in_effective i) →
      admit_provider_lineage db catalog i resume id env = Ok (db', r) → db_step allowed db db'
  | by_runtime (files : FileSystem) (processes : ProcessTable) request checked config revision frozen parent restart id env r :
      identity_ok id → start_validate request = Ok checked → allowed checked →
      admit_with_restart db request config revision frozen parent restart id env = Ok (db', r) → db_step allowed db db'
  | by_next_attempt id catalog candidates at_ fresh n :
      allocate_next_attempt db id catalog candidates at_ fresh = Ok (db', n) → db_step allowed db db'
  | by_spawning id attempt b : provider_spawning db id attempt = Ok (db', b) → db_step allowed db db'
  | by_spawn_failed id attempt : provider_spawn_failed db id attempt = Ok db' → db_step allowed db db'
  | by_process id attempt leader integration :
      provider_process_evidence db id attempt leader integration = Ok db' → db_step allowed db db'
  | by_running id pgid now : running db id pgid now = Ok db' → db_step allowed db db'
  | by_rerunning id attempt pgid : provider_rerunning db id attempt pgid = Ok db' → db_step allowed db db'
  | by_cleanup id attempt proof : provider_cleanup db id attempt proof = Ok db' → db_step allowed db db'
  | by_history id attempt state cooldown at_ :
      provider_history_with_cooldown db id attempt state cooldown at_ = Ok db' → db_step allowed db db'
  | by_never_spawned id : db' = (provider_never_spawned db id).1 → db_step allowed db db'
  | by_seal op : seal_identity db op = Ok db' → db_step allowed db db'.

Definition anything (request : StartRequest) : Prop := True.

(** *** Its steps are steps of the pool system *)

Lemma admits_steps id request db d : identity_ok id → admits id request db d → rtc (step (Inputs := Launch)) db d.
Proof. intros Hid [F _ _ _]. by apply rtc_once, (step_admitted _ _ id). Qed.

Lemma quiet_once db db' : quiet db db' → rtc (step (Inputs := Launch)) db db'.
Proof. intros Q. by apply rtc_once, step_other. Qed.

Lemma db_step_steps allowed db db' : sound db → db_step allowed db db' → rtc (step (Inputs := Launch)) db db'.
Proof.
  intros Hs S. pose proof (wf_keys _ (so_wf _ Hs)) as Hk. pose proof (keys_agents _ Hk) as Hn.
  destruct S as [? ? ? ? ? ? E|? ? ? ? V E|? ? ? ? ? ? ? E|? ? ? E|? ? ? ? ? ? E|? ? r V U E|? ? ? ? V U E
    |? ? ? ? ? E|? ? ? ? ? ? ? E|? ? ? ? ? ? ? E|? E|? ? ? ? E|? ? ? ? ? ? ? _ Hid _ E|? ? ? ? ? ? ? ? ? ? ? ? Hid _ _ E
    |? ? ? ? ? ? E|? ? ? E|? ? E|? ? ? ? E|? ? ? E|? ? ? E|? ? ? E|? ? ? ? ? E|? E|? E].
  - by eapply rtc_once, step_write.
  - by eapply rtc_once, step_operator.
  - by eapply rtc_once, step_report.
  - by eapply rtc_once, step_settle.
  - by eapply rtc_once, step_bind.
  - by eapply rtc_once, step_replace.
  - by eapply rtc_once, step_admit_pool.
  - by eapply rtc_once, step_issue.
  - by eapply rtc_once, step_register.
  - by eapply rtc_once, step_finish.
  - by eapply rtc_once, step_receipt.
  - by eapply rtc_once, step_turn.
  - apply start_admits in E as [->|(d & d' & _ & _ & A & L & C)]; [done|].
    etrans; [by eapply admits_steps|]. etrans; [by eapply quiet_once, quiet_linked|by eapply quiet_once, quiet_capacity].
  - apply runtime_admits in E as [->|(c & d & _ & _ & _ & A & L)]; [done|].
    etrans; [by eapply admits_steps|by eapply quiet_once, quiet_linked].
  - by eapply quiet_once, next_attempt_quiet.
  - by eapply quiet_once, spawning_quiet.
  - by eapply quiet_once, spawn_failed_quiet.
  - by eapply quiet_once, process_evidence_quiet.
  - by eapply quiet_once, running_quiet.
  - by eapply quiet_once, rerunning_quiet.
  - by eapply quiet_once, cleanup_quiet.
  - by eapply quiet_once, history_quiet.
  - subst db'. by apply quiet_once, never_spawned_quiet.
  - by eapply quiet_once, seal_quiet.
Qed.

(** *** What a step does to the executions *)

(** An admission passed its gate. *)
Definition gate_passed (db : Db) : Prop := ∃ restart parent, admission_gate db restart parent = Ok ().

(** The request identities a step may add. *)
Definition asked (allowed : StartRequest → Prop) (db : Db) (q : option string) : Prop :=
  q = None ∨ ∃ request, allowed request ∧ sq_request_id request = q ∧ replay_found db request = Ok None.

Record effect (allowed : StartRequest → Prop) (db db' : Db) : Prop := {
  ef_rows : enlarges (asked allowed db) db db';
  ef_gate : Forall2 same_agent (db_agents db) (db_agents db') ∨ gate_passed db;
  ef_restarts : db_restarts db' = db_restarts db;
  ef_captured : db_restart_agents db' = db_restart_agents db ∨
    ∃ restart parent child, child ∈ map ag_id (db_agents db') ∧
      db_restart_agents db' =
        update_where (λ a, ra_restart a = restart ∧ ra_agent a = parent ∧ ra_resumed_execution a = None)
          (resumed_as child) (db_restart_agents db);
}.

Lemma enlarges_impl (P Q : option string → Prop) db db' : (∀ q, P q → Q q) → enlarges P db db' → enlarges Q db db'.
Proof.
  intros HPQ [? ? ? (old & new & E & F & N) ?]. split; try done. exists old, new. split; [done|]. split; [done|].
  eapply Forall_impl; [exact N|]. intros l. apply HPQ.
Qed.

Lemma steady_effect allowed db db' : steady db db' → effect allowed db db'.
Proof. intros [S [U1 U2]]. split; [by apply spares_enlarges|left; apply S|done|by left]. Qed.

Lemma grown_effect allowed db db' :
  db' = db ∨ (require_admissions_open db = Ok () ∧ grown (λ q, q = None) db db') → effect allowed db db'.
Proof.
  intros [->|[Hg [E [U1 U2]]]]; [by apply steady_effect|]. split; [|right; by exists None, ""%string|done|by left].
  eapply enlarges_impl; [|exact E]. intros q ->. by left.
Qed.

(** The continuation of a captured execution is recorded with the admission. *)
Lemma linked_effect allowed db d restart parent id request db1 db' :
  allowed request → replay_found db request = Ok None → admission_gate db restart parent = Ok () →
  admits id (sq_request_id request) db d → link_resumed d restart parent id = Ok db1 → beside db1 db' →
  effect allowed db db'.
Proof.
  intros Ha Hn Hg [F E [U1 U2] _] L B.
  assert (spares d db1 ∧ db_agents db1 = db_agents d ∧ db_restarts db1 = db_restarts d) as (S1 & A1 & R1).
  { unfold link_resumed in L. destruct restart; [|by injection L as <-]. destruct (negb _); [done|].
    injection L as <-. by split. }
  pose proof (beside_spares _ _ B) as S2. unfold beside, footing in B. injection B as BA _ _ _ BR BC.
  assert (enlarges (λ q, q = sq_request_id request) db db') as E'.
  { etrans; [exact E|]. etrans; [apply spares_enlarges, S1|apply spares_enlarges, S2]. }
  split.
  - eapply enlarges_impl; [|exact E']. intros q ->. right. eauto.
  - right. by exists restart, parent.
  - congruence.
  - rewrite BC, BA, A1, <-U2. unfold link_resumed in L. destruct restart as [restart|]; [|left; by injection L as <-].
    destruct (negb _); [done|]. injection L as <-. right. exists restart, parent, id. split; [|done].
    destruct (adm_agent _ _ _ F) as (a & -> & <- & _). rewrite map_app. apply elem_of_app. right. left.
Qed.

Lemma db_step_effect allowed db db' :
  NoDup (map ag_id (db_agents db)) → db_step allowed db db' → effect allowed db db'.
Proof.
  intros Hn S.
  destruct S as [? ? ? ? ? ? E|? ? ? ? V E|? ? ? ? ? ? ? E|? ? ? E|? ? ? ? ? ? E|? ? r V U E|? ? ? ? V U E
    |? ? ? ? ? E|? ? ? ? ? ? ? E|? ? ? ? ? ? ? E|? E|? ? ? ? E|? ? ? ? ? ? ? P _ A E|? ? ? ? ? ? ? ? ? ? ? ? _ V A E
    |? ? ? ? ? ? E|? ? ? E|? ? E|? ? ? ? E|? ? ? E|? ? ? E|? ? ? E|? ? ? ? ? E|? E|? E].
  - by eapply steady_effect, beside_steady, write_beside.
  - by eapply steady_effect, beside_steady, operator_beside.
  - by eapply steady_effect, beside_steady, notify_beside.
  - by eapply steady_effect, beside_steady, settle_beside.
  - by eapply steady_effect, bind_pool_steady.
  - by eapply grown_effect, replace_grown.
  - by eapply grown_effect, admit_pool_grown.
  - by eapply steady_effect, beside_steady, issue_beside.
  - by eapply steady_effect, beside_steady, register_beside.
  - by eapply steady_effect, beside_steady, finish_beside.
  - subst db'. by apply steady_effect, beside_steady.
  - by eapply steady_effect, beside_steady, turn_beside.
  - apply start_admits in E as [->|(d & d' & Hr & Hg & Ad & L & C)]; [by apply steady_effect|].
    rewrite <-(proj1 (prepared_identity _ P)) in Ad. apply advance_capacity_beside in C. by eapply linked_effect.
  - apply runtime_admits in E as [->|(c & d & V' & Hr & Hg & Ad & L)]; [by apply steady_effect|].
    rewrite V in V'. injection V' as <-. by eapply linked_effect.
  - by eapply steady_effect, next_attempt_steady.
  - by eapply steady_effect, spawning_steady.
  - by eapply steady_effect, spawn_failed_steady.
  - by eapply steady_effect, process_evidence_steady.
  - by eapply steady_effect, running_steady.
  - by eapply steady_effect, rerunning_steady.
  - by eapply steady_effect, cleanup_steady.
  - by eapply steady_effect, beside_steady, history_beside.
  - subst db'. apply steady_effect, never_spawned_steady.
  - by eapply steady_effect, seal_steady.
Qed.
End system.
