(* ===== verification/RestartSafety.v ===== *)
(** * Orderly restarts

    The transactions of [Restart] and those of [StoreSystem] as one transition
    system: what holds in every state it reaches.  Admissions are part of it
    and check the barrier themselves. *)

From stdpp Require Import relations.
From S2P Require Import Prelude Text Float64 Json Canonical Catalogs Lifecycle Requests PoolDomain.
From S2P Require Import Tables Demo Roster World History WorkerStore Sessions ServiceRestart.
From S2P Require Import PoolSettle PoolAdmit WorkerFinish Terminal Redact Notices Evidence Outbox Restart.
From S2P Require Import Settlement Admissions LaunchIdentity Starts LaunchDemo Supervision StoreFrames StoreSystem.

(** ** The refusal carries the restart *)

Lemma digits_pretty n s : digits_value 0 (bytes (pretty_N_go n s)) = digits_value (Z.of_N n) (bytes s).
Proof.
  revert s. induction (N.lt_wf_0 n) as [n _ IH]; intros s.
  assert (n = 0 ∨ 0 < n)%N as [->|?] by lia; [by rewrite pretty_N_go_0|].
  rewrite pretty_N_go_step by done. rewrite IH by by apply N.div_lt. cbn [bytes digits_value].
  assert (Z.of_N n = 10 * Z.of_N (n `div` 10) + Z.of_N (n `mod` 10)) as Hn.
  { rewrite (N.div_mod n 10) at 1 by done. lia. }
  assert (n `mod` 10 < 10)%N as Hm by by apply N.mod_lt. revert Hn Hm. generalize (n `mod` 10)%N. intros m Hn Hm.
  assert (m = 0 ∨ m = 1 ∨ m = 2 ∨ m = 3 ∨ m = 4 ∨ m = 5 ∨ m = 6 ∨ m = 7 ∨ m = 8 ∨ m = 9)%N as Hc by lia.
  rewrite Hn. by destruct_or? Hc; subst m.
Qed.

Lemma parse_digit b rest :
  48 ≤ b ≤ 57 → ∀ s n, bytes s = b :: rest → digits_value 0 (b :: rest) = Some n → i64_MIN ≤ n ≤ i64_MAX →
  parse_i64 s = Some n.
Proof.
  intros Hb s n Es En Hn. unfold parse_i64. rewrite Es.
  assert (b = 48 ∨ b = 49 ∨ b = 50 ∨ b = 51 ∨ b = 52 ∨ b = 53 ∨ b = 54 ∨ b = 55 ∨ b = 56 ∨ b = 57) as Hc by lia.
  destruct_or? Hc; subst b; cbv beta iota zeta; rewrite En, Z.mul_1_l, (proj2 (Z.leb_le _ _)), (proj2 (Z.leb_le _ _));
    (done || apply Hn).
Qed.

Lemma parse_dec n : 0 < n ≤ i64_MAX → parse_i64 (dec n) = Some n.
Proof.
  intros Hn. destruct n as [|p|p]; try lia. change (dec (Z.pos p)) with (pretty (N.pos p)).
  unfold pretty, pretty_N. rewrite decide_False by done.
  pose proof (digits_pretty (N.pos p) "") as Hd. cbn [bytes digits_value] in Hd.
  pose proof (pretty_N_go_free 45 (N.pos p) "" ltac:(lia) eq_refl) as Hf.
  pose proof (dec_nonempty (Z.pos p)) as Hne. pose proof (λ b, dec_bytes b (Z.pos p)) as Hb.
  change (dec (Z.pos p)) with (pretty (N.pos p)) in Hne, Hb. unfold pretty, pretty_N in Hne, Hb.
  rewrite decide_False in Hne, Hb by done. revert Hd Hf Hne Hb. generalize (pretty_N_go (N.pos p) "").
  intros [|c s] Hd Hf Hne Hb; [done|]. unfold free in Hf. rewrite bool_decide_eq_true in Hf.
  cbn [bytes] in *. eapply (parse_digit (u8 c)); [|done|done|unfold i64_MIN; lia].
  destruct (Hb (u8 c)) as [E|]; [left| |done]. rewrite E in Hf. by destruct Hf; left.
Qed.

Lemma find_bracket s : 93 ∉ bytes s → str_find "]" (s +:+ "]") = Some (String.length s).
Proof.
  induction s as [|c s IH]; [done|]. cbn [bytes]. intros [Hc Hs]%not_elem_of_cons.
  change (String c s +:+ "]") with (String c (s +:+ "]")). cbn [str_find]. rewrite IH by done.
  assert (starts_with "]" (String c (s +:+ "]")) = false) as ->; [|done].
  unfold starts_with. cbn [String.prefix]. destruct (Ascii.ascii_dec _ c) as [<-|]; [by destruct Hc|done].
Qed.

(** The message of the barrier names the restart, alone and as the text of the
    error that carries it. *)
Lemma blocked_id_roundtrip id :
  0 < id ≤ i64_MAX → blocked_restart_id (blocked_message id) = Some id ∧
  blocked_restart_id (display (Transition (blocked_message id))) = Some id.
Proof.
  intros Hid. set (p := "invalid agent transition: "%string).
  assert (∀ fuel, trim_start_matches fuel p (blocked_message id) = blocked_message id) as Ht by by intros [].
  assert (blocked_restart_id (blocked_message id) = Some id) as E.
  { unfold blocked_restart_id. fold p. rewrite Ht. unfold blocked_message. rewrite strip_prefix_self. cbn [mbind option_bind].
    assert (str_find "]" (dec id +:+ "]") = Some (String.length (dec id))) as ->.
    { apply find_bracket. intros ?%dec_bytes. lia. }
    cbn [mbind option_bind]. rewrite slice_app_l, parse_dec by done. cbn [mbind option_bind].
    by rewrite (proj2 (Z.ltb_lt _ _)) by lia. }
  split; [done|]. rewrite <-E. unfold blocked_restart_id. fold p. rewrite Ht.
  change (display (Transition (blocked_message id))) with (p +:+ blocked_message id).
  assert (∃ k, String.length (p +:+ blocked_message id) = S k) as [k ->] by by eexists.
  cbn [trim_start_matches]. by rewrite strip_prefix_self, Ht.
Qed.

(** ** The invariant *)

Definition notice_key (n : RestartNoticeRow) : Z * string * string * Stage :=
  (nr_restart n, nr_transport n, nr_session n, nr_stage n).
Definition notices (mn : Maintenance) : list RestartNoticeRow := ob_notices (mn_outbox mn).
Definition notice_keys (mn : Maintenance) := map notice_key (notices mn).

Definition capture_key (a : RestartAgentRow) : Z * string := (ra_restart a, ra_agent a).

(** The columns of the warnings. *)
Definition warnings (a : RestartAgentRow) := (ra_first_ns a, ra_second_ns a, ra_force_ns a).

(** A result that no later transaction changes. *)
Definition final (s : ResumeStatus) : Prop := s = RsCancelled ∨ s = RsFailed ∨ s = RsFinished.

(** What may become of the row of a captured execution. *)
Record evolves (a a' : RestartAgentRow) : Prop := {
  ev_key : capture_key a' = capture_key a;
  ev_cancelled : ra_cancelled_before a' = ra_cancelled_before a;
  ev_warned : retained (ra_first_ns a) (ra_first_ns a') ∧ retained (ra_second_ns a) (ra_second_ns a') ∧
              retained (ra_force_ns a) (ra_force_ns a');
  ev_requested : retained (ra_requested_ns a) (ra_requested_ns a');
  ev_resumed : retained (ra_resumed_execution a) (ra_resumed_execution a');
  ev_final : final (ra_resume_status a) → ra_resume_status a' = ra_resume_status a;
  ev_decided : ra_resume_status a ≠ RsPending → ra_resume_status a' ≠ RsPending;
}.
#[global] Instance evolves_preorder : PreOrder evolves.
Proof.
  split; [by intros a; split|].
  intros x y z [K1 C1 (F1 & S1 & G1) Q1 R1 E1 D1] [K2 C2 (F2 & S2 & G2) Q2 R2 E2 D2].
  split; [congruence|congruence|split_and!; by etrans|by etrans|by etrans| |auto].
  intros Hf. pose proof (E1 Hf) as E. rewrite <-E. apply E2. by rewrite E.
Qed.

(** A minute passes between the first warning and the forced stop. *)
Definition patient (a : RestartAgentRow) : Prop :=
  (∀ s, ra_second_ns a = Some s → ∃ f, ra_first_ns a = Some f ∧ WARNING_DELAY_NS ≤ s - f) ∧
  (∀ k, ra_force_ns a = Some k → ∃ f, ra_first_ns a = Some f ∧ 2 * WARNING_DELAY_NS ≤ k - f).

(** A session a notice can be addressed to. *)
Definition addressable (t s : string) : Prop := orchestrator_validate (mk_orchestrator t s None) = Ok ().

Record orderly (mn : Maintenance) : Prop := {
  od_ids : NoDup (map rs_id (restarts mn));
  od_range : 0 ≤ mn_seq mn ∧ ∀ r, r ∈ restarts mn → 0 < rs_id r ≤ mn_seq mn;
  od_one : ∀ r r', r ∈ restarts mn → r' ∈ restarts mn → rs_finished r = false → rs_finished r' = false → r = r';
  od_phase : ∀ r, r ∈ restarts mn → rs_finished r = true ↔ rs_phase r = RComplete;
  od_idle : ∀ r, r ∈ restarts mn → rs_phase r = RReady ∨ rs_phase r = RRequesting → working (mn_db mn) = false;
  od_rows : NoDup (map capture_key (captured mn));
  od_home : ∀ a, a ∈ captured mn → ra_restart a ≤ mn_seq mn;
  od_patient : ∀ a, a ∈ captured mn → patient a;
  od_child : ∀ a c, a ∈ captured mn → ra_resumed_execution a = Some c → c ∈ map ag_id (db_agents (mn_db mn));
  od_agents : NoDup (map ag_id (db_agents (mn_db mn)));
  od_decided : ∀ r a, r ∈ restarts mn → rs_phase r = RComplete → a ∈ captured mn → ra_restart a = rs_id r →
    ra_resume_status a ≠ RsPending;
  od_notices : NoDup (notice_keys mn);
  od_sent : ∀ n, n ∈ notices mn → nr_restart n ≤ mn_seq mn ∧ addressable (nr_transport n) (nr_session n);
  od_recipients : ∀ c, c ∈ mn_recipients mn →
    rr_restart c ≤ mn_seq mn ∧ addressable (rr_transport c) (rr_session c);
  od_told : ∀ r c, r ∈ restarts mn → rs_phase r = RComplete → c ∈ mn_recipients mn → rr_restart c = rs_id r →
    (rs_id r, rr_transport c, rr_session c, SAfter) ∈ notice_keys mn;
}.

(** ** Notices *)

(** Queuing notices touches neither the restarts nor the executions. *)
Record notified (mn mn' : Maintenance) : Prop := {
  nf_restarts : restarts mn' = restarts mn;
  nf_captured : captured mn' = captured mn;
  nf_agents : db_agents (mn_db mn') = db_agents (mn_db mn);
  nf_recipients : mn_recipients mn' = mn_recipients mn;
  nf_seq : mn_seq mn' = mn_seq mn;
  nf_keys : NoDup (notice_keys mn) → NoDup (notice_keys mn');
  nf_kept : notice_keys mn ⊆ notice_keys mn';
}.
#[global] Instance notified_preorder : PreOrder notified.
Proof. split; [by split|]. intros x y z [] []. split; try congruence; [auto|set_solver]. Qed.

(** Every notice of the later state was there or is addressed to someone. *)
Definition addressed (restart : Z) (mn mn' : Maintenance) : Prop :=
  ∀ n, n ∈ notices mn' → notice_key n ∈ notice_keys mn ∨
    (nr_restart n = restart ∧ addressable (nr_transport n) (nr_session n)).
#[global] Instance addressed_preorder restart : PreOrder (addressed restart).
Proof.
  split; [intros x n Hn; left; apply list_elem_of_fmap; by exists n|].
  intros x y z Hxy Hyz n Hn. destruct (Hyz n Hn) as [(m & E & Hm)%list_elem_of_fmap|]; [|by right].
  unfold notice_key in E. injection E as E1 E2 E3 E4.
  destruct (Hxy m Hm) as [Hk|[Hr Ha]]; [left|right; by rewrite E1, E2, E3].
  unfold notice_key in *. by rewrite E1, E2, E3, E4.
Qed.

Definition told restart mn mn' : Prop := notified mn mn' ∧ addressed restart mn mn'.
#[global] Instance told_preorder restart : PreOrder (told restart).
Proof. split; [by split|]. intros x y z [] []. split; by etrans. Qed.

Lemma session_frame db r fresh db' id :
  session_for_reference db r fresh = Ok (db', id) → orchestrator_validate r = Ok () ∧ ∃ ss, db' = set_sessions ss db.
Proof.
  unfold session_for_reference. intros E. destruct (orchestrator_validate r) as [[]|]; [|done].
  split; [done|]. run E; by eexists.
Qed.

Lemma enqueue_Ok mn restart t s stage message now fresh mn' :
  enqueue_notice mn restart t s stage message now fresh = Ok mn' →
  told restart mn mn' ∧ (restart, t, s, stage) ∈ notice_keys mn'.
Proof.
  unfold enqueue_notice. destruct (exists_where _ _) eqn:Ex.
  { intros [= <-]. split; [done|]. apply exists_where_true in Ex as (n & Hn & <- & <- & <- & <-).
    apply list_elem_of_fmap. by exists n. }
  destruct (fresh t s) as [fs uuid]. destruct (session_for_reference _ _ _) as [[db id]|] eqn:Es; [|done].
  apply session_frame in Es as [Hv [ss ->]]. intros [= <-].
  split; [split|]; unfold addressed, notice_keys, notices; cbn [mn_outbox set_notices on_db ob_notices set_db].
  - split; try done; unfold notice_keys, notices; cbn [mn_outbox set_notices on_db ob_notices set_db]; rewrite map_app.
    + intros Hn. apply NoDup_app. split; [done|]. split; [|apply NoDup_singleton].
      intros k (n & -> & Hin)%list_elem_of_fmap E%list_elem_of_singleton. injection E as E1 E2 E3 E4.
      by apply (proj1 (exists_where_false _ _) Ex n Hin).
    + set_solver.
  - intros n [Hn| ->%list_elem_of_singleton]%elem_of_app; [|by right]. left. apply list_elem_of_fmap. by exists n.
  - rewrite map_app. apply elem_of_app. right. by left.
Qed.

Lemma result_Ok mn restart t s now fresh mn' :
  queue_restart_result mn restart t s now fresh = Ok mn' →
  told restart mn mn' ∧ (restart, t, s, SAfter) ∈ notice_keys mn'.
Proof.
  unfold queue_restart_result. set (m := set_notices _ mn). intros [[Hn Ha] Hin]%enqueue_Ok. split; [|done].
  assert (notice_keys m = notice_keys mn) as Ek by (unfold notice_keys; apply map_update_where; by intros).
  split.
  - destruct Hn as [H1 H2 H3 H4 H5 H6 H7]. rewrite Ek in H6, H7. by split.
  - intros n Hx. rewrite <-Ek. by apply Ha.
Qed.

Lemma results_Ok mn restart now fresh mn' :
  queue_restart_results mn restart now fresh = Ok mn' →
  told restart mn mn' ∧
  ∀ c, c ∈ mn_recipients mn → rr_restart c = restart → (restart, rr_transport c, rr_session c, SAfter) ∈ notice_keys mn'.
Proof.
  unfold queue_restart_results. set (l := merge_sort _ _). intros E.
  assert (∀ c, c ∈ mn_recipients mn → rr_restart c = restart → c ∈ l) as Hl.
  { intros c Hc Hr. unfold l. rewrite merge_sort_Permutation. by apply list_elem_of_filter. }
  cut (told restart mn mn' ∧ ∀ c, c ∈ l → (restart, rr_transport c, rr_session c, SAfter) ∈ notice_keys mn').
  { intros [Ht Hk]. split; [done|]. auto. }
  clear Hl. clearbody l. revert mn E. induction l as [|c l IH]; intros mn E; simpl in E.
  { injection E as <-. split; [done|]. by intros c ?%elem_of_nil. }
  destruct (queue_restart_result _ _ _ _ _ _) as [m|] eqn:Er; [|done].
  apply result_Ok in Er as [T Hin]. destruct (IH m E) as [T' Hl]. split; [by etrans|].
  intros d [->|Hd]%elem_of_cons; [|auto]. destruct T' as [[] _]. auto.
Qed.

Lemma orderly_told restart mn mn' : orderly mn → told restart mn mn' → restart ≤ mn_seq mn → orderly mn'.
Proof.
  intros [] [[Er Ec Ea Ep Es Hk Hkept] Ha] Hle. unfold working in *.
  split; unfold working; rewrite ?Er, ?Ec, ?Ea, ?Ep, ?Es; auto.
  - intros n Hn. destruct (Ha n Hn) as [(m & E & Hm)%list_elem_of_fmap|[-> ?]]; [|done].
    unfold notice_key in E. injection E as -> -> -> _. auto.
Qed.

(** ** Rows and phases *)

(** The rows of captured executions change as they may, away from the warnings. *)
Definition calm (a a' : RestartAgentRow) : Prop := evolves a a' ∧ warnings a' = warnings a.
#[global] Instance calm_preorder : PreOrder calm.
Proof. split; [by split|]. intros x y z [] []. split; [by etrans|congruence]. Qed.

(** The restarts, the recipients and the notices stay as they are. *)
Record undisturbed (mn mn' : Maintenance) : Prop := {
  st_restarts : restarts mn' = restarts mn;
  st_recipients : mn_recipients mn' = mn_recipients mn;
  st_seq : mn_seq mn' = mn_seq mn;
  st_notices : notices mn' = notices mn;
}.

Lemma related_keys l l' : Forall2 evolves l l' → map capture_key l' = map capture_key l.
Proof. induction 1 as [|a a' l l' E F IH]; [done|]. simpl. by rewrite IH, (ev_key _ _ E). Qed.

Lemma calm_evolves l l' : Forall2 calm l l' → Forall2 evolves l l'.
Proof. intros F. eapply Forall2_impl; [done|]. by intros a a' []. Qed.

(** Rows evolve; a decided restart keeps its results. *)
Lemma orderly_rows mn mn' :
  orderly mn → undisturbed mn mn' → Forall2 evolves (captured mn) (captured mn') →
  (∀ a, a ∈ captured mn' → patient a) →
  (∀ r, r ∈ restarts mn → rs_phase r = RReady ∨ rs_phase r = RRequesting → working (mn_db mn') = false) →
  NoDup (map ag_id (db_agents (mn_db mn'))) →
  (∀ a c, a ∈ captured mn' → ra_resumed_execution a = Some c → c ∈ map ag_id (db_agents (mn_db mn'))) →
  orderly mn'.
Proof.
  intros [] [Er Ep Es En] F Hp Hw Hd Hc. unfold notice_keys in *.
  assert (∀ a', a' ∈ captured mn' → ∃ a, a ∈ captured mn ∧ evolves a a') as Hback by (intros; by eapply related_r).
  split; unfold notice_keys; rewrite ?Er, ?Ep, ?Es, ?En; auto.
  - by rewrite (related_keys _ _ F).
  - intros a' Ha'. destruct (Hback a' Ha') as (a & Ha & [E _ _ _ _ _ _]). injection E as -> _. auto.
  - intros r a' Hr Hph Ha' Hid. destruct (Hback a' Ha') as (a & Ha & [E _ _ _ _ _ Hdec]). injection E as E1 _.
    apply Hdec, (od_decided0 r); congruence.
Qed.

Lemma patient_calm a a' : calm a a' → patient a → patient a'.
Proof. unfold patient, calm, warnings. intros [_ [= -> -> ->]]. done. Qed.

(** As [orderly_rows], for changes away from the warnings and the executions. *)
Lemma orderly_calm mn mn' :
  orderly mn → undisturbed mn mn' → Forall2 calm (captured mn) (captured mn') →
  db_agents (mn_db mn') = db_agents (mn_db mn) →
  (∀ a c, a ∈ captured mn' → ra_resumed_execution a = Some c → c ∈ map ag_id (db_agents (mn_db mn))) →
  orderly mn'.
Proof.
  intros O S F Ea Hc. apply (orderly_rows mn); try done; rewrite ?Ea; try done.
  - by apply calm_evolves.
  - intros a' Ha'. destruct (related_r _ _ _ _ F Ha') as (a & Ha & C). eapply patient_calm, od_patient; done.
  - intros r Hr Hp. unfold working. rewrite Ea. by apply (od_idle _ O r).
  - apply O.
Qed.

(** Updating captured rows. *)
Lemma orderly_update mn (P : RestartAgentRow → Prop) `{∀ x, Decision (P x)} f :
  orderly mn → (∀ a, a ∈ captured mn → P a → calm a (f a)) →
  (∀ a c, a ∈ captured mn → P a → ra_resumed_execution (f a) = Some c → c ∈ map ag_id (db_agents (mn_db mn))) →
  orderly (update_captured P f mn).
Proof.
  intros O Hc Hch. apply (orderly_calm mn); try done.
  - by apply Forall2_update.
  - intros a' c (a & Ha & ->)%elem_of_update_where. case_decide; [by apply Hch|by apply (od_child _ O)].
Qed.

(** Updating the phase of a restart. *)
Lemma orderly_phase mn (P : RestartRow → Prop) `{∀ x, Decision (P x)} f :
  orderly mn → (∀ r, rs_id (f r) = rs_id r) →
  (∀ r, r ∈ restarts mn → P r → rs_finished r = false ∧ (rs_finished (f r) = true ↔ rs_phase (f r) = RComplete) ∧
     (rs_phase (f r) = RReady ∨ rs_phase (f r) = RRequesting → working (mn_db mn) = false) ∧
     (rs_phase (f r) = RComplete →
        (∀ a, a ∈ captured mn → ra_restart a = rs_id r → ra_resume_status a ≠ RsPending) ∧
        (∀ c, c ∈ mn_recipients mn → rr_restart c = rs_id r →
           (rs_id r, rr_transport c, rr_session c, SAfter) ∈ notice_keys mn))) →
  orderly (update_restarts P f mn).
Proof.
  intros [] Hid Hf.
  assert (∀ r', r' ∈ restarts (update_restarts P f mn) → ∃ r, r ∈ restarts mn ∧ (r' = r ∨ (P r ∧ r' = f r))) as Hb.
  { intros r' (r & Hr & ->)%elem_of_update_where. exists r. case_decide; auto. }
  split; try done.
  - unfold restarts, update_restarts. simpl. rewrite map_update_where; [done|]. intros; apply Hid.
  - split; [apply od_range0|]. intros r' (r & Hr & [->|[_ ->]])%Hb; rewrite ?Hid; by apply od_range0.
  - intros r1' r2' (r1 & H1 & D1)%elem_of_update_where (r2 & H2 & D2)%elem_of_update_where F1 F2.
    assert (∀ r, r ∈ restarts mn → rs_finished (if decide (P r) then f r else r) = false → rs_finished r = false) as Hu.
    { intros r Hr. destruct (decide (P r)) as [HP|HP]; [|done]. intros _. by destruct (Hf r Hr HP). }
    assert (r1 = r2) as ->; [|congruence]. subst. apply od_one0; auto.
  - intros r' (r & Hr & [->|[HP ->]])%Hb; [auto|]. by apply Hf.
  - intros r' (r & Hr & [->|[HP ->]])%Hb; [by apply od_idle0|]. by apply Hf.
  - intros r' a (r & Hr & [->|[HP ->]])%Hb; [by apply od_decided0|]. rewrite Hid. intros Hc. by apply (Hf r Hr HP).
  - intros r' c (r & Hr & [->|[HP ->]])%Hb; [by apply od_told0|]. rewrite Hid. intros Hc. by apply (Hf r Hr HP).
Qed.

(** ** Transactions that keep the invariant *)

Definition persists (mn mn' : Maintenance) : Prop :=
  ∀ a, a ∈ captured mn → ∃ a', a' ∈ captured mn' ∧ evolves a a'.
#[global] Instance persists_preorder : PreOrder persists.
Proof.
  split; [intros x a Ha; by exists a|]. intros x y z Hxy Hyz a Ha.
  destruct (Hxy a Ha) as (b & Hb & E). destruct (Hyz b Hb) as (c & Hc & E'). exists c. split; [done|by etrans].
Qed.

(** A transaction that keeps the invariant and loses no captured execution. *)
Definition upholds (mn mn' : Maintenance) : Prop := orderly mn → orderly mn' ∧ persists mn mn'.
#[global] Instance upholds_preorder : PreOrder upholds.
Proof.
  split; [by intros x|]. intros x y z Hxy Hyz O. destruct (Hxy O) as [O1 P1]. destruct (Hyz O1) as [O2 P2].
  split; [done|by etrans].
Qed.

Lemma persists_same mn mn' : captured mn' = captured mn → persists mn mn'.
Proof. intros E a Ha. exists a. by rewrite E. Qed.

Lemma persists_related mn mn' : Forall2 evolves (captured mn) (captured mn') → persists mn mn'.
Proof. intros F a Ha. by apply (related_l evolves (captured mn)). Qed.

Lemma sound_update mn (P : RestartAgentRow → Prop) `{∀ x, Decision (P x)} f :
  (∀ a, P a → calm a (f a)) → (∀ a, P a → ra_resumed_execution (f a) = ra_resumed_execution a) →
  upholds mn (update_captured P f mn).
Proof.
  intros Hc Hr O. split.
  - apply orderly_update; [done|auto|]. intros a c Ha HP. rewrite Hr by done. by apply (od_child _ O).
  - apply persists_related, calm_evolves, Forall2_update; [apply _|auto].
Qed.

(** Notices are queued and recipients recorded. *)
Record enlisted (id : Z) (mn mn' : Maintenance) : Prop := {
  jn_restarts : restarts mn' = restarts mn;
  jn_captured : captured mn' = captured mn;
  jn_agents : db_agents (mn_db mn') = db_agents (mn_db mn);
  jn_seq : mn_seq mn' = mn_seq mn;
  jn_keys : NoDup (notice_keys mn) → NoDup (notice_keys mn');
  jn_kept : notice_keys mn ⊆ notice_keys mn';
  jn_addressed : addressed id mn mn';
  jn_recipients : ∀ c, c ∈ mn_recipients mn' →
    (∃ d, d ∈ mn_recipients mn ∧ rr_restart c = rr_restart d ∧ rr_transport c = rr_transport d ∧
          rr_session c = rr_session d) ∨
    (rr_restart c = id ∧ addressable (rr_transport c) (rr_session c) ∧
     ∀ r, r ∈ restarts mn → rs_id r = id → rs_phase r = RComplete →
       (id, rr_transport c, rr_session c, SAfter) ∈ notice_keys mn');
}.

Lemma orderly_enlisted id mn mn' : orderly mn → enlisted id mn mn' → id ≤ mn_seq mn → orderly mn'.
Proof.
  intros [] [Er Ec Ea Es Hk Hkept Had Hrec] Hle. unfold working in *.
  split; unfold working; rewrite ?Er, ?Ec, ?Ea, ?Es; auto.
  - intros n Hn. destruct (Had n Hn) as [(m & E & Hm)%list_elem_of_fmap|[-> ?]]; [|done].
    unfold notice_key in E. injection E as -> -> -> _. auto.
  - intros c Hc. destruct (Hrec c Hc) as [(d & Hd & -> & -> & ->)|(-> & Ha & _)]; [auto|done].
  - intros r c Hr Hp Hc Hid. destruct (Hrec c Hc) as [(d & Hd & E & -> & ->)|(E & _ & Hq)].
    + apply Hkept, od_told0; congruence.
    + replace (rs_id r) with id by congruence. apply (Hq r); congruence.
Qed.

Lemma sound_enlisted id mn mn' : enlisted id mn mn' → id ≤ mn_seq mn → upholds mn mn'.
Proof. intros J Hle O. split; [by eapply orderly_enlisted|apply persists_same, J]. Qed.

Lemma upsert_frame id t s had tried mn :
  let mn' := upsert_recipient id t s had tried mn in
  mn_outbox mn' = mn_outbox mn ∧ mn_seq mn' = mn_seq mn ∧
  ∀ c, c ∈ mn_recipients mn' →
    (∃ d, d ∈ mn_recipients mn ∧ rr_restart c = rr_restart d ∧ rr_transport c = rr_transport d ∧
          rr_session c = rr_session d) ∨
    (rr_restart c = id ∧ rr_transport c = t ∧ rr_session c = s).
Proof.
  unfold upsert_recipient. case_match; (split; [done|]; split; [done|]); intros c; simpl.
  - intros (d & Hd & ->)%elem_of_update_where. case_decide; [right; done|left; eauto].
  - intros [Hc| ->%list_elem_of_singleton]%elem_of_app; [left; eauto|by right].
Qed.

(** A recipient is recorded and, if the restart is over, told the result. *)
Lemma enlisted_upsert id t s had tried mn mn' :
  addressable t s →
  told id (upsert_recipient id t s had tried mn) mn' →
  (∀ r, r ∈ restarts mn → rs_id r = id → rs_phase r = RComplete → (id, t, s, SAfter) ∈ notice_keys mn') →
  enlisted id mn mn'.
Proof.
  destruct (upsert_frame id t s had tried mn) as (Eo & Es & Hc). revert Eo Es Hc.
  generalize (upsert_recipient id t s had tried mn). intros m Eo Es Hc Ha [[Er Ec Eag Ep Eq Hk Hkept] Had] Hq.
  unfold restarts, captured, mn_db, addressed, notice_keys, notices in *. rewrite Eo in *.
  split; try done; try congruence. rewrite Ep. intros c Hin.
  destruct (Hc c Hin) as [?|(E1 & E2 & E3)]; [by left|right]. rewrite E1, E2, E3. done.
Qed.

Lemma sound_phase mn (P : RestartRow → Prop) `{∀ x, Decision (P x)} f :
  (∀ r, rs_id (f r) = rs_id r) →
  (orderly mn → ∀ r, r ∈ restarts mn → P r →
     rs_finished r = false ∧ (rs_finished (f r) = true ↔ rs_phase (f r) = RComplete) ∧
     (rs_phase (f r) = RReady ∨ rs_phase (f r) = RRequesting → working (mn_db mn) = false) ∧
     (rs_phase (f r) = RComplete →
        (∀ a, a ∈ captured mn → ra_restart a = rs_id r → ra_resume_status a ≠ RsPending) ∧
        (∀ c, c ∈ mn_recipients mn → rr_restart c = rs_id r →
           (rs_id r, rr_transport c, rr_session c, SAfter) ∈ notice_keys mn))) →
  upholds mn (update_restarts P f mn).
Proof. intros Hid Hf O. split; [apply orderly_phase; auto|by apply persists_same]. Qed.

Lemma open_row mn r : orderly mn → r ∈ restarts mn → rs_phase r ≠ RComplete → rs_finished r = false.
Proof. intros O Hr Hp. apply not_true_iff_false. intros E. by apply Hp, (od_phase _ O). Qed.

Lemma same_restart mn r r' : orderly mn → r ∈ restarts mn → r' ∈ restarts mn → rs_id r = rs_id r' → r = r'.
Proof. intros O Hr Hr' E. apply (primary_key rs_id (restarts mn)); [apply O|done..]. Qed.

Lemma reference_addressable r t :
  orchestrator_validate r = Ok () → canonical_transport_name (transport r) = Ok t →
  addressable t (external_session_id r).
Proof.
  unfold addressable, orchestrator_validate. intros E Ht. rewrite Ht in E. simpl in *.
  rewrite (canonical_transport_fixed _ _ Ht). by destruct (external_id _ _).
Qed.

Lemma remember_sound mn restart r now fresh mn' :
  remember_service_restart_caller mn restart r now fresh = Ok mn' → upholds mn mn'.
Proof.
  unfold remember_service_restart_caller. intros E O.
  destruct (orchestrator_validate r) as [[]|] eqn:Ev; [|done].
  destruct (canonical_transport_name _) as [t|] eqn:Et; [|done].
  destruct (first_where _ _) as [row|] eqn:Er; [|done]. simpl in E. apply first_where_Some in Er as [<- Hrow].
  assert (rs_id row ≤ mn_seq mn) as Hle by by apply (od_range _ O).
  apply (sound_enlisted (rs_id row)); [|done|done]. case_bool_decide as Hp.
  - apply result_Ok in E as [T Hin]. by eapply enlisted_upsert; [eapply reference_addressable|..].
  - injection E as <-. eapply enlisted_upsert; [by eapply reference_addressable|done|].
    intros r' Hr' Eid Hc. destruct Hp. by rewrite <-(same_restart _ _ _ O Hr' Hrow Eid).
Qed.

Lemma bind_sound mn agent session r now fresh mn' :
  orchestrator_validate r = Ok () → bind_captured_agent mn agent session r now fresh = Ok mn' → upholds mn mn'.
Proof.
  unfold bind_captured_agent. intros Ev E O.
  destruct (canonical_transport_name _) as [t|] eqn:Et; [|done].
  assert (addressable t (external_session_id r)) as Had by by eapply reference_addressable.
  cut (orderly mn' ∧ persists mn mn' ∧ restarts mn' = restarts mn); [tauto|]. revert E.
  apply (try_fold_inv (λ m, orderly m ∧ persists mn m ∧ restarts m = restarts mn)); [|done].
  intros m [id phase] m' (a & Ha & Eo)%list_elem_of_omap (Om & Pm & Em) E. destruct (bool_decide _ && _ && _); [|done].
  destruct (first_where _ _) as [row|] eqn:Er; [|done]. injection Eo as <- <-. apply first_where_Some in Er as [_ Hrow].
  rewrite <-Em in Hrow. assert (rs_id row ≤ mn_seq m) as Hle by by apply (od_range _ Om).
  set (m1 := update_captured _ _ m) in E.
  assert (upholds m m1) as [O1 P1]; [by apply sound_update|done|].
  assert (enlisted (rs_id row) m1 m') as J.
  { destruct (rs_phase row) eqn:Ep.
    2,3,4 : injection E as <-. 1 : apply enqueue_Ok in E as [T _]. 5 : apply result_Ok in E as [T Hin].
    all : eapply enlisted_upsert; [done|done|]; intros r' Hr' Eid Hc; try done;
      pose proof (same_restart _ _ _ O1 Hr' Hrow Eid); congruence. }
  destruct (sound_enlisted _ _ _ J Hle O1) as [O2 P2]. split; [done|]. split; [by etrans; [|etrans]|].
  rewrite (jn_restarts _ _ _ J). done.
Qed.

(** ** Beginning *)

Lemma captures_row db id a :
  a ∈ captures db id → ra_restart a = id ∧ warnings a = (None, None, None) ∧ ra_resumed_execution a = None.
Proof. unfold captures. intros (x & -> & _)%list_elem_of_fmap. done. Qed.

Lemma captures_keys db id : NoDup (map ag_id (db_agents db)) → NoDup (map capture_key (captures db id)).
Proof.
  intros Hn. unfold captures. rewrite map_map.
  apply (NoDup_fmap_2_strong (λ x, capture_key (capture db id x))).
  - intros x y [_ Hx]%list_elem_of_filter [_ Hy]%list_elem_of_filter [= E]. by apply (primary_key ag_id (db_agents db)).
  - apply NoDup_filter. by eapply NoDup_fmap_1.
Qed.

Definition opened (mn : Maintenance) (request boot : string) : Maintenance :=
  let id := mn_seq mn + 1 in
  let db := mn_db mn in
  mk_maintenance
    (set_db (set_restart_agents (db_restart_agents db ++ captures db id)
               (set_restarts (db_restarts db ++ [mk_restart id request RPreparing boot None (mn_writer mn) None]) db))
       (mn_outbox mn)) (mn_recipients mn) id (mn_writer mn).

Lemma opened_orderly mn request boot :
  orderly mn → (∀ r, r ∈ restarts mn → rs_finished r = true) → orderly (opened mn request boot).
Proof.
  intros O Hdone. pose proof O as [].
  assert (∀ r, r ∈ restarts (opened mn request boot) →
    r ∈ restarts mn ∨ (rs_id r = mn_seq mn + 1 ∧ rs_phase r = RPreparing ∧ rs_finished r = false)) as Hr.
  { intros r [?| ->%list_elem_of_singleton]%elem_of_app; [by left|by right]. }
  assert (∀ a, a ∈ captured (opened mn request boot) → a ∈ captured mn ∨ a ∈ captures (mn_db mn) (mn_seq mn + 1)) as Ha.
  { by intros a ?%elem_of_app. }
  split; try done; cbn [opened mn_seq mn_recipients].
  - unfold restarts, opened. simpl. rewrite map_app. apply NoDup_app. split; [done|]. split; [|apply NoDup_singleton].
    intros k (r & -> & Hin)%list_elem_of_fmap E%list_elem_of_singleton. simpl in E. apply od_range0 in Hin. lia.
  - destruct od_range0 as [H0 Hle]. split; [lia|]. intros r [?%Hle|(-> & _)]%Hr; lia.
  - intros r r' Hin Hin' F F'. unfold restarts, opened in Hin, Hin'. simpl in Hin, Hin'.
    apply elem_of_app in Hin as [?%Hdone| ->%list_elem_of_singleton]; [congruence|].
    apply elem_of_app in Hin' as [?%Hdone| ->%list_elem_of_singleton]; [congruence|done].
  - intros r [?|(_ & -> & ->)]%Hr; [auto|done].
  - intros r [?|(_ & -> & _)]%Hr; [by apply od_idle0|]. by intros [].
  - unfold captured, opened. simpl. rewrite map_app. apply NoDup_app. split; [done|]. split; [|by apply captures_keys].
    intros k (a & -> & Hin)%list_elem_of_fmap (b & E & Hb)%list_elem_of_fmap. injection E as E _.
    apply captures_row in Hb as [E' _]. apply od_home0 in Hin. lia.
  - intros a [?%od_home0|[-> _]%captures_row]%Ha; lia.
  - intros a [?|(_ & E & _)%captures_row]%Ha; [auto|]. unfold warnings in E. injection E as E1 E2 E3.
    unfold patient. rewrite E2, E3. done.
  - intros a c [?|(_ & _ & ->)%captures_row]%Ha; [by apply od_child0|done].
  - intros r a [Hin|(_ & -> & _)]%Hr Hp; [|done]. intros [?|(-> & _)%captures_row]%Ha E; [by apply (od_decided0 r)|].
    apply od_range0 in Hin. lia.
  - intros n [? ?]%od_sent0. split; [lia|done].
  - intros c [? ?]%od_recipients0. split; [lia|done].
  - intros r c [Hin|(_ & -> & _)]%Hr Hp Hc; [|done]. by apply od_told0.
Qed.

Lemma fold_upsert id l mn :
  let mn' := fold_left (λ mn '(t, s), upsert_recipient id t s true false mn) l mn in
  mn_outbox mn' = mn_outbox mn ∧ mn_seq mn' = mn_seq mn ∧
  ∀ c, c ∈ mn_recipients mn' →
    (∃ d, d ∈ mn_recipients mn ∧ rr_restart c = rr_restart d ∧ rr_transport c = rr_transport d ∧
          rr_session c = rr_session d) ∨
    (rr_restart c = id ∧ (rr_transport c, rr_session c) ∈ l).
Proof.
  revert mn. induction l as [|[t s] l IH]; intros mn; simpl.
  { split; [done|]. split; [done|]. intros c Hc. left. by exists c. }
  destruct (upsert_frame id t s true false mn) as (Eo & Es & Hu).
  destruct (IH (upsert_recipient id t s true false mn)) as (Eo' & Es' & Hc).
  split; [congruence|]. split; [congruence|]. intros c Hin. destruct (Hc c Hin) as [(d & Hd & E1 & E2 & E3)|[E Hl]].
  - rewrite E1, E2, E3. destruct (Hu d Hd) as [?|(-> & -> & ->)]; [by left|right]. split; [done|left].
  - right. split; [done|by right].
Qed.

Lemma fold_before id l now fresh mn mn' :
  try_fold (λ mn '(t, s), enqueue_notice mn id t s SBefore BEFORE_NOTICE now fresh) mn l = Ok mn' →
  told id mn mn' ∧ ∀ t s, (t, s) ∈ l → (id, t, s, SBefore) ∈ notice_keys mn'.
Proof.
  revert mn. induction l as [|[t s] l IH]; intros mn E; simpl in E.
  { injection E as <-. split; [done|]. by intros t s ?%elem_of_nil. }
  destruct (enqueue_notice _ _ _ _ _ _ _ _) as [m|] eqn:Er; [|done].
  apply enqueue_Ok in Er as [T Hin]. destruct (IH m E) as [T' Hl]. split; [by etrans|].
  intros t' s' [[= -> ->]|Hd]%elem_of_cons; [|auto]. destruct T' as [[] _]. auto.
Qed.

Lemma begin_sound mn request at_ boot now fresh mn' id :
  begin_service_restart mn request at_ boot now fresh = Ok (mn', id) → upholds mn mn'.
Proof.
  unfold begin_service_restart. intros E O. destruct (_ || _); [done|].
  destruct (first_where _ _); [by injection E as <- _|].
  destruct (exists_where _ _) eqn:Ex; [done|].
  assert (orderly (opened mn request boot)) as O1.
  { apply opened_orderly; [done|]. intros r Hr. apply not_false_iff_true.
    exact (proj1 (exists_where_false _ _) Ex r Hr). }
  fold (opened mn request boot) in E. set (l := remove_dups _) in E.
  pose proof (fold_upsert (mn_seq mn + 1) l (opened mn request boot)) as (Eo & Es & Hc).
  revert E Eo Es Hc. generalize (fold_left (λ m '(t, s), upsert_recipient (mn_seq mn + 1) t s true false m) l
    (opened mn request boot)). intros u E Eo Es Hc.
  destruct (try_fold _ _ l) as [m|] eqn:Ef; [|done]. injection E as <- _.
  apply fold_before in Ef as [[[Er Ec Ea Ep Eq Hk Hkept] Had] Hl].
  assert (enlisted (mn_seq mn + 1) (opened mn request boot) m) as J.
  { unfold restarts, captured, mn_db, addressed, notice_keys, notices in *. rewrite Eo in *.
    split; try done; try congruence. rewrite Ep. intros c Hin. destruct (Hc c Hin) as [?|(E1 & E2)]; [by left|right].
    split; [done|]. split.
    - apply Hl in E2 as (n & E & Hn)%list_elem_of_fmap. unfold notice_key in E. injection E as _ -> -> _.
      destruct (Had n Hn) as [(n' & E & Hn')%list_elem_of_fmap|[_ ?]]; [|done].
      unfold notice_key in E. injection E as _ -> -> _. by apply (od_sent _ O1).
    - intros r [Hr| ->%list_elem_of_singleton]%elem_of_app E Hp; [apply (od_range _ O) in Hr; lia|done]. }
  destruct (sound_enlisted _ _ _ J (Z.le_refl _) O1) as [O2 P2]. split; [done|].
  etrans; [|exact P2]. intros a Ha. exists a. split; [|done]. apply elem_of_app. by left.
Qed.

(** ** Restarting and resuming *)

Lemma claim_sound mn restart : upholds mn (claim_service_restart mn restart).1.
Proof.
  apply sound_phase; [done|]. intros O r Hr (Eid & Hp & _). assert (rs_finished r = false) as F.
  { apply (open_row mn); congruence. }
  split; [done|]. split; [|split; [|done]].
  - change (rs_finished (in_phase RRequesting r)) with (rs_finished r). rewrite F. done.
  - intros _. apply (od_idle _ O r); auto.
Qed.

Lemma recover_sound mn failed boot mn' id :
  recover_service_restart_for mn failed boot = Ok (mn', id) → upholds mn mn'.
Proof.
  unfold recover_service_restart_for. intros E. destruct (first_where _ _) as [r|]; [|by injection E as <- _].
  destruct (match failed with Some _ => _ | None => _ end); [done|].
  case_bool_decide; [by injection E as <- _|]. destruct (_ || _); injection E as <- _; [done|].
  apply sound_phase; [done|]. intros O x Hx [_ Hp]. assert (rs_finished x = false) as F.
  { apply (open_row mn); [done..|]. intros E. rewrite E in Hp. set_solver. }
  split; [done|]. split; [|split; [by intros []|done]].
  change (rs_finished (recovering_on boot x)) with (rs_finished x). rewrite F. done.
Qed.

Lemma request_sound mn restart agent boot now_ns mn' :
  request_service_restart_resume mn restart agent boot now_ns = Ok mn' → upholds mn mn'.
Proof.
  unfold request_service_restart_resume. intros E. destruct (clock now_ns) as [now|]; [|done].
  destruct (negb _); [done|]. injection E as <-. apply sound_update; [|done].
  intros a _. split; [|done]. split; try done. intros x Ex. simpl. by rewrite Ex.
Qed.

Lemma fail_sound mn restart agent reason mn' :
  fail_service_restart_resume mn restart agent reason = Ok mn' → upholds mn mn'.
Proof.
  unfold fail_service_restart_resume. intros E. destruct (_ || _); [done|].
  destruct (negb _); [done|]. injection E as <-. apply sound_update; [|done].
  intros a (_ & _ & Hp & _). split; [|done]. split; try done. rewrite Hp. by intros [|[]].
Qed.

Lemma refresh_row_sound restart now_ns mn a mn' :
  refresh_row restart now_ns mn a = Ok mn' →
  upholds mn mn' ∧ restarts mn' = restarts mn ∧ mn_db mn' = set_restart_agents (captured mn') (mn_db mn).
Proof.
  unfold refresh_row. intros E. destruct (ra_requested_ns a) as [t|]; [|injection E as <-].
  2: { split; [done|]. split; [done|]. unfold captured. by destruct (mn_db mn). }
  destruct (resume_outcome _ _ _ _) as [[[s reason]|]|]; [| |done]; injection E as <-.
  2: { split; [done|]. split; [done|]. unfold captured. by destruct (mn_db mn). }
  split; [|done]. apply sound_update; [|done]. intros x (_ & _ & Hp).
  split; [|done]. split; try done. rewrite Hp. by intros [|[]].
Qed.

Lemma refresh_rows_sound restart now_ns mn l mn' :
  try_fold (refresh_row restart now_ns) mn l = Ok mn' → orderly mn →
  orderly mn' ∧ persists mn mn' ∧ restarts mn' = restarts mn.
Proof.
  intros E O. revert E. apply (try_fold_inv (λ m, orderly m ∧ persists mn m ∧ restarts m = restarts mn)); [|done].
  intros m a m' _ (Om & Pm & Em) (S & Er & _)%refresh_row_sound. destruct (S Om) as [O' P'].
  split; [done|]. split; [by etrans|congruence].
Qed.

Lemma refresh_sound mn restart boot now_ns at_ now fresh mn' complete :
  refresh_service_restart mn restart boot now_ns at_ now fresh = Ok (mn', complete) → upholds mn mn'.
Proof.
  unfold refresh_service_restart. intros E O. destruct (clock now_ns) as [now'|]; [|discriminate].
  destruct (_ || _); [discriminate|]. destruct (exists_where _ _) eqn:Ex; [|discriminate]. simpl in E.
  apply exists_where_true in Ex as (r & Hr & <- & Hp & _).
  destruct (try_fold _ _ _) as [m|] eqn:Ef; [|discriminate]. apply refresh_rows_sound in Ef as (Om & Pm & Em); [|assumption].
  destruct (exists_where _ _) eqn:Eout; [by injection E as <- _|].
  destruct (queue_restart_results _ _ _ _) as [m2|] eqn:Eq; [|discriminate]. injection E as <- _.
  apply results_Ok in Eq as [T Hq].
  assert (orderly m2) as O2. { eapply orderly_told; [exact Om|exact T|]. apply (od_range _ Om). by rewrite Em. }
  destruct T as [[Er Ec _ Ep _ _ _] _].
  assert (persists mn m2) as P2 by (etrans; [exact Pm|by apply persists_same]).
  match goal with |- orderly ?x ∧ _ => cut (upholds m2 x) end.
  { intros S. destruct (S O2) as [? P3]. split; [assumption|by etrans]. }
  apply sound_phase; [reflexivity|]. intros _ x Hx [Eid Hph]. split; [apply (open_row m2); congruence|].
  split; [done|]. split; [by intros []|]. intros _. rewrite Ec, Ep, Eid. split; [|exact Hq].
  intros a Ha Ea Hpend. apply (proj1 (exists_where_false _ _) Eout a Ha). split; [done|by left].
Qed.

(** A row changes away from the warnings and the continuation. *)
Definition restated (a a' : RestartAgentRow) : Prop :=
  calm a a' ∧ ra_resumed_execution a' = ra_resumed_execution a.
#[global] Instance restated_reflexive : Reflexive restated.
Proof. by split. Qed.

Lemma sound_restated mn mn' :
  undisturbed mn mn' → Forall2 restated (captured mn) (captured mn') →
  db_agents (mn_db mn') = db_agents (mn_db mn) → upholds mn mn'.
Proof.
  intros S F Ea O. assert (Forall2 calm (captured mn) (captured mn')) as Fc.
  { eapply Forall2_impl; [done|]. by intros a a' []. }
  split; [|by apply persists_related, calm_evolves]. apply (orderly_calm mn); try done.
  intros a' c Ha' E. destruct (related_r _ _ _ _ F Ha') as (a & Ha & [_ Er]).
  apply (od_child _ O a); congruence.
Qed.

Lemma cancelled_restated db id r :
  let db' := cancel_resume db id r in
  db_restarts db' = db_restarts db ∧ db_agents db' = db_agents db ∧
  Forall2 restated (db_restart_agents db) (db_restart_agents db').
Proof.
  assert (Forall2 restated (db_restart_agents db) (db_restart_agents db)) as F.
  { induction (db_restart_agents db); by constructor. }
  unfold cancel_resume. destruct r as [r|]; [|done]. simpl. destruct (_ || _); [|done]. split; [done|]. split; [done|]. simpl.
  apply Forall2_update; [apply _|]. intros x _ (_ & _ & Hs). split; [|done]. split; [|done]. split; try done.
  intros Hf. destruct Hf as [E|[E|E]]; rewrite E in Hs; set_solver.
Qed.

Lemma enqueue_frame db id kind db' completed :
  enqueue db id kind = Ok (db', completed) →
  db_restarts db' = db_restarts db ∧ db_agents db' = db_agents db ∧
  Forall2 restated (db_restart_agents db) (db_restart_agents db').
Proof.
  unfold enqueue. intros E. destruct (ok_or _ _) as [a|]; [|done].
  set (r := if is_cancel kind then _ else _) in E. pose proof (cancelled_restated db id r) as H. cbv zeta in H.
  revert E H. generalize (cancel_resume db id r). intros d E H.
  destruct (if Status.terminal _ then _ else _) as [[target stopped]|]; [|done].
  destruct stopped; [by injection E as <- _|]. destruct (_ && _); [done|]. by injection E as <- _.
Qed.

Lemma cancel_sound mn id kind db' completed :
  enqueue (mn_db mn) id kind = Ok (db', completed) → upholds mn (on_db (λ _, db') mn).
Proof. intros (Er & Ea & F)%enqueue_frame. by apply sound_restated. Qed.

(** ** Warning *)

Lemma saturating_delay d a b : 0 < d → d ≤ saturating_sub a b → d ≤ a - b.
Proof. unfold saturating_sub, i64_MIN. lia. Qed.

(** The columns read of an execution are those of its row. *)
Definition tracks (restart : Z) (mn : Maintenance) (w : Warned) : Prop :=
  ∀ a, a ∈ captured mn → ra_restart a = restart → ra_agent a = wd_agent w →
    warnings a = (wd_first w, wd_second w, wd_forced w).

(** No warning is repeated, and each waits its time. *)
Lemma decision_patient now w k a :
  decision now w = Some k → warnings a = (wd_first w, wd_second w, wd_forced w) → patient a →
  evolves a (warned_at now k a) ∧ patient (warned_at now k a).
Proof.
  unfold decision, warnings. intros Hd [= E1' E2' E3'] [P1 P2]. rewrite <-E1', <-E2', <-E3' in Hd.
  destruct (ra_force_ns a) as [g|] eqn:E3; [by destruct (ra_first_ns a), (ra_second_ns a)|].
  destruct (ra_second_ns a) as [s|] eqn:E2.
  - destruct (P1 s eq_refl) as (f & E1 & Hf). rewrite E1 in Hd.
    destruct (_ && _) eqn:Ec; [|done]. injection Hd as <-. to_prop. apply saturating_delay in H0; [|done].
    split; [split; try done; rewrite E3; by split_and!|].
    split; cbn; rewrite ?E1, ?E2; [intros x [= <-]; by exists f|].
    intros x [= <-]. exists f. split; [done|]. lia.
  - destruct (ra_first_ns a) as [f|] eqn:E1.
    + destruct (_ && negb _) eqn:Ec; [injection Hd as <-|destruct (_ && _ && _) eqn:Ec'; [injection Hd as <-|done]];
        to_prop; (split; [split; try done; unfold retained; cbn; rewrite ?E1, ?E2, ?E3; by split_and!|]);
        split; cbn; rewrite ?E1, ?E2, ?E3; try done; intros x [= <-]; exists f; (split; [done|]); by apply saturating_delay.
    + destruct (negb _); [injection Hd as <-|done].
      split; [split; try done; rewrite E1; by split_and!|]. split; cbn; rewrite ?E2, ?E3; done.
Qed.

Lemma warn_sound restart now mn w :
  tracks restart mn w → orderly mn →
  orderly (warn restart now mn w) ∧ persists mn (warn restart now mn w).
Proof.
  intros Ht O. unfold warn. destruct (decision now w) as [k|] eqn:Ed; [|done].
  set (mn' := update_captured _ _ _). assert (∀ a, a ∈ captured mn → ra_restart a = restart ∧ ra_agent a = wd_agent w →
    evolves a (warned_at now k a) ∧ patient (warned_at now k a)) as Hstep.
  { intros a Ha [Er Eg]. apply (decision_patient now w); [done|by apply Ht|by apply (od_patient _ O)]. }
  assert (Forall2 evolves (captured mn) (captured mn')) as F.
  { apply Forall2_update; [apply _|]. intros a Ha Hk. by apply Hstep. }
  split; [|by apply persists_related]. apply (orderly_rows mn); try done; try apply O.
  - intros a' (a & Ha & ->)%elem_of_update_where. case_decide; [by apply Hstep|by apply (od_patient _ O)].
  - intros a' c (a & Ha & ->)%elem_of_update_where. intros Hc. apply (od_child _ O a c Ha). by case_decide.
Qed.

Lemma warn_frame restart now mn w :
  restarts (warn restart now mn w) = restarts mn ∧ db_agents (mn_db (warn restart now mn w)) = db_agents (mn_db mn) ∧
  ∀ w', tracks restart mn w' → wd_agent w' ≠ wd_agent w → tracks restart (warn restart now mn w) w'.
Proof.
  unfold warn. destruct (decision now w) as [k|]; [|done]. split; [done|]. split; [done|].
  intros w' Ht Hne a' (a & Ha & ->)%elem_of_update_where. case_decide as Hk; [|by apply Ht].
  intros _ E. destruct Hk as [_ Hk]. cbn in E. congruence.
Qed.

Lemma warn_all restart now ws mn :
  NoDup (map wd_agent ws) → (∀ w, w ∈ ws → tracks restart mn w) → orderly mn →
  let mn' := fold_left (warn restart now) ws mn in
  orderly mn' ∧ persists mn mn' ∧ restarts mn' = restarts mn ∧ db_agents (mn_db mn') = db_agents (mn_db mn).
Proof.
  revert mn. induction ws as [|w ws IH]; intros mn Hn Ht O; [done|]. simpl in *.
  apply NoDup_cons in Hn as [Hw Hn]. destruct (warn_frame restart now mn w) as (Er & Ea & Hf).
  destruct (warn_sound restart now mn w) as [O1 P1]; [apply Ht; left|done|].
  destruct (IH (warn restart now mn w)) as (O2 & P2 & Er2 & Ea2); [done| |done|].
  - intros w' Hw'. apply Hf; [apply Ht; by right|]. intros E. apply Hw. rewrite <-E. by apply list_elem_of_fmap_2.
  - split; [done|]. split; [by etrans|]. split; congruence.
Qed.

Lemma member_row db restart w :
  w ∈ members_of_restart db restart →
  ∃ r, r ∈ db_restart_agents db ∧ ra_restart r = restart ∧ ra_agent r = wd_agent w ∧
    warnings r = (wd_first w, wd_second w, wd_forced w).
Proof.
  unfold members_of_restart. intros (r & Hr & E)%list_elem_of_omap. exists r. split; [done|].
  destruct (first_where _ _); [|done]. simpl in E. destruct (_ && _) eqn:Ec; [|done]. injection E as <-. by to_prop.
Qed.

Lemma members_NoDup db restart :
  NoDup (map capture_key (db_restart_agents db)) → NoDup (map wd_agent (members_of_restart db restart)).
Proof.
  unfold members_of_restart. set (g := λ r : RestartAgentRow, _).
  assert (∀ r w, g r = Some w → capture_key r = (restart, wd_agent w)) as Hg.
  { intros r w E. unfold g in E. destruct (first_where _ _); [|done]. simpl in E.
    destruct (_ && _) eqn:Ec; [|done]. injection E as <-. to_prop. unfold capture_key. simpl. congruence. }
  clearbody g. induction (db_restart_agents db) as [|r l IH]; simpl; [constructor|].
  intros [Hr Hn]%NoDup_cons. destruct (g r) as [w|] eqn:E; [|auto]. simpl. constructor; [|auto].
  intros (w' & Ew & (r' & Hr' & E')%list_elem_of_omap)%list_elem_of_fmap. apply Hr, list_elem_of_fmap. exists r'.
  split; [|done]. rewrite (Hg _ _ E), (Hg _ _ E'). by rewrite Ew.
Qed.

Lemma advance_warned mn restart now :
  orderly mn →
  let mn' := fold_left (warn restart now) (members_of_restart (mn_db mn) restart) mn in
  orderly mn' ∧ persists mn mn' ∧ restarts mn' = restarts mn ∧ db_agents (mn_db mn') = db_agents (mn_db mn).
Proof.
  intros O. apply warn_all; [apply members_NoDup, O| |done].
  intros w (r & Hr & E1 & E2 & Ew)%member_row a Ha Ea Eg.
  assert (a = r) as -> by (apply (primary_key capture_key (captured mn)); [apply O|done|done|unfold capture_key; congruence]).
  done.
Qed.

Lemma advance_sound mn restart boot now_ns mn' queued :
  advance_service_restart mn restart boot now_ns = Ok (mn', queued) → upholds mn mn'.
Proof.
  unfold advance_service_restart. intros E. destruct (clock now_ns) as [now|]; [|done].
  destruct (exists_where _ _) eqn:Ex; [|done]. simpl in E.
  apply exists_where_true in Ex as (r & Hr & <- & Hp & _).
  set (m := if awaiting_notice _ _ then _ else mn) in E.
  assert (upholds mn m) as S.
  { subst m. destruct (awaiting_notice _ _); [|done]. apply sound_phase; [done|]. intros O x Hx Ex.
    rewrite (same_restart _ _ _ O Hx Hr Ex). change (rs_finished (waiting_since now r)) with (rs_finished r).
    change (rs_phase (waiting_since now r)) with (rs_phase r). rewrite (open_row mn r), Hp by congruence.
    split; [done|]. split; [done|]. split; [by intros []|done]. }
  clearbody m. destruct (if awaiting_notice _ _ then _ else _) as [started|]; [|done]. simpl in E.
  destruct (match started with Some _ => _ | None => _ end); [by injection E as <- _|].
  intros O. destruct (S O) as [Om Pm]. destruct (advance_warned m (rs_id r) now Om) as (O1 & P1 & E1 & A1).
  revert E O1 P1 E1 A1. generalize (fold_left (warn (rs_id r) now) (members_of_restart (mn_db m) (rs_id r)) m).
  intros u E O1 P1 E1 A1. injection E as <- _. destruct (working (mn_db u)) eqn:Ew; [split; [done|by etrans]|].
  match goal with |- orderly ?x ∧ _ => assert (upholds u x) as Su end.
  { apply sound_phase; [done|]. intros _ x Hx [_ Hph]. assert (rs_finished x = false) as F by (apply (open_row u); congruence).
    split; [done|]. change (rs_finished (in_phase RReady x)) with (rs_finished x). rewrite F. done. }
  destruct (Su O1) as [O2 P2]. split; [done|]. by etrans; [|etrans].
Qed.

(** ** The end of an execution *)

Lemma marked_rows db a o proof attempt cancel to time technical :
  Forall2 restated (db_restart_agents db)
    (db_restart_agents (mark_ended db a o proof attempt cancel to time technical)).
Proof.
  assert (Forall2 restated (db_restart_agents db) (db_restart_agents db)) as F.
  { induction (db_restart_agents db); by constructor. }
  unfold mark_ended, close_attempts. destruct technical; [by destruct cancel, attempt|].
  match goal with |- Forall2 _ _ ?l =>
    replace l with (update_where (λ r, ra_agent r = ag_id a ∧ ra_resume_status r = RsPending ∧
      preparing db (ra_restart r) = true) resume_finished (db_restart_agents db)) by by destruct cancel, attempt end.
  apply Forall2_update; [apply _|]. intros x _ (_ & Hp & _). split; [|done]. split; [|done]. split; try done.
  rewrite Hp. by intros [|[]].
Qed.

Lemma written_rows db a o proof usage attempt cancel from to time fresh summary :
  Forall2 restated (db_restart_agents db)
    (db_restart_agents (write_terminal db a o proof usage attempt cancel from to time fresh summary)).
Proof.
  unfold write_terminal. cbv zeta. generalize (technical_restart db (ag_id a)). intros technical.
  assert (∀ d, db_restart_agents (announce d a o usage from to time fresh technical) = db_restart_agents d) as Ha.
  { intros d. unfold announce. simpl. destruct technical, usage; simpl; try done; unfold insert_terminal_notice;
      destruct (suppress_member_success _ _), (ag_session a); simpl; try done; by destruct (first_where _ _). }
  assert (∀ d, db_restart_agents (release_attempts d (ag_id a) attempt) = db_restart_agents d) as Hr
    by (intros d; unfold release_attempts; by destruct attempt).
  assert (∀ d, db_restart_agents (compact_terminal_processes d (ag_id a) time summary) = db_restart_agents d) as Hc.
  { intros d. unfold compact_terminal_processes. destruct (_ && _); [|done]. by destruct summary. }
  rewrite Hc, Hr, Ha. apply marked_rows.
Qed.

Lemma commit_rows `{Sha256} db id o proof usage time fresh summary db' r :
  commit_terminal db id o proof usage time fresh summary = Ok (db', r) →
  Forall2 restated (db_restart_agents db) (db_restart_agents db').
Proof.
  assert (Forall2 restated (db_restart_agents db) (db_restart_agents db)) as F.
  { induction (db_restart_agents db); by constructor. }
  unfold commit_terminal. intros E. destruct (negb _); [discriminate E|]. destruct (_ && _); [discriminate E|].
  destruct (row _) as [a|]; [|discriminate E]. destruct (Status.terminal _); [by injection E as <- _|].
  destruct (explicit_checks _ _ _ _) as [[]|]; [|discriminate E].
  destruct (provider_attempt db a o) as [[d attempt]|] eqn:Ep; [|discriminate E].
  assert (db_restart_agents d = db_restart_agents db) as Ed.
  { unfold provider_attempt in Ep. destruct (ag_identity_v2 a); [|by injection Ep as <- _].
    destruct (row _); [|discriminate Ep]. destruct (negb _); [discriminate Ep|]. injection Ep as <- _.
    by destruct (bool_decide _). }
  destruct (terminal_path _ _ _) as [from to]. destruct (Status.transition from to) as [[]|]; [|discriminate E].
  injection E as <- _. rewrite <-Ed. destruct (_ && _); [|apply written_rows].
  match goal with |- Forall2 _ _ (db_restart_agents (write_terminal ?e _ _ _ _ _ _ _ _ _ _ _)) =>
    change (db_restart_agents d) with (db_restart_agents e) end. apply written_rows.
Qed.

(** An execution that ends while all have ended does not: there is none. *)
Lemma commit_sound `{Sha256} mn id o proof usage time fresh summary db' r :
  commit_terminal (mn_db mn) id o proof usage time fresh summary = Ok (db', r) → upholds mn (on_db (λ _, db') mn).
Proof.
  intros E O. pose proof (commit_rows _ _ _ _ _ _ _ _ _ _ E) as F.
  destruct (commit_terminal_frame _ _ _ _ _ _ _ _ _ _ E) as (R & A & _). unfold rest_of in R.
  injection R as _ _ _ _ _ _ _ _ Er _.
  assert (Forall2 calm (captured mn) (captured (on_db (λ _, db') mn))) as Fc.
  { eapply Forall2_impl; [exact F|]. by intros a a' []. }
  split; [|by apply persists_related, calm_evolves]. apply (orderly_rows mn); try done.
  - by apply calm_evolves.
  - intros a' Ha'. destruct (related_r _ _ _ _ Fc Ha') as (a & Ha & C). eapply patient_calm, od_patient; done.
  - intros x Hx Hp. pose proof (od_idle _ O x Hx Hp) as Hw. destruct r as [t|].
    + destruct (commit_terminal_Some _ _ _ _ _ _ _ _ _ _ E) as (a & _ & _ & Ea & Ht & _).
      apply first_where_Some in Ea as [_ Hin]. destruct (proj1 (exists_where_false _ _) Hw a Hin). by apply terminal_ACTIVE.
    + by rewrite (commit_terminal_None _ _ _ _ _ _ _ _ _ E).
  - change (mn_db (on_db _ mn)) with db'. rewrite A. apply O.
  - intros a' c Ha' Ec. destruct (related_r _ _ _ _ F Ha') as (a & Ha & [_ Eq]).
    change (mn_db (on_db _ mn)) with db'. rewrite A.
    apply (od_child _ O a); [done|congruence].
Qed.

(** ** The system *)

(** An execution that has ended stays ended. *)
Lemma ended_stays s t : moves s t → Status.terminal s = true → t = s.
Proof.
  induction 1 as [|s u t E _ _]; [done|]. intros Hs. unfold validate_transition in E. by destruct s.
Qed.

Lemma idle_stays db db' :
  Forall2 same_agent (db_agents db) (db_agents db') → working db = false → working db' = false.
Proof.
  unfold working. intros F Hw. apply exists_where_false. intros a' Ha' Hact.
  destruct (related_r _ _ _ _ F Ha') as (a & Ha & [[_ _ Hm] _ _ _]).
  rewrite exists_where_false in Hw. apply (Hw a Ha). destruct (Status.terminal (ag_status a)) eqn:Ht.
  - by rewrite <-(ended_stays _ _ Hm Ht).
  - by apply terminal_ACTIVE.
Qed.

Lemma open_barred mn r : r ∈ restarts mn → rs_finished r = false → is_ok (require_admissions_open (mn_db mn)) = false.
Proof.
  intros Hr Hf. unfold require_admissions_open, active_service_restart.
  destruct (first_where_is_Some (λ r, rs_finished r = false) (db_restarts (mn_db mn)) r) as [x ->]; done.
Qed.

(** The barrier: while a restart is ready or handed over, no admission passes. *)
Lemma gate_shut mn r :
  orderly mn → r ∈ restarts mn → rs_phase r = RReady ∨ rs_phase r = RRequesting → ¬ gate_passed (mn_db mn).
Proof.
  intros O Hr Hp (restart & parent & E).
  assert (rs_finished r = false) as Hf by (apply (open_row mn); [done..|]; intros Ec; rewrite Ec in Hp; by destruct Hp).
  destruct restart as [restart|]; simpl in E.
  - unfold require_restart_resume in E. destruct (exists_where _ (db_restarts _)) eqn:Ex; [|done].
    apply exists_where_true in Ex as (x & Hx & _ & Hph & Hfx). assert (x = r) as ->; [|rewrite Hph in Hp; by destruct Hp].
    by apply (od_one _ O).
  - pose proof (open_barred mn r Hr Hf) as Hb. by rewrite E in Hb.
Qed.

(** What the other transactions leave alone: the restarts, their recipients,
    notices and captured executions; and they admit nothing. *)
Record elsewhere (mn mn' : Maintenance) : Prop := {
  el_undisturbed : undisturbed mn mn';
  el_captured : captured mn' = captured mn;
  el_spares : idles mn mn';
}.

Lemma elsewhere_sound mn mn' : elsewhere mn mn' → upholds mn mn'.
Proof.
  intros [S Ec I] O. pose proof (same_ids _ _ (sp_agents _ _ I)) as Ei. split; [|by apply persists_same].
  apply (orderly_rows mn); try done; rewrite ?Ec, ?Ei; try apply O.
  - induction (captured mn); by constructor.
  - intros r Hr Hp. eapply idle_stays; [apply I|by apply (od_idle _ O r)].
Qed.

Lemma steady_elsewhere mn db' : steady (mn_db mn) db' → elsewhere mn (on_db (λ _, db') mn).
Proof. intros [S [Er Ec]]. by split. Qed.

Section store.
Context `{Sha256, LaunchSerde, JsonWriter, Serde, EventJson, Unicode, Host, JsonSchema}.

(** Admissions and every other transaction of the store. *)
Lemma store_sound allowed mn db' : db_step allowed (mn_db mn) db' → upholds mn (on_db (λ _, db') mn).
Proof.
  intros S O. apply db_step_effect in S as [En Hg Er Hc]; [|apply O].
  set (mn' := on_db (λ _, db') mn). assert (undisturbed mn mn') as U by by split.
  assert (map ag_id (db_agents (mn_db mn)) ⊆ map ag_id (db_agents db')) as Hids.
  { destruct (en_agents _ _ _ En) as (old & new & -> & F). rewrite map_app, (same_ids _ _ F). set_solver. }
  assert (Forall2 calm (captured mn) (captured mn')) as F.
  { destruct Hc as [E|(restart & parent & child & _ & E)].
    - change (captured mn') with (db_restart_agents db'). rewrite E. unfold captured.
      induction (db_restart_agents (mn_db mn)); by constructor.
    - change (captured mn') with (db_restart_agents db'). rewrite E. apply Forall2_update; [apply _|].
      intros a _ (_ & _ & Ha). split; [|done]. split; try done. by rewrite Ha. }
  split; [|by apply persists_related, calm_evolves]. apply (orderly_rows mn); try done.
  - by apply calm_evolves.
  - intros a' Ha'. destruct (related_r _ _ _ _ F Ha') as (a & Ha & C). eapply patient_calm, od_patient; done.
  - intros r Hr Hp. destruct Hg as [Fa|Hg]; [|by destruct (gate_shut mn r O Hr Hp)].
    eapply idle_stays; [exact Fa|by apply (od_idle _ O r)].
  - apply (en_ids _ _ _ En), O.
  - intros a' c Ha' Ea. change (captured mn') with (db_restart_agents db') in Ha'.
    destruct Hc as [E|(restart & parent & child & Hch & E)]; rewrite E in Ha'; [by apply Hids, (od_child _ O a')|].
    apply elem_of_update_where in Ha' as (a & Ha & ->). case_decide; [by injection Ea as <-|by apply Hids, (od_child _ O a)].
Qed.
End store.

(** The whole binding of an execution. *)
Lemma bound_sound mn id r at_ fs fn now fresh mn' s :
  bind_orchestrator mn id r at_ fs fn now fresh = Ok (mn', s) → upholds mn mn'.
Proof.
  unfold bind_orchestrator. intros E O. destruct (orchestrator_validate r) as [[]|] eqn:Ev; [|done].
  destruct (_ || _); [done|]. destruct (first_where _ _) as [a|] eqn:Ea; [|done]. simpl in E.
  apply first_where_Some in Ea as [<- Ha]. revert O. change (upholds mn mn').
  assert (∀ m session, upholds m (on_db (λ db, ensure_bound_terminal_notice db (ag_id a) session at_ fn) m)) as Hend.
  { intros m session. change (on_db _ m) with (on_db (λ _, ensure_bound_terminal_notice (mn_db m) (ag_id a) session at_ fn) m).
    apply elsewhere_sound, steady_elsewhere, beside_steady, notice_beside. }
  destruct (ag_session a) as [current|] eqn:Es.
  - destruct (session_matches_reference _ _ _) as [b|]; [|done]. destruct (negb b); [done|].
    destruct (touch_session_reference _ _ _) as [db|] eqn:Et; [|done].
    destruct (bind_captured_agent _ _ _ _ _ _) as [m|] eqn:Eb; [|done]. injection E as <- _.
    etrans; [by eapply elsewhere_sound, steady_elsewhere, visits_steady, touch_visits|].
    etrans; [by eapply bind_sound|apply Hend].
  - destruct (session_for_reference _ _ _) as [[db session]|] eqn:Et; [|done].
    destruct (bind_session db _ _) as [db'|] eqn:Ej; [|done].
    destruct (bind_captured_agent _ _ _ _ _ _) as [m|] eqn:Eb; [|done]. injection E as <- _.
    apply session_visits in Et as (ss & -> & G).
    assert (NoDup (map ag_id (db_agents (mn_db mn))) → steady (mn_db mn) db') as Q.
    { intros Hn. transitivity (set_sessions ss (mn_db mn)); [by split|].
      unfold bind_session in Ej. destruct (match _ with Some _ => _ | None => _ end); [done|]. injection Ej as <-.
      apply (agents_steady (set_sessions ss (mn_db mn))). intros x Hx E. apply joins.
      by rewrite (primary_key ag_id _ x a Hn Hx Ha E). }
    transitivity (on_db (λ _, db') mn).
    { intros O. exact (elsewhere_sound _ _ (steady_elsewhere _ _ (Q (od_agents _ O))) O). }
    etrans; [by eapply bind_sound|]. etrans; [|apply Hend].
    match goal with |- upholds _ (on_db ?f m) => change (on_db f m) with (on_db (λ _, f (mn_db m)) m) end.
    by apply elsewhere_sound, steady_elsewhere, beside_steady.
Qed.

(** The transactions on restarts, on the executions they captured and on their
    sessions. *)
Inductive transaction `{Sha256} (mn : Maintenance) : Maintenance → Prop :=
  | do_begin request at_ boot now fresh mn' id :
      begin_service_restart mn request at_ boot now fresh = Ok (mn', id) → transaction mn mn'
  | do_remember restart r now fresh mn' :
      remember_service_restart_caller mn restart r now fresh = Ok mn' → transaction mn mn'
  | do_bind id r at_ fresh_session fresh_notice now fresh mn' s :
      bind_orchestrator mn id r at_ fresh_session fresh_notice now fresh = Ok (mn', s) → transaction mn mn'
  | do_advance restart boot now_ns mn' queued :
      advance_service_restart mn restart boot now_ns = Ok (mn', queued) → transaction mn mn'
  | do_claim restart : transaction mn (claim_service_restart mn restart).1
  | do_recover failed boot mn' id :
      recover_service_restart_for mn failed boot = Ok (mn', id) → transaction mn mn'
  | do_request restart agent boot now_ns mn' :
      request_service_restart_resume mn restart agent boot now_ns = Ok mn' → transaction mn mn'
  | do_fail restart agent reason mn' :
      fail_service_restart_resume mn restart agent reason = Ok mn' → transaction mn mn'
  | do_refresh restart boot now_ns at_ now fresh mn' complete :
      refresh_service_restart mn restart boot now_ns at_ now fresh = Ok (mn', complete) → transaction mn mn'
  | do_enqueue id kind db' completed :
      enqueue (mn_db mn) id kind = Ok (db', completed) → transaction mn (on_db (λ _, db') mn)
  | do_end id o proof usage time fresh summary db' r :
      commit_terminal (mn_db mn) id o proof usage time fresh summary = Ok (db', r) →
      transaction mn (on_db (λ _, db') mn).

(** None of them admits an execution. *)
Lemma transaction_idles `{Sha256} mn mn' :
  NoDup (map ag_id (db_agents (mn_db mn))) → transaction mn mn' → idles mn mn'.
Proof.
  intros Hn [? ? ? ? ? ? ? E|? ? ? ? ? E|? ? ? ? ? ? ? ? ? E|? ? ? ? ? E|?|? ? ? ? E|? ? ? ? ? E|? ? ? ? E
    |? ? ? ? ? ? ? ? E|? ? ? ? E|? ? ? ? ? ? ? ? ? E].
  - by eapply begin_idles.
  - by eapply remember_idles.
  - by eapply bind_orchestrator_idles.
  - by eapply advance_idles.
  - apply update_restarts_idles.
  - by eapply recover_idles.
  - by eapply request_idles.
  - by eapply fail_idles.
  - by eapply refresh_idles.
  - by eapply enqueue_spares.
  - by eapply terminal_spares.
Qed.

Create HintDb restart.
#[local] Hint Resolve begin_sound remember_sound bound_sound advance_sound claim_sound recover_sound request_sound
  fail_sound refresh_sound cancel_sound commit_sound : restart.

Section run.
Context `{Sha256, LaunchSerde, JsonWriter, Serde, EventJson, Unicode, Host, JsonSchema}.

(** A run of the store: a transaction of the store, one on restarts, or one
    that admits nothing and leaves restarts alone. *)
Inductive restart_step (allowed : StartRequest → Prop) (mn : Maintenance) : Maintenance → Prop :=
  | do_store db' : db_step allowed (mn_db mn) db' → restart_step allowed mn (on_db (λ _, db') mn)
  | do_restart mn' : transaction mn mn' → restart_step allowed mn mn'
  | do_other mn' : elsewhere mn mn' → restart_step allowed mn mn'.

Lemma restart_step_sound allowed mn mn' : restart_step allowed mn mn' → upholds mn mn'.
Proof. intros [db' S|m T|m E]; [by eapply store_sound| |by apply elsewhere_sound]. destruct T; eauto with restart. Qed.

Lemma restart_steps_sound allowed mn mn' : rtc (restart_step allowed) mn mn' → upholds mn mn'.
Proof. induction 1 as [|mn m mn' S _ IH]; [done|]. etrans; [by eapply restart_step_sound|done]. Qed.
End run.

(** A store that has never restarted. *)
Record unused (mn : Maintenance) : Prop := {
  un_restarts : restarts mn = [];
  un_captured : captured mn = [];
  un_recipients : mn_recipients mn = [];
  un_notices : notices mn = [];
  un_seq : mn_seq mn = 0;
  un_agents : NoDup (map ag_id (db_agents (mn_db mn)));
}.

Lemma unused_orderly mn : unused mn → orderly mn.
Proof.
  intros [Er Ec Ep En Es Ha].
  split; unfold notice_keys; rewrite ?Er, ?Ec, ?Ep, ?En, ?Es; try done; try apply NoDup_nil_2;
    try by (intros *; rewrite ?elem_of_nil). split; [done|]. by intros r ?%elem_of_nil.
Qed.

Lemma reached_orderly `{Sha256, LaunchSerde, JsonWriter, Serde, EventJson, Unicode, Host, JsonSchema} allowed mn0 mn :
  unused mn0 → rtc (restart_step allowed) mn0 mn → orderly mn.
Proof. intros U S. by apply (restart_steps_sound _ _ _ S), unused_orderly. Qed.

(** ** What is promised *)

Lemma barrier_names mn r :
  orderly mn → mn_seq mn ≤ i64_MAX → r ∈ restarts mn → rs_finished r = false →
  ∃ e, require_admissions_open (mn_db mn) = Err e ∧ blocked_restart_id (display e) = Some (rs_id r).
Proof.
  intros O Hs Hr Hf. unfold require_admissions_open, active_service_restart.
  destruct (first_where_is_Some (λ r, rs_finished r = false) (db_restarts (mn_db mn)) r) as [x Ex]; [done..|].
  rewrite Ex. apply first_where_Some in Ex as [Hfx Hx]. rewrite (od_one _ O x r Hx Hr Hfx Hf). simpl option_map.
  eexists. split; [reflexivity|]. apply blocked_id_roundtrip. pose proof (od_range _ O) as [_ Hrange].
  specialize (Hrange r Hr). lia.
Qed.

Definition result_notice (restart : Z) (t s : string) (n : RestartNoticeRow) : Prop :=
  nr_restart n = restart ∧ nr_transport n = t ∧ nr_session n = s ∧ nr_stage n = SAfter.
#[global] Instance result_notice_dec restart t s n : Decision (result_notice restart t s n).
Proof. unfold result_notice. apply _. Defined.

Lemma notice_once mn restart t s :
  NoDup (notice_keys mn) → (restart, t, s, SAfter) ∈ notice_keys mn →
  count_where (result_notice restart t s) (notices mn) = 1.
Proof.
  unfold notice_keys. induction (notices mn) as [|n l IH]; simpl; [by intros _ ?%elem_of_nil|].
  intros [Hn Hl]%NoDup_cons Hin. rewrite count_where_cons. case_decide as Hc.
  - assert (count_where (result_notice restart t s) l = 0) as ->; [|done].
    unfold count_where. rewrite filter_none; [done|]. intros m Hm Hrm. apply Hn, list_elem_of_fmap. exists m.
    split; [|done]. destruct Hc as (E1 & E2 & E3 & E4), Hrm as (F1 & F2 & F3 & F4). unfold notice_key. congruence.
  - apply elem_of_cons in Hin as [E|Hin]; [|by rewrite IH].
    destruct Hc. unfold notice_key in E. injection E as -> -> -> E4. done.
Qed.

Lemma result_final mn mn' a :
  upholds mn mn' → orderly mn → a ∈ captured mn → final (ra_resume_status a) →
  ∃ a', a' ∈ captured mn' ∧ capture_key a' = capture_key a ∧ ra_resume_status a' = ra_resume_status a ∧
    require_restart_resume (mn_db mn') (ra_restart a) (ra_agent a) = Err Conflict.
Proof.
  intros S O Ha Hf. destruct (S O) as [O' P]. destruct (P a Ha) as (a' & Ha' & E).
  exists a'. split; [done|]. split; [apply E|]. split; [by apply E|].
  unfold require_restart_resume.
  assert (exists_where (λ x, ra_restart x = ra_restart a ∧ ra_agent x = ra_agent a ∧ ra_cancelled_before x = false ∧
    ra_resume_status x = RsPending ∧ ra_resumed_execution x = None) (db_restart_agents (mn_db mn')) = false) as ->.
  { apply exists_where_false. intros x Hx (E1 & E2 & _ & Hp & _).
    assert (x = a') as ->.
    { apply (primary_key capture_key (captured mn')); [apply O'|done|done|]. rewrite (ev_key _ _ E). unfold capture_key. congruence. }
    rewrite (ev_final _ _ E Hf) in Hp. rewrite Hp in Hf. by destruct Hf as [|[]]. }
  by rewrite andb_false_r.
Qed.

(** C21: Restarts are orderly in every state the store reaches.  At most one is
    open, and while it is, admissions are refused with an error whose text
    carries its number.  When it is ready for the service manager, or handed
    over, no execution is at work, and every admission of the store, whose own
    checks of the barrier are part of the run, is refused.  No execution is stopped by force sooner than
    a minute after its first warning.  A completed restart has a result for
    every captured execution and exactly one result notice for every recipient.
    A cancelled, failed or finished result stays, and no admission continues
    that execution again. *)
Theorem restart_is_orderly `{Sha256, LaunchSerde, JsonWriter, Serde, EventJson, Unicode, Host, JsonSchema} mn0 mn :
  unused mn0 → rtc (restart_step anything) mn0 mn → mn_seq mn ≤ i64_MAX →
  (∀ r r', r ∈ restarts mn → r' ∈ restarts mn → rs_finished r = false → rs_finished r' = false → r = r') ∧
  (∀ r, r ∈ restarts mn → rs_finished r = false →
     ∃ e, require_admissions_open (mn_db mn) = Err e ∧ blocked_restart_id (display e) = Some (rs_id r)) ∧
  (∀ r, r ∈ restarts mn → rs_phase r = RReady ∨ rs_phase r = RRequesting → working (mn_db mn) = false) ∧
  (∀ a k, a ∈ captured mn → ra_force_ns a = Some k → ∃ f, ra_first_ns a = Some f ∧ 2 * WARNING_DELAY_NS ≤ k - f) ∧
  (∀ r, r ∈ restarts mn → rs_finished r = true →
     (∀ a, a ∈ captured mn → ra_restart a = rs_id r → ra_resume_status a ≠ RsPending) ∧
     (∀ c, c ∈ mn_recipients mn → rr_restart c = rs_id r →
        count_where (result_notice (rs_id r) (rr_transport c) (rr_session c)) (notices mn) = 1)) ∧
  (∀ mn' a, rtc (restart_step anything) mn mn' → a ∈ captured mn → final (ra_resume_status a) →
     ∃ a', a' ∈ captured mn' ∧ capture_key a' = capture_key a ∧ ra_resume_status a' = ra_resume_status a ∧
       require_restart_resume (mn_db mn') (ra_restart a) (ra_agent a) = Err Conflict).
Proof.
  intros U S Hs. pose proof (reached_orderly _ _ _ U S) as O. split; [apply O|].
  split; [intros; by apply barrier_names|]. split; [apply O|].
  split; [intros a k Ha; by apply (od_patient _ O a Ha)|]. split.
  - intros r Hr Hf%(od_phase _ O); [|done]. split; [intros a; by apply (od_decided _ O)|].
    intros c Hc E. apply notice_once; [apply O|]. by apply (od_told _ O).
  - intros mn' a S' Ha Hf. apply (result_final mn); [by eapply restart_steps_sound|done..].
Qed.

(** ** A restart from beginning to end *)

Definition trial_worker : AgentRow :=
  mk_agent "ag-a" "ag-a" 1 (of_Z 100) Running None (Some "os-1"%string) demo_request false
    None None None None None None (Some false) "codex" "model".

(** One running execution of a chat. *)
Definition trial_before : Maintenance :=
  mk_maintenance
    (mk_outbox
       (mk_db [trial_worker] [] [] [] [] [] [] [] [mk_session "os-1" "codex_queue" "chat" None] [] [] [] [] [] []
          0 0 0 0 no_launches) [] [] []) [] 0 (Some 1).

Definition trial_ids (t s : string) : string * string := ("s", "n")%string.
Definition seconds (n : Z) : Z := n * 1000000000.
Definition reached {A} (r : result (Maintenance * A)) : Maintenance :=
  match r with Ok (mn, _) => mn | Err _ => trial_before end.
Definition outcome_lost : Outcome := mk_outcome Lost None None None None.

Definition trial_opened := reached (begin_service_restart trial_before "req" (of_Z 100) "b1" (of_Z 100) trial_ids).
Definition trial_waiting := reached (advance_service_restart trial_opened 1 "b1" 0).
Definition trial_first := reached (advance_service_restart trial_waiting 1 "b1" (seconds 10)).
Definition trial_second := reached (advance_service_restart trial_first 1 "b1" (seconds 40)).
Definition trial_forced := reached (advance_service_restart trial_second 1 "b1" (seconds 70)).
Definition trial_stopped :=
  match commit_terminal (mn_db trial_forced) "ag-a" outcome_lost None None (of_Z 171) "d" None with
  | Ok (db, _) => on_db (λ _, db) trial_forced
  | Err _ => trial_before
  end.
Definition trial_ready := reached (advance_service_restart trial_stopped 1 "b1" (seconds 71)).
Definition trial_requesting := (claim_service_restart trial_ready 1).1.
Definition trial_rebooted :=
  mk_maintenance (mn_outbox trial_requesting) (mn_recipients trial_requesting) (mn_seq trial_requesting) (Some 2).
Definition trial_recovering := reached (recover_service_restart_for trial_rebooted None "b2").
Definition trial_resuming :=
  match request_service_restart_resume trial_recovering 1 "ag-a" "b2" (seconds 100) with
  | Ok mn => mn
  | Err _ => trial_before
  end.
Definition trial_completed :=
  reached (refresh_service_restart trial_resuming 1 "b2" (seconds 160) (of_Z 260) (of_Z 260) trial_ids).

Lemma trial_unused : unused trial_before.
Proof. split; try done. apply (bool_decide_unpack _). by vm_compute. Qed.

Lemma trial_stopping : rtc (restart_step anything) trial_before trial_stopped.
Proof.
  apply (rtc_l _ _ trial_opened).
  { apply do_restart, (do_begin _ "req" (of_Z 100) "b1" (of_Z 100) trial_ids _ 1). by vm_compute. }
  apply (rtc_l _ _ trial_waiting). { apply do_restart, (do_advance _ 1 "b1" 0 _ 0). by vm_compute. }
  apply (rtc_l _ _ trial_first). { apply do_restart, (do_advance _ 1 "b1" (seconds 10) _ 1). by vm_compute. }
  apply (rtc_l _ _ trial_second). { apply do_restart, (do_advance _ 1 "b1" (seconds 40) _ 1). by vm_compute. }
  apply (rtc_l _ _ trial_forced). { apply do_restart, (do_advance _ 1 "b1" (seconds 70) _ 1). by vm_compute. }
  apply rtc_once. unfold trial_stopped.
  destruct (commit_terminal _ _ _ _ _ _ _ _) as [[db r]|] eqn:E; [by eapply do_restart, do_end|by vm_compute in E].
Qed.

Lemma trial_restarting : rtc (restart_step anything) trial_stopped trial_resuming.
Proof.
  apply (rtc_l _ _ trial_ready). { apply do_restart, (do_advance _ 1 "b1" (seconds 71) _ 0). by vm_compute. }
  apply (rtc_l _ _ trial_requesting). { apply do_restart, do_claim. }
  apply (rtc_l _ _ trial_rebooted).
  { by apply do_other. }
  apply (rtc_l _ _ trial_recovering). { apply do_restart, (do_recover _ None "b2" _ (Some 1)). by vm_compute. }
  apply rtc_once, do_restart, (do_request _ 1 "ag-a" "b2" (seconds 100)). by vm_compute.
Qed.

Lemma trial_resumed : rtc (restart_step anything) trial_before trial_resuming.
Proof. etrans; [apply trial_stopping|apply trial_restarting]. Qed.

Lemma trial_refreshed :
  refresh_service_restart trial_resuming 1 "b2" (seconds 160) (of_Z 260) (of_Z 260) trial_ids = Ok (trial_completed, true).
Proof. by vm_compute. Qed.

Lemma trial_finished : rtc (restart_step anything) trial_before trial_completed.
Proof. eapply rtc_r; [apply trial_resumed|]. eapply do_restart, do_refresh, trial_refreshed. Qed.

Lemma trial_completed_rows :
  restarts trial_completed = [mk_restart 1 "req" RComplete "b2" (Some 0) (Some 1) (Some (of_Z 260))] ∧
  mn_recipients trial_completed = [mk_recipient 1 "codex_queue" "chat" true false].
Proof. by vm_compute. Qed.

Lemma restart_is_orderly_witness :
  working (mn_db trial_ready) = false ∧
  count_where (result_notice 1 "codex_queue" "chat") (notices trial_completed) = 1.
Proof.
  split; [by vm_compute|].
  destruct (restart_is_orderly trial_before trial_completed trial_unused trial_finished) as (_ & _ & _ & _ & H & _);
    [by vm_compute|].
  rewrite (proj1 trial_completed_rows), (proj2 trial_completed_rows) in H.
  exact (proj2 (H _ (list_elem_of_here _ _) eq_refl) _ (list_elem_of_here _ _) eq_refl).
Defined.
