(* ===== verification/Recovery.v ===== *)
(** * A recovery ends

    Once every continuation has had its minute and no cancelled one is still at
    work, examining the restart completes it: the recipients are told and
    admissions are open again. *)

From stdpp Require Import relations.
From S2P Require Import Prelude Text Float64 Json Canonical Catalogs Lifecycle Requests PoolDomain.
From S2P Require Import Tables Demo Roster World History WorkerStore Sessions ServiceRestart.
From S2P Require Import PoolSettle Settlement PoolAdmit Admissions WorkerFinish Redact Notices Evidence Outbox Restart.
From S2P Require Import LaunchIdentity Starts LaunchDemo StoreSystem RestartSafety.

(** ** Notices are queued *)

Lemma session_total db t s fresh :
  addressable t s → ∃ db' id, session_for_reference db (mk_orchestrator t s None) fresh = Ok (db', id).
Proof.
  unfold addressable, session_for_reference, session_ids_for_reference, legacy_transport. intros Hv. rewrite Hv.
  unfold orchestrator_validate in Hv. simpl in *. destruct (canonical_transport_name t) as [c|]; [|done]. simpl.
  destruct (map os_id _); eauto.
Qed.

Lemma enqueue_total mn restart t s stage message now fresh :
  addressable t s → ∃ mn', enqueue_notice mn restart t s stage message now fresh = Ok mn'.
Proof.
  intros Ha. unfold enqueue_notice. destruct (exists_where _ _); [eauto|]. destruct (fresh t s) as [fs uuid].
  destruct (session_total (mn_db mn) t s fs Ha) as (db' & id & ->). eauto.
Qed.

Lemma results_total mn restart now fresh :
  (∀ c, c ∈ mn_recipients mn → addressable (rr_transport c) (rr_session c)) →
  ∃ mn', queue_restart_results mn restart now fresh = Ok mn'.
Proof.
  intros Ha. unfold queue_restart_results.
  destruct (try_fold_total (λ _, True)
    (λ mn r, queue_restart_result mn restart (rr_transport r) (rr_session r) now fresh)
    (merge_sort recipient_le (filter (λ r, rr_restart r = restart) (mn_recipients mn))) mn) as (mn' & E & _);
    [done| |by exists mn'].
  intros m c _ Hc. rewrite merge_sort_Permutation in Hc. apply list_elem_of_filter in Hc as [_ Hc].
  destruct (enqueue_total
    (set_notices (update_where (λ n, nr_restart n = restart ∧ nr_transport n = rr_transport c ∧
       nr_session n = rr_session c ∧ nr_stage n = SAfter ∧ untouched (mn_outbox m) (nr_delivery n) = true)
       (with_text (after_message (mn_db m) restart (rr_transport c) (rr_session c))) (ob_notices (mn_outbox m))) m)
    restart (rr_transport c) (rr_session c) SAfter
    (after_message (mn_db m) restart (rr_transport c) (rr_session c)) now fresh (Ha c Hc)) as [m' E].
  by exists m'.
Qed.

(** ** Continuations are decided *)

Section recovery.
Context (restart now_ns : Z).

(** A continuation that has had its minute. *)
Definition waited (db : Db) (a : RestartAgentRow) : Prop :=
  (∃ t, ra_requested_ns a = Some t ∧ RESUME_CONFIRM_NS ≤ now_ns - t) ∧
  ∀ c, ra_resumed_execution a = Some c → c ∈ map ag_id (db_agents db).

Lemma outcome_decided db t child :
  RESUME_CONFIRM_NS ≤ now_ns - t → (∀ c, child = Some c → c ∈ map ag_id (db_agents db)) →
  ∃ s reason, resume_outcome db now_ns t child = Ok (Some (s, reason)) ∧ s ≠ RsPending ∧ s ≠ RsCancelled.
Proof.
  intros Ht Hc. unfold resume_outcome.
  assert ((RESUME_CONFIRM_NS <=? saturating_sub now_ns t) = true) as ->.
  { apply Z.leb_le. unfold saturating_sub, RESUME_CONFIRM_NS, i64_MAX in *. lia. }
  destruct child as [c|]; simpl; [|by do 2 eexists].
  pose proof (Hc c eq_refl) as (a & -> & Ha)%list_elem_of_fmap.
  destruct (first_where_is_Some (λ x, ag_id x = ag_id a) (db_agents db) a) as [x ->]; [done..|]. simpl.
  destruct (_ || _); [by do 2 eexists|]. destruct (bool_decide _); by do 2 eexists.
Qed.

(** The rows that still wait after the examination were not examined. *)
Lemma rows_decided l mn :
  (∀ a, a ∈ l → waited (mn_db mn) a) →
  ∃ mn', try_fold (refresh_row restart now_ns) mn l = Ok mn' ∧
    db_agents (mn_db mn') = db_agents (mn_db mn) ∧ mn_recipients mn' = mn_recipients mn ∧
    ∀ x, x ∈ captured mn' → ra_restart x = restart →
      ra_resume_status x = RsPending ∨ ra_resume_status x = RsCancelled →
      x ∈ captured mn ∧ (ra_resume_status x = RsPending → ra_agent x ∉ map ra_agent l).
Proof.
  revert mn. induction l as [|a l IH]; intros mn Ho.
  { exists mn. repeat split; try done. intros _. by apply not_elem_of_nil. }
  destruct (Ho a (list_elem_of_here _ _)) as [(t & Et & Ht) Hc].
  destruct (outcome_decided (mn_db mn) t (ra_resumed_execution a) Ht Hc) as (s & reason & Es & Hp & Hx).
  set (m := update_captured (λ x, ra_restart x = restart ∧ ra_agent x = ra_agent a ∧ ra_resume_status x = RsPending)
              (with_status s reason) mn).
  assert (refresh_row restart now_ns mn a = Ok m) as Er by (unfold refresh_row; by rewrite Et, Es).
  destruct (IH m) as (mn' & E & Ea & Ep & Hw). { intros b Hb. apply Ho. by right. }
  exists mn'. simpl. rewrite Er. split; [done|]. split; [done|]. split; [done|]. intros x Hin Hr Hst.
  destruct (Hw x Hin Hr Hst) as [(y & Hy & ->)%elem_of_update_where Hn]. case_decide as Hd.
  { destruct Hst as [E1|E1]; cbn in E1; congruence. }
  split; [done|]. intros Hpend. simpl. apply not_elem_of_cons. split; [|auto]. intros E1. by destruct Hd.
Qed.

End recovery.

(** The examination finds nothing outstanding. *)
Lemma nothing_outstanding mn restart now_ns :
  orderly mn →
  (∀ a, a ∈ captured mn → ra_restart a = restart → ra_resume_status a = RsPending →
     ∃ t, ra_requested_ns a = Some t ∧ RESUME_CONFIRM_NS ≤ now_ns - t) →
  (∀ a c, a ∈ captured mn → ra_restart a = restart → ra_resume_status a = RsCancelled → c ∈ db_agents (mn_db mn) →
     ra_resumed_execution a = Some (ag_id c) → ag_status c ∉ ACTIVE) →
  ∃ m,
    try_fold (refresh_row restart now_ns) mn
      (filter (λ a, ra_restart a = restart ∧ ra_resume_status a = RsPending ∧ is_some (ra_requested_ns a) = true)
         (captured mn)) = Ok m ∧
    mn_recipients m = mn_recipients mn ∧
    exists_where (λ a, ra_restart a = restart ∧ outstanding (mn_db m) a) (captured m) = false.
Proof.
  intros O Hp Hx. set (l := filter _ _). destruct (rows_decided restart now_ns l mn) as (m & E & Ea & Ep & Hw).
  { intros a ((Er & Hs & _) & Ha)%list_elem_of_filter. split; [by apply Hp|]. intros c. by apply (od_child _ O). }
  exists m. split; [done|]. split; [done|]. apply exists_where_false. intros a Ha [Er [Hs|[Hs Hc]]].
  - destruct (Hw a Ha Er) as [Hin Hn]; [by left|]. apply Hn, list_elem_of_fmap; [done|]. exists a. split; [done|].
    apply list_elem_of_filter. split; [|done]. destruct (Hp a Hin Er Hs) as (t & -> & _). done.
  - destruct (Hw a Ha Er) as [Hin _]; [by right|]. rewrite Ea in Hc.
    apply exists_where_true in Hc as (c & Hcin & Ec & Hact). by apply (Hx a c).
Qed.

(** C22: A recovery ends.  In any reached state, let a restart be recovering on
    this boot, let every continuation still pending have been requested at least
    sixty seconds ago, and let no cancelled one be at work.  Then examining the
    restart succeeds and completes it, whatever became of the continuations:
    every captured execution has its result, every recipient is told, and
    admissions are open. *)
Theorem recovery_ends `{Sha256, LaunchSerde, JsonWriter, Serde, EventJson, Unicode, Host, JsonSchema}
  mn0 mn r now_ns at_ now fresh :
  unused mn0 → rtc (restart_step anything) mn0 mn → r ∈ restarts mn → rs_phase r = RRecovering →
  now_ns ≤ i64_MAX → is_finite at_ = true → flt at_ (of_Z 0) = false →
  (∀ a, a ∈ captured mn → ra_restart a = rs_id r → ra_resume_status a = RsPending →
     ∃ t, ra_requested_ns a = Some t ∧ RESUME_CONFIRM_NS ≤ now_ns - t) →
  (∀ a c, a ∈ captured mn → ra_restart a = rs_id r → ra_resume_status a = RsCancelled → c ∈ db_agents (mn_db mn) →
     ra_resumed_execution a = Some (ag_id c) → ag_status c ∉ ACTIVE) →
  ∃ mn',
    refresh_service_restart mn (rs_id r) (rs_boot r) now_ns at_ now fresh = Ok (mn', true) ∧
    require_admissions_open (mn_db mn') = Ok () ∧
    (∀ a, a ∈ captured mn' → ra_restart a = rs_id r → ra_resume_status a ≠ RsPending) ∧
    (∀ c, c ∈ mn_recipients mn → rr_restart c = rs_id r →
       count_where (result_notice (rs_id r) (rr_transport c) (rr_session c)) (notices mn') = 1).
Proof.
  intros U S Hr Hp Hn Hfin Hpos Hpend Hcan. pose proof (reached_orderly _ _ _ U S) as O.
  destruct (nothing_outstanding mn (rs_id r) now_ns O Hpend Hcan) as (m & Ef & Ep & Eo).
  destruct (results_total m (rs_id r) now fresh) as [m2 Eq]. { intros c. rewrite Ep. apply (od_recipients _ O). }
  set (mn' := update_restarts (λ x, rs_id x = rs_id r ∧ rs_phase x = RRecovering) (completed_at at_) m2).
  assert (refresh_service_restart mn (rs_id r) (rs_boot r) now_ns at_ now fresh = Ok (mn', true)) as E.
  { unfold refresh_service_restart, clock. rewrite (proj2 (Z.leb_le _ _) Hn), Hfin, Hpos. simpl.
    rewrite (proj2 (exists_where_true _ _)) by by exists r. simpl. by rewrite Ef, Eo, Eq. }
  exists mn'. split; [done|]. pose proof (refresh_sound _ _ _ _ _ _ _ _ _ E O) as [O' _].
  destruct (refresh_rows_sound _ _ _ _ _ Ef O) as (_ & _ & Er).
  apply results_Ok in Eq as [[[Er2 _ _ Ep2 _ _ _] _] _].
  assert (restarts mn' = update_where (λ x, rs_id x = rs_id r ∧ rs_phase x = RRecovering) (completed_at at_) (restarts mn))
    as Es by (unfold mn'; rewrite <-Er, <-Er2; done).
  assert (completed_at at_ r ∈ restarts mn') as Hin.
  { rewrite Es. apply elem_of_update_where. exists r. split; [done|]. by rewrite decide_True. }
  split; [|split].
  - unfold require_admissions_open, active_service_restart. replace (first_where _ _) with (@None RestartRow); [done|].
    symmetry. apply first_where_None. intros x Hx Hf. fold (restarts mn') in Hx. rewrite Es in Hx.
    apply elem_of_update_where in Hx as (y & Hy & ->). case_decide as Hd; [done|].
    destruct Hd. rewrite (od_one _ O y r); try done. apply (open_row mn); congruence.
  - intros a Ha Ea. by apply (od_decided _ O' (completed_at at_ r)).
  - intros c Hc Ec. apply notice_once; [apply O'|]. apply (od_told _ O' (completed_at at_ r)); try done.
    change (mn_recipients mn') with (mn_recipients m2). by rewrite Ep2, Ep.
Qed.

Lemma trial_resuming_rows :
  restarts trial_resuming = [mk_restart 1 "req" RRecovering "b2" (Some 0) (Some 1) None] ∧
  map (λ a, (ra_restart a, ra_resume_status a, ra_requested_ns a)) (captured trial_resuming) =
    [(1, RsPending, Some (seconds 100))].
Proof. by vm_compute. Qed.

Lemma one_row l id s t :
  map (λ a, (ra_restart a, ra_resume_status a, ra_requested_ns a)) l = [(id, s, t)] →
  ∀ a, a ∈ l → ra_resume_status a = s ∧ ra_requested_ns a = t.
Proof.
  destruct l as [|b [|]]; try done. intros [= _ <- <-] a ->%list_elem_of_singleton. done.
Qed.

Lemma recovery_ends_witness :
  ∃ mn', refresh_service_restart trial_resuming 1 "b2" (seconds 160) (of_Z 260) (of_Z 260) trial_ids = Ok (mn', true) ∧
    require_admissions_open (mn_db mn') = Ok ().
Proof.
  pose proof (one_row _ _ _ _ (proj2 trial_resuming_rows)) as Hrow.
  destruct (recovery_ends trial_before trial_resuming (mk_restart 1 "req" RRecovering "b2" (Some 0) (Some 1) None)
    (seconds 160) (of_Z 260) (of_Z 260) trial_ids trial_unused trial_resumed) as (mn' & E & Ho & _).
  - rewrite (proj1 trial_resuming_rows). left.
  - reflexivity.
  - by vm_compute.
  - by vm_compute.
  - by vm_compute.
  - intros a Ha _ _. exists (seconds 100). split; [exact (proj2 (Hrow a Ha))|by vm_compute].
  - intros a c Ha _ Hs. rewrite (proj1 (Hrow a Ha)) in Hs. discriminate Hs.
  - exists mn'. exact (conj E Ho).
Defined.
