(* ===== verification/RestartDelivery.v ===== *)
(** * Restarts beside pools and dispatchers

    The restart transactions leave pools, seats and the log alone and only
    append to the outbox; dispatchers change deliveries alone.  So a run of the
    whole service, in which the transactions of the store, those on restarts
    and the dispatchers interleave, is a run of the pool system, of the
    publication system and of the restart system, and keeps what each of them
    promises. *)

From stdpp Require Import relations.
From S2P Require Import Prelude Text Float64 Json Canonical Catalogs Lifecycle Requests PoolDomain.
From S2P Require Import Tables Demo Roster World History WorkerStore Sessions ServiceRestart.
From S2P Require Import PoolEnrollment PoolLog PoolWrites PoolSettle Settlement PoolReplace PoolAdmit.
From S2P Require Import Replacement Replays Admissions WorkerFinish Terminal Steps Posts PoolSystem.
From S2P Require Import Reachable Protocol Redact Notices Evidence Outbox Dispatch Publication ExactlyOnce.
From S2P Require Import Restart LaunchIdentity ProviderAdmit Starts LaunchDemo Supervision StoreFrames StoreSystem.
From S2P Require Import RestartSafety.

(** ** Restart transactions are quiet *)

(** The pool side of the store is left alone, and so is the publication side:
    no intention and no evidence of an attempt changes. *)
Record aside (mn mn' : Maintenance) : Prop := {
  as_quiet : quiet (mn_db mn) (mn_db mn');
  as_intents : ob_intents (mn_outbox mn') = ob_intents (mn_outbox mn);
  as_evidence : ob_evidence (mn_outbox mn') = ob_evidence (mn_outbox mn);
}.
#[global] Instance aside_preorder : PreOrder aside.
Proof. split; [by split|]. intros x y z [] []. split; [by etrans|congruence..]. Qed.

Lemma aside_db f mn : (∀ db, quiet db (f db)) → aside mn (on_db f mn).
Proof. intros Hq. split; [apply Hq|done|done]. Qed.

Lemma quiet_restarts rs db : quiet db (set_restarts rs db).
Proof. split; try done. by intros []. Qed.
Lemma quiet_captured rows db : quiet db (set_restart_agents rows db).
Proof. split; try done. by intros []. Qed.
Lemma quiet_command db agent kind : quiet db (insert_command db agent kind).
Proof. apply quiet_commands. Qed.

Lemma aside_captured mn (P : RestartAgentRow → Prop) `{∀ x, Decision (P x)} f : aside mn (update_captured P f mn).
Proof. apply aside_db. intros db. apply quiet_captured. Qed.
Lemma aside_restarts mn (P : RestartRow → Prop) `{∀ x, Decision (P x)} f : aside mn (update_restarts P f mn).
Proof. apply aside_db. intros db. apply quiet_restarts. Qed.
Lemma aside_same mn mn' : mn_outbox mn' = mn_outbox mn → aside mn mn'.
Proof. intros E. split; unfold mn_db; by rewrite E. Qed.

Lemma aside_fold {A} (f : Maintenance → A → result Maintenance) l mn mn' :
  (∀ m x m', f m x = Ok m' → aside m m') → try_fold f mn l = Ok mn' → aside mn mn'.
Proof.
  intros Hf. apply (try_fold_inv (λ m, aside mn m)); [|done]. intros m x m' _ S E. etrans; [exact S|by eapply Hf].
Qed.

Lemma notice_aside mn restart t s stage message now fresh mn' :
  enqueue_notice mn restart t s stage message now fresh = Ok mn' → aside mn mn'.
Proof.
  unfold enqueue_notice. destruct (exists_where _ _); [by intros [= <-]|]. destruct (fresh t s) as [fs uuid].
  destruct (session_for_reference _ _ _) as [[db id]|] eqn:Es; [|done]. apply session_frame in Es as [_ [ss ->]].
  intros [= <-]. split; [|done|done]. change (mn_db (set_notices _ (on_db _ mn))) with
    (insert_delivery (set_sessions ss (mn_db mn)) (mk_delivery ("ntf_" +:+ uuid) None (Some id) None DPending (Some now))).
  etrans; [apply quiet_sessions|]. apply quiet_delivery. by right.
Qed.

Lemma result_aside mn restart t s now fresh mn' :
  queue_restart_result mn restart t s now fresh = Ok mn' → aside mn mn'.
Proof. unfold queue_restart_result. intros E%notice_aside. etrans; [|exact E]. by split. Qed.

Lemma upsert_aside id t s had tried mn : aside mn (upsert_recipient id t s had tried mn).
Proof. apply aside_same, upsert_frame. Qed.

Lemma begin_aside mn request at_ boot now fresh mn' id :
  begin_service_restart mn request at_ boot now fresh = Ok (mn', id) → aside mn mn'.
Proof.
  unfold begin_service_restart. intros E. destruct (_ || _); [done|].
  destruct (first_where _ _); [by injection E as <- _|]. destruct (exists_where _ _); [done|].
  fold (opened mn request boot) in E. set (l := remove_dups _) in E.
  pose proof (fold_upsert (mn_seq mn + 1) l (opened mn request boot)) as (Eo & _ & _).
  destruct (try_fold _ _ l) as [m|] eqn:Ef; [|done]. injection E as <- _.
  etrans; [|eapply aside_fold; [|exact Ef]].
  - etrans; [|apply aside_same, Eo]. split; [|done|done]. etrans; [apply quiet_restarts|apply quiet_captured].
  - intros m1 [t s] m2. apply notice_aside.
Qed.

Lemma remember_aside mn restart r now fresh mn' :
  remember_service_restart_caller mn restart r now fresh = Ok mn' → aside mn mn'.
Proof.
  unfold remember_service_restart_caller. intros E. destruct (orchestrator_validate r) as [[]|]; [|done].
  destruct (canonical_transport_name _) as [t|]; [|done]. destruct (ok_or _ _) as [row|]; [|done]. simpl in E.
  destruct (bool_decide _); [|injection E as <-; apply upsert_aside].
  etrans; [apply upsert_aside|by eapply result_aside].
Qed.

Lemma bind_aside mn agent session r now fresh mn' :
  bind_captured_agent mn agent session r now fresh = Ok mn' → aside mn mn'.
Proof.
  unfold bind_captured_agent. destruct (canonical_transport_name _) as [t|]; [|done]. apply aside_fold.
  intros m [id phase] m' E. set (m1 := update_captured _ _ m) in E.
  assert (aside m m1) as S by apply aside_captured. etrans; [exact S|]. etrans; [apply upsert_aside|].
  destruct phase; [by eapply notice_aside|by injection E as <-..|by eapply result_aside].
Qed.

Lemma advance_aside mn restart boot now_ns mn' queued :
  advance_service_restart mn restart boot now_ns = Ok (mn', queued) → aside mn mn'.
Proof.
  unfold advance_service_restart. intros E. destruct (clock now_ns) as [now|]; [|done]. destruct (negb _); [done|].
  set (m := if awaiting_notice _ _ then _ else mn) in E.
  assert (aside mn m) as S by (subst m; destruct (awaiting_notice _ _); [apply aside_restarts|done]).
  clearbody m. destruct (if awaiting_notice _ _ then _ else _) as [started|]; [|done]. simpl in E.
  destruct (match started with Some _ => _ | None => _ end); [by injection E as <- _|]. injection E as <- _.
  etrans; [exact S|].
  assert (∀ ws m, aside m (fold_left (warn restart now) ws m)) as Hw.
  { intros ws. induction ws as [|w ws IH]; intros u; [done|]. simpl. etrans; [|apply IH]. unfold warn.
    destruct (decision now w); [|done]. etrans; [|apply aside_captured]. apply aside_db. intros db. apply quiet_command. }
  etrans; [apply Hw|]. destruct (working _); [done|apply aside_restarts].
Qed.

Lemma refresh_aside mn restart boot now_ns at_ now fresh mn' complete :
  refresh_service_restart mn restart boot now_ns at_ now fresh = Ok (mn', complete) → aside mn mn'.
Proof.
  unfold refresh_service_restart. intros E. destruct (clock now_ns) as [t|]; [|done].
  destruct (_ || _); [done|]. destruct (negb _); [done|].
  destruct (try_fold _ _ _) as [m|] eqn:Ef; [|done]. etrans; [eapply aside_fold; [|exact Ef]|].
  - intros m1 a m2. unfold refresh_row. destruct (ra_requested_ns a); [|by intros [= <-]].
    destruct (resume_outcome _ _ _ _) as [[[s reason]|]|]; [| |done]; intros [= <-]; [apply aside_captured|done].
  - destruct (exists_where _ _); [by injection E as <- _|].
    destruct (queue_restart_results _ _ _ _) as [m2|] eqn:Eq; [|done]. injection E as <- _.
    etrans; [|apply aside_restarts]. eapply aside_fold; [|exact Eq]. intros m1 c m3. apply result_aside.
Qed.

Lemma enqueue_quiet db id kind db' completed : enqueue db id kind = Ok (db', completed) → quiet db db'.
Proof.
  unfold enqueue. intros E. destruct (ok_or _ _) as [a|]; [|done].
  set (r := if is_cancel kind then _ else _) in E. assert (quiet db (cancel_resume db id r)) as Q.
  { unfold cancel_resume. destruct r; [|done]. destruct (_ || _); [apply quiet_captured|done]. }
  revert E Q. generalize (cancel_resume db id r). intros d E Q. etrans; [exact Q|].
  destruct (if Status.terminal _ then _ else _) as [[target stopped]|]; [|done].
  destruct stopped; [injection E as <- _; apply quiet_commands|]. destruct (_ && _); [done|].
  injection E as <- _. apply quiet_command.
Qed.

(** A notice that waits for a session is scheduled to it. *)
Lemma bound_moves P `{∀ d, Decision (P d)} session at_ l :
  (∀ d, P d → dl_state d = WaitingBinding) → queue_moves l (update_where P (bound_delivery session at_) l).
Proof.
  intros HP. apply rescheduled_moves, Forall2_update; [apply _|]. intros d _ Hd%HP. split; try done.
  right. split; [by left|by left].
Qed.

Lemma bound_aside mn id r at_ fs fn now fresh mn' s :
  bind_orchestrator mn id r at_ fs fn now fresh = Ok (mn', s) → aside mn mn'.
Proof.
  unfold bind_orchestrator. intros E. destruct (orchestrator_validate r) as [[]|]; [|done].
  destruct (_ || _); [done|]. destruct (ok_or _ _) as [a|]; [|done].
  assert (∀ m session, aside m (on_db (λ db, ensure_bound_terminal_notice db id session at_ fn) m)) as Hend.
  { intros m session. apply aside_db. intros db. apply notice_quiet. }
  destruct (ag_session a) as [current|].
  - destruct (session_matches_reference _ _ _) as [b|]; [|done]. destruct (negb b); [done|].
    destruct (touch_session_reference _ _ _) as [db|] eqn:Et; [|done].
    destruct (bind_captured_agent _ _ _ _ _ _) as [m|] eqn:Eb; [|done]. injection E as <- _.
    apply touch_only in Et as [ss ->]. apply bind_aside in Eb.
    transitivity (on_db (λ _, set_sessions ss (mn_db mn)) mn); [by split; [apply quiet_sessions|..]|].
    etrans; [exact Eb|apply Hend].
  - destruct (session_for_reference _ _ _) as [[db session]|] eqn:Et; [|done].
    destruct (bind_session db _ _) as [db'|] eqn:Ej; [|done].
    destruct (bind_captured_agent _ _ _ _ _ _) as [m|] eqn:Eb; [|done]. injection E as <- _.
    apply session_for_reference_only in Et as [ss ->]. apply bind_aside in Eb.
    transitivity (on_db (λ _, db') mn).
    { split; [|done|done]. etrans; [apply (quiet_sessions _ ss)|]. unfold bind_session in Ej.
      destruct (match _ with Some _ => _ | None => _ end); [done|]. injection Ej as <-.
      apply quiet_agents; [done| |done]. intros x _ _. by split. }
    etrans; [exact Eb|]. etrans; [|apply Hend]. apply aside_db. intros d. apply quiet_deliveries, bound_moves.
    by intros x (_ & ? & _).
Qed.

Lemma transaction_aside `{Sha256} mn mn' : keys_ok (mn_db mn) → transaction mn mn' → aside mn mn'.
Proof.
  intros Hk [? ? ? ? ? ? ? E|? ? ? ? ? E|? ? ? ? ? ? ? ? ? E|? ? ? ? ? E|?|? ? ? ? E|? ? ? ? ? E|? ? ? ? E
    |? ? ? ? ? ? ? ? E|? ? ? ? E|? ? ? ? ? ? ? ? ? E].
  - by eapply begin_aside.
  - by eapply remember_aside.
  - by eapply bound_aside.
  - by eapply advance_aside.
  - apply aside_restarts.
  - unfold recover_service_restart_for in E. run E; try done. apply aside_restarts.
  - unfold request_service_restart_resume in E. run E. apply aside_captured.
  - unfold fail_service_restart_resume in E. run E. apply aside_captured.
  - by eapply refresh_aside.
  - apply enqueue_quiet in E. by split.
  - apply terminal_quiet in E; [|done]. by split.
Qed.

(** ** Dispatchers leave restarts alone *)

(** Only deliveries of the database change, and no restart notice does. *)
Definition apart (ob ob' : Outbox) : Prop :=
  ob_notices ob' = ob_notices ob ∧ ∃ ds, ob_db ob' = set_deliveries ds (ob_db ob).

Lemma apart_refl ob : apart ob ob.
Proof. split; [done|]. exists (deliveries ob). unfold deliveries. by destruct (ob_db ob). Qed.

Lemma apart_elsewhere ob ob' recipients seq writer writer' :
  apart ob ob' → elsewhere (mk_maintenance ob recipients seq writer) (mk_maintenance ob' recipients seq writer').
Proof.
  intros [En [ds Ed]].
  split; unfold captured, idles, mn_db; cbn [mn_outbox]; rewrite ?Ed; [|done|by apply beside_spares].
  split; unfold restarts, notices, mn_db; cbn [mn_outbox]; rewrite ?Ed; done.
Qed.

Lemma claim_apart ob owner time policy ob' o :
  NoDup (map dl_id (deliveries ob)) → claim_delivery_lease ob owner time policy = Ok (ob', o) → apart ob ob'.
Proof.
  intros Hn E. split.
  - unfold claim_delivery_lease in E. run E; try done; by destruct (is_some _).
  - destruct (claim_Ok _ _ _ _ _ _ Hn E) as [(_ & _ & ds & Ed & _)|(c & ds & d & f & _ & G)]; [by exists ds|].
    destruct G. eauto.
Qed.

Lemma prepare_apart ob id owner attempt i at_ ob' i' :
  NoDup (map ir_delivery (ob_intents ob)) →
  prepare_bridge_delivery ob id owner attempt i at_ = Ok (ob', i') → apart ob ob'.
Proof.
  intros Hn E. split.
  - unfold prepare_bridge_delivery in E. run E. by run Heqr.
  - destruct (prepare_Ok _ _ _ _ _ _ _ _ Hn E) as (_ & -> & _). apply apart_refl.
Qed.

Lemma complete_apart `{JsonText} ob c ob' o : complete_delivery_attempt ob c = Ok (ob', o) → apart ob ob'.
Proof.
  intros E. split.
  - unfold complete_delivery_attempt in E. destruct (negb _); [done|]. destruct (negb _); [by injection E as <- _|].
    destruct (record_evidence ob c) as [ob1|] eqn:E1; [|done]. destruct (record_custody ob1 c) as [ob2|] eqn:E2; [|done].
    injection E as <- _. transitivity (ob_notices ob1).
    + unfold record_custody in E2. by run E2.
    + unfold record_evidence in E1. run E1; try done; by destruct (_ || _).
  - destruct (complete_Ok _ _ _ _ E) as [[-> _]|[f C]]; [apply apart_refl|]. rewrite (cc_after _ _ _ _ C). eauto.
Qed.

Lemma cancel_apart ob id ob' b : cancel_delivery ob id = Ok (ob', b) → apart ob ob'.
Proof.
  intros E. destruct (cancel_Ok _ _ _ _ E) as (_ & ds & Ed & _). split; [|by exists ds].
  unfold cancel_delivery in E. by run E.
Qed.

Lemma expire_apart ob at_ limit ob' ids : expire_unbound_batch ob at_ limit = Ok (ob', ids) → apart ob ob'.
Proof.
  intros E. destruct (expire_Ok _ _ _ _ _ E) as (_ & ds & Ed & _). split; [|by exists ds].
  unfold expire_unbound_batch in E. by run E.
Qed.

(** ** The service *)

(** Pools, dispatchers and restarts over one store. *)
Record Service := mk_service {
  sv_world : World;
  sv_recipients : list RecipientRow;
  sv_seq : Z;
  sv_writer : option Z;
}.

Definition sv_store (s : Service) : Maintenance :=
  mk_maintenance (w_outbox (sv_world s)) (sv_recipients s) (sv_seq s) (sv_writer s).
Definition with_store (mn : Maintenance) (s : Service) : Service :=
  let w := sv_world s in
  mk_service (mk_world (mn_outbox mn) (w_active w) (w_requests w) (w_published w)) (mn_recipients mn) (mn_seq mn)
    (mn_writer mn).
Definition with_world (w : World) (writer : option Z) (s : Service) : Service :=
  mk_service w (sv_recipients s) (sv_seq s) writer.

Section service.
Context `{Sha256, LaunchSerde, JsonWriter, Serde, EventJson, Unicode, Host, JsonSchema}.
Context `{BridgeSdk, JsonText}.

(** A transaction of the store, a transaction on restarts, a step of a
    dispatcher or the Bridge, a new writer process, or a transaction outside the
    library, which admits nothing, leaves restarts alone and is quiet for the
    pools.  Notices have fresh identifiers. *)
Inductive service_step (s : Service) : Service → Prop :=
  | sv_commit db' :
      db_step anything (mn_db (sv_store s)) db' → NoDup (map dl_id (db_deliveries db')) →
      service_step s (with_store (on_db (λ _, db') (sv_store s)) s)
  | sv_restart mn' :
      transaction (sv_store s) mn' → NoDup (map dl_id (db_deliveries (mn_db mn'))) →
      service_step s (with_store mn' s)
  | sv_dispatch w' : dispatcher_step (sv_world s) w' → service_step s (with_world w' (sv_writer s) s)
  | sv_takeover writer : service_step s (with_world (sv_world s) writer s)
  | sv_other db' :
      quiet (mn_db (sv_store s)) db' → steady (mn_db (sv_store s)) db' → NoDup (map dl_id (db_deliveries db')) →
      service_step s (with_store (on_db (λ _, db') (sv_store s)) s).

(** Dispatchers change deliveries alone. *)
Lemma dispatchers_apart w w' : world_inv w → dispatcher_step w w' → apart (w_outbox w) (w_outbox w').
Proof.
  intros [_ I] S. pose proof (iv_ids _ _ _ _ _ I) as Hd. pose proof (iv_rows _ _ _ _ _ I) as Hi. clear I.
  destruct S; cbn [w_outbox] in *; try apply apart_refl.
  - by eapply claim_apart.
  - by eapply prepare_apart.
  - by eapply complete_apart.
  - by eapply cancel_apart.
  - by eapply expire_apart.
Qed.

(** The service over a store that has neither dispatched nor restarted. *)
Definition starting (db : Db) (writer : option Z) : Service := mk_service (opening db []) [] 0 writer.

(** Steps of the store, each with fresh notices. *)
Lemma queue_ids l l' : queue_moves l l' → NoDup (map dl_id l') → NoDup (map dl_id l).
Proof.
  intros (old & new & -> & F & _). rewrite map_app. intros [Hn _]%NoDup_app.
  by rewrite <-(unclaimed_ids l old) by (eapply Forall2_impl; [exact F|apply rescheduled_unclaimed]).
Qed.

Lemma steps_queue db db' :
  rtc (step (Inputs := Launch)) db db' → sound db → queue_moves (db_deliveries db) (db_deliveries db').
Proof.
  induction 1 as [|x y z S _ IH]; intros Hs; [done|]. etrans; [exact (step_queue _ _ Hs S)|].
  apply IH, (step_sound _ _ Hs S).
Qed.

Lemma steps_dispatch ob act req pub db' :
  rtc (step (Inputs := Launch)) (ob_db ob) db' → sound (ob_db ob) → NoDup (map dl_id (db_deliveries db')) →
  rtc (dispatch_step (Inputs := Launch)) (mk_world ob act req pub) (mk_world (set_db db' ob) act req pub).
Proof.
  intros R. remember (ob_db ob) as db eqn:E. revert ob E.
  induction R as [db|db d db' S R IH]; intros ob -> Hs Hn; [by destruct ob|].
  destruct (step_sound _ _ Hs S) as [Hd _]. apply (rtc_l _ _ (mk_world (set_db d ob) act req pub)).
  - apply ds_store; [done|]. exact (queue_ids _ _ (steps_queue _ _ R Hd) Hn).
  - by apply (IH (set_db d ob)).
Qed.

Lemma restart_dispatches s mn' :
  sound (mn_db (sv_store s)) → transaction (sv_store s) mn' → NoDup (map dl_id (db_deliveries (mn_db mn'))) →
  rtc (dispatch_step (Inputs := Launch)) (sv_world s) (sv_world (with_store mn' s)).
Proof.
  intros Hs T Hn. apply transaction_aside in T as [Q Ei Ee]; [|apply wf_keys, Hs].
  destruct s as [[ob act req pub] rec seq writer]. cbn [sv_world with_store w_active w_requests w_published] in *.
  unfold mn_db, sv_store in Q. cbn [sv_world w_outbox mn_outbox] in Q, Ei, Ee.
  apply (rtc_l _ _ (mk_world (set_db (mn_db mn') ob) act req pub)).
  { apply ds_store; [by apply step_other|done]. }
  apply rtc_once. replace (mn_outbox mn') with
    (mk_outbox (mn_db mn') (ob_intents ob) (ob_evidence ob) (ob_notices (mn_outbox mn'))).
  - apply (ds_restart (set_db (mn_db mn') ob)).
  - unfold sv_store in Ei, Ee. cbn in Ei, Ee. rewrite <-Ei, <-Ee. unfold mn_db. by destruct (mn_outbox mn').
Qed.

Lemma service_step_projects s s' :
  world_inv (sv_world s) → service_step s s' →
  restart_step anything (sv_store s) (sv_store s') ∧
  rtc (dispatch_step (Inputs := Launch)) (sv_world s) (sv_world s').
Proof.
  intros Hw S. pose proof Hw as [Hs _]. destruct s as [[ob act req pub] rec seq writer].
  destruct S as [db' S Hn|mn' T Hn|w' D|writer'|db' Q S Hn].
  - split; [by apply (do_store anything (mk_maintenance ob rec seq writer) db')|].
    apply steps_dispatch; [|done|done]. by eapply db_step_steps.
  - split; [|by apply restart_dispatches]. apply do_restart. by destruct mn'.
  - split; [|by apply rtc_once, ds_dispatcher]. apply do_other. destruct w'.
    apply (apart_elsewhere ob w_outbox). by apply (dispatchers_apart _ _ Hw D).
  - split; [|done]. apply do_other, (apart_elsewhere ob ob), apart_refl.
  - split; [apply do_other; by apply (steady_elsewhere (mk_maintenance ob rec seq writer))|].
    apply steps_dispatch; [|done|done]. by apply rtc_once, step_other.
Qed.

(** Every run of the service is a run of each of its systems. *)
Lemma service_projects s s' :
  world_inv (sv_world s) → rtc service_step s s' →
  rtc (restart_step anything) (sv_store s) (sv_store s') ∧
  rtc (dispatch_step (Inputs := Launch)) (sv_world s) (sv_world s').
Proof.
  intros Hw R. induction R as [|s s1 s' S R IH]; [done|].
  destruct (service_step_projects s s1 Hw S) as [S1 S2]. destruct IH as [R1 R2].
  { clear R S1 S. induction S2 as [|x y z Sx _ IH2]; [done|]. apply IH2. by eapply (dispatch_holds (Inputs := Launch)). }
  split; [by eapply rtc_l|by etrans].
Qed.

Lemma count_one {A} (P : A → Prop) `{∀ x, Decision (P x)} l : count_where P l = 1 → ∃ x, filter P l = [x].
Proof. unfold count_where. destruct (filter P l) as [|x [|y k]]; simpl; [lia|by exists x|lia]. Qed.

Lemma published_few {A} (l : list (string * A)) id : NoDup (map fst l) → (length (filter (λ x, fst x = id) l) ≤ 1)%nat.
Proof.
  intros Hn. destruct (filter (λ x, fst x = id) l) as [|x k] eqn:E; [simpl; lia|].
  assert (x ∈ filter (λ x, fst x = id) l) as [<- Hx]%list_elem_of_filter by (rewrite E; left).
  rewrite (filter_key fst l x Hn Hx) in E. injection E as <-. done.
Qed.

(** C23: Pools, dispatchers and restarts do not disturb each other.  A run of
    the service in which the transactions of the store, admissions among them,
    the transactions on restarts and the steps of dispatchers interleave is a
    run of the restart system and a run of the publication system at once.  So
    its pools stay sound, no notice is published twice, at most one restart is
    open, nothing is at work while one is ready or handed over, and every
    recipient of a completed restart has exactly one result notice, which the
    Bridge accepts at most once. *)
Theorem service_keeps_promises db writer s :
  undispatched db → db_restarts db = [] → db_restart_agents db = [] → rtc service_step (starting db writer) s →
  rtc (restart_step anything) (sv_store (starting db writer)) (sv_store s) ∧
  rtc (dispatch_step (Inputs := Launch)) (opening db []) (sv_world s) ∧
  sound (mn_db (sv_store s)) ∧ NoDup (map fst (w_published (sv_world s))) ∧
  (∀ r r', r ∈ restarts (sv_store s) → r' ∈ restarts (sv_store s) → rs_finished r = false → rs_finished r' = false →
     r = r') ∧
  (∀ r, r ∈ restarts (sv_store s) → rs_phase r = RReady ∨ rs_phase r = RRequesting →
     working (mn_db (sv_store s)) = false) ∧
  (∀ r c, r ∈ restarts (sv_store s) → rs_finished r = true → c ∈ sv_recipients s → rr_restart c = rs_id r →
     ∃ n, filter (result_notice (rs_id r) (rr_transport c) (rr_session c)) (notices (sv_store s)) = [n] ∧
       (length (filter (λ x, fst x = nr_delivery n) (w_published (sv_world s))) ≤ 1)%nat).
Proof.
  intros Hu Er Ec R. destruct (service_projects (starting db writer) s (opening_holds _ _ Hu) R) as [R1 R2].
  pose proof (run_holds _ _ _ Hu R2) as [Hs I]. pose proof (published_once _ _ _ _ _ I) as Hn.
  assert (orderly (sv_store s)) as O.
  { apply (reached_orderly anything (sv_store (starting db writer))); [|done]. split; try done.
    apply (keys_agents _ (wf_keys _ (so_wf _ (ud_sound _ Hu)))). }
  split; [done|]. split; [done|]. split; [done|]. split; [done|]. split; [apply O|]. split; [apply O|].
  intros r c Hr Hf%(od_phase _ O) Hc E; [|done].
  destruct (count_one (result_notice (rs_id r) (rr_transport c) (rr_session c)) (notices (sv_store s))) as [n En].
  { apply notice_once; [apply O|by apply (od_told _ O)]. }
  exists n. split; [done|by apply published_few].
Qed.
End service.

(** ** A restart of a settled service *)

#[local] Existing Instance demo_sdk.
#[local] Existing Instance demo_json.

Definition turned_away : OrchestratorRef := mk_orchestrator "codex" "thread-2" None.
Definition idle_start : Service := starting demo_bound (Some 1).
Definition ok_store (r : result Maintenance) : Maintenance :=
  match r with Ok mn => mn | Err _ => sv_store idle_start end.
Definition ok_first {A} (r : result (Maintenance * A)) : Maintenance :=
  match r with Ok (mn, _) => mn | Err _ => sv_store idle_start end.

Definition idle_opened := ok_first (begin_service_restart (sv_store idle_start) "req" (of_Z 400) "b1" (of_Z 400) trial_ids).
Definition idle_asked := ok_store (remember_service_restart_caller idle_opened 1 turned_away (of_Z 401) trial_ids).
Definition idle_ready := ok_first (advance_service_restart idle_asked 1 "b1" (seconds 1)).
Definition idle_requesting := (claim_service_restart idle_ready 1).1.
Definition idle_rebooted :=
  mk_maintenance (mn_outbox idle_requesting) (mn_recipients idle_requesting) (mn_seq idle_requesting) (Some 2).
Definition idle_recovering := ok_first (recover_service_restart_for idle_rebooted None "b2").
Definition idle_completed :=
  ok_first (refresh_service_restart idle_recovering 1 "b2" (seconds 9) (of_Z 410) (of_Z 410) trial_ids).

Definition serving (mn : Maintenance) : Service :=
  mk_service (mk_world (mn_outbox mn) [] [] []) (mn_recipients mn) (mn_seq mn) (mn_writer mn).

Lemma idle_transaction mn mn' s :
  s = serving mn → transaction mn mn' → bool_decide (NoDup (map dl_id (db_deliveries (mn_db mn')))) = true →
  service_step s (serving mn').
Proof.
  intros -> T Hn. apply (sv_restart (serving mn) mn'); [by destruct mn|]. by apply bool_decide_eq_true_1 in Hn.
Qed.

Lemma idle_reboot mn writer :
  service_step (serving mn) (serving (mk_maintenance (mn_outbox mn) (mn_recipients mn) (mn_seq mn) writer)).
Proof. apply (sv_takeover (serving mn) writer). Qed.

Lemma idle_run : rtc service_step idle_start (serving idle_completed).
Proof.
  apply (rtc_l _ _ (serving idle_opened)).
  { apply (idle_transaction (sv_store idle_start)); [done| |by vm_compute].
    apply (do_begin _ "req" (of_Z 400) "b1" (of_Z 400) trial_ids _ 1). by vm_compute. }
  apply (rtc_l _ _ (serving idle_asked)).
  { apply (idle_transaction idle_opened); [done| |by vm_compute].
    apply (do_remember _ 1 turned_away (of_Z 401) trial_ids). by vm_compute. }
  apply (rtc_l _ _ (serving idle_ready)).
  { apply (idle_transaction idle_asked); [done| |by vm_compute]. apply (do_advance _ 1 "b1" (seconds 1) _ 0). by vm_compute. }
  apply (rtc_l _ _ (serving idle_requesting)). { apply (idle_transaction idle_ready); [done|apply do_claim|by vm_compute]. }
  apply (rtc_l _ _ (serving idle_rebooted)). { apply (idle_reboot idle_requesting). }
  apply (rtc_l _ _ (serving idle_recovering)).
  { apply (idle_transaction idle_rebooted); [done| |by vm_compute]. apply (do_recover _ None "b2" _ (Some 1)). by vm_compute. }
  apply rtc_once. apply (idle_transaction idle_recovering); [done| |by vm_compute].
  apply (do_refresh _ 1 "b2" (seconds 9) (of_Z 410) (of_Z 410) trial_ids _ true). by vm_compute.
Qed.

Lemma idle_rows :
  restarts idle_completed = [mk_restart 1 "req" RComplete "b2" None (Some 1) (Some (of_Z 410))] ∧
  mn_recipients idle_completed = [mk_recipient 1 "codex_queue" "thread-2" false true].
Proof. by vm_compute. Qed.

Lemma one_result mn r c (k : RestartNoticeRow → Prop) :
  restarts mn = [r] → mn_recipients mn = [c] → rs_finished r = true → rr_restart c = rs_id r →
  (∀ r c, r ∈ restarts (sv_store (serving mn)) → rs_finished r = true → c ∈ sv_recipients (serving mn) →
     rr_restart c = rs_id r →
     ∃ n, filter (result_notice (rs_id r) (rr_transport c) (rr_session c)) (notices (sv_store (serving mn))) = [n] ∧ k n) →
  ∃ n, filter (result_notice (rs_id r) (rr_transport c) (rr_session c)) (notices mn) = [n].
Proof.
  intros Er Ec Hf E Hn. destruct (Hn r c) as (n & En & _); [|done| |done|by exists n].
  - change (r ∈ restarts mn). rewrite Er. left.
  - change (c ∈ mn_recipients mn). rewrite Ec. left.
Qed.

Lemma service_keeps_promises_witness :
  ∃ n, filter (result_notice 1 "codex_queue" "thread-2") (notices idle_completed) = [n].
Proof.
  destruct (service_keeps_promises demo_bound (Some 1) (serving idle_completed) demo_bound_undispatched) as
    (_ & _ & _ & _ & _ & _ & Hn); [by vm_compute|by vm_compute|exact idle_run|].
  exact (one_result idle_completed _ _ _ (proj1 idle_rows) (proj2 idle_rows) eq_refl eq_refl Hn).
Defined.
