(* ===== verification/Failures.v ===== *)
(** * The complete error taxonomy

    [agent-run-domain/src/error.rs] with the closed enums of
    [agent-run-domain/src/storage.rs] it carries.  The pool transactions build
    only the variants of [Prelude.Error]; everything that crosses the writer
    boundary is a [Failure], which embeds them and adds the rest: wrapped
    persistence and ownership failures, broker answers and the source-bearing
    boundary errors, whose source text is not modelled because no public
    rendering shows it. *)

From S2P Require Import Prelude Text Float64 Json.

(** ** Closed enums of the writer protocol *)

(** [storage.rs]: [RejectStage]. *)
Inductive RejectStage := StGate | StAuthorization | StAcquire | StStatement | StCommit.

(** [storage.rs]: [NotEnqueuedReason]. *)
Inductive NotEnqueuedReason :=
  | NeRetentionGate | NeQueueFull | NeBytesFull | NeProducerFull | NeReservedForCritical
  | NeAdmissionsClosed | NeDraining | NeDegraded | NeDeadlineExpired | NeDeadlineBeforeStart.

(** [storage.rs]: [UnknownCause]. *)
Inductive UnknownCause :=
  | UcCommitUncertain | UcRollbackUncertain | UcDeadlineDuringExecution | UcWriterStopped | UcTransport.

(** [storage.rs]: [WriterFailure]. *)
Inductive WriterFailure :=
  | WfNotEnqueued (reason : NotEnqueuedReason)
  | WfUnknown (cause : UnknownCause).

#[global] Instance reject_stage_eq_dec : EqDecision RejectStage.
Proof. solve_decision. Defined.
#[global] Instance not_enqueued_eq_dec : EqDecision NotEnqueuedReason.
Proof. solve_decision. Defined.
#[global] Instance unknown_cause_eq_dec : EqDecision UnknownCause.
Proof. solve_decision. Defined.

(** ** Machine codes *)

Inductive MachineCode :=
  | McSelectionStale | McSelectionBusy | McNoEligibleAccount | McQuotaExhausted | McBindingCooldown
  | McValidationError | McPathEscapeError | McAgentNotFound | McStateTransitionError | McRequestConflict
  | McCapacityExhausted | McUnsupported | McBrokerUnavailable | McAnswerIntegrityError | McExecutionChanged
  | McAnswerHashMismatch | McAnswerUnavailable | McRuntimeError | McIOError | McStorageError.

#[global] Instance machine_code_eq_dec : EqDecision MachineCode.
Proof. solve_decision. Defined.

(** [MachineCode::as_str]. *)
Definition machine_code_str (c : MachineCode) : string :=
  match c with
  | McSelectionStale => "selection_stale"
  | McSelectionBusy => "selection_busy"
  | McNoEligibleAccount => "no_eligible_account"
  | McQuotaExhausted => "quota_exhausted"
  | McBindingCooldown => "binding_cooldown"
  | McValidationError => "ValidationError"
  | McPathEscapeError => "PathEscapeError"
  | McAgentNotFound => "AgentNotFound"
  | McStateTransitionError => "StateTransitionError"
  | McRequestConflict => "RequestConflict"
  | McCapacityExhausted => "CapacityExhausted"
  | McUnsupported => "Unsupported"
  | McBrokerUnavailable => "BrokerUnavailable"
  | McAnswerIntegrityError => "AnswerIntegrityError"
  | McExecutionChanged => "ExecutionChanged"
  | McAnswerHashMismatch => "AnswerHashMismatch"
  | McAnswerUnavailable => "AnswerUnavailable"
  | McRuntimeError => "RuntimeError"
  | McIOError => "IOError"
  | McStorageError => "StorageError"
  end.

(** [MachineCode::ALL]. *)
Definition machine_codes : list MachineCode :=
  [McSelectionStale; McSelectionBusy; McNoEligibleAccount; McQuotaExhausted; McBindingCooldown;
   McValidationError; McPathEscapeError; McAgentNotFound; McStateTransitionError; McRequestConflict;
   McCapacityExhausted; McUnsupported; McBrokerUnavailable; McAnswerIntegrityError; McExecutionChanged;
   McAnswerHashMismatch; McAnswerUnavailable; McRuntimeError; McIOError; McStorageError].

(** [MachineCode::from_wire]. *)
Definition machine_code_from_wire (code : string) : option MachineCode :=
  first_where (λ known, machine_code_str known = code) machine_codes.

(** ** Closed labels of wrapped failures *)

Inductive OwnershipStage := OwInitial | OwStreaming | OwFinal | OwObservation.

Inductive PersistenceOperation :=
  | PoOwnershipAcquire | PoOwnershipWrite | PoOwnershipCommit | PoStoreOpen | PoTranscriptAppend
  | PoRuntimeSession | PoEventAppend | PoTerminalCommit | PoCleanupWrite | PoCommandClaim
  | PoCommandWrite | PoWriterApply.

#[global] Instance persistence_operation_eq_dec : EqDecision PersistenceOperation.
Proof. solve_decision. Defined.

(** The [snake_case] serde spelling of [PersistenceOperation]. *)
Definition persistence_operation_str (p : PersistenceOperation) : string :=
  match p with
  | PoOwnershipAcquire => "ownership_acquire"
  | PoOwnershipWrite => "ownership_write"
  | PoOwnershipCommit => "ownership_commit"
  | PoStoreOpen => "store_open"
  | PoTranscriptAppend => "transcript_append"
  | PoRuntimeSession => "runtime_session"
  | PoEventAppend => "event_append"
  | PoTerminalCommit => "terminal_commit"
  | PoCleanupWrite => "cleanup_write"
  | PoCommandClaim => "command_claim"
  | PoCommandWrite => "command_write"
  | PoWriterApply => "writer_apply"
  end.

(** [QuotaAdmissionError::kind]. *)
Definition quota_kind (q : QuotaAdmissionError) : string :=
  match q with
  | QaSelectionStale _ _ => "selection_stale"
  | QaSelectionBusy _ => "selection_busy"
  | QaNoEligibleAccount _ _ => "no_eligible_account"
  | QaQuotaExhausted _ _ _ => "quota_exhausted"
  | QaBindingCooldown _ _ _ _ _ => "binding_cooldown"
  end.

(** ** Failures *)

(** [Error].  [Domain] holds the variants of [Prelude.Error]; [Sqlite] is
    [Error::Sql] with a driver result code, which the modelled transactions
    never look at. *)
Inductive Failure :=
  | Domain (e : Error)
  | PathEscape (message : string)
  | BrokerUnavailable
  | AnswerIntegrity (message : string)
  | AnswerHashMismatch
  | AnswerUnavailable
  | WriterFailed (w : WriterFailure)
  | OwnershipCheckpoint (stage : OwnershipStage) (source : Failure)
  | Persistence (operation : PersistenceOperation) (elapsed_ms attempts : Z)
      (writer_identity : option (string * Z)) (phase : option RejectStage) (source : Failure)
  | BrokerError (message : string) (code : option string) (data : option Value)
  | Bootstrap (agent_id failure_kind : string) (failure_stage : option string) (message : string)
  | Io
  | Sqlite (extended : Z).

(** The primary result codes [rusqlite] names. *)
Definition SQLITE_BUSY : Z := 5.
Definition SQLITE_LOCKED : Z := 6.

(** [rusqlite]: the primary code of an extended result code. *)
Definition primary_code (extended : Z) : Z := Z.land extended 255.

(** The [thiserror] display text.  The text of a boundary error belongs to its
    driver and is left empty; nothing below shows it. *)
Definition failure_display (f : Failure) : string :=
  match f with
  | Domain e => display e
  | PathEscape s | AnswerIntegrity s => s
  | BrokerUnavailable => "BrokerUnavailable: start `agent-run api serve` for this home"
  | AnswerHashMismatch => "current answer differs from the required sha256"
  | AnswerUnavailable => "current execution has no sealed answer"
  | WriterFailed _ => "writer operation did not complete"
  | OwnershipCheckpoint _ _ => "runtime ownership checkpoint failed"
  | Persistence _ _ _ _ _ _ => "state persistence operation failed"
  | BrokerError message _ _ | Bootstrap _ _ _ message => message
  | Io | Sqlite _ => ""
  end.

(** [Error::ownership_checkpoint]: the first wrapped cause is kept. *)
Definition ownership_checkpoint (stage : OwnershipStage) (source : Failure) : Failure :=
  match source with
  | OwnershipCheckpoint _ _ => source
  | _ => OwnershipCheckpoint stage source
  end.

(** [as_millis().min(u64::MAX)]. *)
Definition millis (elapsed : Z) : Z := Z.min elapsed (2 ^ 64 - 1).

(** [Error::persistence]. *)
Definition persistence (operation : PersistenceOperation) (elapsed : Z) (source : Failure) : Failure :=
  Persistence operation (millis elapsed) 1 None None source.

(** [Error::with_writer_identity]. *)
Definition with_writer_identity (f : Failure) (id : string) (kind : Z) : Failure :=
  match f with
  | Persistence operation ms attempts _ phase source =>
      Persistence operation ms attempts (Some (id, kind)) phase source
  | _ => f
  end.

(** [Error::retryable_ownership_acquire]. *)
Fixpoint retryable_ownership_acquire (f : Failure) : bool :=
  match f with
  | OwnershipCheckpoint _ source => retryable_ownership_acquire source
  | Persistence PoOwnershipAcquire _ _ _ (None | Some StAcquire) (Sqlite extended) =>
      primary_code extended =? SQLITE_BUSY
  | _ => false
  end.

(** [Error::persistence_attempts]. *)
Fixpoint persistence_attempts (f : Failure) : Z :=
  match f with
  | OwnershipCheckpoint _ source => persistence_attempts source
  | Persistence _ _ attempts _ _ _ => attempts
  | _ => 0
  end.

(** [Error::persistence_totals]. *)
Fixpoint persistence_totals (f : Failure) (elapsed count : Z) : Failure :=
  match f with
  | OwnershipCheckpoint stage source =>
      OwnershipCheckpoint stage (persistence_totals source elapsed count)
  | Persistence operation _ _ identity phase source =>
      Persistence operation (millis elapsed) count identity phase source
  | _ => f
  end.

(** [Error::machine_code]. *)
Fixpoint machine_code (f : Failure) : MachineCode :=
  match f with
  | Domain (QuotaAdmission (QaSelectionStale _ _)) => McSelectionStale
  | Domain (QuotaAdmission (QaSelectionBusy _)) => McSelectionBusy
  | Domain (QuotaAdmission (QaNoEligibleAccount _ _)) => McNoEligibleAccount
  | Domain (QuotaAdmission (QaQuotaExhausted _ _ _)) => McQuotaExhausted
  | Domain (QuotaAdmission (QaBindingCooldown _ _ _ _ _)) => McBindingCooldown
  | Domain (Validation _ | JsonFailure) => McValidationError
  | PathEscape _ => McPathEscapeError
  | Domain (NotFound _) => McAgentNotFound
  | Domain (Transition _) => McStateTransitionError
  | Domain Conflict => McRequestConflict
  | Domain Capacity => McCapacityExhausted
  | Domain (Unsupported _) => McUnsupported
  | BrokerUnavailable => McBrokerUnavailable
  | AnswerIntegrity _ | Domain (Integrity _) => McAnswerIntegrityError
  | Domain ExecutionChanged => McExecutionChanged
  | AnswerHashMismatch => McAnswerHashMismatch
  | AnswerUnavailable => McAnswerUnavailable
  | BrokerError _ (Some code) _ => default McRuntimeError (machine_code_from_wire code)
  | Domain (Runtime _) | WriterFailed _ | OwnershipCheckpoint _ _ | BrokerError _ None _ => McRuntimeError
  | Bootstrap _ _ _ _ => McValidationError
  | Io => McIOError
  | Domain (Sql _) | Sqlite _ => McStorageError
  | Persistence _ _ _ _ _ source => machine_code source
  end.

Record ProtocolMapping := mk_protocol_mapping {
  json_rpc_code : Z;
  mcp_code : string;
  cli_exit_code : Z;
}.

(** [Error::protocol_mapping]. *)
Definition protocol_mapping (f : Failure) : ProtocolMapping :=
  let code := machine_code f in
  mk_protocol_mapping
    (if bool_decide (code = McValidationError ∨ code = McPathEscapeError) then -32602 else -32000)
    (machine_code_str code) 2.

Record PublicError := mk_public_error {
  pe_kind : string;
  pe_message : string;
  pe_agent_id : option string;
  pe_failure_kind : option string;
  pe_failure_stage : option string;
}.

(** [Error::public]. *)
Definition public (f : Failure) : PublicError :=
  let message :=
    match f with
    | Io => "local I/O operation failed"%string
    | Domain (Sql _) | Sqlite _ => "state database operation failed"
    | Domain JsonFailure => "invalid JSON document"
    | Domain (Validation s | Unsupported s | Integrity s | Runtime s) | AnswerIntegrity s => s
    | Domain (QuotaAdmission q) => quota_display q
    | BrokerError s _ _ | Bootstrap _ _ _ s => s
    | _ => failure_display f
    end in
  mk_public_error (machine_code_str (machine_code f)) (of_chars (take 512 (chars message)))
    (match f with Bootstrap agent _ _ _ => Some agent | _ => None end)
    (match f with Bootstrap _ kind _ _ => Some kind | _ => None end)
    (match f with Bootstrap _ _ stage _ => stage | _ => None end).

(** ** Properties *)

Lemma machine_code_known c : c ∈ machine_codes.
Proof. destruct c; unfold machine_codes; set_solver. Qed.

Lemma machine_code_from_wire_str c : machine_code_from_wire (machine_code_str c) = Some c.
Proof. destruct c; vm_compute; reflexivity. Qed.

Lemma machine_code_from_wire_Some s c : machine_code_from_wire s = Some c → machine_code_str c = s.
Proof. intros [E _]%first_where_Some. exact E. Qed.

(** A broker answer is rendered under the code the broker itself reported:
    relaying a failure over the socket keeps its public kind. *)
Theorem broker_relay_keeps_code f message data :
  machine_code (BrokerError message (Some (pe_kind (public f))) data) = machine_code f.
Proof. simpl. by rewrite machine_code_from_wire_str. Qed.

(** Only a busy [BEGIN] of the ownership boundary is replayable, and neither
    identity nor new totals change that verdict. *)
Theorem retry_verdict_stable f id kind elapsed count :
  retryable_ownership_acquire (persistence_totals (with_writer_identity f id kind) elapsed count) =
    retryable_ownership_acquire f.
Proof.
  assert (∀ g, retryable_ownership_acquire (persistence_totals g elapsed count) =
               retryable_ownership_acquire g) as Ht.
  { intros g. induction g; try done. }
  rewrite Ht. by destruct f.
Qed.
