(* ===== verification/Storage.v ===== *)
(** * The writer protocol

    [agent-run-domain/src/storage.rs]: the identities, authorities, refusals
    and outcomes the single resident writer and its producers exchange.  An
    operation identity is its 66-byte text; the boot identifier and the
    monotonic clock that stamp it are arguments, as is the random part. *)

From S2P Require Import Prelude Text Float64 Json Canonical Catalogs Lifecycle Requests PoolDomain Redact Evidence Failures.

Definition WRITE_PROTOCOL : Z := 1.
Definition MAX_RESULT_BYTES : Z := 65536.
Definition MAX_MESSAGE_BYTES : Z := 512.
Definition MAX_OPERATION_AGE_NS : Z := 7 * 86400 * 1000000000.
Definition MAX_ISSUE_SKEW_NS : Z := 1000000000.
Definition MAX_PRODUCER_BYTES : Z := 200.
Definition u64_MAX : Z := 2 ^ 64 - 1.

(** [u64::saturating_add] and [u64::saturating_sub]. *)
Definition saturating_add (a b : Z) : Z := Z.min (a + b) u64_MAX.
Definition saturating_sub (a b : Z) : Z := Z.max (a - b) 0.

(** ** Operation identities *)

(** [&s.as_bytes()[from..to]]. *)
Definition byte_range (s : string) (from to : nat) : list Z := take (to - from) (drop from (bytes s)).

(** [boot_tag]. *)
Definition boot_tag `{Sha256} (boot_id : string) : string := hex_digest (take 8 (digest (bytes boot_id))).

(** [{:016x}]: the [k] low hexadecimal digits, most significant first. *)
Fixpoint hex_digits (k : nat) (n : Z) : list Z :=
  match k with
  | O => []
  | S k' => hex_digits k' (n / 16) ++ [hex_digit (n mod 16)]
  end.

(** [u64::from_str_radix(_, 16)] on validated digits. *)
Definition hex_value (ds : list Z) : Z := fold_left (λ n b, n * 16 + unhex b) ds 0.

(** [OperationId::new]; [uuid] is the simple form of the fresh UUID. *)
Definition op_new `{Sha256} (boot_id : string) (issued_ns : Z) (uuid : string) : string :=
  boot_tag boot_id +:+ "." +:+ of_bytes (hex_digits 16 issued_ns) +:+ "." +:+ uuid.

(** [OperationId::parse]. *)
Definition op_parse (text : string) : result string :=
  let hex from to := forallb is_lower_hex (byte_range text from to) in
  fail? negb (len text =? 66)
        || negb (bool_decide (bytes text !! 16%nat = Some 46))
        || negb (bool_decide (bytes text !! 33%nat = Some 46))
        || negb (hex 0%nat 16%nat) || negb (hex 17%nat 33%nat) || negb (hex 34%nat 66%nat)
    with invalid "invalid operation id";
  Ok text.

(** [OperationId::boot_tag] and [OperationId::issued_ns]. *)
Definition op_boot_tag (id : string) : string := of_bytes (byte_range id 0 16).
Definition op_issued_ns (id : string) : Z := hex_value (byte_range id 17 33).

(** [OperationId::is_stale]. *)
Definition is_stale `{Sha256} (id boot_id : string) (now_ns : Z) : bool :=
  negb (bool_decide (op_boot_tag id = boot_tag boot_id))
  || (saturating_add now_ns MAX_ISSUE_SKEW_NS <? op_issued_ns id)
  || (MAX_OPERATION_AGE_NS <? saturating_sub now_ns (op_issued_ns id)).

(** [PayloadDigest::of] and [PayloadDigest::parse]. *)
Definition digest_of `{Sha256} (v : Value) : string := sha256_hex v true.
Definition digest_parse (text : string) : result string :=
  fail? negb (len text =? 64) || negb (forallb is_lower_hex (bytes text)) with
    invalid "invalid payload digest";
  Ok text.

(** ** Producers *)

Inductive ProducerKind := PkBroker | PkSupervisor | PkServiceExec | PkCli | PkCollector.

Definition producer_kind_str (k : ProducerKind) : string :=
  match k with
  | PkBroker => "broker"
  | PkSupervisor => "supervisor"
  | PkServiceExec => "service_exec"
  | PkCli => "cli"
  | PkCollector => "collector"
  end.

Record ProducerId := mk_producer {
  pd_kind : ProducerKind;
  pd_scope : option string;
  pd_instance : string;
}.

#[global] Instance producer_kind_eq_dec : EqDecision ProducerKind.
Proof. solve_decision. Defined.
#[global] Instance producer_eq_dec : EqDecision ProducerId.
Proof. solve_decision. Defined.

Definition opt_str (o : option string) : Value := match o with Some s => Str s | None => Null end.

(** The serde form of [ProducerId]. *)
Definition producer_json (p : ProducerId) : Value :=
  Obj [("instance", Str (pd_instance p)); ("kind", Str (producer_kind_str (pd_kind p)));
       ("scope", opt_str (pd_scope p))]%string.

(** [ProducerId::key]. *)
Definition producer_key (p : ProducerId) : string := of_bytes (dumps (producer_json p) true).

(** [ProducerId::validate]. *)
Definition producer_validate (p : ProducerId) : result () :=
  fail? is_empty (trim (pd_instance p)) || (MAX_PRODUCER_BYTES <? len (producer_key p)) with
    invalid "invalid producer id";
  Ok ().

(** ** Deadlines *)

Record MonoDeadline := mk_deadline { md_boot_id : string; md_ns : Z }.

(** [MonoDeadline::expired]. *)
Definition deadline_expired (d : MonoDeadline) (boot_id : string) (now_ns : Z) : bool :=
  negb (bool_decide (md_boot_id d = boot_id)) || (md_ns d <=? now_ns).

(** ** Authorities *)

Inductive WriteAuthority :=
  | ABrokerSelf
  | ACli (uid pid : Z) (birth : f64) (token : string)
  | ACollector (uid pid : Z) (birth : f64) (token : string)
  | ASupervisor (logical execution : string) (attempt : option string) (capability_sha256 : string)
      (pid : Z) (birth : f64) (token : string)
  | AServiceExec (generation capability_sha256 : string) (pid : Z) (birth : f64) (token : string)
      (root_pid : Z) (root_birth : f64) (root_token : string)
  | AWorker (execution attempt : string).

(** [WriteAuthority::kind]. *)
Definition authority_kind (a : WriteAuthority) : string :=
  match a with
  | ABrokerSelf => "broker"
  | ACli _ _ _ _ => "cli"
  | ACollector _ _ _ _ => "collector"
  | ASupervisor _ _ _ _ _ _ _ => "supervisor"
  | AServiceExec _ _ _ _ _ _ _ _ => "service_exec"
  | AWorker _ _ => "worker"
  end.

(** [serde_json::to_value] of an [f64]: a non-finite number is null. *)
Definition float_json (f : f64) : Value := if is_finite f then Num (Float f) else Null.

(** The serde form of [WriteAuthority] as [fingerprint] hashes it: tagged with
    its kind, without the mutable attempt of a supervisor. *)
Definition authority_json (a : WriteAuthority) : Value :=
  match a with
  | ABrokerSelf => Obj [("kind", Str "broker")]%string
  | ACli uid pid birth token =>
      Obj [("birth", float_json birth); ("kind", Str "cli"); ("pid", num pid); ("token", Str token);
           ("uid", num uid)]%string
  | ACollector uid pid birth token =>
      Obj [("birth", float_json birth); ("kind", Str "collector"); ("pid", num pid); ("token", Str token);
           ("uid", num uid)]%string
  | ASupervisor logical execution _ capability pid birth token =>
      Obj [("birth", float_json birth); ("capability_sha256", Str capability); ("execution", Str execution);
           ("kind", Str "supervisor"); ("logical", Str logical); ("pid", num pid); ("token", Str token)]%string
  | AServiceExec generation capability pid birth token root_pid root_birth root_token =>
      Obj [("birth", float_json birth); ("capability_sha256", Str capability); ("generation", Str generation);
           ("kind", Str "service_exec"); ("pid", num pid); ("root_birth", float_json root_birth);
           ("root_pid", num root_pid); ("root_token", Str root_token); ("token", Str token)]%string
  | AWorker execution attempt =>
      Obj [("attempt", Str attempt); ("execution", Str execution); ("kind", Str "worker")]%string
  end.

(** [WriteAuthority::fingerprint]. *)
Definition fingerprint `{Sha256} (a : WriteAuthority) : string := sha256_hex (authority_json a) true.

(** ** Refusals *)

Inductive RejectCode :=
  | RcDigestMismatch | RcProtocolUnsupported | RcSchemaUnsupported | RcPayloadTooLarge | RcStaleDeadline
  | RcStaleOperation | RcUnauthorized | RcStaleAuthority | RcUnknownScope | RcReplayConflict
  | RcOrderViolation | RcValidation | RcConflict | RcNotFound | RcTransition | RcIntegrity
  | RcExecutionChanged | RcAnswerHashMismatch | RcAnswerUnavailable | RcQuotaAdmission | RcCapacity
  | RcPathEscape | RcUnsupported | RcStorageUnavailable | RcStorageRolledBack.

#[global] Instance reject_code_eq_dec : EqDecision RejectCode.
Proof. solve_decision. Defined.

Record PersistenceDiag := mk_diag {
  dg_operation : PersistenceOperation;
  dg_phase : RejectStage;
  dg_primary : option Z;
  dg_extended : option Z;
  dg_wait_ms : Z;
  dg_attempts : Z;
}.

#[global] Instance diag_eq_dec : EqDecision PersistenceDiag.
Proof. solve_decision. Defined.

Record StorageRejection := mk_rejection {
  rj_code : RejectCode;
  rj_stage : RejectStage;
  rj_message : string;
  rj_durable : bool;
  rj_persistence : option PersistenceDiag;
  rj_domain : option QuotaAdmissionError;
}.

#[global] Instance rejection_eq_dec : EqDecision StorageRejection.
Proof. solve_decision. Defined.

(** The width of a character in canonical encoding, as [bounded_message]
    computes it. *)
Definition escaped_width (c : Z) : Z :=
  if bool_decide (c ∈ [34; 92; 8; 9; 10; 12; 13]) then 2
  else if (32 <=? c) && (c <=? 126) then 1
  else if ((0 <=? c) && (c <=? 31)) || ((127 <=? c) && (c <=? 65535)) then 6
  else 12.

(** The loop of [bounded_message]: the characters kept after [used] bytes. *)
Fixpoint bounded_chars (used : Z) (cs : list Z) : list Z :=
  match cs with
  | [] => []
  | c :: cs' =>
      if MAX_MESSAGE_BYTES <? used + escaped_width c then []
      else c :: bounded_chars (used + escaped_width c) cs'
  end.

(** [bounded_message]. *)
Definition bounded_message (text : string) : string := of_chars (bounded_chars 2 (chars text)).

(** [StorageRejection::new]. *)
Definition rejection_new (code : RejectCode) (stage : RejectStage) (message : string) : StorageRejection :=
  mk_rejection code stage (bounded_message message) false None None.

(** The extended result code of a statement failure, [None] for a failure
    [rusqlite] reports without one. *)
Class SqliteDriver := { extended_code : SqlFailure → option Z }.

(** [sqlite_codes]. *)
Fixpoint sqlite_codes `{SqliteDriver} (f : Failure) : option Z * option Z :=
  match f with
  | Sqlite extended => (Some (primary_code extended), Some extended)
  | Domain (Sql e) => (option_map primary_code (extended_code e), extended_code e)
  | Persistence _ _ _ _ _ source | OwnershipCheckpoint _ source => sqlite_codes source
  | _ => (None, None)
  end.

(** [StorageRejection::from_error]. *)
Fixpoint from_error `{SqliteDriver} (f : Failure) (stage : RejectStage) : StorageRejection :=
  match f with
  | Domain (QuotaAdmission q) =>
      let refusal := rejection_new RcQuotaAdmission stage (quota_kind q) in
      mk_rejection (rj_code refusal) (rj_stage refusal) (rj_message refusal) false None (Some q)
  | Persistence operation elapsed_ms attempts _ phase source =>
      let refusal := from_error source stage in
      let '(primary, extended) := sqlite_codes source in
      mk_rejection (rj_code refusal) (rj_stage refusal) (rj_message refusal) (rj_durable refusal)
        (Some (mk_diag operation (default stage phase) primary extended elapsed_ms attempts))
        (rj_domain refusal)
  | OwnershipCheckpoint _ source => from_error source stage
  | Domain (Validation s) => rejection_new RcValidation stage s
  | PathEscape s => rejection_new RcPathEscape stage s
  | Domain (NotFound s) => rejection_new RcNotFound stage s
  | Domain (Transition s) => rejection_new RcTransition stage s
  | Domain Conflict => rejection_new RcConflict stage (failure_display f)
  | Domain Capacity => rejection_new RcCapacity stage (failure_display f)
  | Domain (Unsupported s) => rejection_new RcUnsupported stage s
  | AnswerIntegrity s | Domain (Integrity s) => rejection_new RcIntegrity stage s
  | Domain ExecutionChanged => rejection_new RcExecutionChanged stage (failure_display f)
  | AnswerHashMismatch => rejection_new RcAnswerHashMismatch stage (failure_display f)
  | AnswerUnavailable => rejection_new RcAnswerUnavailable stage (failure_display f)
  | Domain JsonFailure => rejection_new RcValidation stage "invalid JSON payload"
  | Sqlite _ | Domain (Sql _) | Io | Domain (Runtime _) | WriterFailed _ | BrokerUnavailable
  | BrokerError _ _ _ | Bootstrap _ _ _ _ => rejection_new RcStorageRolledBack stage "storage operation failed"
  end.

(** The typed cause [StorageRejection::into_error] rebuilds. *)
Definition inner_error (r : StorageRejection) : Failure :=
  match rj_domain r with
  | Some q => Domain (QuotaAdmission q)
  | None =>
      match rj_code r with
      | RcConflict | RcReplayConflict => Domain Conflict
      | RcCapacity => Domain Capacity
      | RcPathEscape => PathEscape (rj_message r)
      | RcNotFound | RcUnknownScope => Domain (NotFound (rj_message r))
      | RcTransition => Domain (Transition (rj_message r))
      | RcIntegrity => Domain (Integrity (rj_message r))
      | RcExecutionChanged => Domain ExecutionChanged
      | RcAnswerHashMismatch => AnswerHashMismatch
      | RcAnswerUnavailable => AnswerUnavailable
      | RcUnsupported | RcSchemaUnsupported => Domain (Unsupported (rj_message r))
      | RcStorageUnavailable | RcStorageRolledBack => Domain (Runtime (rj_message r))
      | _ => Domain (Validation (rj_message r))
      end
  end.

(** [StorageRejection::into_error]. *)
Definition into_error (r : StorageRejection) : Failure :=
  match rj_persistence r with
  | Some d =>
      Persistence (dg_operation d) (dg_wait_ms d) (dg_attempts d) None (Some (dg_phase d))
        (match dg_extended d with Some code => Sqlite code | None => inner_error r end)
  | None => inner_error r
  end.

(** ** Serialized refusals *)

Definition reject_stage_str (s : RejectStage) : string :=
  match s with
  | StGate => "gate"
  | StAuthorization => "authorization"
  | StAcquire => "acquire"
  | StStatement => "statement"
  | StCommit => "commit"
  end.

Definition reject_code_str (c : RejectCode) : string :=
  match c with
  | RcDigestMismatch => "digest_mismatch"
  | RcProtocolUnsupported => "protocol_unsupported"
  | RcSchemaUnsupported => "schema_unsupported"
  | RcPayloadTooLarge => "payload_too_large"
  | RcStaleDeadline => "stale_deadline"
  | RcStaleOperation => "stale_operation"
  | RcUnauthorized => "unauthorized"
  | RcStaleAuthority => "stale_authority"
  | RcUnknownScope => "unknown_scope"
  | RcReplayConflict => "replay_conflict"
  | RcOrderViolation => "order_violation"
  | RcValidation => "validation"
  | RcConflict => "conflict"
  | RcNotFound => "not_found"
  | RcTransition => "transition"
  | RcIntegrity => "integrity"
  | RcExecutionChanged => "execution_changed"
  | RcAnswerHashMismatch => "answer_hash_mismatch"
  | RcAnswerUnavailable => "answer_unavailable"
  | RcQuotaAdmission => "quota_admission"
  | RcCapacity => "capacity"
  | RcPathEscape => "path_escape"
  | RcUnsupported => "unsupported"
  | RcStorageUnavailable => "storage_unavailable"
  | RcStorageRolledBack => "storage_rolled_back"
  end.

Definition opt_num (o : option Z) : Value := match o with Some n => num n | None => Null end.

(** The serde forms of [PersistenceDiag], [QuotaAdmissionError] (tagged with
    the variant) and [StorageRejection]. *)
Definition diag_json (d : PersistenceDiag) : Value :=
  Obj [("attempts", num (dg_attempts d)); ("operation", Str (persistence_operation_str (dg_operation d)));
       ("phase", Str (reject_stage_str (dg_phase d))); ("sqlite_extended", opt_num (dg_extended d));
       ("sqlite_primary", opt_num (dg_primary d)); ("wait_ms", num (dg_wait_ms d))]%string.

Definition quota_json (q : QuotaAdmissionError) : Value :=
  match q with
  | QaSelectionStale committed current =>
      Obj [("SelectionStale", Obj [("committed_capacity_revision", num committed);
                                   ("current_capacity_revision", num current)])]%string
  | QaSelectionBusy n => Obj [("SelectionBusy", Obj [("stale_retries", num n)])]%string
  | QaNoEligibleAccount provider model =>
      Obj [("NoEligibleAccount", Obj [("model", Str model); ("provider", Str provider)])]%string
  | QaQuotaExhausted provider model account =>
      Obj [("QuotaExhausted", Obj [("account", Str account); ("model", Str model);
                                   ("provider", Str provider)])]%string
  | QaBindingCooldown provider model account reason retry =>
      Obj [("BindingCooldown", Obj [("account", Str account); ("model", Str model);
              ("provider", Str provider); ("reason", Str (cooldown_reason_str reason));
              ("retry_after_seconds", num retry)])]%string
  end.

Definition rejection_json (r : StorageRejection) : Value :=
  Obj [("code", Str (reject_code_str (rj_code r)));
       ("domain", match rj_domain r with Some q => Obj [("quota_admission", quota_json q)] | None => Null end);
       ("durable", Bool (rj_durable r)); ("message", Str (rj_message r));
       ("persistence", match rj_persistence r with Some d => diag_json d | None => Null end);
       ("stage", Str (reject_stage_str (rj_stage r)))]%string.

(** ** Outcomes *)

Record WriteReceipt := mk_receipt {
  wrc_operation_id : string;
  wrc_digest : string;
  wrc_op_kind : string;
  wrc_producer : ProducerId;
  wrc_ordinal : Z;
  wrc_scope : option string;
  wrc_epoch : Z;
  wrc_commit_seq : Z;
  wrc_committed_at : f64;
  wrc_replayed : bool;
  wrc_result : Value;
}.

Inductive SubmitResult :=
  | SrCommitted (receipt : WriteReceipt)
  | SrRejected (refusal : StorageRejection)
  | SrNotEnqueued (reason : NotEnqueuedReason)
  | SrUnknown (cause : UnknownCause).

Inductive OpStatus :=
  | OsCommitted (receipt : WriteReceipt)
  | OsRejected (refusal : StorageRejection)
  | OsQueued
  | OsExecuting
  | OsNotFound (writer_epoch : Z).

(** ** Operation identities round-trip *)

Lemma hex_digit_lower n : 0 ≤ n < 16 → is_lower_hex (hex_digit n) = true.
Proof.
  intros Hn. unfold is_lower_hex, is_ascii_digit, hex_digit.
  destruct (n <? 10) eqn:E; to_prop; apply orb_true_iff; [left|right]; apply andb_true_iff; split; apply Z.leb_le; lia.
Qed.

Lemma hex_digit_range n : 0 ≤ n < 16 → 0 ≤ hex_digit n < 256.
Proof. intros Hn. unfold hex_digit. destruct (n <? 10) eqn:E; to_prop; lia. Qed.

Lemma hex_digits_length k n : length (hex_digits k n) = k.
Proof. revert n. induction k as [|k IH]; intros n; simpl; [done|]. rewrite length_app, IH. simpl. lia. Qed.

Lemma hex_digits_forall (P : Z → Prop) k n :
  (∀ m, 0 ≤ m < 16 → P (hex_digit m)) → Forall P (hex_digits k n).
Proof.
  intros HP. revert n. induction k as [|k IH]; intros n; simpl; [constructor|].
  apply Forall_app_2; [done|]. constructor; [|constructor]. apply HP, Z.mod_pos_bound. lia.
Qed.

Lemma hex_value_app ds b : hex_value (ds ++ [b]) = hex_value ds * 16 + unhex b.
Proof. unfold hex_value. by rewrite fold_left_app. Qed.

Lemma hex_value_digits k n : 0 ≤ n < 16 ^ Z.of_nat k → hex_value (hex_digits k n) = n.
Proof.
  revert n. induction k as [|k IH]; intros n Hn; simpl hex_digits.
  - change (16 ^ Z.of_nat 0) with 1 in Hn. cbn. lia.
  - rewrite hex_value_app, unhex_hex by (apply Z.mod_pos_bound; lia).
    rewrite Nat2Z.inj_succ, Z.pow_succ_r in Hn by lia. rewrite IH.
    + pose proof (Z.div_mod n 16). lia.
    + split; [apply Z.div_pos; lia|]. apply Z.div_lt_upper_bound; lia.
Qed.

(** What the digest function documents: 32 bytes. *)
Definition sha_bytes `{Sha256} : Prop :=
  ∀ bs, length (digest bs) = 32%nat ∧ Forall (λ b, 0 ≤ b < 256) (digest bs).

Lemma hex_digest_bytes bs :
  Forall (λ b, 0 ≤ b < 256) bs →
  bytes (hex_digest bs) = concat (map (λ b, [hex_digit (b / 16); hex_digit (b mod 16)]) bs) ∧
  Forall (λ b, is_lower_hex b = true) (bytes (hex_digest bs)) ∧
  String.length (hex_digest bs) = (2 * length bs)%nat.
Proof.
  intros Hb. set (ds := concat _).
  assert (Forall (λ b, is_lower_hex b = true ∧ 0 ≤ b < 256) ds ∧ length ds = (2 * length bs)%nat) as [Hd Hl].
  { subst ds. induction Hb as [|b bs Hb _ [IH1 IH2]]; simpl; [by split; [constructor|]|].
    assert (0 ≤ b / 16 < 16) by (split; [apply Z.div_pos|apply Z.div_lt_upper_bound]; lia).
    pose proof (Z.mod_pos_bound b 16 ltac:(lia)).
    split; [|lia]. repeat constructor; try done; by (apply hex_digit_lower || apply hex_digit_range). }
  assert (bytes (hex_digest bs) = ds) as E.
  { unfold hex_digest. apply bytes_of_bytes. apply (Forall_impl _ _ _ Hd). by intros x [_ ?]. }
  split; [done|]. rewrite <-length_bytes, E. split; [|done]. apply (Forall_impl _ _ _ Hd). by intros x [? _].
Qed.

Lemma boot_tag_shape `{Sha256} boot :
  sha_bytes → Forall (λ b, is_lower_hex b = true) (bytes (boot_tag boot)) ∧ length (bytes (boot_tag boot)) = 16%nat.
Proof.
  intros Hs. destruct (Hs (bytes boot)) as [Hl Hb].
  destruct (hex_digest_bytes (take 8 (digest (bytes boot)))) as (_ & Hx & Hn); [by apply Forall_take|].
  split; [done|]. unfold boot_tag. rewrite length_bytes, Hn, length_take, Hl. done.
Qed.

Lemma forallb_Forall {A} (f : A → bool) l : Forall (λ x, f x = true) l → forallb f l = true.
Proof. induction 1 as [|x l E _ IH]; simpl; [done|]. by rewrite E. Qed.

(** The bytes of an identity are its three fields between two dots. *)
Lemma byte_range_fields s t n u :
  bytes s = t ++ [46] ++ n ++ [46] ++ u →
  length t = 16%nat → length n = 16%nat → length u = 32%nat →
  len s = 66 ∧ bytes s !! 16%nat = Some 46 ∧ bytes s !! 33%nat = Some 46 ∧
  byte_range s 0 16 = t ∧ byte_range s 17 33 = n ∧ byte_range s 34 66 = u.
Proof.
  intros E Ht Hn Hu. unfold len, byte_range. rewrite <-length_bytes, E. split_and!.
  - rewrite !length_app. simpl. lia.
  - by apply list_lookup_middle.
  - rewrite lookup_app_r by lia. rewrite lookup_app_r by (simpl; lia).
    rewrite lookup_app_r by (simpl; lia). rewrite Ht, Hn. done.
  - by rewrite drop_0, take_app_le, take_ge by lia.
  - rewrite drop_app_ge, Ht by lia. cbn [Nat.sub app drop]. by rewrite drop_0, take_app_le, take_ge by lia.
  - rewrite drop_app_ge, Ht by lia. cbn [Nat.sub app drop]. rewrite drop_app_ge, Hn by lia.
    cbn [Nat.sub app drop]. by rewrite drop_0, take_ge by lia.
Qed.

(** An operation identity says where it comes from.  Whatever boot session
    and monotonic stamp mint it, the text parses back unchanged, names that
    boot's tag and carries that stamp; and it is fresh exactly while that boot
    runs, from one second before the stamp to seven days after it. *)
Theorem operation_id_roundtrip `{Sha256} boot ns uuid :
  sha_bytes → 0 ≤ ns ≤ u64_MAX → len uuid = 32 → forallb is_lower_hex (bytes uuid) = true →
  let id := op_new boot ns uuid in
  op_parse id = Ok id ∧ op_boot_tag id = boot_tag boot ∧ op_issued_ns id = ns ∧
  (∀ boot' now, 0 ≤ now ≤ u64_MAX →
     is_stale id boot' now = false ↔
     boot_tag boot' = boot_tag boot ∧ ns ≤ now + MAX_ISSUE_SKEW_NS ∧ now - ns ≤ MAX_OPERATION_AGE_NS).
Proof.
  intros Hs Hns Hu Hx id. destruct (boot_tag_shape boot Hs) as [Ht Hl].
  assert (bytes id = bytes (boot_tag boot) ++ [46] ++ hex_digits 16 ns ++ [46] ++ bytes uuid) as E.
  { subst id. unfold op_new. rewrite !bytes_app, bytes_of_bytes; [done|].
    apply hex_digits_forall, hex_digit_range. }
  destruct (byte_range_fields id _ _ _ E) as (E1 & E2 & E3 & E4 & E5 & E6); try done.
  { rewrite length_bytes. unfold len in Hu. lia. }
  assert (op_boot_tag id = boot_tag boot) as Etag by (unfold op_boot_tag; by rewrite E4, of_bytes_bytes).
  assert (op_issued_ns id = ns) as Ens.
  { unfold op_issued_ns. rewrite E5. apply hex_value_digits. unfold u64_MAX in Hns.
    change (16 ^ Z.of_nat 16) with (2 ^ 64). lia. }
  split_and!; try done.
  - unfold op_parse. rewrite E1, E2, E3, E4, E5, E6, Hx, !bool_decide_true by done.
    rewrite (forallb_Forall _ _ Ht), (forallb_Forall is_lower_hex); [done|].
    apply hex_digits_forall, hex_digit_lower.
  - intros boot' now Hnow. unfold is_stale. rewrite Etag, Ens, !orb_false_iff, negb_false_iff, bool_decide_eq_true.
    rewrite !Z.ltb_ge. unfold saturating_add, saturating_sub, MAX_OPERATION_AGE_NS. naive_solver lia.
Qed.

(** A digest stand-in of the documented shape. *)
Definition trial_sha : Sha256 := {| digest := λ bs, map (λ b, b mod 256) (take 32 (bs ++ repeat 0 32)) |}.

Lemma trial_sha_bytes : @sha_bytes trial_sha.
Proof.
  intros bs. split.
  - cbn [digest trial_sha]. rewrite length_map, length_take, length_app, repeat_length. lia.
  - apply Forall_forall. intros x Hx. apply list_elem_of_In, in_map_iff in Hx as (b & <- & _).
    apply Z.mod_pos_bound. lia.
Qed.

Definition trial_uuid : string := digits_str (repeat 7 32).

Lemma operation_id_roundtrip_witness :
  op_parse (@op_new trial_sha "boot-a" 5000 trial_uuid) = Ok (@op_new trial_sha "boot-a" 5000 trial_uuid) ∧
  @is_stale trial_sha (@op_new trial_sha "boot-a" 5000 trial_uuid) "boot-a" 6000 = false.
Proof.
  assert (0 ≤ 5000 ≤ u64_MAX) as H1 by (unfold u64_MAX; lia).
  assert (0 ≤ 6000 ≤ u64_MAX) as H2 by (unfold u64_MAX; lia).
  destruct (@operation_id_roundtrip trial_sha "boot-a" 5000 trial_uuid trial_sha_bytes H1 eq_refl eq_refl)
    as (E & _ & _ & F).
  split; [exact E|]. apply (F "boot-a"%string 6000 H2). unfold MAX_ISSUE_SKEW_NS, MAX_OPERATION_AGE_NS.
  split; [reflexivity|lia].
Defined.

(** ** Bounded messages *)

Lemma escaped_width_write c : scalar c → escaped_width c = Z.of_nat (length (write_char true c)).
Proof.
  intros Hc. unfold escaped_width, write_char.
  destruct (bool_decide _) eqn:E.
  - apply bool_decide_eq_true in E. rewrite !elem_of_cons, elem_of_nil in E.
    destruct_or! E; try done; subst c; reflexivity.
  - apply bool_decide_eq_false in E. rewrite !not_elem_of_cons in E.
    destruct E as (? & ? & ? & ? & ? & ? & ? & _).
    rewrite !(proj2 (Z.eqb_neq _ _)) by done. unfold scalar in Hc.
    destruct (c <? 32) eqn:E1; to_prop.
    { rewrite (proj2 (Z.leb_gt 32 c)), (proj2 (Z.leb_le 0 c)), (proj2 (Z.leb_le c 31)) by lia. done. }
    rewrite (proj2 (Z.leb_le 32 c)) by lia. destruct (126 <? c) eqn:E2; to_prop; simpl.
    + rewrite (proj2 (Z.leb_gt c 126)), (proj2 (Z.leb_gt c 31)), andb_false_r by lia.
      rewrite (proj2 (Z.leb_le 127 c)) by lia. destruct (c <? 65536) eqn:E3; to_prop.
      * by rewrite (proj2 (Z.leb_le c 65535)) by lia.
      * by rewrite (proj2 (Z.leb_gt c 65535)) by lia.
    + rewrite (proj2 (Z.leb_le c 126)) by lia. unfold encode. by rewrite (proj2 (Z.ltb_lt c 128)) by lia.
Qed.

Definition escaped_len (cs : list Z) : Z := Z.of_nat (length (concat (map (write_char true) cs))).

Lemma escaped_len_cons c cs : escaped_len (c :: cs) = Z.of_nat (length (write_char true c)) + escaped_len cs.
Proof. unfold escaped_len. simpl. rewrite length_app. lia. Qed.

Lemma escaped_len_app cs ds : escaped_len (cs ++ ds) = escaped_len cs + escaped_len ds.
Proof. unfold escaped_len. rewrite map_app, concat_app, length_app. lia. Qed.

Lemma canonical_len s : Z.of_nat (length (dumps (Str s) true)) = 2 + escaped_len (chars s).
Proof. unfold dumps, escaped_len. simpl. rewrite length_app. simpl. lia. Qed.

Lemma bounded_chars_spec used cs :
  Forall scalar cs → used ≤ MAX_MESSAGE_BYTES →
  ∃ rest, cs = bounded_chars used cs ++ rest ∧ used + escaped_len (bounded_chars used cs) ≤ MAX_MESSAGE_BYTES ∧
    ∀ c ds, rest = c :: ds → MAX_MESSAGE_BYTES < used + escaped_len (bounded_chars used cs ++ [c]).
Proof.
  intros Hs. revert used. induction Hs as [|c cs Hc _ IH]; intros used Hu; simpl.
  { exists []. unfold escaped_len. simpl. split_and!; [done|lia|done]. }
  pose proof (escaped_width_write c Hc) as Ew.
  destruct (MAX_MESSAGE_BYTES <? used + escaped_width c) eqn:E; to_prop.
  - exists (c :: cs). split_and!; [done|unfold escaped_len; simpl; lia|].
    intros d ds [= -> ->]. simpl. rewrite escaped_len_cons. unfold escaped_len. simpl. lia.
  - destruct (IH _ E) as (rest & E1 & E2 & E3). exists rest. simpl. rewrite escaped_len_cons.
    split_and!; [by rewrite <-E1|lia|]. intros d ds Er. specialize (E3 d ds Er). rewrite escaped_len_cons. lia.
Qed.

(** A refusal message is the longest prefix of its text that fits.  The kept
    text is a prefix at a character boundary, its canonical JSON string is at
    most 512 bytes with both quotes, and one character more would exceed them. *)
Theorem bounded_message_longest s :
  utf8 s →
  ∃ rest, s = bounded_message s +:+ rest ∧ utf8 rest ∧
    Z.of_nat (length (dumps (Str (bounded_message s)) true)) ≤ MAX_MESSAGE_BYTES ∧
    (∀ c ds, chars rest = c :: ds →
       MAX_MESSAGE_BYTES < Z.of_nat (length (dumps (Str (bounded_message s +:+ of_chars [c])) true))).
Proof.
  intros Hu. pose proof (utf8_chars s Hu) as Hs.
  destruct (bounded_chars_spec 2 (chars s) Hs) as (rest & E1 & E2 & E3); [unfold MAX_MESSAGE_BYTES; lia|].
  rewrite E1 in Hs. apply Forall_app in Hs as [Hb Hr]. exists (of_chars rest).
  split; [|split; [by apply utf8_of_chars|]].
  { unfold bounded_message. by rewrite <-of_chars_app, <-E1, of_chars_chars. }
  rewrite canonical_len. unfold bounded_message at 1. rewrite chars_of_chars by done. split; [done|].
  intros c ds Ec. rewrite chars_of_chars in Ec by done. subst rest. inversion Hr; subst.
  rewrite canonical_len. unfold bounded_message. rewrite <-of_chars_app, chars_of_chars; [by eapply E3|].
  apply Forall_app. split; [done|]. by constructor.
Qed.

Lemma bounded_message_longest_witness :
  ∃ rest, "plain"%string = bounded_message "plain" +:+ rest ∧ utf8 rest.
Proof.
  destruct (bounded_message_longest "plain" (ascii_utf8 "plain" eq_refl)) as (rest & E & U & _).
  exists rest. split; [exact E|exact U].
Defined.

(** ** Refusals carry their class *)

Section refusals.
Context `{SqliteDriver}.

(** The failure inside every persistence and ownership wrapper. *)
Fixpoint cause (f : Failure) : Failure :=
  match f with
  | Persistence _ _ _ _ _ source | OwnershipCheckpoint _ source => cause source
  | _ => f
  end.

(** The causes [from_error] reports as a rolled-back storage operation. *)
Definition opaque (f : Failure) : bool :=
  match f with
  | Domain (Sql _) | Domain (Runtime _) | Sqlite _ | Io | WriterFailed _ | BrokerUnavailable
  | BrokerError _ _ _ | Bootstrap _ _ _ _ => true
  | _ => false
  end.

(** Under ownership wrappers, a persistence boundary. *)
Fixpoint bounded (f : Failure) : bool :=
  match f with
  | Persistence _ _ _ _ _ _ => true
  | OwnershipCheckpoint _ source => bounded source
  | _ => false
  end.

(** No ownership wrapper anywhere. *)
Fixpoint unowned (f : Failure) : bool :=
  match f with
  | OwnershipCheckpoint _ _ => false
  | Persistence _ _ _ _ _ source => unowned source
  | _ => true
  end.

Lemma sqlite_codes_cause f : sqlite_codes f = sqlite_codes (cause f).
Proof. by induction f. Qed.

Lemma machine_code_cause f : unowned f = true → machine_code f = machine_code (cause f).
Proof. by induction f. Qed.

Lemma coded_cause f code :
  snd (sqlite_codes f) = Some code → opaque (cause f) = true ∧ machine_code (cause f) = McStorageError.
Proof.
  rewrite sqlite_codes_cause. induction f as [[]| | | | | | | | | | | |]; try done; by auto.
Qed.

Lemma inner_class f stage :
  machine_code (inner_error (from_error f stage)) =
    (if opaque (cause f) then McRuntimeError else machine_code (cause f)).
Proof.
  induction f as [[| | | | | | | |[]| | |]| | | | | | | |op ms n id phase source IH| | | |]; try done.
  simpl. rewrite <-IH. by destruct (sqlite_codes source).
Qed.

Lemma from_error_diag f stage :
  option_map dg_extended (rj_persistence (from_error f stage)) =
    (if bounded f then Some (snd (sqlite_codes f)) else None).
Proof.
  induction f as [[]| | | | | | |? source IH|op ms n id phase source IH| | | |]; try done.
  simpl. by destruct (sqlite_codes source).
Qed.

(** The class a caller sees after any failure was relayed. *)
Lemma refusal_class f stage :
  machine_code (into_error (from_error f stage)) =
    match snd (sqlite_codes f) with
    | Some _ => if bounded f then McStorageError else McRuntimeError
    | None => if opaque (cause f) then McRuntimeError else machine_code (cause f)
    end.
Proof.
  pose proof (from_error_diag f stage) as Hd. pose proof (inner_class f stage) as Hi.
  unfold into_error. destruct (rj_persistence (from_error f stage)) as [d|]; simpl in Hd.
  - destruct (bounded f); [|done]. injection Hd as Hd. rewrite Hd.
    destruct (snd (sqlite_codes f)) as [code|]; done.
  - destruct (bounded f); [done|]. rewrite Hi. destruct (snd (sqlite_codes f)) as [code|] eqn:E; [|done].
    by apply coded_cause in E as [-> _].
Qed.

Lemma codes_pair f code :
  snd (sqlite_codes f) = Some code → sqlite_codes f = (Some (primary_code code), Some code).
Proof.
  rewrite sqlite_codes_cause. induction f as [[]| | | | | | | | | | | |]; simpl; try done; auto.
  - by intros ->.
  - by intros [= ->].
Qed.

(** The result codes survive the boundary. *)
Lemma refusal_codes f stage code :
  snd (sqlite_codes f) = Some code → bounded f = true →
  sqlite_codes (into_error (from_error f stage)) = sqlite_codes f.
Proof.
  intros E B. rewrite (codes_pair f code E). pose proof (from_error_diag f stage) as Hd. rewrite B, E in Hd.
  unfold into_error. destruct (rj_persistence (from_error f stage)) as [d|]; [|done].
  simpl in Hd. injection Hd as ->. done.
Qed.

(** C15: What a caller learns from a refusal.  Any failure, under any
    persistence and ownership wrappers and at any stage, turned into a storage
    refusal and back is reported under one of three classes.  A typed cause
    keeps its own machine code.  A database failure with a result code inside a
    persistence boundary is a storage error again, with the same result codes.  Every other cause (a bare
    database failure, input and output, the runtime, the writer, the broker) is
    a runtime error.  So without an ownership wrapper the class is unchanged
    for the first two.  An admission refusal keeps its whole payload, and a
    persistence boundary its label, attempts and wait. *)
Theorem refusal_keeps_class f stage :
  (opaque (cause f) = false →
     machine_code (into_error (from_error f stage)) = machine_code (cause f)) ∧
  (is_some (snd (sqlite_codes f)) = true → bounded f = true →
     machine_code (into_error (from_error f stage)) = McStorageError ∧
     sqlite_codes (into_error (from_error f stage)) = sqlite_codes f) ∧
  (opaque (cause f) = true → is_some (snd (sqlite_codes f)) = false ∨ bounded f = false →
     machine_code (into_error (from_error f stage)) = McRuntimeError) ∧
  (unowned f = true → opaque (cause f) = false ∨ (is_some (snd (sqlite_codes f)) = true ∧ bounded f = true) →
     machine_code (into_error (from_error f stage)) = machine_code f) ∧
  (∀ q, f = Domain (QuotaAdmission q) → into_error (from_error f stage) = f) ∧
  (∀ op ms n id phase source, f = Persistence op ms n id phase source →
     ∃ source', into_error (from_error f stage) = Persistence op ms n None (Some (default stage phase)) source').
Proof.
  pose proof (refusal_codes f stage) as Hp.
  rewrite refusal_class. destruct (snd (sqlite_codes f)) as [code|] eqn:E; simpl.
  - destruct (coded_cause f code E) as [Eo Ec]. rewrite Eo. split_and!; try done.
    + intros _ B. rewrite B. split; [done|]. by eapply Hp.
    + intros _ [?|B]; [done|]. by rewrite B.
    + intros U [?|[_ B]]; [done|]. by rewrite B, (machine_code_cause f), Ec.
    + by intros q ->.
    + intros op ms n id phase source ->. unfold into_error. simpl. destruct (sqlite_codes source). simpl. eauto.
  - split_and!; try done.
    + by intros ->.
    + by intros ->.
    + intros U [B|[? _]]; [|done]. by rewrite B, (machine_code_cause f).
    + by intros q ->.
    + intros op ms n id phase source ->. unfold into_error. simpl. destruct (sqlite_codes source). simpl. eauto.
Qed.
End refusals.

Definition trial_driver : SqliteDriver :=
  {| extended_code := λ e, match e with ConstraintViolation => Some 2067 | _ => None end |}.

Lemma refusal_keeps_class_witness :
  machine_code (into_error (@from_error trial_driver (persistence PoTerminalCommit 9 (Sqlite 2067)) StStatement)) =
    McStorageError ∧
  machine_code (into_error (@from_error trial_driver (persistence PoTerminalCommit 9 (Domain Capacity)) StCommit)) =
    McCapacityExhausted ∧
  machine_code (into_error (@from_error trial_driver Io StStatement)) = McRuntimeError.
Proof.
  split; [|split].
  - exact (proj1 (proj1 (proj2 (@refusal_keeps_class trial_driver (persistence PoTerminalCommit 9 (Sqlite 2067)) StStatement)) eq_refl eq_refl)).
  - exact (proj1 (@refusal_keeps_class trial_driver (persistence PoTerminalCommit 9 (Domain Capacity)) StCommit) eq_refl).
  - exact (proj1 (proj2 (proj2 (@refusal_keeps_class trial_driver Io StStatement))) eq_refl (or_intror eq_refl)).
Defined.
