(* ===== verification/Inventory.v ===== *)
(** * The operation inventory

    [agent-run-store/src/ops/mod.rs]: the closed table of typed operations the
    writer accepts, with its wire ids, names, scheduling classes, receipt
    scopes and the static authority matrix, and the rows with a store
    implementation ([ops/dispatch.rs]). *)

From S2P Require Import Prelude Text Float64 Json Canonical Catalogs Lifecycle Requests PoolDomain Redact Evidence Failures Storage.

(** [storage.rs]: [WriteClass]. *)
Inductive WriteClass := Critical | Normal | Background.

Module Kind.

(** The rows of [inventory!], in wire id order. *)
Inductive OpKindRef :=
  | AdmitStart | AdmitProvider | AdmitProviderResume | AdmitPool | ReplacePoolMember | AcknowledgeEnrollment
  | ReconcilePoolEnrollments | RecordSupervisorLaunch | RecordStartupOwner | BeginSupervisorHandoff
  | ClaimStartup | RecordSupervisorOwner | SetOwner | UpdateIdentity | Running | RuntimeSession
  | RememberProcesses | RetainCleanupEvidence | ProviderSpawning | ProviderSpawnFailed | ProviderProcess
  | ProviderCleanup | ProviderHistory | ProviderRerunning | AllocateNextAttempt | CreateAttempt
  | FinishAttempt | IssueWorkerCapability | BeginWorkerLifecycle | RecordResumeUsageBaseline
  | LatchNativeExhaustion | AppendJournal | EnqueueCommand | ClaimCommand | CompleteCommand
  | ObservedCommandResult | CompleteTerminalCommands | EnqueueNativeWake | WorkerTurn
  | ObserveWorkerFinishReceipt | PersistRecoveryObservation | FinishTerminal | PersistRunStats
  | RegisterWorkerCatalog | AcceptWorkerFinish | NotifyOrchestrator | PoolWrite | PoolOperatorPost
  | FanoutEntry | SettlePool | BindPool | ClaimDelivery | CompleteDelivery | CancelDelivery
  | ExpireUnboundDeliveries | ReconcileReapedAgent | ReleaseOrphanedAttempt | MarkLost | RecoverFinish
  | ReleaseFinishedServiceLeases | PrepareServiceGate | EnsureServiceGeneration | FailServiceSpawn
  | FailServiceGate | MarkServiceUnhealthy | ObserveServiceGeneration | MarkServiceReady
  | ObserveExternalService | StopServiceGeneration | RecoverServiceProbes | BootstrapServiceProcess
  | ClaimServiceProcessIdentity | PersistCapacitySamples | PruneCapacitySamples | RecordQuotaSnapshot
  | RetainExhausted | RegisterAccount | DisableAccount | BindOrchestrator | RecordContextComponents
  | RecordContextReceipt | PruneHistoryBatch | PruneIncidentLedger | PruneReceipts | PrepareRuntimeLayout
  | CommitRuntimeLayout | RemoveRuntimeLayout | CaptureIncident | PrepareBridgeDelivery | HealthTick
  | AcceptHealthReply | ReportPoolReadLoop | BeginServiceRestart | AdvanceServiceRestart
  | RememberServiceRestartCaller | RecoverServiceRestart | RequestServiceRestartResume
  | FailServiceRestartResume | RefreshServiceRestart | ClaimServiceRestart.

(** [OpKindRef::wire_id]. *)
Definition wire_id (k : OpKindRef) : Z :=
  match k with
  | AdmitStart => 1
  | AdmitProvider => 2
  | AdmitProviderResume => 3
  | AdmitPool => 4
  | ReplacePoolMember => 5
  | AcknowledgeEnrollment => 6
  | ReconcilePoolEnrollments => 7
  | RecordSupervisorLaunch => 8
  | RecordStartupOwner => 9
  | BeginSupervisorHandoff => 10
  | ClaimStartup => 11
  | RecordSupervisorOwner => 12
  | SetOwner => 13
  | UpdateIdentity => 14
  | Running => 15
  | RuntimeSession => 16
  | RememberProcesses => 17
  | RetainCleanupEvidence => 18
  | ProviderSpawning => 19
  | ProviderSpawnFailed => 20
  | ProviderProcess => 21
  | ProviderCleanup => 22
  | ProviderHistory => 23
  | ProviderRerunning => 24
  | AllocateNextAttempt => 25
  | CreateAttempt => 26
  | FinishAttempt => 27
  | IssueWorkerCapability => 28
  | BeginWorkerLifecycle => 29
  | RecordResumeUsageBaseline => 30
  | LatchNativeExhaustion => 31
  | AppendJournal => 32
  | EnqueueCommand => 33
  | ClaimCommand => 34
  | CompleteCommand => 35
  | ObservedCommandResult => 36
  | CompleteTerminalCommands => 37
  | EnqueueNativeWake => 38
  | WorkerTurn => 39
  | ObserveWorkerFinishReceipt => 40
  | PersistRecoveryObservation => 41
  | FinishTerminal => 42
  | PersistRunStats => 43
  | RegisterWorkerCatalog => 44
  | AcceptWorkerFinish => 45
  | NotifyOrchestrator => 46
  | PoolWrite => 47
  | PoolOperatorPost => 48
  | FanoutEntry => 49
  | SettlePool => 50
  | BindPool => 51
  | ClaimDelivery => 52
  | CompleteDelivery => 53
  | CancelDelivery => 56
  | ExpireUnboundDeliveries => 57
  | ReconcileReapedAgent => 59
  | ReleaseOrphanedAttempt => 60
  | MarkLost => 61
  | RecoverFinish => 62
  | ReleaseFinishedServiceLeases => 63
  | PrepareServiceGate => 64
  | EnsureServiceGeneration => 65
  | FailServiceSpawn => 66
  | FailServiceGate => 67
  | MarkServiceUnhealthy => 68
  | ObserveServiceGeneration => 69
  | MarkServiceReady => 70
  | ObserveExternalService => 71
  | StopServiceGeneration => 72
  | RecoverServiceProbes => 73
  | BootstrapServiceProcess => 74
  | ClaimServiceProcessIdentity => 75
  | PersistCapacitySamples => 76
  | PruneCapacitySamples => 77
  | RecordQuotaSnapshot => 78
  | RetainExhausted => 79
  | RegisterAccount => 80
  | DisableAccount => 81
  | BindOrchestrator => 82
  | RecordContextComponents => 83
  | RecordContextReceipt => 84
  | PruneHistoryBatch => 85
  | PruneIncidentLedger => 86
  | PruneReceipts => 87
  | PrepareRuntimeLayout => 88
  | CommitRuntimeLayout => 89
  | RemoveRuntimeLayout => 90
  | CaptureIncident => 91
  | PrepareBridgeDelivery => 92
  | HealthTick => 93
  | AcceptHealthReply => 94
  | ReportPoolReadLoop => 95
  | BeginServiceRestart => 96
  | AdvanceServiceRestart => 97
  | RememberServiceRestartCaller => 98
  | RecoverServiceRestart => 99
  | RequestServiceRestartResume => 100
  | FailServiceRestartResume => 101
  | RefreshServiceRestart => 102
  | ClaimServiceRestart => 105
  end.

(** [OpKindRef::all]. *)
Definition all_kinds : list OpKindRef :=
  [AdmitStart; AdmitProvider; AdmitProviderResume; AdmitPool; ReplacePoolMember; AcknowledgeEnrollment;
   ReconcilePoolEnrollments; RecordSupervisorLaunch; RecordStartupOwner; BeginSupervisorHandoff; ClaimStartup;
   RecordSupervisorOwner; SetOwner; UpdateIdentity; Running; RuntimeSession; RememberProcesses;
   RetainCleanupEvidence; ProviderSpawning; ProviderSpawnFailed; ProviderProcess; ProviderCleanup;
   ProviderHistory; ProviderRerunning; AllocateNextAttempt; CreateAttempt; FinishAttempt;
   IssueWorkerCapability; BeginWorkerLifecycle; RecordResumeUsageBaseline; LatchNativeExhaustion;
   AppendJournal; EnqueueCommand; ClaimCommand; CompleteCommand; ObservedCommandResult;
   CompleteTerminalCommands; EnqueueNativeWake; WorkerTurn; ObserveWorkerFinishReceipt;
   PersistRecoveryObservation; FinishTerminal; PersistRunStats; RegisterWorkerCatalog; AcceptWorkerFinish;
   NotifyOrchestrator; PoolWrite; PoolOperatorPost; FanoutEntry; SettlePool; BindPool; ClaimDelivery;
   CompleteDelivery; CancelDelivery; ExpireUnboundDeliveries; ReconcileReapedAgent; ReleaseOrphanedAttempt;
   MarkLost; RecoverFinish; ReleaseFinishedServiceLeases; PrepareServiceGate; EnsureServiceGeneration;
   FailServiceSpawn; FailServiceGate; MarkServiceUnhealthy; ObserveServiceGeneration; MarkServiceReady;
   ObserveExternalService; StopServiceGeneration; RecoverServiceProbes; BootstrapServiceProcess;
   ClaimServiceProcessIdentity; PersistCapacitySamples; PruneCapacitySamples; RecordQuotaSnapshot;
   RetainExhausted; RegisterAccount; DisableAccount; BindOrchestrator; RecordContextComponents;
   RecordContextReceipt; PruneHistoryBatch; PruneIncidentLedger; PruneReceipts; PrepareRuntimeLayout;
   CommitRuntimeLayout; RemoveRuntimeLayout; CaptureIncident; PrepareBridgeDelivery; HealthTick;
   AcceptHealthReply; ReportPoolReadLoop; BeginServiceRestart; AdvanceServiceRestart;
   RememberServiceRestartCaller; RecoverServiceRestart; RequestServiceRestartResume; FailServiceRestartResume;
   RefreshServiceRestart; ClaimServiceRestart].

(** [OpKindRef::from_wire_id]: an arm per row. *)
Definition from_wire_id (id : Z) : option OpKindRef := first_where (λ k, wire_id k = id) all_kinds.

Lemma from_wire_id_wire_id k : from_wire_id (wire_id k) = Some k.
Proof. destruct k; vm_compute; reflexivity. Qed.

Lemma wire_id_inj j k : wire_id j = wire_id k → j = k.
Proof. intros E. apply (f_equal from_wire_id) in E. rewrite !from_wire_id_wire_id in E. congruence. Qed.

#[global] Instance op_kind_eq_dec : EqDecision OpKindRef.
Proof.
  intros j k. destruct (decide (wire_id j = wire_id k)) as [E|E].
  - left. by apply wire_id_inj.
  - right. congruence.
Defined.

(** [OpKindRef::name]. *)
Definition name (k : OpKindRef) : string :=
  match k with
  | AdmitStart => "admit_start"
  | AdmitProvider => "admit_provider"
  | AdmitProviderResume => "admit_provider_resume"
  | AdmitPool => "admit_pool"
  | ReplacePoolMember => "replace_pool_member"
  | AcknowledgeEnrollment => "acknowledge_enrollment"
  | ReconcilePoolEnrollments => "reconcile_pool_enrollments"
  | RecordSupervisorLaunch => "record_supervisor_launch"
  | RecordStartupOwner => "record_startup_owner"
  | BeginSupervisorHandoff => "begin_supervisor_handoff"
  | ClaimStartup => "claim_startup"
  | RecordSupervisorOwner => "record_supervisor_owner"
  | SetOwner => "set_owner"
  | UpdateIdentity => "update_identity"
  | Running => "running"
  | RuntimeSession => "runtime_session"
  | RememberProcesses => "remember_processes"
  | RetainCleanupEvidence => "retain_cleanup_evidence"
  | ProviderSpawning => "provider_spawning"
  | ProviderSpawnFailed => "provider_spawn_failed"
  | ProviderProcess => "provider_process"
  | ProviderCleanup => "provider_cleanup"
  | ProviderHistory => "provider_history"
  | ProviderRerunning => "provider_rerunning"
  | AllocateNextAttempt => "allocate_next_attempt"
  | CreateAttempt => "create_attempt"
  | FinishAttempt => "finish_attempt"
  | IssueWorkerCapability => "issue_worker_capability"
  | BeginWorkerLifecycle => "begin_worker_lifecycle"
  | RecordResumeUsageBaseline => "record_resume_usage_baseline"
  | LatchNativeExhaustion => "latch_native_exhaustion"
  | AppendJournal => "append_journal"
  | EnqueueCommand => "enqueue_command"
  | ClaimCommand => "claim_command"
  | CompleteCommand => "complete_command"
  | ObservedCommandResult => "observed_command_result"
  | CompleteTerminalCommands => "complete_terminal_commands"
  | EnqueueNativeWake => "enqueue_native_wake"
  | WorkerTurn => "worker_turn"
  | ObserveWorkerFinishReceipt => "observe_worker_finish_receipt"
  | PersistRecoveryObservation => "persist_recovery_observation"
  | FinishTerminal => "finish_terminal"
  | PersistRunStats => "persist_run_stats"
  | RegisterWorkerCatalog => "register_worker_catalog"
  | AcceptWorkerFinish => "accept_worker_finish"
  | NotifyOrchestrator => "notify_orchestrator"
  | PoolWrite => "pool_write"
  | PoolOperatorPost => "pool_operator_post"
  | FanoutEntry => "fanout_entry"
  | SettlePool => "settle_pool"
  | BindPool => "bind_pool"
  | ClaimDelivery => "claim_delivery"
  | CompleteDelivery => "complete_delivery"
  | CancelDelivery => "cancel_delivery"
  | ExpireUnboundDeliveries => "expire_unbound_deliveries"
  | ReconcileReapedAgent => "reconcile_reaped_agent"
  | ReleaseOrphanedAttempt => "release_orphaned_attempt"
  | MarkLost => "mark_lost"
  | RecoverFinish => "recover_finish"
  | ReleaseFinishedServiceLeases => "release_finished_service_leases"
  | PrepareServiceGate => "prepare_service_gate"
  | EnsureServiceGeneration => "ensure_service_generation"
  | FailServiceSpawn => "fail_service_spawn"
  | FailServiceGate => "fail_service_gate"
  | MarkServiceUnhealthy => "mark_service_unhealthy"
  | ObserveServiceGeneration => "observe_service_generation"
  | MarkServiceReady => "mark_service_ready"
  | ObserveExternalService => "observe_external_service"
  | StopServiceGeneration => "stop_service_generation"
  | RecoverServiceProbes => "recover_service_probes"
  | BootstrapServiceProcess => "bootstrap_service_process"
  | ClaimServiceProcessIdentity => "claim_service_process_identity"
  | PersistCapacitySamples => "persist_capacity_samples"
  | PruneCapacitySamples => "prune_capacity_samples"
  | RecordQuotaSnapshot => "record_quota_snapshot"
  | RetainExhausted => "retain_exhausted"
  | RegisterAccount => "register_account"
  | DisableAccount => "disable_account"
  | BindOrchestrator => "bind_orchestrator"
  | RecordContextComponents => "record_context_components"
  | RecordContextReceipt => "record_context_receipt"
  | PruneHistoryBatch => "prune_history_batch"
  | PruneIncidentLedger => "prune_incident_ledger"
  | PruneReceipts => "prune_receipts"
  | PrepareRuntimeLayout => "prepare_runtime_layout"
  | CommitRuntimeLayout => "commit_runtime_layout"
  | RemoveRuntimeLayout => "remove_runtime_layout"
  | CaptureIncident => "capture_incident"
  | PrepareBridgeDelivery => "prepare_bridge_delivery"
  | HealthTick => "health_tick"
  | AcceptHealthReply => "accept_health_reply"
  | ReportPoolReadLoop => "report_pool_read_loop"
  | BeginServiceRestart => "begin_service_restart"
  | AdvanceServiceRestart => "advance_service_restart"
  | RememberServiceRestartCaller => "remember_service_restart_caller"
  | RecoverServiceRestart => "recover_service_restart"
  | RequestServiceRestartResume => "request_service_restart_resume"
  | FailServiceRestartResume => "fail_service_restart_resume"
  | RefreshServiceRestart => "refresh_service_restart"
  | ClaimServiceRestart => "claim_service_restart"
  end.

(** [OpKindRef::class]. *)
Definition class (k : OpKindRef) : WriteClass :=
  match k with
  | RecordSupervisorLaunch | RecordStartupOwner | BeginSupervisorHandoff | ClaimStartup
  | RecordSupervisorOwner | SetOwner | UpdateIdentity | Running | RuntimeSession | RememberProcesses
  | RetainCleanupEvidence | ProviderSpawning | ProviderSpawnFailed | ProviderProcess | ProviderCleanup
  | ProviderHistory | ProviderRerunning | AllocateNextAttempt | CreateAttempt | FinishAttempt
  | IssueWorkerCapability | BeginWorkerLifecycle | LatchNativeExhaustion | ClaimCommand | CompleteCommand
  | ObservedCommandResult | CompleteTerminalCommands | EnqueueNativeWake | ObserveWorkerFinishReceipt
  | PersistRecoveryObservation | FinishTerminal | ReconcileReapedAgent | ReleaseOrphanedAttempt | MarkLost
  | RecoverFinish | MarkServiceReady | StopServiceGeneration | RecoverServiceProbes | BootstrapServiceProcess
  | ClaimServiceProcessIdentity | BeginServiceRestart | AdvanceServiceRestart | RecoverServiceRestart
  | RequestServiceRestartResume | FailServiceRestartResume | RefreshServiceRestart | ClaimServiceRestart => Critical
  | ReconcilePoolEnrollments | PersistRunStats | ExpireUnboundDeliveries | ReleaseFinishedServiceLeases
  | PersistCapacitySamples | PruneCapacitySamples | RecordQuotaSnapshot | RetainExhausted | PruneHistoryBatch
  | PruneIncidentLedger | PruneReceipts | RemoveRuntimeLayout | CaptureIncident | HealthTick => Background
  | _ => Normal
  end.

(** [OpKindRef::is_remote]. *)
Definition is_remote (k : OpKindRef) : bool :=
  match k with
  | ClaimStartup | RecordSupervisorOwner | UpdateIdentity | Running | RuntimeSession | RememberProcesses
  | RetainCleanupEvidence | ProviderSpawning | ProviderSpawnFailed | ProviderProcess | ProviderCleanup
  | ProviderHistory | ProviderRerunning | AllocateNextAttempt | CreateAttempt | FinishAttempt
  | IssueWorkerCapability | BeginWorkerLifecycle | RecordResumeUsageBaseline | LatchNativeExhaustion
  | AppendJournal | EnqueueCommand | ClaimCommand | CompleteCommand | ObservedCommandResult
  | CompleteTerminalCommands | EnqueueNativeWake | WorkerTurn | ObserveWorkerFinishReceipt
  | PersistRecoveryObservation | FinishTerminal | PersistRunStats | BindPool | ClaimDelivery
  | CompleteDelivery | CancelDelivery | BootstrapServiceProcess | ClaimServiceProcessIdentity
  | PersistCapacitySamples | PruneCapacitySamples | RecordQuotaSnapshot | RegisterAccount | DisableAccount
  | BindOrchestrator | RecordContextComponents | RecordContextReceipt | PrepareRuntimeLayout
  | CommitRuntimeLayout | PrepareBridgeDelivery => true
  | _ => false
  end.

(** [OpKindRef::scoped]. *)
Definition scoped (k : OpKindRef) : bool :=
  match k with
  | RecordSupervisorLaunch | RecordStartupOwner | BeginSupervisorHandoff | ClaimStartup
  | RecordSupervisorOwner | SetOwner | UpdateIdentity | Running | RuntimeSession | RetainCleanupEvidence
  | ProviderSpawning | ProviderSpawnFailed | ProviderProcess | ProviderCleanup | ProviderHistory
  | ProviderRerunning | FinishAttempt | ClaimCommand | CompleteCommand | CompleteTerminalCommands | WorkerTurn
  | ObserveWorkerFinishReceipt | FinishTerminal | RegisterWorkerCatalog | AcceptWorkerFinish
  | ReconcileReapedAgent | ReleaseOrphanedAttempt | MarkLost | RecoverFinish | HealthTick | AcceptHealthReply
  | ReportPoolReadLoop => true
  | _ => false
  end.

(** [OpKindRef::internal_only]. *)
Definition internal_only (k : OpKindRef) : bool :=
  match k with AcknowledgeEnrollment | FanoutEntry | RetainExhausted => true | _ => false end.

(** [dispatch.rs]: [implemented]. *)
Definition implemented (k : OpKindRef) : bool :=
  match k with
  | ClaimStartup | RecordSupervisorOwner | SetOwner | UpdateIdentity | Running | RuntimeSession
  | RememberProcesses | RetainCleanupEvidence | ProviderSpawning | ProviderSpawnFailed | ProviderProcess
  | ProviderCleanup | ProviderRerunning | CreateAttempt | FinishAttempt | IssueWorkerCapability
  | BeginWorkerLifecycle | RecordResumeUsageBaseline | AppendJournal | EnqueueCommand | ClaimCommand
  | CompleteCommand | ObservedCommandResult | EnqueueNativeWake | WorkerTurn | ObserveWorkerFinishReceipt
  | BindOrchestrator | RecordContextComponents | RecordContextReceipt | RegisterAccount | DisableAccount
  | CancelDelivery | BindPool | BootstrapServiceProcess | ClaimServiceProcessIdentity | RegisterWorkerCatalog
  | AcceptWorkerFinish | HealthTick | AcceptHealthReply | ReportPoolReadLoop | NotifyOrchestrator
  | RecordSupervisorLaunch | RecordStartupOwner | BeginSupervisorHandoff | LatchNativeExhaustion
  | PrepareRuntimeLayout | CommitRuntimeLayout | RemoveRuntimeLayout | ProviderHistory
  | CompleteTerminalCommands | AllocateNextAttempt | FinishTerminal | PersistRunStats | CaptureIncident
  | AdmitStart | AdmitProvider | AdmitProviderResume | AdmitPool | ReplacePoolMember
  | ReconcilePoolEnrollments | PersistRecoveryObservation | PoolWrite | PoolOperatorPost | SettlePool
  | ExpireUnboundDeliveries | PruneIncidentLedger | PruneReceipts | PersistCapacitySamples
  | PruneCapacitySamples | RecordQuotaSnapshot | ClaimDelivery | CompleteDelivery | PrepareBridgeDelivery
  | ReconcileReapedAgent | ReleaseOrphanedAttempt | MarkLost | RecoverFinish | ReleaseFinishedServiceLeases
  | PrepareServiceGate | EnsureServiceGeneration | FailServiceSpawn | FailServiceGate | MarkServiceUnhealthy
  | ObserveServiceGeneration | MarkServiceReady | ObserveExternalService | StopServiceGeneration
  | RecoverServiceProbes | PruneHistoryBatch | BeginServiceRestart | AdvanceServiceRestart
  | RememberServiceRestartCaller | RecoverServiceRestart | RequestServiceRestartResume
  | FailServiceRestartResume | RefreshServiceRestart | ClaimServiceRestart => true
  | _ => false
  end.

Definition by_broker (a : WriteAuthority) : bool := match a with ABrokerSelf => true | _ => false end.
Definition by_supervisor (a : WriteAuthority) : bool :=
  match a with ASupervisor _ _ _ _ _ _ _ => true | _ => false end.
Definition by_worker (a : WriteAuthority) : bool := match a with AWorker _ _ => true | _ => false end.
Definition by_cli (a : WriteAuthority) : bool := match a with ACli _ _ _ _ => true | _ => false end.
Definition by_collector (a : WriteAuthority) : bool := match a with ACollector _ _ _ _ => true | _ => false end.
Definition by_service (a : WriteAuthority) : bool :=
  match a with AServiceExec _ _ _ _ _ _ _ _ => true | _ => false end.

(** [OpKindRef::permits]: the static authority matrix. *)
Definition permits (k : OpKindRef) (a : WriteAuthority) : bool :=
  match k with
  | RegisterWorkerCatalog | AcceptWorkerFinish | AcceptHealthReply | ReportPoolReadLoop | NotifyOrchestrator
  | PoolWrite => by_worker a
  | _ =>
      if negb (is_remote k) then by_broker a
      else
        match k with
        | ClaimStartup | RecordSupervisorOwner | UpdateIdentity | Running | RuntimeSession
        | RetainCleanupEvidence | ProviderSpawning | ProviderSpawnFailed | ProviderProcess | ProviderCleanup
        | ProviderHistory | ProviderRerunning | AllocateNextAttempt | CreateAttempt | FinishAttempt
        | IssueWorkerCapability | BeginWorkerLifecycle | RecordResumeUsageBaseline | LatchNativeExhaustion
        | ClaimCommand | CompleteCommand | ObservedCommandResult | EnqueueNativeWake | WorkerTurn
        | ObserveWorkerFinishReceipt => by_supervisor a
        | AppendJournal | CompleteTerminalCommands | PersistRecoveryObservation | FinishTerminal
        | PersistRunStats | PrepareRuntimeLayout | CommitRuntimeLayout => by_supervisor a || by_broker a
        | RememberProcesses => by_supervisor a || by_broker a || by_service a
        | ClaimDelivery | CompleteDelivery | PrepareBridgeDelivery | EnqueueCommand | BindPool
        | CancelDelivery | BindOrchestrator => by_broker a || by_cli a
        | RegisterAccount | DisableAccount | RecordContextComponents | RecordContextReceipt => by_cli a
        | BootstrapServiceProcess | ClaimServiceProcessIdentity => by_service a
        | PersistCapacitySamples | PruneCapacitySamples => by_broker a || by_collector a
        | RecordQuotaSnapshot => by_broker a || by_supervisor a || by_collector a
        | _ => false
        end
  end.

Definition KIB : Z := 1024.
Definition MIB : Z := 1024 * KIB.

(** [OpKindRef::decoded_max]. *)
Definition decoded_max (k : OpKindRef) : Z :=
  match k with
  | RememberProcesses | AppendJournal | ObservedCommandResult | AllocateNextAttempt | ProviderHistory => 2 * MIB
  | EnqueueCommand => 260 * KIB
  | FinishTerminal => 512 * KIB
  | RecordQuotaSnapshot | PersistCapacitySamples | PrepareRuntimeLayout | CommitRuntimeLayout => MIB
  | BindOrchestrator | RecordContextComponents | RecordContextReceipt | RegisterAccount => 256 * KIB
  | AdmitStart | AdmitProvider | AdmitProviderResume | AdmitPool | ReplacePoolMember => 16 * MIB
  | _ => if is_remote k then 64 * KIB else 2 * MIB
  end.

(** [OpKindRef::wire_max]. *)
Definition wire_max (k : OpKindRef) : Z :=
  if negb (is_remote k) then 0 else Z.min (6 * decoded_max k + 64 * 1024) (16 * 1024 * 1024).

End Kind.

Import Kind.

(** ** Envelopes *)

Record EnvelopeHeader := mk_header {
  hd_protocol : Z;
  hd_operation_id : string;
  hd_producer : ProducerId;
  hd_ordinal : Z;
  hd_deadline : MonoDeadline;
  hd_digest : string;
}.

(** A decoded [WireBody]: the header, the row of the operation and its serde
    form. *)
Record WireBody := mk_wire_body {
  wb_header : EnvelopeHeader;
  wb_kind : OpKindRef;
  wb_op : Value;
}.

(** [serde_json::from_slice] of a body into the closed [RemoteOp] set. *)
Class WireDecoder := { decode_body : list Z → option WireBody }.

Record WriteEnvelope := mk_envelope {
  ev_header : EnvelopeHeader;
  ev_kind : OpKindRef;
  ev_class : WriteClass;
  ev_body : list Z;
}.

Section envelopes.
Context `{Sha256, JsonText, SqliteDriver}.

(** [checked_digest]. *)
Definition checked_digest (producer : ProducerId) (ordinal : Z) (kind : OpKindRef) (op : Value) : result string :=
  try? producer_validate producer;
  fail? i64_MAX <? ordinal with invalid "producer ordinal out of range";
  fail? decoded_max kind <? json_len op with invalid "operation payload exceeds its decoded bound";
  Ok (digest_of op).

(** [RemoteOp::class]: a cancel command is critical. *)
Definition remote_class (kind : OpKindRef) (op : Value) : WriteClass :=
  match kind with
  | EnqueueCommand =>
      if bool_decide (field "kind" (field "op" op) = Str "cancel") then Critical else class kind
  | _ => class kind
  end.

(** [WriteEnvelope::from_wire]. *)
Definition from_wire `{WireDecoder} (header_kind : Z) (body : list Z) : StorageRejection + WriteEnvelope :=
  let gate code message := inl (rejection_new code StGate message) in
  match from_wire_id header_kind with
  | Some kind =>
      if negb (is_remote kind) then gate RcProtocolUnsupported "unknown operation kind"%string
      else if wire_max kind <? Z.of_nat (length body) then
        gate RcPayloadTooLarge "operation exceeds its wire bound"%string
      else
        match decode_body body with
        | None => gate RcValidation "malformed operation body"%string
        | Some parsed =>
            let header := wb_header parsed in
            if negb (hd_protocol header =? WRITE_PROTOCOL) then
              gate RcProtocolUnsupported "unsupported writer protocol"%string
            else if negb (bool_decide (wb_kind parsed = kind)) then
              gate RcProtocolUnsupported "header kind does not match body"%string
            else
              match checked_digest (hd_producer header) (hd_ordinal header) kind (wb_op parsed) with
              | Err e => inl (from_error (Domain e) StGate)
              | Ok digest =>
                  if negb (bool_decide (digest = hd_digest header)) then
                    gate RcDigestMismatch "payload digest mismatch"%string
                  else inr (mk_envelope header kind (remote_class kind (wb_op parsed)) body)
              end
        end
  | None => gate RcProtocolUnsupported "unknown operation kind"%string
  end.

(** ** Properties *)

Lemma implemented_unless_internal k : implemented k = negb (internal_only k).
Proof. by destruct k. Qed.

Lemma name_inj j k : name j = name k → j = k.
Proof.
  assert (∀ l, first_where (λ i, name i = name l) all_kinds = Some l) as Hn
    by (intros []; vm_compute; reflexivity).
  intros E. generalize (Hn j). rewrite E, Hn. congruence.
Qed.

Lemma permits_local k a : is_remote k = false → permits k a = true → by_broker a = true ∨ by_worker a = true.
Proof. destruct k; try discriminate 1; intros _; cbn; auto. Qed.

Lemma permits_remote k a : is_remote k = true → permits k a = true → by_worker a = false.
Proof. destruct k; try discriminate 1; destruct a; try done; cbn; discriminate. Qed.

(** The wire accepts only its own rows.  Row ids and names identify their
    rows.  A body taken from the wire names a row of the remote set by its
    exact id, fits that row's bound, speaks this protocol, names a valid
    producer with an ordinal in range and carries the digest of its own
    operation; no row that only the broker or a worker call may run can be
    named.  The rows outside the remote set are permitted to the broker or to
    an authenticated worker call alone, and no remote row to a worker call. *)
Theorem wire_gate_closed `{WireDecoder} :
  (∀ k, from_wire_id (wire_id k) = Some k) ∧
  (∀ j k, name j = name k → j = k) ∧
  (∀ id body env, from_wire id body = inr env →
     is_remote (ev_kind env) = true ∧ wire_id (ev_kind env) = id ∧
     Z.of_nat (length body) ≤ wire_max (ev_kind env) ∧ hd_protocol (ev_header env) = WRITE_PROTOCOL ∧
     producer_validate (hd_producer (ev_header env)) = Ok () ∧ hd_ordinal (ev_header env) ≤ i64_MAX ∧
     ∃ parsed, decode_body body = Some parsed ∧ wb_kind parsed = ev_kind env ∧
       hd_digest (ev_header env) = digest_of (wb_op parsed)) ∧
  (∀ k a, permits k a = true →
     if is_remote k then by_worker a = false else by_broker a = true ∨ by_worker a = true).
Proof.
  split_and!; [apply from_wire_id_wire_id|apply name_inj| |].
  - intros id body env E. unfold from_wire in E. destruct (from_wire_id id) as [k|] eqn:Ek; [|done].
    apply first_where_Some in Ek as [Ek _]. run E. unfold checked_digest in *. run_code Heqr.
    destruct (producer_validate _) as [[]|] eqn:Ep; [|done]. simpl.
    repeat match goal with H : negb _ = false |- _ => apply negb_false_iff in H end.
    split_and!; try done; try lia. eexists. split; [done|]. split; [done|]. done.
  - intros k a Hp. destruct (is_remote k) eqn:E; [by eapply permits_remote|by eapply permits_local].
Qed.
End envelopes.
