(* ===== verification/Receipts.v ===== *)
(** * One transaction with its receipt

    [agent-run-store/src/ops/apply.rs]: the writer runs every operation as one
    top-level transaction that also stores the operation's receipt.  A
    submission is looked up by its identity first; a new one passes the order,
    scope and authority checks, runs inside a savepoint and commits together
    with its receipt.

    The tables this file owns are [operation_receipts] and [writer_producers];
    [StoreDb] holds the rest of the store with the columns the authority
    checks read.  A connection is the committed database and, inside a
    transaction, the uncommitted one.  What SQLite may answer at each boundary
    is an argument ([Sqlite_]): a failing [BEGIN], read, savepoint, insert,
    [ROLLBACK], or a [COMMIT] that fails with the transaction still open, or
    over, applied or not. *)

From S2P Require Import Prelude Text Float64 Json Canonical Catalogs Lifecycle Requests PoolDomain.
From S2P Require Import Tables PoolLog Redact Evidence Failures Storage Inventory.
Import Kind.

(** [serde_json::from_str::<Value>]. *)
Class JsonParser := { json_parse : string → option Value }.

(** ** Tables *)

(** [outcome] with the decoded [result_json]. *)
Inductive StoredResult :=
  | StoredCommitted (v : Value)
  | StoredRejected (r : StorageRejection).

Record ReceiptRow := mk_receipt_row {
  rc_seq : Z;
  rc_id : string;
  rc_digest : string;
  rc_op_kind : string;
  rc_producer : ProducerId;               (* producer_key, decoded *)
  rc_ordinal : Z;
  rc_authority_kind : string;
  rc_fingerprint : string;
  rc_agent : option string;
  rc_result : StoredResult;
  rc_epoch : Z;
  rc_committed_at : f64;
}.

Record ProducerRow := mk_producer_row {
  wp_key : string;
  wp_last_ordinal : Z;
  wp_last_boot_tag : string;
  wp_last_issued_ns : Z;
  wp_execution : option string;
  wp_updated_at : f64;
}.

(** The supervisor columns of [agents]. *)
Record SupervisorRow := mk_supervisor {
  sv_agent : string;
  sv_capability : option string;          (* supervisor_capability_sha256 *)
  sv_pid : option Z;
  sv_identity : option string;
  sv_birth : option f64;
  sv_startup : option string;             (* startup_owner_pid_identity *)
  sv_startup_birth : option f64;
}.

(** The identity columns of [managed_service_generations]. *)
Record GenerationRow := mk_generation {
  gn_id : string;
  gn_exec_capability : option string;
  gn_broker_identity : string;            (* broker_identity_json *)
  gn_process_identity : option string;    (* process_identity_json *)
}.

Record StoreDb := mk_store {
  sd_db : Db;
  sd_supervisors : list SupervisorRow;
  sd_generations : list GenerationRow;
  sd_probes : list (string * string);         (* id, generation_id *)
  sd_layouts : list (string * option string); (* runtime_home, owner_agent_id *)
}.

Record WriterDb := mk_wdb {
  wd_store : StoreDb;
  wd_receipts : list ReceiptRow;
  wd_producers : list ProducerRow;
  wd_receipt_seq : Z;                     (* the AUTOINCREMENT counter *)
  wd_epoch : Z;                           (* writer_authority.epoch *)
}.

Definition set_receipts (x : list ReceiptRow) (db : WriterDb) : WriterDb :=
  mk_wdb (wd_store db) x (wd_producers db) (wd_receipt_seq db) (wd_epoch db).
Definition set_producers (x : list ProducerRow) (db : WriterDb) : WriterDb :=
  mk_wdb (wd_store db) (wd_receipts db) x (wd_receipt_seq db) (wd_epoch db).
Definition set_store (x : StoreDb) (db : WriterDb) : WriterDb :=
  mk_wdb x (wd_receipts db) (wd_producers db) (wd_receipt_seq db) (wd_epoch db).

(** ** Submissions *)

(** A process identity proposed by a payload. *)
Record Claimed := mk_claimed { cl_pid : Z; cl_token : string; cl_birth : option f64 }.

(** Payload facts checked against durable rows. *)
Record Checks := mk_checks {
  cx_owner : option (string * string);    (* kind, id *)
  cx_claimed : option Claimed;
  cx_account : option string;
  cx_layout : option string;
}.

Definition no_checks : Checks := mk_checks None None None None.

(** Execution, attempt and service generation a payload targets. *)
Definition Facts : Type := option string * option string * option string.

Record Submission := mk_submission {
  sb_header : EnvelopeHeader;
  sb_kind : OpKindRef;
  sb_execution : option string;
  sb_attempt : option string;
  sb_generation : option string;
  sb_checks : Checks;
  sb_boot_id : string;
  sb_now_ns : Z;
  sb_epoch : Z;
}.

Inductive Degradation := DgUnknownWriter | DgCommitUncertain | DgRollbackUncertain.

Record Executed := mk_executed { ex_result : SubmitResult; ex_degraded : option Degradation }.

Definition plain (r : SubmitResult) : Executed := mk_executed r None.

Definition refuse (code : RejectCode) (stage : RejectStage) (message : string) : SubmitResult :=
  SrRejected (rejection_new code stage message).

Section apply.
Context `{Sha256, Chrono, JsonParser, SqliteDriver}.

(** ** Stored receipts *)

(** [stored]. *)
Definition stored (db : WriterDb) (id : string) : option ReceiptRow :=
  first_where (λ r, rc_id r = id) (wd_receipts db).

(** A refusal read back from its receipt is durable. *)
Definition made_durable (r : StorageRejection) : StorageRejection :=
  mk_rejection (rj_code r) (rj_stage r) (rj_message r) true (rj_persistence r) (rj_domain r).

(** [row.agent_id.map(|id| id.parse()).transpose()]. *)
Definition parse_scope (agent : option string) : result (option string) :=
  match agent with
  | Some id => let? id := agent_id_from_str id in Ok (Some id)
  | None => Ok None
  end.

(** [replay]. *)
Definition replay (id : string) (row : ReceiptRow) (replayed : bool) : result SubmitResult :=
  match rc_result row with
  | StoredRejected refusal => Ok (SrRejected (made_durable refusal))
  | StoredCommitted v =>
      let? digest := digest_parse (rc_digest row) in
      let? scope := parse_scope (rc_agent row) in
      Ok (SrCommitted (mk_receipt id digest (rc_op_kind row) (rc_producer row) (rc_ordinal row) scope
                         (rc_epoch row) (rc_seq row) (rc_committed_at row) replayed v))
  end.

Definition transpose {A} (o : option (result A)) : result (option A) :=
  match o with Some (Ok a) => Ok (Some a) | Some (Err e) => Err e | None => Ok None end.

(** [lookup]. *)
Definition lookup (db : WriterDb) (id : string) (authority : WriteAuthority) : result (option SubmitResult) :=
  match stored db id with
  | Some row =>
      if bool_decide (rc_fingerprint row = fingerprint authority)
      then transpose (Some (replay id row true)) else Ok None
  | None => Ok None
  end.

(** [lookup_digest]. *)
Definition lookup_digest (db : WriterDb) (id : string) (authority : WriteAuthority) (digest : string)
  : result (option SubmitResult) :=
  match stored db id with
  | Some row =>
      if bool_decide (rc_fingerprint row = fingerprint authority) && bool_decide (rc_digest row = digest)
      then transpose (Some (replay id row true)) else Ok None
  | None => Ok None
  end.

(** [stored_outcome]. *)
Definition stored_outcome (db : WriterDb) (id : string) : result (option SubmitResult) :=
  transpose (option_map (λ row, replay id row true) (stored db id)).

(** ** Scope checks; [None] is a pass *)

(** [same_birth]. *)
Definition same_birth (left : option f64) (right : f64) : bool :=
  match left with Some b => feq b right | None => false end.

(** [Value::as_f64]. *)
Definition json_f64 (v : Value) : option f64 :=
  match v with
  | Num (PosInt n) | Num (NegInt n) => Some (of_Z n)
  | Num (Float f) => Some f
  | _ => None
  end.

Definition is_object (v : Value) : bool := match v with Obj _ => true | _ => false end.

(** An identity document names exactly this process. *)
Definition names_process (v : Value) (birth_column : option f64) (pid : Z) (token : string) (birth : f64) : bool :=
  bool_decide (json_i64 (field "pid" v) = Some pid) && bool_decide (json_str (field "token" v) = Some token)
  && same_birth (match json_f64 (field "birth" v) with Some b => Some b | None => birth_column end) birth.

(** The supervisor columns of one agent row. *)
Definition supervisor_columns (db : StoreDb) (agent : string) : SupervisorRow :=
  default (mk_supervisor agent None None None None None None)
    (first_where (λ s, sv_agent s = agent) (sd_supervisors db)).

(** The startup owner recorded before a supervisor takes over: a JSON
    identity, or a bare token with its birth column. *)
Definition startup_matches (s : SupervisorRow) (pid : Z) (token : string) (birth : f64) : bool :=
  let owner := default ""%string (sv_startup s) in
  let bare := bool_decide (owner = token) && same_birth (sv_startup_birth s) birth in
  match json_parse owner with
  | Some evidence =>
      if is_object evidence then names_process evidence (sv_startup_birth s) pid token birth else bare
  | None => bare
  end.

(** [supervisor_scope]. *)
Definition supervisor_scope (db : StoreDb) (authority : WriteAuthority) (execution : string)
  (allow_start : bool) : option RejectCode :=
  match authority with
  | ASupervisor logical own _ capability pid birth token =>
      if negb (bool_decide (own = execution)) then Some RcUnauthorized
      else
        match first_where (λ a, ag_id a = execution) (db_agents (sd_db db)) with
        | None => Some RcUnknownScope
        | Some a =>
            let s := supervisor_columns db execution in
            let root := if is_empty (ag_root a) then ag_id a else ag_root a in
            if negb (bool_decide (sv_capability s = Some capability)) || negb (bool_decide (root = logical))
            then Some RcStaleAuthority
            else if bool_decide (sv_pid s = Some pid) && bool_decide (sv_identity s = Some token)
                    && same_birth (sv_birth s) birth
            then None
            else if allow_start && negb (is_some (sv_pid s)) && startup_matches s pid token birth then None
            else Some RcStaleAuthority
        end
  | _ => None
  end.

(** [owner_scope]. *)
Definition owner_scope (db : StoreDb) (kind owner : string) : option Facts :=
  if bool_decide (kind = "attempt"%string) then
    option_map (λ t, (ok (agent_id_from_str (at_agent t)), Some owner, None))
      (first_where (λ t, at_id t = owner) (db_attempts (sd_db db)))
  else if bool_decide (kind = "service"%string) then
    option_map (λ g, (None, None, Some (gn_id g))) (first_where (λ g, gn_id g = owner) (sd_generations db))
  else if bool_decide (kind = "probe"%string) then
    option_map (λ p, (None, None, Some (snd p))) (first_where (λ p, fst p = owner) (sd_probes db))
  else Some (None, None, None).

(** [derives_owned_attempt]. *)
Definition derives_owned_attempt (k : OpKindRef) : bool :=
  match k with
  | WorkerTurn | EnqueueNativeWake | ObserveWorkerFinishReceipt | RuntimeSession => true
  | _ => false
  end.

(** The attempt a supervisor is pinned to. *)
Definition expected_attempt (pinned : option string) (execution : string) : string :=
  default (execution +:+ ":1")%string pinned.

(** [pinned_attempt]. *)
Definition pinned_attempt (db : StoreDb) (authority : WriteAuthority) (execution : string)
  (attempt : option string) : option RejectCode :=
  match authority, attempt with
  | ASupervisor _ _ pinned _ _ _ _, Some attempt =>
      if negb (bool_decide (attempt = expected_attempt pinned execution)) then Some RcUnauthorized
      else
        match first_where (λ t, at_id t = attempt) (db_attempts (sd_db db)) with
        | None => Some RcUnknownScope
        | Some t => if bool_decide (at_agent t = execution) then None else Some RcUnauthorized
        end
  | _, _ => None
  end.

(** [pinned_account]. *)
Definition pinned_account (db : StoreDb) (authority : WriteAuthority) (execution account : string)
  : option RejectCode :=
  match authority with
  | ASupervisor _ _ pinned _ _ _ _ =>
      let selected :=
        match first_where (λ t, at_id t = expected_attempt pinned execution ∧ at_agent t = execution
                                 ∧ at_owned t = true) (db_attempts (sd_db db)) with
        | Some t => at_account t
        | None => None
        end in
      if bool_decide (selected = Some account) then None else Some RcUnauthorized
  | _ => Some RcUnauthorized
  end.

(** [claimed_is_principal]. *)
Definition claimed_is_principal (authority : WriteAuthority) (c : Claimed) : bool :=
  match authority with
  | ASupervisor _ _ _ _ pid birth token | AServiceExec _ _ pid birth token _ _ _ =>
      (cl_pid c =? pid) && bool_decide (cl_token c = token) && same_birth (cl_birth c) birth
  | _ => false
  end.

(** [service_scope]. *)
Definition service_scope (db : StoreDb) (authority : WriteAuthority) (generation : option string)
  : option RejectCode :=
  match authority with
  | AServiceExec own capability pid birth token root_pid root_birth root_token =>
      if negb (bool_decide (generation = Some own)) then Some RcUnauthorized
      else
        match first_where (λ g, gn_id g = own) (sd_generations db) with
        | None => Some RcUnknownScope
        | Some g =>
            let root := default Null (json_parse (gn_broker_identity g)) in
            if negb (bool_decide (gn_exec_capability g = Some capability))
               || negb (names_process root None root_pid root_token root_birth)
            then Some RcStaleAuthority
            else
              match gn_process_identity g with
              | None => None
              | Some raw =>
                  if names_process (default Null (json_parse raw)) None pid token birth then None
                  else Some RcStaleAuthority
              end
        end
  | _ => None
  end.

(** [worker_scope]. *)
Definition worker_scope (authority : WriteAuthority) (execution attempt : option string) : option RejectCode :=
  match authority with
  | AWorker own own_attempt =>
      if bool_decide (execution = Some own)
         && match attempt with Some a => bool_decide (a = own_attempt) | None => true end
      then None else Some RcUnauthorized
  | _ => None
  end.

(** ** Preparing *)

Inductive Prepared :=
  | PrReplay (result : SubmitResult)
  | PrRefuse (code : RejectCode) (stage : RejectStage) (message : string)
  | PrDurable (code : RejectCode) (message : string)
  | PrRun.

(** Whether a stored receipt is of this very submission. *)
Definition same_submission (row : ReceiptRow) (authority : WriteAuthority) (header : EnvelopeHeader) : bool :=
  bool_decide (rc_digest row = hd_digest header)
  && bool_decide (producer_key (rc_producer row) = producer_key (hd_producer header))
  && (rc_ordinal row =? as_i64 (hd_ordinal header))
  && bool_decide (rc_fingerprint row = fingerprint authority).

Definition watermark (db : WriterDb) (key : string) : option ProducerRow :=
  first_where (λ w, wp_key w = key) (wd_producers db).

(** The process owner's scope, for the authorities that may record it. *)
Definition owner_allowed (authority : WriteAuthority) (kind : string) : bool :=
  match authority with
  | ASupervisor _ _ _ _ _ _ _ => bool_decide (kind = "attempt"%string)
  | AServiceExec _ _ _ _ _ _ _ _ => bool_decide (kind = "service"%string)
  | _ => true
  end.

Definition claims_startup (k : OpKindRef) : bool :=
  match k with ClaimStartup | RecordSupervisorOwner => true | _ => false end.

(** The authority's own scope. *)
Definition authority_scope (db : StoreDb) (authority : WriteAuthority) (kind : OpKindRef)
  (execution attempt generation : option string) : option RejectCode :=
  match authority with
  | ASupervisor _ _ _ _ _ _ _ =>
      match execution with
      | Some e =>
          match supervisor_scope db authority e (claims_startup kind) with
          | Some code => Some code
          | None => pinned_attempt db authority e attempt
          end
      | None => Some RcUnauthorized
      end
  | AServiceExec _ _ _ _ _ _ _ _ => service_scope db authority generation
  | AWorker _ _ => worker_scope authority execution attempt
  | _ => None
  end.

(** The three checks of the resolved scope, the first failure winning. *)
Definition scope_verdict (db : StoreDb) (authority : WriteAuthority) (sub : Submission)
  (execution attempt generation : option string) : option RejectCode :=
  match authority_scope db authority (sb_kind sub) execution attempt generation with
  | Some code => Some code
  | None =>
      match cx_claimed (sb_checks sub) with
      | Some c => if claimed_is_principal authority c then None else Some RcUnauthorized
      | None => None
      end
  end.

Definition account_verdict (db : StoreDb) (authority : WriteAuthority) (sub : Submission)
  (execution : option string) (checked : option RejectCode) : option RejectCode :=
  match checked, cx_account (sb_checks sub), execution with
  | None, Some account, Some e => pinned_account db authority e account
  | None, Some _, None => Some RcUnauthorized
  | _, _, _ => checked
  end.

(** The targets of a submission, resolved inside the transaction: from the
    process owner, from the layout's recorded owner, from a supervisor's quota
    observation, and the derived owned attempt.  [inl] is the early answer. *)
Definition resolve_scope (db : StoreDb) (authority : WriteAuthority) (sub : Submission) : Prepared + Facts :=
  let facts0 := (sb_execution sub, sb_attempt sub, sb_generation sub) in
  let owned :=
    match cx_owner (sb_checks sub) with
    | None => inr facts0
    | Some (kind, owner) =>
        match owner_scope db kind owner with
        | None => inl (PrRefuse RcUnknownScope StAuthorization "process owner no longer exists")
        | Some facts =>
            if owner_allowed authority kind then inr facts
            else inl (PrDurable RcUnauthorized "authority may not record this process owner kind")
        end
    end in
  match owned with
  | inl p => inl p
  | inr (execution, attempt, generation) =>
      let laid :=
        match cx_layout (sb_checks sub) with
        | None => inr execution
        | Some home =>
            match first_where (λ l, fst l = home) (sd_layouts db) with
            | None => inl (PrRefuse RcUnknownScope StAuthorization "runtime storage layout is not registered")
            | Some l => inr (match snd l with Some o => ok (agent_id_from_str o) | None => None end)
            end
        end in
      match laid with
      | inl p => inl p
      | inr execution =>
          let execution :=
            match execution, sb_kind sub, authority with
            | None, RecordQuotaSnapshot, ASupervisor _ own _ _ _ _ _ => Some own
            | _, _, _ => execution
            end in
          let attempt :=
            match attempt, execution with
            | None, Some e =>
                if derives_owned_attempt (sb_kind sub) then
                  option_map at_id
                    (first_where (λ t, at_agent t = e ∧ at_owned t = true ∧ at_finished_at t = None)
                       (db_attempts (sd_db db)))
                else None
            | _, _ => attempt
            end in
          inr (execution, attempt, generation)
      end
  end.

Definition execution_exists (db : StoreDb) (execution : option string) : bool :=
  match execution with
  | Some e => exists_where (λ a, ag_id a = e) (db_agents (sd_db db))
  | None => false
  end.

(** [prepare], after the receipt lookup, the age and the order: the scope. *)
Definition authorize (db : StoreDb) (authority : WriteAuthority) (sub : Submission) : Prepared :=
  match resolve_scope db authority sub with
  | inl p => p
  | inr (execution, attempt, generation) =>
      if scoped (sb_kind sub) && negb (execution_exists db (sb_execution sub)) then
        PrRefuse RcUnknownScope StAuthorization "execution scope no longer exists"
      else
        match account_verdict db authority sub execution
                (scope_verdict db authority sub execution attempt generation) with
        | None => PrRun
        | Some RcUnknownScope => PrRefuse RcUnknownScope StAuthorization "authority scope no longer exists"
        | Some code => PrDurable code "authority does not own this scope"
        end
  end.

(** [prepare]. *)
Definition prepare (db : WriterDb) (authority : WriteAuthority) (sub : Submission) : result Prepared :=
  let header := sb_header sub in
  match stored db (hd_operation_id header) with
  | Some row =>
      if negb (same_submission row authority header) then
        Ok (PrRefuse RcReplayConflict StGate "operation id was used for different content")
      else let? r := replay (hd_operation_id header) row true in Ok (PrReplay r)
  | None =>
      if is_stale (hd_operation_id header) (sb_boot_id sub) (sb_now_ns sub) then
        Ok (PrRefuse RcStaleOperation StGate "operation identity is stale")
      else if match watermark db (producer_key (hd_producer header)) with
              | Some w => as_i64 (hd_ordinal header) <=? wp_last_ordinal w
              | None => false
              end
      then Ok (PrRefuse RcOrderViolation StGate "producer ordinal is not increasing")
      else Ok (authorize (wd_store db) authority sub)
  end.

(** ** Storing a receipt *)

(** [result_json], the canonical text. *)
Definition result_text (r : StoredResult) : list Z :=
  dumps (match r with StoredCommitted v => v | StoredRejected refusal => rejection_json refusal end) true.

(** The CHECK, UNIQUE and FOREIGN KEY constraints of [operation_receipts]. *)
Definition receipt_checks (db : WriterDb) (r : ReceiptRow) : bool :=
  negb (exists_where (λ x, rc_id x = rc_id r) (wd_receipts db))
  && (len (rc_id r) =? 66) && (len (rc_digest r) =? 64) && (0 <=? rc_ordinal r)
  && (len (rc_fingerprint r) =? 64)
  && match rc_agent r with
     | Some a => exists_where (λ x, ag_id x = a) (db_agents (sd_db (wd_store db)))
     | None => true
     end
  && (Z.of_nat (length (result_text (rc_result r))) <=? 65536)
  && forallb (λ b, (32 <=? b) && (b <=? 126)) (result_text (rc_result r)).

(** The CHECK constraints of [writer_producers]. *)
Definition producer_checks (w : ProducerRow) : bool :=
  (0 <=? wp_last_ordinal w) && (len (wp_last_boot_tag w) =? 16) && (0 <=? wp_last_issued_ns w).

(** The upsert of [writer_producers]. *)
Definition upsert_producer (w : ProducerRow) (l : list ProducerRow) : list ProducerRow :=
  if exists_where (λ x, wp_key x = wp_key w) l then
    update_where (λ x, wp_key x = wp_key w)
      (λ x, mk_producer_row (wp_key x) (wp_last_ordinal w) (wp_last_boot_tag w)
              (Z.max (wp_last_issued_ns x) (wp_last_issued_ns w))
              (match wp_execution w with Some e => Some e | None => wp_execution x end) (wp_updated_at w)) l
  else l ++ [w].

(** The rows one submission stores. *)
Definition receipt_row (seq : Z) (sub : Submission) (authority : WriteAuthority) (scope : option string)
  (r : StoredResult) (at_ : f64) : ReceiptRow :=
  let header := sb_header sub in
  mk_receipt_row seq (hd_operation_id header) (hd_digest header) (name (sb_kind sub)) (hd_producer header)
    (as_i64 (hd_ordinal header)) (authority_kind authority) (fingerprint authority) scope r (sb_epoch sub) at_.

Definition producer_row (sub : Submission) (at_ : f64) : ProducerRow :=
  let header := sb_header sub in
  mk_producer_row (producer_key (hd_producer header)) (as_i64 (hd_ordinal header))
    (op_boot_tag (hd_operation_id header)) (as_i64 (op_issued_ns (hd_operation_id header)))
    (match pd_kind (hd_producer header) with PkSupervisor => sb_execution sub | _ => None end) at_.

(** [insert_receipt]. *)
Definition insert_receipt (db : WriterDb) (sub : Submission) (authority : WriteAuthority)
  (scope : option string) (r : StoredResult) (at_ : f64) : result (WriterDb * Z) :=
  let seq := wd_receipt_seq db + 1 in
  let row := receipt_row seq sub authority scope r at_ in
  fail? negb (receipt_checks db row) with Sql ConstraintViolation;
  fail? negb (producer_checks (producer_row sub at_)) with Sql ConstraintViolation;
  Ok (mk_wdb (wd_store db) (wd_receipts db ++ [row]) (upsert_producer (producer_row sub at_) (wd_producers db))
        seq (wd_epoch db), seq).

(** ** Receipt retention *)

(** The payload of row 87. *)
Record PruneReceiptsOp := mk_prune { pu_at : f64; pu_boot_id : string; pu_now_ns : Z }.

(** The clock reading and the time budget of one pruning: whether the reads
    finish in time, and how many deletes start before the deadline. *)
Record PruneBudget := mk_budget {
  pb_clock : option (string * Z);
  pb_reads : bool;
  pb_deletes : nat;
}.

(** [receipt_retention_interrupted]: [SQLITE_INTERRUPT]. *)
Definition interrupted : Failure := Sqlite 9.

Definition RECEIPT_PRUNE_LIMIT : nat := 500.
Definition WATERMARK_PRUNE_LIMIT : nat := 2000.

(** [op.at - 14.0 * 86_400.0]. *)
Definition cutoff (op : PruneReceiptsOp) : f64 := fsub (pu_at op) (fmul (of_Z 14) (of_Z 86400)).

(** [ORDER BY committed_at,commit_seq]. *)
Definition commit_le (x y : ReceiptRow) : Prop :=
  flt (rc_committed_at x) (rc_committed_at y) = true ∨
  flt (rc_committed_at y) (rc_committed_at x) = false ∧ rc_seq x ≤ rc_seq y.
#[global] Instance commit_le_dec : RelDecision commit_le.
Proof. intros x y. unfold commit_le. apply _. Defined.

(** The receipts one pruning selects, by sequence. *)
Definition prunable_receipts (db : WriterDb) (op : PruneReceiptsOp) : list Z :=
  map rc_seq
    (filter (λ r, is_ok (op_parse (rc_id r)) = true ∧ is_stale (rc_id r) (pu_boot_id op) (pu_now_ns op) = true)
       (take RECEIPT_PRUNE_LIMIT
          (merge_sort commit_le
             (filter (λ r, rc_agent r = None ∧ flt (rc_committed_at r) (cutoff op) = true) (wd_receipts db))))).

Definition key_le (x y : ProducerRow) : Prop := (wp_key x ≤ wp_key y)%string.
#[global] Instance key_le_dec : RelDecision key_le.
Proof. intros x y. unfold key_le. apply _. Defined.

(** A watermark with no receipt and no unfinished work behind it. *)
Definition orphaned (db : WriterDb) (live : list string) (op : PruneReceiptsOp) (w : ProducerRow) : Prop :=
  flt (wp_updated_at w) (cutoff op) = true ∧ wp_execution w = None ∧
  (∀ r, r ∈ wd_receipts db → producer_key (rc_producer r) ≠ wp_key w) ∧ wp_key w ∉ live.
#[global] Instance orphaned_dec db live op w : Decision (orphaned db live op w).
Proof.
  assert (Decision (∀ r, r ∈ wd_receipts db → producer_key (rc_producer r) ≠ wp_key w)).
  { destruct (exists_where (λ r, producer_key (rc_producer r) = wp_key w) (wd_receipts db)) eqn:E.
    - right. apply exists_where_true in E as (r & Hr & Ek). intros Hn. by apply (Hn r Hr).
    - left. exact (proj1 (exists_where_false _ _) E). }
  unfold orphaned. apply _.
Defined.

(** The watermarks one pruning selects, by key. *)
Definition prunable_watermarks (db : WriterDb) (live : list string) (op : PruneReceiptsOp) : list string :=
  map wp_key
    (filter (λ w, wp_last_boot_tag w ≠ boot_tag (pu_boot_id op) ∨
                  MAX_OPERATION_AGE_NS < saturating_sub (pu_now_ns op) (Z.max (wp_last_issued_ns w) 0))
       (take WATERMARK_PRUNE_LIMIT (merge_sort key_le (filter (orphaned db live op) (wd_producers db))))).

(** [receipt_prune_candidates]. *)
Definition receipt_prune_candidates (db : WriterDb) (live : list string) (op : PruneReceiptsOp)
  (budget : PruneBudget) : Failure + (list Z * list string) :=
  if negb (is_finite (pu_at op)) || flt (pu_at op) (of_Z 0) then
    inl (Domain (invalid "receipt retention requires a finite Unix time"))
  else if negb match pb_clock budget with
               | Some (boot, now) => bool_decide (boot = pu_boot_id op) && (pu_now_ns op <=? now)
               | None => false
               end
  then inl (Domain (invalid "receipt retention requires the current boot and clock"))
  else if negb (pb_reads budget) then inl interrupted
  else
    match prunable_receipts db op with
    | [] => inr ([], prunable_watermarks db live op)
    | receipts => inr (receipts, [])
    end.

Definition delete_receipt (db : WriterDb) (seq : Z) : WriterDb :=
  set_receipts (filter (λ r, rc_seq r ≠ seq) (wd_receipts db)) db.
Definition delete_producer (db : WriterDb) (key : string) : WriterDb :=
  set_producers (filter (λ w, wp_key w ≠ key) (wd_producers db)) db.

(** The rows a [DELETE] removed. *)
Definition removed_rows (db db' : WriterDb) : Z :=
  Z.of_nat (length (wd_receipts db) - length (wd_receipts db') + (length (wd_producers db) - length (wd_producers db')))%nat.

(** One bounded delete loop: the keys deleted while time remains, the time
    left, and whether it ran out before the end. *)
Fixpoint delete_while {A} (delete : WriterDb → A → WriterDb) (n : nat) (keys : list A) (db : WriterDb)
  : WriterDb * nat * bool :=
  match keys, n with
  | [], _ => (db, n, false)
  | _ :: _, O => (db, O, true)
  | key :: keys', S n' => delete_while delete n' keys' (delete db key)
  end.

(** [apply_receipt_pruning]. *)
Definition apply_receipt_pruning (db : WriterDb) (receipts : list Z) (watermarks : list string) (n : nat)
  : Failure + (WriterDb * Z) :=
  let answer db' expired :=
    let removed := removed_rows db db' in
    if expired && (removed =? 0) then inl interrupted else inr (db', removed) in
  match delete_while delete_receipt n receipts db with
  | (db1, _, true) => answer db1 true
  | (db1, n1, false) =>
      let '(db2, _, expired) := delete_while delete_producer n1 watermarks db1 in answer db2 expired
  end.

(** [prune_receipts]. *)
Definition prune_receipts (db : WriterDb) (live : list string) (op : PruneReceiptsOp) (budget : PruneBudget)
  : Failure + (WriterDb * Z) :=
  match receipt_prune_candidates db live op budget with
  | inl f => inl f
  | inr (receipts, watermarks) => apply_receipt_pruning db receipts watermarks (pb_deletes budget)
  end.

(** ** Recovery observations *)

Record RecoveryOp := mk_recovery {
  ro_execution : string;
  ro_attempt : string;
  ro_original_id : string;
  ro_original_digest : string;
  ro_kind : string;
  ro_evidence : Value;
  ro_result : Value;
}.

Record RecoveryRecorded := mk_recorded { rr_recorded : bool; rr_original_committed : option bool }.

Definition closed_label (s : string) : bool :=
  negb (is_empty s) && (len s <=? 64)
  && forallb (λ b, is_ascii_lowercase b || is_ascii_digit b || (b =? 95)) (bytes s).

(** The first recovery event of an original operation. *)
Definition recovery_of (original : string) (x : EventRow) : option (option bool) :=
  match ev_data x with
  | ERecoveryObservation id _ committed _ _ _ => if bool_decide (id = original) then Some committed else None
  | _ => None
  end.

Definition is_committed (r : StoredResult) : bool := match r with StoredCommitted _ => true | _ => false end.

(** [record_recovery]. *)
Definition record_recovery (db : WriterDb) (op : RecoveryOp) (at_ : f64) : result (WriterDb * RecoveryRecorded) :=
  let base := sd_db (wd_store db) in
  fail? negb (closed_label (ro_kind op)) with
    invalid "recovery observation kind must be a closed snake_case label";
  fail? (64 * 1024 <? Z.of_nat (length (dumps (ro_evidence op) true)))
        || (4096 <? Z.of_nat (length (dumps (ro_result op) true)))
    with invalid "recovery observation exceeds its byte bound";
  fail? negb (bool_decide (option_map at_agent (first_where (λ t, at_id t = ro_attempt op) (db_attempts base))
                           = Some (ro_execution op)))
    with invalid "recovery attempt does not belong to the execution";
  match first_where (λ x, is_Some (recovery_of (ro_original_id op) x)) (db_events base) with
  | Some x =>
      fail? negb (bool_decide (ev_agent x = ro_execution op)) with Conflict;
      Ok (db, mk_recorded false (default None (recovery_of (ro_original_id op) x)))
  | None =>
      let row := stored db (ro_original_id op) in
      fail? match row with
            | Some r => match rc_agent r with Some scope => negb (bool_decide (scope = ro_execution op)) | None => false end
            | None => false
            end with invalid "original receipt belongs to another execution";
      let committed :=
        match row with
        | Some r => if bool_decide (rc_digest r = ro_original_digest op) then Some (is_committed (rc_result r)) else None
        | None => None
        end in
      let '(base', _) :=
        insert_event base (ro_execution op) (Some (ro_attempt op)) at_
          (ERecoveryObservation (ro_original_id op) (ro_original_digest op) committed (ro_kind op)
             (ro_result op) (ro_evidence op)) in
      let store := wd_store db in
      Ok (set_store (mk_store base' (sd_supervisors store) (sd_generations store) (sd_probes store)
                       (sd_layouts store)) db, mk_recorded true committed)
  end.

(** ** The unit an operation runs *)

(** The closure [run] of [execute]: a store unit, or the two rows of this file
    that read or prune receipts.  A store unit reaches the receipts only
    through the cascade of [operation_receipts.agent_id]. *)
Inductive Work :=
  | WkUnit (run : StoreDb → Failure + (StoreDb * Value))
  | WkPrune (op : PruneReceiptsOp) (live : list string) (budget : PruneBudget)
  | WkRecover (op : RecoveryOp) (at_ : f64).

(** The execution a receipt is scoped to still exists. *)
Definition scope_kept (db : StoreDb) (r : ReceiptRow) : bool :=
  match rc_agent r with
  | Some a => exists_where (λ x, ag_id x = a) (db_agents (sd_db db))
  | None => true
  end.

(** [ON DELETE CASCADE]. *)
Definition cascade (db : WriterDb) : WriterDb :=
  set_receipts (filter (λ r, scope_kept (wd_store db) r = true) (wd_receipts db)) db.

Definition recorded_json (r : RecoveryRecorded) : Value :=
  Obj [("original_committed", match rr_original_committed r with Some b => Bool b | None => Null end);
       ("recorded", Bool (rr_recorded r))]%string.

Definition perform (w : Work) (db : WriterDb) : Failure + (WriterDb * Value) :=
  match w with
  | WkUnit run =>
      match run (wd_store db) with
      | inl f => inl f
      | inr (store, v) => inr (cascade (set_store store db), v)
      end
  | WkPrune op live budget =>
      match prune_receipts db live op budget with
      | inl f => inl f
      | inr (db', removed) => inr (db', num removed)
      end
  | WkRecover op at_ =>
      match record_recovery db op at_ with
      | Err e => inl (Domain e)
      | Ok (db', r) => inr (db', recorded_json r)
      end
  end.

(** ** Failures *)

(** [storage_failure]. *)
Fixpoint storage_failure (f : Failure) : bool :=
  match f with
  | Domain (Sql _) | Sqlite _ | Io => true
  | Persistence _ _ _ _ _ source | OwnershipCheckpoint _ source => storage_failure source
  | _ => false
  end.

(** [boundary]. *)
Definition boundary (k : OpKindRef) (phase : RejectStage) : PersistenceOperation :=
  match k, phase with
  | RememberProcesses, StAcquire => PoOwnershipAcquire
  | RememberProcesses, StCommit => PoOwnershipCommit
  | RememberProcesses, _ => PoOwnershipWrite
  | RuntimeSession, _ => PoRuntimeSession
  | AppendJournal, _ => PoTranscriptAppend
  | FinishTerminal, _ => PoTerminalCommit
  | (RetainCleanupEvidence | ProviderCleanup), _ => PoCleanupWrite
  | ClaimCommand, _ => PoCommandClaim
  | (EnqueueCommand | CompleteCommand | ObservedCommandResult), _ => PoCommandWrite
  | _, _ => PoWriterApply
  end.

(** [failure]; [elapsed] is the wait since the start, in milliseconds. *)
Definition failure (k : OpKindRef) (phase : RejectStage) (error : Failure) (elapsed : Z) : StorageRejection :=
  from_error
    (match error with
     | Persistence _ _ _ _ _ _ => error
     | _ => Persistence (boundary k phase) (millis elapsed) 1 None (Some phase) error
     end) phase.

(** ** The connection *)

(** The committed database, and the uncommitted one of an open transaction. *)
Record Conn := mk_conn { cn_db : WriterDb; cn_open : option WriterDb }.

Definition is_autocommit (c : Conn) : bool := negb (is_some (cn_open c)).

(** How a [COMMIT] ends. *)
Inductive CommitAnswer :=
  | CommitDone
  | CommitOpen (code : Z)                     (* failed, the transaction is still open *)
  | CommitOver (code : Z) (applied : bool).   (* failed, the transaction is over *)

(** What SQLite answers at each boundary of one execution: [None] is success.
    A failing [ROLLBACK] tells whether it leaves the transaction open. *)
Record Sqlite_ := mk_sqlite {
  sq_begin : option Z;
  sq_read : option Failure;
  sq_savepoint : option Z;
  sq_release : option Z;
  sq_undo : option Z;
  sq_insert : option Z;
  sq_commit : CommitAnswer;
  sq_rollback : option bool;
}.

Definition sqlite_well : Sqlite_ := mk_sqlite None None None None None None CommitDone None.

Definition is_busy (code : Z) : bool :=
  (primary_code code =? SQLITE_BUSY) || (primary_code code =? SQLITE_LOCKED).

(** The connection after [ROLLBACK] of the transaction [tx] on [db]. *)
Definition rolled_back (sq : Sqlite_) (db tx : WriterDb) : Conn :=
  mk_conn db (if sq_rollback sq is Some true then Some tx else None).

(** [rollback_confirmed]. *)
Definition rollback_confirmed (sq : Sqlite_) : bool := negb (is_some (sq_rollback sq)).

Definition rollback_unknown : Executed :=
  mk_executed (SrUnknown UcRollbackUncertain) (Some DgRollbackUncertain).

(** [release] and [abort]: the answer holds only after a confirmed rollback. *)
Definition release (sq : Sqlite_) (db tx : WriterDb) (r : SubmitResult) : Conn * Executed :=
  (rolled_back sq db tx, if rollback_confirmed sq then plain r else rollback_unknown).
Definition abort (sq : Sqlite_) (db tx : WriterDb) (refusal : StorageRejection) : Conn * Executed :=
  release sq db tx (SrRejected refusal).

(** The transaction's outcome before it is stored: the database after the
    unit and the result, or the end of the transaction. *)
Inductive Unit_ :=
  | UnEnd (c : Conn) (e : Executed)
  | UnStore (tx : WriterDb) (r : StoredResult) (refusal : option StorageRejection).

Definition durable_refusal (r : StorageRejection) (tx : WriterDb) : Unit_ :=
  let r := made_durable r in UnStore tx (StoredRejected r) (Some r).

(** The [match prepare] of [execute], with the savepoint around the unit. *)
Definition run_unit (sq : Sqlite_) (elapsed : Z) (db : WriterDb) (authority : WriteAuthority)
  (sub : Submission) (w : Work) : Unit_ :=
  let kind := sb_kind sub in
  let stop tx f := let '(c, e) := abort sq db tx (failure kind StStatement f elapsed) in UnEnd c e in
  match (match sq_read sq with Some f => inl f | None =>
           match prepare db authority sub with Err e => inl (Domain e) | Ok p => inr p end end) with
  | inl f => stop db f
  | inr (PrReplay r) => let '(c, e) := release sq db db r in UnEnd c e
  | inr (PrRefuse code stage message) => let '(c, e) := release sq db db (refuse code stage message) in UnEnd c e
  | inr (PrDurable code message) => durable_refusal (rejection_new code StAuthorization message) db
  | inr PrRun =>
      match sq_savepoint sq with
      | Some code => stop db (Sqlite code)
      | None =>
          match perform w db with
          | inr (tx, output) =>
              match sq_release sq with
              | Some code => stop tx (Sqlite code)
              | None =>
                  if MAX_RESULT_BYTES <? Z.of_nat (length (dumps output true)) then
                    let '(c, e) := abort sq db tx
                      (rejection_new RcPayloadTooLarge StStatement "operation result exceeds its byte bound") in
                    UnEnd c e
                  else UnStore tx (StoredCommitted output) None
              end
          | inl f =>
              if storage_failure f then stop db f
              else
                match sq_undo sq with
                | Some code => stop db (Sqlite code)
                | None => durable_refusal (from_error f StStatement) db
                end
          end
      end
  end.

(** [COMMIT] of the transaction [tx] on [db], and the answer. *)
Definition finish_commit (sq : Sqlite_) (elapsed : Z) (db tx : WriterDb) (kind : OpKindRef) (answer : SubmitResult)
  : Conn * Executed :=
  let unknown := mk_executed (SrUnknown UcCommitUncertain) (Some DgCommitUncertain) in
  match sq_commit sq with
  | CommitDone => (mk_conn tx None, plain answer)
  | CommitOpen code =>
      if is_busy code then
        let refusal := rejection_new RcStorageRolledBack StCommit "commit failed and was rolled back" in
        abort sq db tx
          (mk_rejection (rj_code refusal) (rj_stage refusal) (rj_message refusal) false
             (rj_persistence (failure kind StCommit (Sqlite code) elapsed)) None)
      else (rolled_back sq db tx, unknown)
  | CommitOver code applied => (mk_conn (if applied then tx else db) None, unknown)
  end.

(** The answer of a stored outcome. *)
Definition fresh_answer (sub : Submission) (scope : option string) (seq : Z) (at_ : f64) (r : StoredResult)
  (refusal : option StorageRejection) : SubmitResult :=
  match refusal, r with
  | Some refusal, _ => SrRejected refusal
  | None, StoredCommitted v =>
      let header := sb_header sub in
      SrCommitted (mk_receipt (hd_operation_id header) (hd_digest header) (name (sb_kind sub))
        (hd_producer header) (hd_ordinal header) scope (sb_epoch sub) seq at_ false v)
  | None, StoredRejected r => SrRejected r
  end.

(** [execute].  [elapsed] is the wait in milliseconds, [at_] the commit time. *)
Definition execute (sq : Sqlite_) (elapsed : Z) (at_ : f64) (c : Conn) (authority : WriteAuthority)
  (sub : Submission) (w : Work) : Conn * Executed :=
  let kind := sb_kind sub in
  if internal_only kind then
    (c, plain (refuse RcUnsupported StGate "internal operation cannot be submitted alone"))
  else if negb (permits kind authority) then
    (c, plain (refuse RcUnauthorized StAuthorization "authority may not submit this operation"))
  else
    (* a second BEGIN inside a transaction is SQLITE_ERROR *)
    match (if is_autocommit c then sq_begin sq else Some 1) with
    | Some code =>
        let refusal := rejection_new RcStorageUnavailable StAcquire "write lock was not acquired" in
        (c, mk_executed
              (SrRejected (mk_rejection (rj_code refusal) (rj_stage refusal) (rj_message refusal) false
                             (rj_persistence (failure kind StAcquire (Sqlite code) elapsed)) None))
              (if is_busy code then Some DgUnknownWriter else None))
    | None =>
        let db := cn_db c in
        let scope := if scoped kind then sb_execution sub else None in
        match run_unit sq elapsed db authority sub w with
        | UnEnd c' e => (c', e)
        | UnStore tx r refusal =>
            match (match sq_insert sq with Some code => inl (Sqlite code) | None =>
                     match insert_receipt tx sub authority scope r at_ with
                     | Err e => inl (Domain e) | Ok x => inr x end end) with
            | inl f => abort sq db tx (failure kind StStatement f elapsed)
            | inr (tx', seq) => finish_commit sq elapsed db tx' kind (fresh_answer sub scope seq at_ r refusal)
            end
        end
    end.
End apply.
