(* ===== verification/Writer.v ===== *)
(** * The resident writer and its producers

    [agent-run-store/src/writer.rs] ([StoreWriter]), [writer/queued.rs]
    ([QueuedWriter]), the callback discipline of
    [sqlite-access/src/lib.rs] ([Database::call]), the broker's handle
    [agent-run-core/src/writer.rs] and the retry loop both producer lanes share
    ([broker_writer.rs], [storage_client.rs]: [drive]).

    A job is one envelope with the facts its payload is dispatched to and the
    unit it runs.  Submissions reach the connection one at a time; one call is
    modelled at the moment its callback runs. *)

From S2P Require Import Prelude Text Float64 Json Canonical Catalogs Lifecycle Requests PoolDomain.
From S2P Require Import Tables PoolLog Redact Evidence Failures Storage Inventory Receipts.
Import Kind.

(** ** The store writer *)

Record Job := mk_job {
  jb_header : EnvelopeHeader;
  jb_kind : OpKindRef;
  jb_facts : Facts;
  jb_checks : Checks;
  jb_decode : option Failure;             (* why a remote body does not decode *)
  jb_work : Work;
}.

Record StoreWriter := mk_writer {
  sw_conn : Conn;
  sw_epoch : Z;
  sw_degraded : option Degradation;
}.

(** What the environment answers during one callback: the clock, SQLite, the
    recovery probe's own boundaries and its read of receipts. *)
Record Answers := mk_answers {
  an_clock : option (string * Z);
  an_sqlite : Sqlite_;
  an_elapsed : Z;
  an_at : f64;
  an_lookup : option Z;
  an_probe_begin : option Z;
  an_probe_read : option Z;
  an_probe_rollback : option bool;
}.

Section writer.
Context `{Sha256, Chrono, JsonParser, SqliteDriver}.

(** [ops::unsupported]. *)
Definition unsupported_row (k : OpKindRef) : StorageRejection :=
  rejection_new RcUnsupported StGate ("operation " +:+ name k +:+ " is not supported by this writer").

(** [StoreWriter::run]. *)
Definition writer_run (an : Answers) (sw : StoreWriter) (authority : WriteAuthority) (job : Job)
  : StoreWriter * SubmitResult :=
  match an_clock an with
  | None => (sw, refuse RcStorageUnavailable StGate "monotonic clock is unavailable")
  | Some (boot_id, now_ns) =>
      let '(execution, attempt, generation) := jb_facts job in
      let '(c, e) :=
        execute (an_sqlite an) (an_elapsed an) (an_at an) (sw_conn sw) authority
          (mk_submission (jb_header job) (jb_kind job) execution attempt generation (jb_checks job)
             boot_id now_ns (sw_epoch sw)) (jb_work job) in
      (mk_writer c (sw_epoch sw) (match ex_degraded e with Some d => Some d | None => sw_degraded sw end),
       ex_result e)
  end.

(** [StoreWriter::apply_owned] and [StoreWriter::apply_local_owned]. *)
Definition apply_job (an : Answers) (sw : StoreWriter) (authority : WriteAuthority) (job : Job)
  : StoreWriter * SubmitResult :=
  if negb (implemented (jb_kind job)) then (sw, SrRejected (unsupported_row (jb_kind job)))
  else
    match jb_decode job with
    | Some f => (sw, SrRejected (from_error f StGate))
    | None => writer_run an sw authority job
    end.

(** [StoreWriter::lookup_digest]: an unsettled connection proves nothing. *)
Definition writer_lookup (an : Answers) (sw : StoreWriter) (authority : WriteAuthority) (id digest : string)
  : Failure + option SubmitResult :=
  if negb (is_autocommit (sw_conn sw)) then
    inl (Domain (invalid "writer receipt lookup requires a settled connection"))
  else
    match an_lookup an with
    | Some code => inl (Sqlite code)
    | None =>
        match lookup_digest (cn_db (sw_conn sw)) id authority digest with
        | Err e => inl (Domain e)
        | Ok r => inr r
        end
    end.

(** [StoreWriter::open]: the next epoch, committed, on a fresh connection. *)
Definition writer_open (db : WriterDb) : StoreWriter :=
  let db' := mk_wdb (wd_store db) (wd_receipts db) (wd_producers db) (wd_receipt_seq db) (wd_epoch db + 1) in
  mk_writer (mk_conn db' None) (wd_epoch db') None.

(** ** The queue *)

(** [probe_failure]. *)
Definition probe_failure (code : Z) (phase : RejectStage) (elapsed : Z) : SubmitResult :=
  let refusal := from_error (Persistence PoWriterApply (millis elapsed) 1 None (Some phase) (Sqlite code)) phase in
  let retryable := bool_decide (phase = StAcquire) && (primary_code code =? SQLITE_BUSY) in
  SrRejected (mk_rejection (if retryable then RcStorageUnavailable else rj_code refusal) (rj_stage refusal)
                (rj_message refusal) (rj_durable refusal) (rj_persistence refusal) (rj_domain refusal)).

(** [ready]: [None] lets the job run. *)
Definition ready (an : Answers) (sw : StoreWriter) : StoreWriter * option SubmitResult :=
  let stuck c := (mk_writer c (sw_epoch sw) (Some DgRollbackUncertain), Some (SrUnknown UcRollbackUncertain)) in
  match sw_degraded sw with
  | None => (sw, None)
  | Some DgCommitUncertain => (sw, Some (SrUnknown UcCommitUncertain))
  | Some DgRollbackUncertain => (sw, Some (SrUnknown UcRollbackUncertain))
  | Some DgUnknownWriter =>
      if negb (is_autocommit (sw_conn sw)) then stuck (sw_conn sw)
      else
        match an_probe_begin an with
        | Some code => (sw, Some (probe_failure code StAcquire (an_elapsed an)))
        | None =>
            let db := cn_db (sw_conn sw) in
            match an_probe_rollback an with
            | Some left_open => stuck (mk_conn db (if left_open then Some db else None))
            | None =>
                match an_probe_read an with
                | Some code => (sw, Some (probe_failure code StStatement (an_elapsed an)))
                | None =>
                    if wd_epoch db =? sw_epoch sw
                    then (mk_writer (sw_conn sw) (sw_epoch sw) None, None)
                    else (sw, Some (refuse RcConflict StAuthorization "writer epoch changed"))
                end
            end
        end
  end.

(** The callback of [QueuedWriter::submit] and [QueuedWriter::local]. *)
Definition callback (an : Answers) (sw : StoreWriter) (authority : WriteAuthority) (job : Job)
  : StoreWriter * (Failure + SubmitResult) :=
  let go :=
    match ready an sw with
    | (sw', Some r) => (sw', inr r)
    | (sw', None) => let '(sw'', r) := apply_job an sw' authority job in (sw'', inr r)
    end in
  if is_some (sw_degraded sw) && is_autocommit (sw_conn sw) then
    match writer_lookup an sw authority (hd_operation_id (jb_header job)) (hd_digest (jb_header job)) with
    | inl f => (sw, inl f)
    | inr (Some r) => (sw, inr r)
    | inr None => go
    end
  else go.

(** Why a call was not enqueued. *)
Inductive CallRefusal := CrRetentionGate | CrOverloaded | CrBytesFull | CrPayloadTooLarge | CrClosing.

(** [submit_error] on the refusals before acceptance, and the producer gate. *)
Definition call_refused (e : CallRefusal) : SubmitResult :=
  match e with
  | CrRetentionGate => SrNotEnqueued NeRetentionGate
  | CrOverloaded => SrNotEnqueued NeQueueFull
  | CrBytesFull => SrNotEnqueued NeBytesFull
  | CrClosing => SrNotEnqueued NeDraining
  | CrPayloadTooLarge => refuse RcPayloadTooLarge StGate "writer retained payload exceeds limit"
  end.

(** The fate of one call: refused at admission, as a closing queue refuses
    everything; accepted and run; or accepted with its result lost (the
    callback panicked or its worker died) after or without its effect. *)
Inductive Fate :=
  | FtRefused (e : CallRefusal)
  | FtRun (unwind : option bool)   (* the ROLLBACK of a transaction left open *)
  | FtLost (ran : bool).

Record Queue := mk_queue {
  qu_writer : StoreWriter;
  qu_poisoned : bool;
  qu_sealed : bool;                (* [admissions_closed] *)
}.

Definition lost_outcome : SubmitResult := SrUnknown UcWriterStopped.

(** [Database::call] after the callback: an open transaction is rolled back
    and never answers; one that stays open poisons the connection. *)
Definition settle_call (unwind : option bool) (q : Queue) (r : Failure + SubmitResult) : Queue * SubmitResult :=
  let sw := qu_writer q in
  match cn_open (sw_conn sw) with
  | Some tx =>
      let c := mk_conn (cn_db (sw_conn sw)) (if unwind is Some true then Some tx else None) in
      (mk_queue (mk_writer c (sw_epoch sw) (sw_degraded sw)) (qu_poisoned q || is_some unwind) (qu_sealed q),
       lost_outcome)
  | None => (q, match r with inl f => SrRejected (from_error f StStatement) | inr r => r end)
  end.

(** [QueuedWriter::submit] and [QueuedWriter::local]: one call.  A call
    accepted before the connection was poisoned is answered without running. *)
Definition queue_submit (fate : Fate) (an : Answers) (q : Queue) (authority : WriteAuthority) (job : Job)
  : Queue * SubmitResult :=
  match fate with
  | FtRefused e => (q, call_refused e)
  | _ =>
      if qu_poisoned q then (q, lost_outcome)
      else
        match fate with
        | FtRun unwind =>
            let '(sw, r) := callback an (qu_writer q) authority job in
            settle_call unwind (mk_queue sw (qu_poisoned q) (qu_sealed q)) r
        | FtLost ran =>
            let '(sw, _) := callback an (qu_writer q) authority job in
            let c := mk_conn (if ran then cn_db (sw_conn sw) else cn_db (sw_conn (qu_writer q))) None in
            (mk_queue (mk_writer c (sw_epoch sw) (sw_degraded sw)) true (qu_sealed q), lost_outcome)
        | FtRefused e => (q, call_refused e)
        end
  end.

(** [QueuedWriter::status]. *)
Definition queue_status (fate : Fate) (an : Answers) (q : Queue) (authority : WriteAuthority) (id digest : string)
  : OpStatus :=
  let missing := OsNotFound (sw_epoch (qu_writer q)) in
  match fate with
  | FtRun _ =>
      if qu_poisoned q then missing
      else
        match writer_lookup an (qu_writer q) authority id digest with
        | inr (Some (SrCommitted r)) => if bool_decide (wrc_digest r = digest) then OsCommitted r else missing
        | inr (Some (SrRejected r)) => OsRejected r
        | _ => missing
        end
  | _ => missing
  end.

(** The rows an admission seal refuses. *)
Definition is_admission (k : OpKindRef) : bool :=
  match k with
  | AdmitStart | AdmitProvider | AdmitProviderResume | AdmitPool | ReplacePoolMember => true
  | _ => false
  end.

(** [WriterHandle::submit] and [WriterHandle::local]: a sealed handle answers
    an admission from its receipt alone. *)
Definition handle_submit (fate : Fate) (an : Answers) (q : Queue) (authority : WriteAuthority) (job : Job)
  : Queue * SubmitResult :=
  let header := jb_header job in
  if qu_sealed q && is_admission (jb_kind job) then
    (q, match queue_status fate an q authority (hd_operation_id header) (hd_digest header) with
        | OsCommitted r => SrCommitted r
        | OsRejected r => SrRejected r
        | _ => SrNotEnqueued NeAdmissionsClosed
        end)
  else queue_submit fate an q authority job.

(** ** Producer lanes *)

(** [transient]. *)
Definition transient (r : NotEnqueuedReason) : bool :=
  match r with
  | NeRetentionGate | NeQueueFull | NeBytesFull | NeProducerFull | NeReservedForCritical | NeDegraded => true
  | _ => false
  end.

(** [expired]. *)
Definition lane_expired (uncertain : option UnknownCause) : SubmitResult :=
  match uncertain with
  | Some cause => SrUnknown cause
  | None => SrNotEnqueued NeDeadlineExpired
  end.

(** The [match result] of [drive]: the final answer, or another attempt of
    the identical envelope with the uncertainty so far. *)
Definition lane_answer (uncertain : option UnknownCause) (r : SubmitResult) : SubmitResult + option UnknownCause :=
  let unless_uncertain r := inl (match uncertain with Some cause => SrUnknown cause | None => r end) in
  match r with
  | SrCommitted receipt => inl (SrCommitted receipt)
  | SrRejected refusal =>
      if rj_durable refusal then inl (SrRejected refusal)
      else if bool_decide (rj_code refusal = RcStorageUnavailable) then inr uncertain
      else unless_uncertain (SrRejected refusal)
  | SrNotEnqueued reason =>
      if transient reason then inr uncertain else unless_uncertain (SrNotEnqueued reason)
  | SrUnknown cause => inr (Some cause)
  end.

(** [correlate]: a committed reply must be of this request. *)
Definition correlate (header : EnvelopeHeader) (op_kind : option string) (r : SubmitResult) : bool :=
  match r with
  | SrCommitted receipt =>
      bool_decide (wrc_operation_id receipt = hd_operation_id header)
      && bool_decide (wrc_digest receipt = hd_digest header)
      && bool_decide (wrc_producer receipt = hd_producer header)
      && (wrc_ordinal receipt =? hd_ordinal header)
      && match op_kind with Some k => bool_decide (k = wrc_op_kind receipt) | None => true end
  | _ => true
  end.

(** One turn of a lane's loop. *)
Inductive Turn :=
  | TnExpired                          (* the original deadline has passed *)
  | TnUnreached                        (* nothing was written: no connection *)
  | TnReply (r : SubmitResult)
  | TnLost (timed_out : bool).         (* written, and no usable reply *)

(** [drive] over its turns; [None] while the loop still runs. *)
Fixpoint drive (uncertain : option UnknownCause) (turns : list Turn) : option SubmitResult :=
  match turns with
  | [] => None
  | TnExpired :: _ => Some (lane_expired uncertain)
  | TnUnreached :: turns' => drive uncertain turns'
  | TnReply r :: turns' =>
      match lane_answer uncertain r with
      | inl answer => Some answer
      | inr uncertain' => drive uncertain' turns'
      end
  | TnLost timed_out :: turns' =>
      drive (Some (if timed_out then UcDeadlineDuringExecution else UcTransport)) turns'
  end.
End writer.
