(* ===== verification/WriterTrial.v ===== *)
(** * A small concrete writer

    One boot of a writer on an empty store, and an operator post submitted by
    the broker, for evaluating the definitions on real inputs. *)

From S2P Require Import Prelude Text Float64 Json Canonical Catalogs Lifecycle Requests PoolDomain.
From S2P Require Import Tables PoolLog Redact Evidence Failures Storage Inventory Receipts Writer.
Import Kind.

#[export] Existing Instance trial_sha.
#[export] Existing Instance trial_driver.
#[export] Instance trial_chrono : Chrono := {| datetime_ok := λ _, true |}.
#[export] Instance trial_parser : JsonParser := {| json_parse := λ _, None |}.

(** The broker's third operation, issued five microseconds after boot. *)
Definition trial_header : EnvelopeHeader :=
  mk_header 1 (op_new "boot-a" 5000 trial_uuid) (mk_producer PkBroker None "b1") 3 (mk_deadline "boot-a" 9000)
    (digits_str (repeat 7 64)).

(** A unit that registers a runtime layout. *)
Definition trial_unit (st : StoreDb) : Failure + (StoreDb * Value) :=
  inr (mk_store (sd_db st) (sd_supervisors st) (sd_generations st) (sd_probes st) (("/home/a", None)%string :: sd_layouts st),
       Str "registered").

Definition trial_job : Job :=
  mk_job trial_header PoolOperatorPost (None, None, None) no_checks None (WkUnit trial_unit).

Definition trial_db : Db := mk_db [] [] [] [] [] [] [] [] [] [] [] [] [] [] [] 0 0 0 0 no_launches.
Definition trial_store : StoreDb := mk_store trial_db [] [] [] [].
Definition trial_queue : Queue :=
  mk_queue (writer_open (mk_wdb trial_store [] [] 0 0)) false false.

(** A call in which nothing fails. *)
Definition trial_answers (ns : Z) : Answers :=
  mk_answers (Some ("boot-a"%string, ns)) sqlite_well 0 (of_Z 100) None None None None.

(** A commit that fails after it was applied. *)
Definition trial_uncertain (ns : Z) : Answers :=
  mk_answers (Some ("boot-a"%string, ns)) (mk_sqlite None None None None None None (CommitOver 10 true) None) 0 (of_Z 100)
    None None None None.

(** The queue after the post, after an uncertain one, and the answers. *)
Definition trial_posted : Queue * SubmitResult :=
  handle_submit (FtRun None) (trial_answers 6000) trial_queue ABrokerSelf trial_job.
Definition trial_unsure : Queue * SubmitResult :=
  handle_submit (FtRun None) (trial_uncertain 6000) trial_queue ABrokerSelf trial_job.

(** The receipt both of them leave, and what a retry answers. *)
Definition trial_row : ReceiptRow :=
  default (mk_receipt_row 0 "" "" "" (mk_producer PkBroker None "") 0 "" "" None (StoredCommitted Null) 0 (of_Z 0))
    (stored (cn_db (sw_conn (qu_writer (fst trial_unsure)))) (hd_operation_id trial_header)).
Definition trial_replayed : SubmitResult :=
  match replay (hd_operation_id trial_header) trial_row true with Ok r => r | Err _ => SrUnknown UcTransport end.
Definition trial_receipt : WriteReceipt :=
  match trial_replayed with
  | SrCommitted r => r
  | _ => mk_receipt "" "" "" (mk_producer PkBroker None "") 0 None 0 0 (of_Z 0) false Null
  end.

Lemma trial_committed : trial_replayed = SrCommitted trial_receipt.
Proof. vm_compute. reflexivity. Qed.
