(* ===== verification/Ledger.v ===== *)
(** * What one execution does to the ledger

    The receipt of an operation and its effect are one transaction.  Whatever
    SQLite answers, an execution either leaves the committed database as it
    was, or commits the unit's effect together with exactly one new receipt,
    or commits a durable refusal without any effect; and what it answers says
    which. *)

From S2P Require Import Prelude Text Float64 Json Canonical Catalogs Lifecycle Requests PoolDomain.
From S2P Require Import Tables PoolLog Redact Evidence Failures Storage Inventory Receipts Writer.
Import Kind.

#[local] Opaque bounded_message.

Section ledger.
Context `{Sha256, Chrono, JsonParser, SqliteDriver}.

Definition scope_of (sub : Submission) : option string := if scoped (sb_kind sub) then sb_execution sub else None.

(** A new outcome stored for a submission: an effect the checks let run, or a
    durable refusal without effect. *)
Inductive stores (db : WriterDb) (authority : WriteAuthority) (sub : Submission) (w : Work) (at_ : f64)
  : StoredResult → WriterDb → Z → Prop :=
  | stores_effect tx v db' seq :
      internal_only (sb_kind sub) = false → permits (sb_kind sub) authority = true →
      prepare db authority sub = Ok PrRun → perform w db = inr (tx, v) →
      insert_receipt tx sub authority (scope_of sub) (StoredCommitted v) at_ = Ok (db', seq) →
      stores db authority sub w at_ (StoredCommitted v) db' seq
  | stores_refusal refusal p db' seq :
      internal_only (sb_kind sub) = false → permits (sb_kind sub) authority = true →
      prepare db authority sub = Ok p → (p = PrRun ∨ ∃ code message, p = PrDurable code message) →
      rj_durable refusal = true →
      insert_receipt db sub authority (scope_of sub) (StoredRejected refusal) at_ = Ok (db', seq) →
      stores db authority sub w at_ (StoredRejected refusal) db' seq.

(** What an execution answers, and the committed database it leaves. *)
Inductive outcome (db : WriterDb) (authority : WriteAuthority) (sub : Submission) (w : Work) (at_ : f64)
  : WriterDb → SubmitResult → Prop :=
  | oc_refused refusal : rj_durable refusal = false → outcome db authority sub w at_ db (SrRejected refusal)
  | oc_unknown cause : outcome db authority sub w at_ db (SrUnknown cause)
  | oc_replayed row r :
      stored db (hd_operation_id (sb_header sub)) = Some row → same_submission row authority (sb_header sub) = true →
      replay (hd_operation_id (sb_header sub)) row true = Ok r → outcome db authority sub w at_ db r
  | oc_stored res db' seq r :
      stores db authority sub w at_ res db' seq →
      (r = fresh_answer sub (scope_of sub) seq at_ res
             (match res with StoredRejected refusal => Some refusal | StoredCommitted _ => None end) ∨
       ∃ cause, r = SrUnknown cause) →
      outcome db authority sub w at_ db' r.

Lemma from_error_durable f stage : rj_durable (from_error f stage) = false.
Proof.
  induction f as [[]| | | | | | | |op ms n id phase source IH| | | |]; simpl; try done.
  by destruct (sqlite_codes source).
Qed.

Lemma failure_durable k phase f elapsed : rj_durable (failure k phase f elapsed) = false.
Proof. apply from_error_durable. Qed.

(** Every answer after a rollback is of a database left alone. *)
Lemma release_outcome sq db tx authority sub w at_ r c e :
  release sq db tx r = (c, e) → outcome db authority sub w at_ db r →
  cn_db c = db ∧ outcome db authority sub w at_ db (ex_result e).
Proof.
  unfold release, rolled_back, rollback_unknown. intros [= <- <-] Ho. split; [done|].
  destruct (rollback_confirmed sq); [done|]. constructor.
Qed.

Lemma authorize_not_replay db authority sub r : authorize db authority sub ≠ PrReplay r.
Proof.
  unfold authorize. destruct (resolve_scope db authority sub) as [p|[[execution attempt] generation]] eqn:E.
  - unfold resolve_scope in E. intros ->.
    destruct (cx_owner (sb_checks sub)) as [[kind owner]|].
    + destruct (owner_scope db kind owner) as [[[x y] z]|]; [|discriminate E].
      destruct (owner_allowed authority kind); [|discriminate E].
      destruct (cx_layout (sb_checks sub)); [destruct (first_where _ _)|]; discriminate E.
    + destruct (cx_layout (sb_checks sub)); [destruct (first_where _ _)|]; discriminate E.
  - destruct (_ && _); [done|]. by destruct (account_verdict _ _ _ _ _) as [[]|].
Qed.

Lemma run_unit_end sq elapsed db authority sub w at_ c e :
  run_unit sq elapsed db authority sub w = UnEnd c e →
  cn_db c = db ∧ outcome db authority sub w at_ db (ex_result e).
Proof.
  intros E. unfold run_unit, abort in E.
  assert (∀ tx refusal, rj_durable refusal = false →
    (let '(c0, e0) := release sq db tx (SrRejected refusal) in UnEnd c0 e0) = UnEnd c e →
    cn_db c = db ∧ outcome db authority sub w at_ db (ex_result e)) as Hstop.
  { intros tx refusal Hd. destruct (release sq db tx (SrRejected refusal)) as [c0 e0] eqn:Er.
    intros [= <- <-]. eapply release_outcome; [exact Er|]. by constructor. }
  destruct (sq_read sq) as [f|]; [eapply Hstop; [apply failure_durable|exact E]|].
  destruct (prepare db authority sub) as [p|err] eqn:Ep; [|eapply Hstop; [apply failure_durable|exact E]].
  destruct p as [r|code stage message|code message|].
  - destruct (release sq db db r) as [c0 e0] eqn:Er. injection E as <- <-.
    eapply release_outcome; [exact Er|]. unfold prepare in Ep.
    destruct (stored _ _) as [row|] eqn:Es.
    2:{ destruct (is_stale _ _ _); [done|]. destruct (watermark _ _) as [x|]; [destruct (_ <=? _); [done|]|];
        injection Ep as Ep; by apply authorize_not_replay in Ep. }
    destruct (same_submission row authority (sb_header sub)) eqn:Esame; simpl in Ep; [|done].
    destruct (replay _ _ _) as [r'|] eqn:Erp; simplify_eq/=. by eapply oc_replayed.
  - eapply Hstop; [|exact E]. done.
  - done.
  - destruct (sq_savepoint sq); [eapply Hstop; [apply failure_durable|exact E]|].
    destruct (perform w db) as [f|[tx v]] eqn:Ew.
    + destruct (storage_failure f); [eapply Hstop; [apply failure_durable|exact E]|].
      destruct (sq_undo sq); [eapply Hstop; [apply failure_durable|exact E]|done].
    + destruct (sq_release sq); [eapply Hstop; [apply failure_durable|exact E]|].
      destruct (MAX_RESULT_BYTES <? _); [|done]. eapply Hstop; [|exact E]. done.
Qed.

Lemma run_unit_store sq elapsed db authority sub w tx r refusal :
  run_unit sq elapsed db authority sub w = UnStore tx r refusal →
  (∃ v, r = StoredCommitted v ∧ refusal = None ∧ prepare db authority sub = Ok PrRun ∧ perform w db = inr (tx, v)) ∨
  (∃ x p, r = StoredRejected x ∧ refusal = Some x ∧ rj_durable x = true ∧ tx = db ∧
     prepare db authority sub = Ok p ∧ (p = PrRun ∨ ∃ code message, p = PrDurable code message)).
Proof.
  intros E. unfold run_unit, abort, durable_refusal in E.
  assert (∀ tx' r', (let '(c0, e0) := release sq db tx' r' in UnEnd c0 e0) = UnStore tx r refusal → False) as Hend
    by (intros tx' r'; by destruct (release sq db tx' r')).
  destruct (sq_read sq) as [f|]; [by apply Hend in E|].
  destruct (prepare db authority sub) as [p|err]; [|by apply Hend in E].
  destruct p as [r0|code stage message|code message|]; [by apply Hend in E..| |].
  - injection E as <- <- <-. right. eexists _, _. split_and!; eauto.
  - destruct (sq_savepoint sq); [by apply Hend in E|].
    destruct (perform w db) as [f|[tx' v]] eqn:Ew.
    + destruct (storage_failure f); [by apply Hend in E|]. destruct (sq_undo sq); [by apply Hend in E|].
      injection E as <- <- <-. right. eexists _, _. split_and!; eauto.
    + destruct (sq_release sq); [by apply Hend in E|]. destruct (MAX_RESULT_BYTES <? _); [by apply Hend in E|].
      injection E as <- <- <-. left. eauto.
Qed.

Lemma finish_outcome sq elapsed db tx kind answer c e authority sub w at_ res seq :
  finish_commit sq elapsed db tx kind answer = (c, e) →
  stores db authority sub w at_ res tx seq →
  answer = fresh_answer sub (scope_of sub) seq at_ res
             (match res with StoredRejected refusal => Some refusal | StoredCommitted _ => None end) →
  outcome db authority sub w at_ (cn_db c) (ex_result e).
Proof.
  intros E Hst Ha. unfold finish_commit in E. destruct (sq_commit sq) as [|code|code applied].
  - injection E as <- <-. simpl. eapply oc_stored; [exact Hst|]. by left.
  - destruct (is_busy code); [|injection E as <- <-; by constructor].
    unfold abort in E. eapply release_outcome in E as [-> Ho]; [exact Ho|]. by constructor.
  - injection E as <- <-. simpl. destruct applied; [|constructor].
    eapply oc_stored; [exact Hst|]. right. eauto.
Qed.

(** Every execution has one of the outcomes above, whatever SQLite answers. *)
Lemma execute_outcome sq elapsed at_ c authority sub w c' e :
  execute sq elapsed at_ c authority sub w = (c', e) →
  outcome (cn_db c) authority sub w at_ (cn_db c') (ex_result e).
Proof.
  intros E. unfold execute in E.
  destruct (internal_only (sb_kind sub)) eqn:Ei; [injection E as <- <-; by constructor|].
  destruct (permits (sb_kind sub) authority) eqn:Epm; cbn [negb] in E; [|injection E as <- <-; by constructor].
  destruct (if is_autocommit c then _ else _); [injection E as <- <-; by apply oc_refused|].
  destruct (run_unit sq elapsed (cn_db c) authority sub w) as [c0 e0|tx r refusal] eqn:Eu.
  { injection E as <- <-. eapply run_unit_end in Eu as [-> Ho]. exact Ho. }
  assert (∀ f c1 e1, abort sq (cn_db c) tx (failure (sb_kind sub) StStatement f elapsed) = (c1, e1) →
    outcome (cn_db c) authority sub w at_ (cn_db c1) (ex_result e1)) as Hab.
  { intros f c1 e1 Ea. eapply release_outcome in Ea as [-> Ho]; [exact Ho|]. constructor. apply failure_durable. }
  destruct (sq_insert sq); [by eapply Hab|].
  destruct (insert_receipt tx sub authority _ r at_) as [[tx' seq]|err] eqn:Eins; [|by eapply Hab].
  apply run_unit_store in Eu as [(v & -> & -> & Ep & Ew)|(x & p & -> & -> & Hd & -> & Ep & Hp)].
  - refine (finish_outcome _ _ _ _ _ _ _ _ _ _ _ _ (StoredCommitted v) seq E _ eq_refl). by econstructor.
  - refine (finish_outcome _ _ _ _ _ _ _ _ _ _ _ _ (StoredRejected x) seq E _ eq_refl). by econstructor.
Qed.

(** ** One call of the queue *)

(** The submission a job becomes at a clock reading under an epoch. *)
Definition job_sub (job : Job) (boot : string) (ns epoch : Z) : Submission :=
  let '(execution, attempt, generation) := jb_facts job in
  mk_submission (jb_header job) (jb_kind job) execution attempt generation (jb_checks job) boot ns epoch.

Lemma job_sub_header job boot ns epoch : sb_header (job_sub job boot ns epoch) = jb_header job.
Proof. unfold job_sub. by destruct (jb_facts job) as [[? ?] ?]. Qed.
Lemma job_sub_kind job boot ns epoch : sb_kind (job_sub job boot ns epoch) = jb_kind job.
Proof. unfold job_sub. by destruct (jb_facts job) as [[? ?] ?]. Qed.
Lemma job_sub_clock job boot ns epoch :
  sb_boot_id (job_sub job boot ns epoch) = boot ∧ sb_now_ns (job_sub job boot ns epoch) = ns ∧
  sb_epoch (job_sub job boot ns epoch) = epoch.
Proof. unfold job_sub. by destruct (jb_facts job) as [[? ?] ?]. Qed.

(** The answers that claim nothing was stored. *)
Definition inconclusive (r : SubmitResult) : Prop :=
  match r with
  | SrRejected refusal => rj_durable refusal = false
  | SrCommitted _ => False
  | SrNotEnqueued _ | SrUnknown _ => True
  end.

(** What a call answers, and the committed database it leaves. *)
Inductive reply (clock : option (string * Z)) (epoch : Z) (at_ : f64) (db : WriterDb)
  (authority : WriteAuthority) (job : Job) : WriterDb → SubmitResult → Prop :=
  | rp_same r : inconclusive r → reply clock epoch at_ db authority job db r
  | rp_replayed row r :
      stored db (hd_operation_id (jb_header job)) = Some row → rc_fingerprint row = fingerprint authority →
      rc_digest row = hd_digest (jb_header job) →
      replay (hd_operation_id (jb_header job)) row true = Ok r → reply clock epoch at_ db authority job db r
  | rp_stored boot ns res db' seq r :
      clock = Some (boot, ns) →
      let sub := job_sub job boot ns epoch in
      stores db authority sub (jb_work job) at_ res db' seq →
      (r = fresh_answer sub (scope_of sub) seq at_ res
             (match res with StoredRejected refusal => Some refusal | StoredCommitted _ => None end) ∨
       ∃ cause, r = SrUnknown cause) →
      reply clock epoch at_ db authority job db' r.

(** The committed database of a queue. *)
Definition queue_db (q : Queue) : WriterDb := cn_db (sw_conn (qu_writer q)).

Lemma writer_run_reply an sw authority job sw' r :
  writer_run an sw authority job = (sw', r) →
  reply (an_clock an) (sw_epoch sw) (an_at an) (cn_db (sw_conn sw)) authority job (cn_db (sw_conn sw')) r ∧
  sw_epoch sw' = sw_epoch sw.
Proof.
  unfold writer_run. destruct (an_clock an) as [[boot ns]|]; [|intros [= <- <-]; split; [by constructor|done]].
  destruct (jb_facts job) as [[execution attempt] generation] eqn:Ef.
  destruct (execute _ _ _ _ _ _ _) as [c e] eqn:E. intros [= <- <-]. split; [|done]. simpl.
  assert (mk_submission (jb_header job) (jb_kind job) execution attempt generation (jb_checks job) boot ns (sw_epoch sw)
          = job_sub job boot ns (sw_epoch sw)) as Esub by (unfold job_sub; by rewrite Ef).
  rewrite Esub in E. apply execute_outcome in E.
  destruct E as [refusal Hd|cause|row r Es Hsame Er|res db' seq r Hst Hr].
  - by apply rp_same.
  - by apply rp_same.
  - rewrite job_sub_header in *. unfold same_submission in Hsame. to_prop. by eapply rp_replayed.
  - by eapply rp_stored.
Qed.

Lemma lookup_digest_Some db id authority digest r :
  lookup_digest db id authority digest = Ok (Some r) →
  ∃ row, stored db id = Some row ∧ rc_fingerprint row = fingerprint authority ∧ rc_digest row = digest ∧
    replay id row true = Ok r.
Proof.
  unfold lookup_digest. destruct (stored db id) as [row|]; [|done]. intros E.
  destruct (bool_decide (rc_fingerprint row = _)) eqn:E1, (bool_decide (rc_digest row = _)) eqn:E2; try done.
  to_prop. simpl in E. exists row. destruct (replay _ _ _); by simplify_eq/=.
Qed.

(** A call whose result is lost has still done what it did. *)
Lemma reply_lost clock epoch at_ db authority job db' r :
  reply clock epoch at_ db authority job db' r → reply clock epoch at_ db authority job db' lost_outcome.
Proof.
  intros [r0 _|row r0 _ _ _ _|boot ns res db1 seq r0 Hc sub Hst _]; [by apply rp_same|by apply rp_same|].
  eapply rp_stored; [done|exact Hst|]. right. unfold lost_outcome. eauto.
Qed.

Lemma callback_reply an sw authority job sw' r :
  callback an sw authority job = (sw', r) →
  sw_epoch sw' = sw_epoch sw ∧
  match r with
  | inl f => cn_db (sw_conn sw') = cn_db (sw_conn sw)
  | inr r => reply (an_clock an) (sw_epoch sw) (an_at an) (cn_db (sw_conn sw)) authority job (cn_db (sw_conn sw')) r
  end.
Proof.
  intros E. unfold callback in E.
  assert (∀ sw' r, (match ready an sw with
            | (sw'0, Some r) => (sw'0, inr r)
            | (sw'0, None) => let '(sw'', r) := apply_job an sw'0 authority job in (sw'', inr r)
            end) = (sw', inr r : Failure + SubmitResult) →
     sw_epoch sw' = sw_epoch sw ∧
     reply (an_clock an) (sw_epoch sw) (an_at an) (cn_db (sw_conn sw)) authority job (cn_db (sw_conn sw')) r) as Hgo.
  { clear E sw' r. intros sw' r. destruct (ready an sw) as [sw1 o] eqn:Er.
    assert (cn_db (sw_conn sw1) = cn_db (sw_conn sw) ∧ sw_epoch sw1 = sw_epoch sw ∧
            match o with Some r => inconclusive r | None => True end) as (Hdb & Hep & Ho).
    { unfold ready in Er. run Er; split_and!; try done; try (by rewrite Er).
      all: unfold probe_failure; simpl; try apply from_error_durable; done. }
    destruct o as [r0|]; [intros [= <- <-]; rewrite Hdb; split; [done|by apply rp_same]|].
    unfold apply_job. destruct (negb (implemented (jb_kind job))).
    { intros [= <- <-]. rewrite Hdb. split; [done|]. by apply rp_same. }
    destruct (jb_decode job) as [f|].
    { intros [= <- <-]. rewrite Hdb. split; [done|]. apply rp_same. apply from_error_durable. }
    destruct (writer_run an sw1 authority job) as [sw2 r2] eqn:Ew. intros [= <- <-].
    apply writer_run_reply in Ew as [Hr He]. rewrite Hdb, Hep in Hr. split; [congruence|done]. }
  assert (∀ x, (match ready an sw with
            | (sw'0, Some r) => (sw'0, inr r)
            | (sw'0, None) => let '(sw'', r) := apply_job an sw'0 authority job in (sw'', inr r)
            end) = (sw', x : Failure + SubmitResult) → ∃ y, x = inr y) as Hinr.
  { intros x. destruct (ready an sw) as [sw1 [r0|]]; [intros [= <- <-]; eauto|].
    destruct (apply_job an sw1 authority job). intros [= <- <-]. eauto. }
  destruct (_ && _).
  - unfold writer_lookup in E. destruct (negb _); [by injection E as <- <-|].
    destruct (an_lookup an); [by injection E as <- <-|].
    destruct (lookup_digest _ _ _ _) as [[r0|]|e] eqn:El; [| |by injection E as <- <-].
    + injection E as <- <-. split; [done|]. apply lookup_digest_Some in El as (row & ? & ? & ? & ?).
      by eapply rp_replayed.
    + destruct (Hinr _ E) as [y ->]. by apply Hgo.
  - destruct (Hinr _ E) as [y ->]. by apply Hgo.
Qed.

(** Every call of the handle answers what it did. *)
Lemma handle_reply fate an q authority job q' r :
  handle_submit fate an q authority job = (q', r) →
  reply (an_clock an) (sw_epoch (qu_writer q)) (an_at an) (queue_db q) authority job (queue_db q') r ∧
  sw_epoch (qu_writer q') = sw_epoch (qu_writer q).
Proof.
  unfold handle_submit. destruct (qu_sealed q && is_admission (jb_kind job)).
  { intros [= <- <-]. split; [|done]. unfold queue_status.
    destruct fate as [|unwind|]; [by apply rp_same| |by apply rp_same].
    destruct (qu_poisoned q); [by apply rp_same|]. unfold writer_lookup.
    destruct (negb _); [by apply rp_same|]. destruct (an_lookup an); [by apply rp_same|].
    destruct (lookup_digest _ _ _ _) as [[r0|]|e] eqn:El; [|by apply rp_same..].
    apply lookup_digest_Some in El as (row & ? & ? & ? & ?).
    destruct r0; [|by eapply rp_replayed|by apply rp_same..].
    destruct (bool_decide _); [by eapply rp_replayed|by apply rp_same]. }
  unfold queue_submit. destruct fate as [e|unwind|ran].
  { intros [= <- <-]. split; [|done]. apply rp_same. by destruct e. }
  { destruct (qu_poisoned q); [intros [= <- <-]; split; [by apply rp_same|done]|].
    destruct (callback an (qu_writer q) authority job) as [sw x] eqn:Ec. apply callback_reply in Ec as [He Hr].
    unfold settle_call. simpl. destruct (cn_open (sw_conn sw)) as [tx|] eqn:Eo; intros [= <- <-]; simpl.
    - split; [|done]. unfold queue_db. simpl. destruct x as [f|r0]; [rewrite Hr; by apply rp_same|].
      by eapply reply_lost.
    - split; [|done]. unfold queue_db. simpl. destruct x as [f|r0]; [|done]. rewrite Hr. apply rp_same.
      apply from_error_durable. }
  destruct (qu_poisoned q); [intros [= <- <-]; split; [by apply rp_same|done]|].
  destruct (callback an (qu_writer q) authority job) as [sw x] eqn:Ec. apply callback_reply in Ec as [He Hr].
  intros [= <- <-]. split; [|done]. unfold queue_db. simpl. destruct ran; [|by apply rp_same].
  destruct x as [f|r0]; [rewrite Hr; by apply rp_same|]. by eapply reply_lost.
Qed.

(** ** The tables after a stored outcome *)

(** The receipts a committed database has beyond an earlier one. *)
Definition fresh_rows (db db' : WriterDb) : list ReceiptRow :=
  filter (λ r, wd_receipt_seq db < rc_seq r) (wd_receipts db').

(** Sequence numbers come from the counter. *)
Definition numbered_rows (db : WriterDb) : Prop := ∀ r, r ∈ wd_receipts db → rc_seq r ≤ wd_receipt_seq db.

(** A unit may remove receipts and watermarks, and touches nothing else of the
    ledger. *)
Record trimmed (db tx : WriterDb) : Prop := {
  tr_receipts : ∀ r, r ∈ wd_receipts tx → r ∈ wd_receipts db;
  tr_producers : ∀ w, w ∈ wd_producers tx → w ∈ wd_producers db;
  tr_seq : wd_receipt_seq tx = wd_receipt_seq db;
  tr_epoch : wd_epoch tx = wd_epoch db;
  tr_watermarks : ∀ k, watermark tx k = None ∨ watermark tx k = watermark db k;
}.

#[global] Instance trimmed_preorder : PreOrder trimmed.
Proof.
  split; [intros db; split; auto|]. intros x y z [] []. split; [auto..|congruence|congruence|].
  intros k. destruct (tr_watermarks1 k) as [->| ->]; auto.
Qed.

Lemma first_where_filter_key {A} (f : A → string) (k k' : string) (l : list A) :
  first_where (λ x, f x = k') (filter (λ x, f x ≠ k) l) =
    if decide (k' = k) then None else first_where (λ x, f x = k') l.
Proof.
  destruct (decide (k' = k)) as [->|Hne].
  - apply first_where_None. intros x [Hx _]%list_elem_of_filter. done.
  - induction l as [|x l IH]; [done|]. rewrite filter_cons, first_where_cons.
    destruct (decide (f x ≠ k)) as [Hx|Hx].
    + rewrite first_where_cons, IH. done.
    + rewrite IH. destruct (decide (f x = k')); [|done]. exfalso. apply Hx. congruence.
Qed.

Lemma delete_receipt_trimmed db seq : trimmed db (delete_receipt db seq).
Proof. split; try done; [|auto]. intros r. simpl. by intros [_ ?]%list_elem_of_filter. Qed.

Lemma watermark_delete db key k :
  watermark (delete_producer db key) k = if decide (k = key) then None else watermark db k.
Proof. apply first_where_filter_key. Qed.

Lemma delete_producer_trimmed db key : trimmed db (delete_producer db key).
Proof.
  split; try done.
  - intros w. simpl. by intros [_ ?]%list_elem_of_filter.
  - intros k. rewrite watermark_delete. case_decide; auto.
Qed.

Lemma delete_while_trimmed {A} (delete : WriterDb → A → WriterDb) n keys db db' n' b :
  (∀ db k, trimmed db (delete db k)) → delete_while delete n keys db = (db', n', b) → trimmed db db'.
Proof.
  intros Hd. revert n db. induction keys as [|key keys IH]; intros [|n] db; simpl; try by intros [= <- _ _].
  intros E. etrans; [apply Hd|by eapply IH].
Qed.

(** One watermark per producer. *)
Definition keyed (l : list ProducerRow) : Prop := ∀ x y, x ∈ l → y ∈ l → wp_key x = wp_key y → x = y.

Lemma watermark_Some db k w : watermark db k = Some w → w ∈ wd_producers db ∧ wp_key w = k.
Proof. by intros [? ?]%first_where_Some. Qed.

(** Why a watermark may go: its producer's last operation is of another boot
    or too old at the pruning's own clock. *)
Definition outlived (op : PruneReceiptsOp) (w : ProducerRow) : Prop :=
  wp_last_boot_tag w ≠ boot_tag (pu_boot_id op) ∨
  MAX_OPERATION_AGE_NS < saturating_sub (pu_now_ns op) (Z.max (wp_last_issued_ns w) 0).

(** Watermarks a unit removes are pruned, at a clock the unit has checked. *)
Definition pruned_by (w : Work) (db : WriterDb) (k : string) : Prop :=
  ∃ op live budget now wm, w = WkPrune op live budget ∧ pb_clock budget = Some (pu_boot_id op, now) ∧
    pu_now_ns op ≤ now ∧ watermark db k = Some wm ∧ orphaned db live op wm ∧ outlived op wm.

Lemma delete_while_keys n keys db db' n' b k :
  delete_while delete_producer n keys db = (db', n', b) →
  watermark db' k = None → watermark db k ≠ None → k ∈ keys.
Proof.
  revert n db. induction keys as [|key keys IH]; intros [|n] db; simpl; try by intros [= <- _ _] ?.
  intros E Hn Hs.
  destruct (decide (k = key)) as [->|Hne]; [by left|]. right. eapply IH; [exact E|done|].
  by rewrite watermark_delete, decide_False.
Qed.

Lemma delete_receipts_watermarks n keys db db' n' b k :
  delete_while delete_receipt n keys db = (db', n', b) → watermark db' k = watermark db k.
Proof.
  revert n db. induction keys as [|key keys IH]; intros [|n] db; simpl; try by intros [= <- _ _].
  intros E. by rewrite (IH _ _ E).
Qed.

Lemma apply_pruning_trimmed db receipts keys n db' m :
  apply_receipt_pruning db receipts keys n = inr (db', m) →
  trimmed db db' ∧ ∀ k, watermark db' k = None → watermark db k ≠ None → k ∈ keys.
Proof.
  unfold apply_receipt_pruning.
  destruct (delete_while delete_receipt n receipts db) as [[db1 n1] b1] eqn:E1.
  pose proof (delete_while_trimmed _ _ _ _ _ _ _ delete_receipt_trimmed E1) as T1.
  assert (∀ k, watermark db1 k = watermark db k) as W1 by (intros k; by eapply delete_receipts_watermarks).
  destruct b1.
  { destruct (_ && _); [done|]. intros [= <- _]. split; [done|]. intros k. by rewrite W1. }
  destruct (delete_while delete_producer n1 keys db1) as [[db2 n2] b2] eqn:E2.
  pose proof (delete_while_trimmed _ _ _ _ _ _ _ delete_producer_trimmed E2) as T2.
  destruct (_ && _); [done|]. intros [= <- _]. split; [by etrans|]. intros k Hn Hs.
  eapply delete_while_keys; [exact E2|done|by rewrite W1].
Qed.

(** Pruning leaves the rest of the store alone. *)
Lemma delete_while_store {A} (delete : WriterDb → A → WriterDb) n keys db db' n' b :
  (∀ db k, wd_store (delete db k) = wd_store db) → delete_while delete n keys db = (db', n', b) →
  wd_store db' = wd_store db.
Proof.
  intros Hd. revert n db. induction keys as [|key keys IH]; intros [|n] db; simpl; try by intros [= <- _ _].
  intros E. by rewrite (IH _ _ E), Hd.
Qed.

Lemma apply_pruning_store db receipts keys n db' m :
  apply_receipt_pruning db receipts keys n = inr (db', m) → wd_store db' = wd_store db.
Proof.
  unfold apply_receipt_pruning. destruct (delete_while delete_receipt n receipts db) as [[db1 n1] b1] eqn:E1.
  apply delete_while_store in E1; [|done]. destruct b1; [destruct (_ && _); [done|]; by intros [= <- _]|].
  destruct (delete_while delete_producer n1 keys db1) as [[db2 n2] b2] eqn:E2.
  apply delete_while_store in E2; [|done]. destruct (_ && _); [done|]. intros [= <- _]. congruence.
Qed.

Lemma prunable_outlived db live op k :
  keyed (wd_producers db) → k ∈ prunable_watermarks db live op →
  ∃ wm, watermark db k = Some wm ∧ orphaned db live op wm ∧ outlived op wm.
Proof.
  intros Hkey Hin. apply list_elem_of_In, in_map_iff in Hin as (wm & <- & Hin). apply list_elem_of_In in Hin.
  apply list_elem_of_filter in Hin as [Ho Hin]. apply elem_of_take in Hin as (i & Hi & _).
  apply list_elem_of_lookup_2 in Hi. rewrite merge_sort_Permutation in Hi.
  apply list_elem_of_filter in Hi as [Hor Hi]. exists wm. split; [|done].
  destruct (watermark db (wp_key wm)) as [wm'|] eqn:Ew.
  - apply watermark_Some in Ew as [Hin' Ekey]. by rewrite (Hkey wm' wm Hin' Hi Ekey).
  - exfalso. exact (proj1 (first_where_None _ _) Ew wm Hi eq_refl).
Qed.

Lemma prune_trimmed db live op budget db' n :
  keyed (wd_producers db) → prune_receipts db live op budget = inr (db', n) →
  trimmed db db' ∧
  ∀ k, watermark db' k = None → watermark db k ≠ None → pruned_by (WkPrune op live budget) db k.
Proof.
  intros Hkey E. unfold prune_receipts, receipt_prune_candidates in E.
  destruct (_ || _); [done|]. destruct (pb_clock budget) as [[boot now]|] eqn:Ec; [|done].
  destruct (bool_decide (boot = _)) eqn:Eb, (pu_now_ns op <=? now) eqn:En; try done. to_prop. subst boot.
  destruct (pb_reads budget); [|done]. cbn [negb andb] in E.
  destruct (prunable_receipts db op) as [|seq seqs]; apply apply_pruning_trimmed in E as [T Hk];
    split; try done; intros k Hn Hs; specialize (Hk k Hn Hs).
  - destruct (prunable_outlived _ _ _ _ Hkey Hk) as (wm & ? & ? & ?). by exists op, live, budget, now, wm.
  - by apply elem_of_nil in Hk.
Qed.

Lemma perform_trimmed w db tx v :
  keyed (wd_producers db) → perform w db = inr (tx, v) →
  trimmed db tx ∧ ∀ k, watermark tx k = None → watermark db k ≠ None → pruned_by w db k.
Proof.
  intros Hkey E. destruct w as [run|op live budget|op at_]; simpl in E.
  - destruct (run (wd_store db)) as [|[store v0]]; simplify_eq/=. split; [|done].
    split; try done; [|auto]. intros r. simpl. by intros [_ ?]%list_elem_of_filter.
  - destruct (prune_receipts db live op budget) as [|[db' n]] eqn:Ep; simplify_eq/=. by eapply prune_trimmed.
  - destruct (record_recovery db op at_) as [[db' r]|] eqn:Er; simplify_eq/=. split; [|].
    + unfold record_recovery in Er. repeat case_match; simplify_eq/=; try done; split; auto.
    + intros k. unfold record_recovery in Er. repeat case_match; simplify_eq/=; done.
Qed.

(** The watermark after an operation of its producer. *)
Definition advanced (old : option ProducerRow) (w : ProducerRow) : ProducerRow :=
  match old with
  | None => w
  | Some x =>
      mk_producer_row (wp_key x) (wp_last_ordinal w) (wp_last_boot_tag w)
        (Z.max (wp_last_issued_ns x) (wp_last_issued_ns w))
        (match wp_execution w with Some e => Some e | None => wp_execution x end) (wp_updated_at w)
  end.

Lemma upsert_first w l k :
  first_where (λ x, wp_key x = k) (upsert_producer w l) =
    if decide (k = wp_key w) then Some (advanced (first_where (λ x, wp_key x = k) l) w)
    else first_where (λ x, wp_key x = k) l.
Proof.
  unfold upsert_producer. destruct (exists_where _ l) eqn:E.
  - rewrite first_where_update by done. destruct (first_where (λ x, wp_key x = k) l) as [x|] eqn:Ex; simpl.
    + apply first_where_Some in Ex as [<- _]. repeat case_decide; try done; congruence.
    + case_decide; [|done]. subst k. apply exists_where_true in E as (x & Hx & Ek).
      exfalso. exact (proj1 (first_where_None _ l) Ex x Hx Ek).
  - rewrite first_where_app. destruct (first_where (λ x, wp_key x = k) l) as [x|] eqn:Ex.
    + case_decide; [|done]. subst k. apply first_where_Some in Ex as [Ek Hx].
      exfalso. exact (proj1 (exists_where_false _ _) E x Hx Ek).
    + rewrite first_where_cons. destruct (decide (k = wp_key w)) as [->|Hne].
      * by rewrite decide_True.
      * by rewrite decide_False by congruence.
Qed.

Lemma upsert_keyed w l : keyed l → keyed (upsert_producer w l).
Proof.
  intros Hk. unfold upsert_producer. destruct (exists_where _ l) eqn:E.
  - intros x y Hx Hy Exy. apply elem_of_update_where in Hx as (x0 & Hx & ->), Hy as (y0 & Hy & ->).
    assert (x0 = y0) as -> by (apply Hk; [done..|]; repeat case_decide; simpl in Exy; congruence). done.
  - pose proof (proj1 (exists_where_false _ _) E) as Hn.
    intros x y [Hx|Hx]%elem_of_app [Hy|Hy]%elem_of_app Exy;
      rewrite ?list_elem_of_singleton in *; subst; try done; [by apply Hk| |].
    + exfalso. by apply (Hn x Hx).
    + exfalso. by apply (Hn y Hy).
Qed.

Record inserted (tx : WriterDb) (sub : Submission) (row : ReceiptRow) (db' : WriterDb) : Prop := {
  in_receipts : wd_receipts db' = wd_receipts tx ++ [row];
  in_seq : rc_seq row = wd_receipt_seq tx + 1 ∧ wd_receipt_seq db' = rc_seq row;
  in_store : wd_store db' = wd_store tx ∧ wd_epoch db' = wd_epoch tx;
  in_fresh : ∀ r, r ∈ wd_receipts tx → rc_id r ≠ rc_id row;
  in_watermark : ∃ w, wp_key w = producer_key (rc_producer row) ∧ wp_last_ordinal w = rc_ordinal row ∧
    wp_last_boot_tag w = op_boot_tag (rc_id row) ∧ wp_last_issued_ns w = as_i64 (op_issued_ns (rc_id row)) ∧
    0 ≤ wp_last_issued_ns w ∧
    ∀ k, watermark db' k = if decide (k = wp_key w) then Some (advanced (watermark tx k) w) else watermark tx k;
  in_keyed : keyed (wd_producers tx) → keyed (wd_producers db');
  in_ordinal : 0 ≤ rc_ordinal row;
}.

Lemma insert_receipt_inserted tx sub authority scope r at_ db' seq :
  insert_receipt tx sub authority scope r at_ = Ok (db', seq) →
  inserted tx sub (receipt_row seq sub authority scope r at_) db'.
Proof.
  unfold insert_receipt. destruct (receipt_checks _ _) eqn:Ec; [|done].
  destruct (producer_checks _) eqn:Ep; [|done]. simpl. intros [= <- <-].
  unfold receipt_checks in Ec. to_prop. unfold producer_checks in Ep. to_prop. split; try done.
  - intros x Hx Ex. eapply (proj1 (exists_where_false _ _)); [eassumption|exact Hx|exact Ex].
  - exists (producer_row sub at_). split_and!; try done. intros k. apply upsert_first.
  - apply upsert_keyed.
Qed.

(** ** What a stored outcome has passed *)

Lemma prepare_passed db authority sub p :
  prepare db authority sub = Ok p → (p = PrRun ∨ ∃ code message, p = PrDurable code message) →
  stored db (hd_operation_id (sb_header sub)) = None ∧
  is_stale (hd_operation_id (sb_header sub)) (sb_boot_id sub) (sb_now_ns sub) = false ∧
  (∀ wm, watermark db (producer_key (hd_producer (sb_header sub))) = Some wm →
     wp_last_ordinal wm < as_i64 (hd_ordinal (sb_header sub))) ∧
  authorize (wd_store db) authority sub = p.
Proof.
  intros E Hp. unfold prepare in E. destruct (stored _ _) as [row|].
  { destruct (negb _); [injection E as <-; by destruct Hp as [?|(? & ? & ?)]|].
    destruct (replay _ _ _); simplify_eq/=. by destruct Hp as [?|(? & ? & ?)]. }
  destruct (is_stale _ _ _); [injection E as <-; by destruct Hp as [?|(? & ? & ?)]|].
  destruct (watermark _ _) as [wm|]; [destruct (_ <=? _) eqn:El|].
  - injection E as <-. by destruct Hp as [?|(? & ? & ?)].
  - to_prop. injection E as E. split_and!; try done. by intros ? [= <-].
  - injection E as E. by split_and!.
Qed.

(** The transaction of a stored outcome: the unit's effect, or nothing for a
    refusal, and then the receipt. *)
Record settled_tx (db : WriterDb) (authority : WriteAuthority) (sub : Submission) (w : Work) (at_ : f64)
  (res : StoredResult) (seq : Z) (tx db' : WriterDb) : Prop := {
  sx_trimmed : trimmed db tx;
  sx_pruned : ∀ k, watermark tx k = None → watermark db k ≠ None → pruned_by w db k;
  sx_inserted : inserted tx sub (receipt_row seq sub authority (scope_of sub) res at_) db';
  sx_new : stored db (hd_operation_id (sb_header sub)) = None;
  sx_fresh : is_stale (hd_operation_id (sb_header sub)) (sb_boot_id sub) (sb_now_ns sub) = false;
  sx_order : ∀ wm, watermark db (producer_key (hd_producer (sb_header sub))) = Some wm →
     wp_last_ordinal wm < as_i64 (hd_ordinal (sb_header sub));
  sx_effect : match res with
              | StoredCommitted v => perform w db = inr (tx, v)
              | StoredRejected refusal => tx = db ∧ rj_durable refusal = true
              end;
}.

Lemma stores_tx db authority sub w at_ res db' seq :
  keyed (wd_producers db) → stores db authority sub w at_ res db' seq →
  ∃ tx, settled_tx db authority sub w at_ res seq tx db'.
Proof.
  intros Hkey [tx v db1 seq1 _ _ Ep Ew Ei|refusal p db1 seq1 _ _ Ep Hp Hd Ei].
  - destruct (prepare_passed _ _ _ _ Ep ltac:(by left)) as (? & ? & ? & _).
    destruct (perform_trimmed _ _ _ _ Hkey Ew) as [? ?]. apply insert_receipt_inserted in Ei.
    exists tx. by split.
  - destruct (prepare_passed _ _ _ _ Ep Hp) as (? & ? & ? & _). apply insert_receipt_inserted in Ei.
    exists db. by split.
Qed.

Lemma same_fresh_rows db : numbered_rows db → fresh_rows db db = [].
Proof. intros Hn. apply filter_none. intros r Hr%Hn. lia. Qed.

Lemma settled_fresh_rows db authority sub w at_ res seq tx db' :
  numbered_rows db → settled_tx db authority sub w at_ res seq tx db' →
  fresh_rows db db' = [receipt_row seq sub authority (scope_of sub) res at_].
Proof.
  intros Hn S. destruct (sx_inserted _ _ _ _ _ _ _ _ _ S) as [Hr [Hs _] _ _ _ _ _].
  pose proof (sx_trimmed _ _ _ _ _ _ _ _ _ S) as T. rewrite (tr_seq _ _ T) in Hs.
  unfold fresh_rows. rewrite Hr, filter_app, filter_none, filter_cons, decide_True; [done|lia|].
  intros r Hin%(tr_receipts _ _ T)%Hn. lia.
Qed.

(** ** Issue times *)

Lemma unhex_bound b : is_lower_hex b = true → 0 ≤ unhex b < 16.
Proof.
  unfold is_lower_hex, is_ascii_digit, unhex. intros Hb. destruct (b <? 58) eqn:E; to_prop; naive_solver lia.
Qed.

Lemma hex_value_bound ds :
  Forall (λ b, is_lower_hex b = true) ds → 0 ≤ hex_value ds < 16 ^ Z.of_nat (length ds).
Proof.
  induction ds as [|b ds IH] using rev_ind; [by intros|]. intros [Hd Hb]%Forall_app.
  rewrite hex_value_app, length_app. simpl length. inversion_clear Hb as [|? ? Hx _]. apply unhex_bound in Hx.
  specialize (IH Hd). replace (Z.of_nat (length ds + 1)) with (Z.of_nat (length ds) + 1) by lia.
  rewrite Z.pow_add_r by lia. lia.
Qed.

Lemma op_issued_bound id : is_ok (op_parse id) = true → 0 ≤ op_issued_ns id < 2 ^ 64.
Proof.
  unfold op_parse. intros E. destruct (negb (len id =? 66)) eqn:El; [done|].
  destruct (forallb is_lower_hex (byte_range id 17 33)) eqn:Ex.
  2:{ by destruct (negb (bool_decide _)), (negb (bool_decide _)), (negb (forallb _ _)). }
  to_prop. assert (length (byte_range id 17 33) = 16%nat) as Hl.
  { unfold byte_range. rewrite length_take, length_drop, length_bytes. unfold len in El. lia. }
  pose proof (hex_value_bound (byte_range id 17 33)) as Hv. rewrite Hl in Hv. apply Hv, Forall_forall.
  intros b Hb%list_elem_of_In. by eapply forallb_forall in Ex.
Qed.

Lemma as_i64_nonneg x : 0 ≤ x < 2 ^ 64 → 0 ≤ as_i64 x → as_i64 x = x.
Proof. unfold as_i64. destruct (x <? 2 ^ 63); lia. Qed.
End ledger.
