(* ===== verification/OperationsOnce.v ===== *)
(** * Operations are stored at most once

    A history of the writer over reboots: its calls with whatever SQLite
    answers, the monotonic clock, restarts of the process and of the machine,
    and the sealing of admissions.  Receipts and watermarks may be pruned on
    the way.  No operation is ever stored twice, and the receipts of a producer
    are in the order of its ordinals. *)

From S2P Require Import Prelude Text Float64 Json Canonical Catalogs Lifecycle Requests PoolDomain.
From S2P Require Import Tables PoolLog Redact Evidence Failures Storage Inventory Receipts Writer Ledger.
From S2P Require Import WriterTrial.
Import Kind.

#[local] Opaque bounded_message.

Section once.
Context `{Sha256, Chrono, JsonParser, SqliteDriver}.

(** ** The world of a writer *)

(** The queue, the boot and its monotonic clock, and the tags of the boots
    before it. *)
Record WriterWorld := mk_world {
  ww_queue : Queue;
  ww_boot : string;
  ww_ns : Z;
  ww_past : list string;
}.

Definition world_db (w : WriterWorld) : WriterDb := queue_db (ww_queue w).
Definition with_queue (q : Queue) (w : WriterWorld) : WriterWorld := mk_world q (ww_boot w) (ww_ns w) (ww_past w).

(** A clock reading is of this boot and this instant. *)
Definition clock_true (w : WriterWorld) (c : option (string * Z)) : Prop :=
  match c with Some (boot, ns) => boot = ww_boot w ∧ ns = ww_ns w | None => True end.

(** An envelope as it is typed: a parsed identity, an unsigned ordinal, and
    the pruning unit's own clock reading. *)
Definition job_true (w : WriterWorld) (job : Job) : Prop :=
  is_ok (op_parse (hd_operation_id (jb_header job))) = true ∧ 0 ≤ hd_ordinal (jb_header job) ≤ u64_MAX ∧
  match jb_work job with WkPrune _ _ budget => clock_true w (pb_clock budget) | _ => True end.

(** A new process opens the writer on the committed database. *)
Definition reopened (db : WriterDb) : Queue := mk_queue (writer_open db) false false.

(** One step: a call, the clock, a restart of the writer, a reboot under a tag
    not used before, or the seal. *)
Inductive writer_step (w : WriterWorld) : WriterWorld → Prop :=
  | ws_call fate an authority job q r :
      clock_true w (an_clock an) → job_true w job →
      handle_submit fate an (ww_queue w) authority job = (q, r) → writer_step w (with_queue q w)
  | ws_tick ns : ww_ns w ≤ ns → writer_step w (mk_world (ww_queue w) (ww_boot w) ns (ww_past w))
  | ws_restart : writer_step w (with_queue (reopened (world_db w)) w)
  | ws_reboot boot ns :
      boot_tag boot ∉ boot_tag (ww_boot w) :: ww_past w →
      writer_step w (mk_world (reopened (world_db w)) boot ns (boot_tag (ww_boot w) :: ww_past w))
  | ws_seal :
      writer_step w (with_queue (mk_queue (qu_writer (ww_queue w)) (qu_poisoned (ww_queue w)) true) w).

(** Every receipt ever stored on the way from [w0], in order. *)
Inductive history (w0 : WriterWorld) : list ReceiptRow → WriterWorld → Prop :=
  | hs_start : history w0 [] w0
  | hs_step log w w' :
      history w0 log w → writer_step w w' →
      history w0 (log ++ fresh_rows (world_db w) (world_db w')) w'.

(** A store whose ledger is still empty. *)
Definition new_world (w : WriterWorld) : Prop :=
  wd_receipts (world_db w) = [] ∧ wd_producers (world_db w) = [] ∧ boot_tag (ww_boot w) ∉ ww_past w.

(** What one envelope is: its operation, its producer and its ordinal. *)
Definition identity (r : ReceiptRow) : string * string * Z :=
  (rc_id r, producer_key (rc_producer r), rc_ordinal r).

(** ** The invariant *)

(** The writer refuses this identity for good: it is of an earlier boot, or
    too old. *)
Definition dead (w : WriterWorld) (id : string) : Prop :=
  op_boot_tag id ∈ ww_past w ∨
  op_boot_tag id = boot_tag (ww_boot w) ∧ MAX_OPERATION_AGE_NS < ww_ns w - op_issued_ns id.

(** A watermark that covers a receipt of this boot. *)
Definition covers_row (w : WriterWorld) (r : ReceiptRow) (wm : ProducerRow) : Prop :=
  rc_ordinal r ≤ wp_last_ordinal wm ∧ wp_last_boot_tag wm = boot_tag (ww_boot w) ∧
  op_issued_ns (rc_id r) ≤ wp_last_issued_ns wm.

Definition spent (w : WriterWorld) (r : ReceiptRow) : Prop :=
  dead w (rc_id r) ∨ ∃ wm, watermark (world_db w) (producer_key (rc_producer r)) = Some wm ∧ covers_row w r wm.

Record ledger_inv (w : WriterWorld) (log : list ReceiptRow) : Prop := {
  li_logged : ∀ r, r ∈ wd_receipts (world_db w) → r ∈ log;
  li_numbered : numbered_rows (world_db w);
  li_keyed : keyed (wd_producers (world_db w));
  li_tags : ∀ r, r ∈ log → op_boot_tag (rc_id r) ∈ boot_tag (ww_boot w) :: ww_past w;
  li_boot : boot_tag (ww_boot w) ∉ ww_past w;
  li_spent : ∀ r, r ∈ log → spent w r;
  li_once : NoDup (map identity log);
  li_ordinals : ∀ r, r ∈ log → 0 ≤ rc_ordinal r;
  li_backed : ∀ r, r ∈ wd_receipts (world_db w) →
    ∃ wm, watermark (world_db w) (producer_key (rc_producer r)) = Some wm ∧ rc_ordinal r ≤ wp_last_ordinal wm;
  li_ordered : ∀ r s, r ∈ wd_receipts (world_db w) → s ∈ wd_receipts (world_db w) →
    (rc_seq r = rc_seq s → r = s) ∧
    (producer_key (rc_producer r) = producer_key (rc_producer s) → rc_seq r < rc_seq s →
     rc_ordinal r < rc_ordinal s);
}.

Lemma dead_stale w id : boot_tag (ww_boot w) ∉ ww_past w → dead w id → is_stale id (ww_boot w) (ww_ns w) = true.
Proof.
  intros Hb [Hp|[Ht Ha]]; unfold is_stale.
  - rewrite bool_decide_eq_false_2; [done|]. intros E. by rewrite E in Hp.
  - rewrite (proj2 (Z.ltb_lt MAX_OPERATION_AGE_NS _)); [by rewrite !orb_true_r|].
    unfold saturating_sub. lia.
Qed.

(** Two databases with the same ledger. *)
Definition same_ledger (db db' : WriterDb) : Prop :=
  wd_receipts db' = wd_receipts db ∧ wd_producers db' = wd_producers db ∧ wd_receipt_seq db' = wd_receipt_seq db.

Lemma same_ledger_watermark db db' k : same_ledger db db' → watermark db' k = watermark db k.
Proof. unfold watermark. by intros (_ & -> & _). Qed.

Lemma same_ledger_rows db db' : numbered_rows db → same_ledger db db' → fresh_rows db db' = [].
Proof. intros Hn (E & _). unfold fresh_rows. rewrite E. by apply same_fresh_rows. Qed.

(** Steps that leave the ledger alone and keep every stored receipt spent. *)
Lemma ledger_moved w w' log :
  ledger_inv w log → same_ledger (world_db w) (world_db w') →
  (boot_tag (ww_boot w) :: ww_past w) ⊆ (boot_tag (ww_boot w') :: ww_past w') →
  boot_tag (ww_boot w') ∉ ww_past w' →
  (∀ r, r ∈ log → spent w r → spent w' r) → ledger_inv w' log.
Proof.
  intros I S Hsub Hb Hsp. pose proof S as (Hr & Hp & Hs). destruct I. split; try done.
  - by rewrite Hr.
  - unfold numbered_rows. by rewrite Hr, Hs.
  - by rewrite Hp.
  - intros r Hin. by apply Hsub, li_tags0.
  - auto.
  - rewrite Hr. intros r Hin. rewrite (same_ledger_watermark _ _ _ S). auto.
  - by rewrite Hr.
Qed.

Lemma spent_same w w' r :
  same_ledger (world_db w) (world_db w') → ww_boot w' = ww_boot w → ww_past w' = ww_past w → ww_ns w ≤ ww_ns w' →
  spent w r → spent w' r.
Proof.
  intros S Eb Ep Hns [Hd|(wm & Ew & Hc)]; [left|right; exists wm].
  - unfold dead in *. rewrite Eb, Ep. destruct Hd as [?|[? ?]]; [by left|right; split; [done|lia]].
  - rewrite (same_ledger_watermark _ _ _ S). unfold covers_row in *. by rewrite Eb.
Qed.

(** ** Calls *)

Lemma not_stale w id :
  is_stale id (ww_boot w) (ww_ns w) = false → op_boot_tag id = boot_tag (ww_boot w).
Proof. unfold is_stale. destruct (bool_decide _) eqn:E; [by to_prop|done]. Qed.

Section call.
Context (w : WriterWorld) (log : list ReceiptRow) (authority : WriteAuthority) (job : Job) (epoch : Z) (at_ : f64).
Context (res : StoredResult) (seq : Z) (tx db' : WriterDb).
Context (I : ledger_inv w log) (Hj : job_true w job).
Let sub : Submission := job_sub job (ww_boot w) (ww_ns w) epoch.
Let row : ReceiptRow := receipt_row seq sub authority (scope_of sub) res at_.
Context (S : settled_tx (world_db w) authority sub (jb_work job) at_ res seq tx db').
Context (w' : WriterWorld) (Ew : world_db w' = db').
Context (Ewb : ww_boot w' = ww_boot w) (Ewp : ww_past w' = ww_past w) (Ewn : ww_ns w' = ww_ns w).

(** A pruned watermark covered only dead receipts. *)
Lemma pruned_dead k wm r :
  pruned_by (jb_work job) (world_db w) k → watermark (world_db w) k = Some wm → r ∈ log → covers_row w r wm →
  dead w (rc_id r).
Proof.
  intros (op & live & budget & now & wm' & Eop & Ec & Hle & Ew' & _ & Ho) Ek Hr (_ & Htag & Hi).
  rewrite Ek in Ew'. injection Ew' as <-. destruct Hj as (_ & _ & Hc). rewrite Eop, Ec in Hc. destruct Hc as [Hb Hn].
  pose proof (li_tags _ _ I r Hr) as Ht. apply elem_of_cons in Ht as [Ht|Ht]; [right|by left]. split; [done|].
  destruct Ho as [Ho|Ho]; [by rewrite Hb in Ho|]. unfold saturating_sub, MAX_OPERATION_AGE_NS in *. rewrite Hn in Hle. lia.
Qed.

Lemma row_clock : sb_boot_id sub = ww_boot w ∧ sb_now_ns sub = ww_ns w.
Proof. destruct (job_sub_clock job (ww_boot w) (ww_ns w) epoch) as (? & ? & _). done. Qed.

Lemma row_live : is_stale (rc_id row) (ww_boot w) (ww_ns w) = false.
Proof.
  pose proof (sx_fresh _ _ _ _ _ _ _ _ _ S) as Hf. destruct row_clock as [E1 E2]. by rewrite E1, E2 in Hf.
Qed.

(** The watermark of a producer after the call. *)
Lemma watermark_after k :
  (k = producer_key (rc_producer row) ∧
   ∃ wm, watermark (world_db w') k = Some wm ∧ wp_last_ordinal wm = rc_ordinal row ∧
     wp_last_boot_tag wm = boot_tag (ww_boot w) ∧ op_issued_ns (rc_id row) ≤ wp_last_issued_ns wm ∧
     ∀ wm0, watermark tx k = Some wm0 → wp_last_issued_ns wm0 ≤ wp_last_issued_ns wm) ∨
  (k ≠ producer_key (rc_producer row) ∧ watermark (world_db w') k = watermark tx k).
Proof.
  destruct (in_watermark _ _ _ _ (sx_inserted _ _ _ _ _ _ _ _ _ S)) as (x & Hk & Ho & Ht & Hi & Hge & Hw).
  fold row in Hk, Ho, Ht, Hi. rewrite Ew, Hw, Hk. destruct (decide (k = _)) as [->|Hne]; [left|by right].
  split; [done|]. eexists. split; [done|].
  assert (wp_last_issued_ns x = op_issued_ns (rc_id row)) as Hx.
  { rewrite Hi. apply as_i64_nonneg; [|lia]. apply op_issued_bound. unfold row, receipt_row. simpl.
    unfold sub. rewrite job_sub_header. apply Hj. }
  pose proof (not_stale _ _ row_live) as Hl.
  destruct (watermark tx _) as [wm0|]; cbn [advanced wp_last_ordinal wp_last_boot_tag wp_last_issued_ns];
    split_and!; try congruence; try lia; try done. intros ? [= <-]. lia.
Qed.

(** Every receipt of the log stays spent, and the new one is. *)
Lemma spent_after r : r ∈ log → spent w r → spent w' r.
Proof.
  intros Hr Hs. unfold spent, dead, covers_row in *. rewrite Ewb, Ewp, Ewn.
  destruct Hs as [Hd|(wm & Ek & Hc)]; [by left|]. set (k := producer_key (rc_producer r)) in *.
  pose proof (sx_trimmed _ _ _ _ _ _ _ _ _ S) as T.
  destruct (watermark tx k) as [wm1|] eqn:Et.
  2:{ left. eapply (pruned_dead k wm); [|done..]. apply (sx_pruned _ _ _ _ _ _ _ _ _ S); [done|]. by rewrite Ek. }
  destruct (tr_watermarks _ _ T k) as [?|E]; [congruence|]. rewrite E, Ek in Et. injection Et as <-.
  right. destruct Hc as (Ho & Ht & Hi). destruct (watermark_after k) as [[Hk (wm' & Ew' & Ho' & Ht' & _ & Hm)]|[_ Ew']].
  - exists wm'. specialize (Hm wm). rewrite E in Hm. split_and!; try done; [|specialize (Hm Ek); lia].
    pose proof (sx_order _ _ _ _ _ _ _ _ _ S wm) as Hlt. rewrite Hk in Ek. specialize (Hlt Ek).
    rewrite Ho'. unfold row. simpl. lia.
  - exists wm. by rewrite Ew', E.
Qed.

Lemma row_spent : spent w' row.
Proof.
  right. destruct (watermark_after (producer_key (rc_producer row))) as [[_ (wm & E & Ho & Ht & Hi & _)]|[? _]]; [|done].
  exists wm. split; [done|]. unfold covers_row. rewrite Ewb. split_and!; try done. lia.
Qed.

(** The new receipt is of an envelope the log does not have. *)
Lemma row_new r : r ∈ log → identity r ≠ identity row.
Proof.
  intros Hr [[Hid Hk]%pair_equal_spec Ho]%pair_equal_spec. destruct (li_spent _ _ I r Hr) as [Hd|(wm & E & Hc & _)].
  - apply (dead_stale _ _ (li_boot _ _ I)) in Hd. pose proof row_live as Hl. unfold row in Hl. simpl in Hl.
    rewrite Hid in Hd. unfold row in Hd. simpl in Hd. congruence.
  - rewrite Hk in E. pose proof (sx_order _ _ _ _ _ _ _ _ _ S wm E).
    rewrite Ho in Hc. unfold row in Hc. simpl in Hc. lia.
Qed.

Lemma backed_tx r :
  r ∈ wd_receipts tx →
  ∃ wm, watermark (world_db w) (producer_key (rc_producer r)) = Some wm ∧ rc_ordinal r ≤ wp_last_ordinal wm.
Proof. intros Hr. by apply (li_backed _ _ I), (tr_receipts _ _ (sx_trimmed _ _ _ _ _ _ _ _ _ S)). Qed.

(** A producer with receipts keeps its watermark. *)
Lemma backed_after r :
  r ∈ wd_receipts tx →
  ∃ wm, watermark (world_db w') (producer_key (rc_producer r)) = Some wm ∧ rc_ordinal r ≤ wp_last_ordinal wm.
Proof.
  intros Hr. destruct (backed_tx r Hr) as (wm & E & Ho). set (k := producer_key (rc_producer r)) in *.
  pose proof (sx_trimmed _ _ _ _ _ _ _ _ _ S) as T.
  destruct (watermark tx k) as [wm1|] eqn:Et.
  2:{ destruct (sx_pruned _ _ _ _ _ _ _ _ _ S k Et) as (op & live & budget & now & wm' & _ & _ & _ & E' & Hor & _);
        [by rewrite E|]. apply watermark_Some in E' as [_ Ek]. destruct Hor as (_ & _ & Hno & _).
      exfalso. apply (Hno r); [by apply (tr_receipts _ _ T)|done]. }
  destruct (tr_watermarks _ _ T k) as [?|E1]; [congruence|].
  destruct (watermark_after k) as [[Hk (wm' & Ew' & Ho' & _)]|[_ Ew']].
  - exists wm'. split; [done|]. rewrite Hk in E. pose proof (sx_order _ _ _ _ _ _ _ _ _ S wm E).
    rewrite Ho'. unfold row. simpl. lia.
  - exists wm. by rewrite Ew', E1.
Qed.

Lemma row_backed :
  ∃ wm, watermark (world_db w') (producer_key (rc_producer row)) = Some wm ∧ rc_ordinal row ≤ wp_last_ordinal wm.
Proof.
  destruct (watermark_after (producer_key (rc_producer row))) as [[_ (wm & E & Ho & _)]|[? _]]; [|done].
  exists wm. split; [done|lia].
Qed.

Lemma call_ledger : ledger_inv w' (log ++ [row]).
Proof.
  pose proof (sx_trimmed _ _ _ _ _ _ _ _ _ S) as T.
  destruct (sx_inserted _ _ _ _ _ _ _ _ _ S) as [Hrows [Hseq Hseq'] _ _ _ Hkeyed Hord].
  fold row in Hrows, Hseq, Hseq', Hord.
  rewrite (tr_seq _ _ T) in Hseq.
  assert (∀ r, r ∈ wd_receipts tx → rc_seq r < rc_seq row) as Hlt
    by (intros r Hr%(tr_receipts _ _ T)%(li_numbered _ _ I); lia).
  split.
  - rewrite Ew, Hrows. intros r [Hr|Hr]%elem_of_app; apply elem_of_app; [left|by right].
    by apply (li_logged _ _ I), (tr_receipts _ _ T).
  - rewrite Ew. unfold numbered_rows. rewrite Hrows, Hseq'. intros r [Hr%Hlt| ->%list_elem_of_singleton]%elem_of_app; lia.
  - rewrite Ew. apply Hkeyed. intros x y Hx Hy. apply (li_keyed _ _ I); by apply (tr_producers _ _ T).
  - rewrite Ewb, Ewp. intros r [Hr| ->%list_elem_of_singleton]%elem_of_app; [by apply (li_tags _ _ I)|].
    rewrite (not_stale _ _ row_live). left.
  - rewrite Ewb, Ewp. apply (li_boot _ _ I).
  - intros r [Hr| ->%list_elem_of_singleton]%elem_of_app; [|apply row_spent].
    apply spent_after; [done|]. by apply (li_spent _ _ I).
  - rewrite map_app. apply NoDup_app. split_and!; [apply (li_once _ _ I)| |apply NoDup_singleton].
    intros i Hi Hi'%list_elem_of_singleton. apply list_elem_of_In, in_map_iff in Hi as (r & <- & Hr%list_elem_of_In).
    by apply (row_new r Hr).
  - intros r [Hr| ->%list_elem_of_singleton]%elem_of_app; [by apply (li_ordinals _ _ I)|done].
  - intros r Hr. rewrite Ew, Hrows in Hr. apply elem_of_app in Hr as [Hr| ->%list_elem_of_singleton]; [|exact row_backed].
    by apply backed_after.
  - rewrite Ew, Hrows.
    intros r s [Hr| ->%list_elem_of_singleton]%elem_of_app [Hs| ->%list_elem_of_singleton]%elem_of_app;
      [apply (li_ordered _ _ I); by apply (tr_receipts _ _ T)| | |split; [done|lia]].
    + apply Hlt in Hr as Hl. split; [lia|]. intros Hk _. destruct (backed_tx r Hr) as (wm & E & Ho).
      rewrite Hk in E. pose proof (sx_order _ _ _ _ _ _ _ _ _ S wm E) as Hlo. unfold row. simpl. lia.
    + apply Hlt in Hs as Hl. split; lia.
Qed.
End call.

(** ** Histories *)

(** A call leaves the database alone, or is one stored outcome. *)
Inductive called (w : WriterWorld) (epoch : Z) (at_ : f64) (authority : WriteAuthority) (job : Job)
  (q : Queue) (r : SubmitResult) : Prop :=
  | cd_same : queue_db q = world_db w → inconclusive r → called w epoch at_ authority job q r
  | cd_replayed row :
      queue_db q = world_db w → stored (world_db w) (hd_operation_id (jb_header job)) = Some row →
      rc_fingerprint row = fingerprint authority → rc_digest row = hd_digest (jb_header job) →
      replay (hd_operation_id (jb_header job)) row true = Ok r → called w epoch at_ authority job q r
  | cd_stored res seq tx :
      let sub := job_sub job (ww_boot w) (ww_ns w) epoch in
      settled_tx (world_db w) authority sub (jb_work job) at_ res seq tx (queue_db q) →
      (r = fresh_answer sub (scope_of sub) seq at_ res
             (match res with StoredRejected refusal => Some refusal | StoredCommitted _ => None end) ∨
       ∃ cause, r = SrUnknown cause) →
      called w epoch at_ authority job q r.

Lemma handle_called w log fate an authority job q r :
  ledger_inv w log → clock_true w (an_clock an) →
  handle_submit fate an (ww_queue w) authority job = (q, r) →
  called w (sw_epoch (qu_writer (ww_queue w))) (an_at an) authority job q r.
Proof.
  intros I Hc E. apply handle_reply in E as [Hr _]. remember (queue_db q) as db1 eqn:Eq.
  destruct Hr as [r Hi|row r Es Ef Ed Er|boot ns res db' seq r Ec sub Hst Hr].
  - by apply cd_same.
  - by eapply cd_replayed.
  - rewrite Ec in Hc. destruct Hc as [-> ->].
    apply stores_tx in Hst as [tx S]; [|apply (li_keyed _ _ I)]. rewrite Eq in S. by eapply cd_stored.
Qed.

Lemma same_ledger_refl db : same_ledger db db.
Proof. by split_and!. Qed.

Lemma called_ledger w log epoch at_ authority job q r :
  ledger_inv w log → job_true w job → called w epoch at_ authority job q r →
  ledger_inv (with_queue q w) (log ++ fresh_rows (world_db w) (queue_db q)).
Proof.
  intros I Hj Hc.
  assert (queue_db q = world_db w → ledger_inv (with_queue q w) (log ++ fresh_rows (world_db w) (queue_db q))) as Hsame.
  { intros E. assert (same_ledger (world_db w) (world_db (with_queue q w))) as S
      by (unfold world_db at 2; simpl; rewrite E; apply same_ledger_refl).
    rewrite E, same_fresh_rows, app_nil_r by apply (li_numbered _ _ I).
    apply (ledger_moved w); try done; [apply (li_boot _ _ I)|]. intros r' _. by apply spent_same. }
  destruct Hc as [E _|row E _ _ _ _|res seq tx sub S _]; [auto..|].
  rewrite (settled_fresh_rows _ _ _ _ _ _ _ _ _ (li_numbered _ _ I) S).
  by apply (call_ledger w log authority job epoch at_ res seq tx (queue_db q)).
Qed.

Lemma step_ledger w w' log :
  ledger_inv w log → writer_step w w' → ledger_inv w' (log ++ fresh_rows (world_db w) (world_db w')).
Proof.
  intros I Hstep.
  assert (∀ w', same_ledger (world_db w) (world_db w') → ww_boot w' = ww_boot w → ww_past w' = ww_past w →
            ww_ns w ≤ ww_ns w' → ledger_inv w' (log ++ fresh_rows (world_db w) (world_db w'))) as Hquiet.
  { intros w1 S Eb Ep Hn. rewrite (same_ledger_rows _ _ (li_numbered _ _ I) S), app_nil_r.
    apply (ledger_moved w); [done..| | |]; rewrite ?Eb, ?Ep; [done|apply (li_boot _ _ I)|].
    intros r _. by apply spent_same. }
  destruct Hstep as [fate an authority job q r Hc Hj E|ns Hn| |boot ns Hb|].
  - eapply called_ledger; [done..|]. by eapply handle_called.
  - by apply Hquiet; [apply same_ledger_refl|..].
  - by apply Hquiet.
  - assert (same_ledger (world_db w) (world_db (mk_world (reopened (world_db w)) boot ns
              (boot_tag (ww_boot w) :: ww_past w)))) as S by done.
    rewrite (same_ledger_rows _ _ (li_numbered _ _ I) S), app_nil_r. apply (ledger_moved w); try done.
    + simpl. intros t Ht. by right.
    + intros r Hr _. left. left. simpl. by apply (li_tags _ _ I).
  - by apply Hquiet; [apply same_ledger_refl|..].
Qed.

Lemma new_ledger w : new_world w → ledger_inv w [].
Proof.
  intros (Hr & Hp & Hb). split; unfold numbered_rows, keyed; rewrite ?Hr, ?Hp; try done;
    try (by intros r Hin%elem_of_nil); try (by intros r s Hin%elem_of_nil). apply NoDup_nil_2.
Qed.

Lemma history_ledger w0 log w : new_world w0 → history w0 log w → ledger_inv w log.
Proof.
  intros Hn. induction 1 as [|log w w' _ IH Hs]; [by apply new_ledger|]. by apply step_ledger.
Qed.

(** C8: No operation is stored twice.  Take a store with an empty ledger and
    any history of its writer: calls of any authority with any job and any
    answers of SQLite (failing statements, rollbacks and commits, lost results,
    a poisoned connection), the seal, restarts of the process and reboots,
    with receipts and watermarks pruned or cascaded on the way.  Among all
    receipts ever stored, effects and durable refusals alike, no two have the
    same operation, producer and ordinal.  An effect is never committed
    without its receipt, so a retried envelope takes effect at most once. *)
Theorem operation_at_most_once w0 log w :
  new_world w0 → history w0 log w → NoDup (map identity log).
Proof. intros Hn Hh. apply (li_once _ _ (history_ledger _ _ _ Hn Hh)). Qed.

(** C14: The receipts of a producer are in the order of its ordinals.  In any
    history, whatever was pruned, the receipts in the table have distinct
    commit numbers, were all stored by the history, and two receipts of one
    producer have ordinals in the order of their commits; the producer's
    watermark is at or past every one of them. *)
Theorem receipts_in_order w0 log w r s :
  new_world w0 → history w0 log w →
  r ∈ wd_receipts (world_db w) → s ∈ wd_receipts (world_db w) →
  r ∈ log ∧ (rc_seq r = rc_seq s → r = s) ∧
  (producer_key (rc_producer r) = producer_key (rc_producer s) → rc_seq r < rc_seq s → rc_ordinal r < rc_ordinal s) ∧
  ∃ wm, watermark (world_db w) (producer_key (rc_producer r)) = Some wm ∧ rc_ordinal r ≤ wp_last_ordinal wm.
Proof.
  intros Hn Hh Hr Hs. pose proof (history_ledger _ _ _ Hn Hh) as I. destruct (li_ordered _ _ I r s Hr Hs).
  split_and!; try done; [by apply (li_logged _ _ I)|by apply (li_backed _ _ I)].
Qed.
End once.

(** ** On the small writer *)

(** The post commits but answers unknown; the writer restarts. *)
Definition trial_world : WriterWorld := mk_world trial_queue "boot-a" 6000 [].
Definition trial_world1 : WriterWorld := with_queue (fst trial_unsure) trial_world.
Definition trial_world2 : WriterWorld := with_queue (reopened (world_db trial_world1)) trial_world1.
Definition trial_log : list ReceiptRow :=
  ([] ++ fresh_rows (world_db trial_world) (world_db trial_world1))
    ++ fresh_rows (world_db trial_world1) (world_db trial_world2).

Lemma trial_new : new_world trial_world.
Proof. split_and!; [done..|]. by intros ?%elem_of_nil. Qed.

Lemma trial_job_true w : job_true w trial_job.
Proof. split; [vm_compute; reflexivity|]. split; [unfold u64_MAX; simpl; lia|done]. Qed.

Lemma trial_history : history trial_world trial_log trial_world2.
Proof.
  apply hs_step; [|apply ws_restart]. apply hs_step; [apply hs_start|].
  apply (ws_call trial_world (FtRun None) (trial_uncertain 6000) ABrokerSelf trial_job _ (snd trial_unsure)).
  - done.
  - apply trial_job_true.
  - apply surjective_pairing.
Qed.

Lemma operation_at_most_once_witness : NoDup (map identity trial_log) ∧ length trial_log = 1%nat.
Proof.
  split; [|vm_compute; reflexivity]. exact (operation_at_most_once _ _ _ trial_new trial_history).
Defined.

Lemma receipts_in_order_witness : trial_row ∈ trial_log.
Proof.
  assert (trial_row ∈ wd_receipts (world_db trial_world2)) as Hr by (vm_compute; left).
  exact (proj1 (receipts_in_order _ _ _ trial_row trial_row trial_new trial_history Hr Hr)).
Defined.

