(* ===== verification/Effects.v ===== *)
(** * Effects, authority and replays of one call

    What a caller of the writer may rely on, whatever SQLite answers: a call
    is atomic, no effect without authority over its target, and a retry of a
    stored envelope gets the stored answer. *)

From S2P Require Import Prelude Text Float64 Json Canonical Catalogs Lifecycle Requests PoolDomain.
From S2P Require Import Tables PoolLog Redact Evidence Failures Storage Inventory Receipts Writer Ledger.
From S2P Require Import WriterTrial.
Import Kind.

#[local] Opaque bounded_message.

Section effects.
Context `{Sha256, Chrono, JsonParser, SqliteDriver}.

(** ** Atomicity *)

(** The receipt of a job. *)
Definition receipt_of (job : Job) (row : ReceiptRow) : Prop :=
  rc_id row = hd_operation_id (jb_header job) ∧ rc_digest row = hd_digest (jb_header job) ∧
  rc_op_kind row = name (jb_kind job) ∧ rc_producer row = hd_producer (jb_header job) ∧
  rc_ordinal row = as_i64 (hd_ordinal (jb_header job)).

(** The answer of a call that stored a receipt: its outcome, or unknown. *)
Definition answers_row (row : ReceiptRow) (r : SubmitResult) : Prop :=
  (∃ cause, r = SrUnknown cause) ∨
  match rc_result row with
  | StoredCommitted v =>
      ∃ receipt, r = SrCommitted receipt ∧ wrc_operation_id receipt = rc_id row ∧ wrc_digest receipt = rc_digest row ∧
        wrc_commit_seq receipt = rc_seq row ∧ wrc_result receipt = v ∧ wrc_replayed receipt = false
  | StoredRejected refusal => r = SrRejected refusal
  end.

Lemma receipt_row_of job boot ns epoch seq authority scope res at_ :
  receipt_of job (receipt_row seq (job_sub job boot ns epoch) authority scope res at_).
Proof. unfold receipt_of, receipt_row. simpl. by rewrite job_sub_header, job_sub_kind. Qed.

Lemma fresh_answers sub authority seq at_ res :
  answers_row (receipt_row seq sub authority (scope_of sub) res at_)
    (fresh_answer sub (scope_of sub) seq at_ res
       (match res with StoredRejected refusal => Some refusal | StoredCommitted _ => None end)).
Proof. right. destruct res as [v|refusal]; simpl; [|done]. eexists. by split_and!. Qed.

(** C11: A call is atomic, whatever SQLite answers at any boundary.  Either the
    committed database is unchanged, and the answer claims nothing or replays
    a stored receipt; or exactly one receipt of this envelope is new, under an
    operation that had none.  A committed receipt comes with the whole effect
    of the unit and its result; a refusal comes with no effect.  The answer is
    that outcome, or unknown. *)
Theorem call_atomic fate an q authority job q' r :
  numbered_rows (queue_db q) → keyed (wd_producers (queue_db q)) →
  handle_submit fate an q authority job = (q', r) →
  let db := queue_db q in let db' := queue_db q' in let id := hd_operation_id (jb_header job) in
  (db' = db ∧ (inconclusive r ∨ ∃ row, stored db id = Some row ∧ replay id row true = Ok r)) ∨
  (∃ row, fresh_rows db db' = [row] ∧ stored db id = None ∧ receipt_of job row ∧ answers_row row r ∧
     match rc_result row with
     | StoredCommitted v => ∃ tx, perform (jb_work job) db = inr (tx, v) ∧ wd_store db' = wd_store tx
     | StoredRejected refusal => wd_store db' = wd_store db ∧ rj_durable refusal = true
     end).
Proof.
  intros Hn Hk E db db' id. apply handle_reply in E as [Hr _]. fold db db' in Hr.
  remember db' as db1. destruct Hr as [r Hi|row r Es _ _ Er|boot ns res db2 seq r Ec sub Hst Hr].
  - left. eauto.
  - left. eauto.
  - right. apply stores_tx in Hst as [tx S]; [|done]. eexists.
    split; [by eapply settled_fresh_rows|].
    pose proof (sx_new _ _ _ _ _ _ _ _ _ S) as Hnew. unfold sub in Hnew. rewrite job_sub_header in Hnew.
    split_and!; [done|apply receipt_row_of| |].
    + destruct Hr as [->|Hu]; [apply fresh_answers|by left].
    + destruct (in_store _ _ _ _ (sx_inserted _ _ _ _ _ _ _ _ _ S)) as [-> _].
      pose proof (sx_effect _ _ _ _ _ _ _ _ _ S) as He. simpl. destruct res; [eauto|]. by destruct He as [-> ?].
Qed.

(** ** Authority *)

(** The supervisor process an execution row records, or, for the two rows
    that record it first, the startup owner it was handed over from. *)
Definition acts_for (s : SupervisorRow) (kind : OpKindRef) (pid : Z) (token : string) (birth : f64) : Prop :=
  (sv_pid s = Some pid ∧ sv_identity s = Some token ∧ same_birth (sv_birth s) birth = true) ∨
  (claims_startup kind = true ∧ sv_pid s = None ∧ startup_matches s pid token birth = true).

(** What it is for an authority to own a target. *)
Definition owns (db : StoreDb) (authority : WriteAuthority) (kind : OpKindRef) (target : Facts) : Prop :=
  let '(execution, attempt, generation) := target in
  match authority with
  | ASupervisor logical own pinned capability pid birth token =>
      execution = Some own ∧
      (∃ a, a ∈ db_agents (sd_db db) ∧ ag_id a = own ∧ logical = if is_empty (ag_root a) then own else ag_root a) ∧
      sv_capability (supervisor_columns db own) = Some capability ∧
      acts_for (supervisor_columns db own) kind pid token birth ∧
      (attempt = None ∨
       ∃ t, attempt = Some (expected_attempt pinned own) ∧ t ∈ db_attempts (sd_db db) ∧
         at_id t = expected_attempt pinned own ∧ at_agent t = own)
  | AServiceExec own capability pid birth token root_pid root_birth root_token =>
      generation = Some own ∧
      ∃ g, g ∈ sd_generations db ∧ gn_id g = own ∧ gn_exec_capability g = Some capability ∧
        names_process (default Null (json_parse (gn_broker_identity g))) None root_pid root_token root_birth = true ∧
        (gn_process_identity g = None ∨
         ∃ raw, gn_process_identity g = Some raw ∧
           names_process (default Null (json_parse raw)) None pid token birth = true)
  | AWorker own own_attempt => execution = Some own ∧ (attempt = None ∨ attempt = Some own_attempt)
  | _ => True
  end.

Lemma supervisor_scope_owns db logical own pinned capability pid birth token kind execution :
  supervisor_scope db (ASupervisor logical own pinned capability pid birth token) execution (claims_startup kind) = None →
  execution = own ∧
  (∃ a, a ∈ db_agents (sd_db db) ∧ ag_id a = own ∧ logical = if is_empty (ag_root a) then own else ag_root a) ∧
  sv_capability (supervisor_columns db own) = Some capability ∧
  acts_for (supervisor_columns db own) kind pid token birth.
Proof.
  unfold supervisor_scope. destruct (bool_decide (own = execution)) eqn:E1; [|done]. to_prop. subst execution. simpl.
  destruct (first_where _ _) as [a|] eqn:Ea; [|done]. apply first_where_Some in Ea as [Hid Ha].
  destruct (bool_decide (sv_capability _ = _)) eqn:E2; [|done].
  destruct (bool_decide ((if is_empty (ag_root a) then _ else _) = logical)) eqn:E3; [|done]. to_prop. simpl.
  intros E. split_and!; try done.
  { exists a. split_and!; try done. by rewrite <-E3, Hid. }
  unfold acts_for. destruct (_ && _) eqn:E4.
  - left. to_prop. tauto.
  - right. destruct (_ && _) eqn:E5 in E; [|done].
    apply andb_true_iff in E5 as [[E5 E6]%andb_true_iff E7]. split_and!; try done. by destruct (sv_pid _).
Qed.

Lemma pinned_attempt_owns db logical own pinned capability pid birth token attempt :
  pinned_attempt db (ASupervisor logical own pinned capability pid birth token) own attempt = None →
  attempt = None ∨
  ∃ t, attempt = Some (expected_attempt pinned own) ∧ t ∈ db_attempts (sd_db db) ∧
    at_id t = expected_attempt pinned own ∧ at_agent t = own.
Proof.
  destruct attempt as [attempt|]; [|by left]. unfold pinned_attempt.
  destruct (bool_decide (attempt = _)) eqn:E1; [|done]. to_prop. simpl.
  destruct (first_where _ _) as [t|] eqn:Et; [|done]. apply first_where_Some in Et as [Hid Ht].
  destruct (bool_decide (at_agent t = own)) eqn:E2; [|done]. to_prop. intros _. right. exists t.
  split_and!; try done; congruence.
Qed.

Lemma service_scope_owns db own capability pid birth token root_pid root_birth root_token kind generation :
  service_scope db (AServiceExec own capability pid birth token root_pid root_birth root_token) generation = None →
  owns db (AServiceExec own capability pid birth token root_pid root_birth root_token) kind (None, None, generation).
Proof.
  unfold service_scope. destruct (bool_decide (generation = _)) eqn:E1; [|done]. to_prop. simpl.
  destruct (first_where _ _) as [g|] eqn:Eg; [|done]. apply first_where_Some in Eg as [Hid Hg].
  destruct (bool_decide (gn_exec_capability g = _)) eqn:E2; [|done].
  destruct (names_process _ _ root_pid _ _) eqn:E3; [|done]. to_prop. simpl. intros E. split; [done|].
  exists g. split_and!; try done. destruct (gn_process_identity g) as [raw|]; [right|by left].
  exists raw. split; [done|]. by destruct (names_process _ _ pid _ _).
Qed.

Lemma authority_scope_owns db authority kind execution attempt generation :
  authority_scope db authority kind execution attempt generation = None →
  owns db authority kind (execution, attempt, generation).
Proof.
  destruct authority as [| | |logical own pinned capability pid birth token|own capability pid birth token rp rb rt
    |own own_attempt]; cbn [authority_scope]; try done.
  - destruct execution as [e|]; [|done]. destruct (supervisor_scope _ _ _ _) eqn:Es; [done|].
    apply supervisor_scope_owns in Es as (-> & Ha & Hc & Hp). intros E.
    split_and!; try done. by eapply pinned_attempt_owns.
  - intros E. exact (service_scope_owns _ _ _ _ _ _ _ _ _ kind _ E).
  - unfold worker_scope. destruct (bool_decide (execution = _)) eqn:E1; [|done]. to_prop. simpl.
    destruct attempt as [a|]; [|auto]. destruct (bool_decide (a = _)) eqn:E2; [|done]. to_prop. subst. auto.
Qed.

(** A unit runs only for an owner of its resolved target. *)
Lemma authorize_owns db authority sub :
  authorize db authority sub = PrRun →
  ∃ target, resolve_scope db authority sub = inr target ∧ owns db authority (sb_kind sub) target ∧
    (scoped (sb_kind sub) = true → execution_exists db (sb_execution sub) = true) ∧
    (∀ c, cx_claimed (sb_checks sub) = Some c → claimed_is_principal authority c = true) ∧
    (∀ account, cx_account (sb_checks sub) = Some account →
       ∃ e, fst (fst target) = Some e ∧ pinned_account db authority e account = None).
Proof.
  unfold authorize. destruct (resolve_scope db authority sub) as [p|[[execution attempt] generation]] eqn:Er.
  { intros ->. unfold resolve_scope in Er.
    destruct (cx_owner (sb_checks sub)) as [[kind owner]|].
    - destruct (owner_scope db kind owner) as [[[x y] z]|]; [|discriminate Er].
      destruct (owner_allowed authority kind); [|discriminate Er].
      destruct (cx_layout (sb_checks sub)); [destruct (first_where _ _)|]; discriminate Er.
    - destruct (cx_layout (sb_checks sub)); [destruct (first_where _ _)|]; discriminate Er. }
  destruct (scoped (sb_kind sub) && _) eqn:Esc; [done|]. unfold account_verdict, scope_verdict.
  destruct (authority_scope _ _ _ _ _ _) as [code|] eqn:Ea.
  { by destruct code, (cx_account _), execution. }
  apply authority_scope_owns in Ea. intros E. exists (execution, attempt, generation). split_and!; try done.
  - intros Hs. rewrite Hs in Esc. by destruct (execution_exists _ _).
  - intros c Ec. rewrite Ec in E. by destruct (claimed_is_principal authority c).
  - intros account Eacc. rewrite Eacc in E.
    destruct (match cx_claimed _ with Some _ => _ | None => _ end) as [code|]; [by destruct code, execution|].
    destruct execution as [e|]; [|done]. exists e. split; [done|]. by destruct (pinned_account _ _ _ _) as [[]|].
Qed.

(** C12: No effect without authority.  If a call changes the store, whatever
    else happens, then the inventory row is one its authority may submit, and
    the authority owns the target the payload resolves to inside the
    transaction: a supervisor the execution it was launched for, by the
    capability and the recorded process (or, while claiming the start, the
    recorded startup owner) and only its own attempt; a service executor its
    generation, by capability, broker and process; a worker its own execution
    and attempt.  A process identity a payload proposes is the caller's own,
    and an account it names is that of the caller's own attempt. *)
Theorem effect_authorized fate an q authority job q' r :
  handle_submit fate an q authority job = (q', r) → wd_store (queue_db q') ≠ wd_store (queue_db q) →
  let db := wd_store (queue_db q) in
  permits (jb_kind job) authority = true ∧ internal_only (jb_kind job) = false ∧
  ∃ boot ns target,
    an_clock an = Some (boot, ns) ∧
    resolve_scope db authority (job_sub job boot ns (sw_epoch (qu_writer q))) = inr target ∧
    owns db authority (jb_kind job) target ∧
    (∀ c, cx_claimed (jb_checks job) = Some c → claimed_is_principal authority c = true) ∧
    (∀ account, cx_account (jb_checks job) = Some account →
       ∃ e, fst (fst target) = Some e ∧ pinned_account db authority e account = None).
Proof.
  intros E Hne db. apply handle_reply in E as [Hr _].
  remember (queue_db q') as db1. destruct Hr as [r Hi|row r Es _ _ Er|boot ns res db2 seq r Ec sub Hst Hr]; [done..|].
  destruct Hst as [tx v db3 seq1 Hint Hper Ep Ew Ei|refusal p db3 seq1 _ _ _ _ _ Ei].
  2:{ apply insert_receipt_inserted, in_store in Ei as [Ei _]. by rewrite Ei in Hne. }
  apply prepare_passed in Ep as (_ & _ & _ & Ea); [|by left]. apply authorize_owns in Ea as (target & ? & ? & _ & Hc & Ha).
  unfold sub in *. rewrite job_sub_kind in *.
  assert (sb_checks (job_sub job boot ns (sw_epoch (qu_writer q))) = jb_checks job) as Ex
    by (unfold job_sub; by destruct (jb_facts job) as [[? ?] ?]).
  rewrite Ex in Hc, Ha. split_and!; try done. by exists boot, ns, target.
Qed.

(** ** Replays *)

Lemma replay_durable id row r :
  replay id row true = Ok r →
  (∃ receipt, r = SrCommitted receipt ∧ wrc_digest receipt = rc_digest row) ∨
  (∃ refusal, r = SrRejected refusal ∧ rj_durable refusal = true).
Proof.
  unfold replay. destruct (rc_result row) as [v|refusal]; [|intros [= <-]; right; by eexists].
  destruct (digest_parse _) as [d|] eqn:Ed; [|done]. destruct (parse_scope _) as [sc|]; [|done]. intros [= <-].
  left. eexists. split; [done|]. simpl. unfold digest_parse in Ed. by destruct (_ || _); simplify_eq/=.
Qed.

(** Nothing fails on the way to a stored receipt. *)
Record readable (an : Answers) (q : Queue) : Prop := {
  rd_alive : qu_poisoned q = false;
  rd_settled : cn_open (sw_conn (qu_writer q)) = None;
  rd_clock : an_clock an ≠ None;
  rd_lookup : an_lookup an = None;
  rd_sqlite : sq_begin (an_sqlite an) = None ∧ sq_read (an_sqlite an) = None ∧ sq_rollback (an_sqlite an) = None;
}.

(** A submission the inventory lets this authority make. *)
Definition admissible (authority : WriteAuthority) (job : Job) : Prop :=
  internal_only (jb_kind job) = false ∧ permits (jb_kind job) authority = true ∧ jb_decode job = None.

Lemma execute_replays sq elapsed at_ c authority sub w row r :
  cn_open c = None → sq_begin sq = None → sq_read sq = None → sq_rollback sq = None →
  internal_only (sb_kind sub) = false → permits (sb_kind sub) authority = true →
  stored (cn_db c) (hd_operation_id (sb_header sub)) = Some row →
  same_submission row authority (sb_header sub) = true →
  replay (hd_operation_id (sb_header sub)) row true = Ok r →
  execute sq elapsed at_ c authority sub w = (c, plain r).
Proof.
  intros Ho Hb Hr Hrb Hi Hp Es Hs Er. unfold execute. rewrite Hi, Hp. cbn [negb].
  unfold is_autocommit. rewrite Ho, Hb. cbn [is_some negb]. unfold run_unit, prepare. rewrite Hr, Es, Hs, Er.
  cbn [negb]. unfold release, rolled_back, rollback_confirmed. rewrite Hrb. destruct c. simpl in *. by subst.
Qed.

Lemma lookup_replays an q authority job row r :
  readable an q →
  stored (queue_db q) (hd_operation_id (jb_header job)) = Some row →
  same_submission row authority (jb_header job) = true →
  replay (hd_operation_id (jb_header job)) row true = Ok r →
  writer_lookup an (qu_writer q) authority (hd_operation_id (jb_header job)) (hd_digest (jb_header job)) =
    inr (Some r).
Proof.
  intros [] Es Hs Er. unfold same_submission in Hs. to_prop. unfold writer_lookup, is_autocommit.
  rewrite rd_settled0, rd_lookup0. cbn [is_some negb]. unfold lookup_digest. fold (queue_db q). rewrite Es.
  rewrite !bool_decide_eq_true_2 by done. simpl. by rewrite Er.
Qed.

(** C13: A retry gets the stored answer.  Once an envelope has a receipt, a
    later submission of the same envelope under the same authority answers
    exactly what the receipt says, marked as replayed, and leaves the queue
    and its database as they are: on a healthy writer, on one degraded by an
    uncertain commit or rollback, and on one whose admissions are sealed,
    whatever its unit would do now. *)
Theorem retry_replays unwind an q authority job row r :
  readable an q → admissible authority job →
  stored (queue_db q) (hd_operation_id (jb_header job)) = Some row →
  same_submission row authority (jb_header job) = true →
  replay (hd_operation_id (jb_header job)) row true = Ok r →
  handle_submit (FtRun unwind) an q authority job = (q, r).
Proof.
  intros Hrd Hadm Es Hs Er. pose proof (lookup_replays an q authority job row r Hrd Es Hs Er) as Hl.
  destruct Hrd as [Ha Ho Hc _ (Hb & Hrd & Hrb)], Hadm as (Hin & Hpm & Hd).
  assert (callback an (qu_writer q) authority job = (qu_writer q, inr r)) as Ecb.
  { unfold callback. destruct (is_some (sw_degraded (qu_writer q)) && is_autocommit (sw_conn (qu_writer q))) eqn:Eg;
      [by rewrite Hl|].
    unfold is_autocommit in Eg. rewrite Ho in Eg. destruct (sw_degraded (qu_writer q)) eqn:Edg; [done|].
    unfold ready. rewrite Edg. unfold apply_job, writer_run. rewrite implemented_unless_internal, Hin, Hd. cbn [negb].
    destruct (an_clock an) as [[boot ns]|]; [|done]. destruct (jb_facts job) as [[execution attempt] generation].
    rewrite (execute_replays _ _ _ _ _ _ _ row r); try done. simpl. rewrite Edg. by destruct (qu_writer q); simpl in *; subst. }
  unfold handle_submit. destruct (qu_sealed q && is_admission (jb_kind job)).
  - unfold queue_status. rewrite Ha, Hl. destruct (replay_durable _ _ _ Er) as [(receipt & -> & Ed)|(refusal & -> & _)]; [|done].
    unfold same_submission in Hs. to_prop. rewrite bool_decide_eq_true_2; [done|]. congruence.
  - unfold queue_submit. rewrite Ha, Ecb. unfold settle_call. simpl. rewrite Ho. by destruct q; simpl in *; subst.
Qed.
End effects.

(** ** On the small writer *)

Lemma trial_fresh : numbered_rows (queue_db trial_queue) ∧ keyed (wd_producers (queue_db trial_queue)).
Proof. split; [by intros r ?%elem_of_nil|by intros x y ?%elem_of_nil]. Qed.

Lemma call_atomic_witness :
  ∃ row, fresh_rows (queue_db trial_queue) (queue_db (fst trial_unsure)) = [row] ∧
    answers_row row (SrUnknown UcCommitUncertain).
Proof.
  destruct (call_atomic (FtRun None) (trial_uncertain 6000) trial_queue ABrokerSelf trial_job
              (fst trial_unsure) (snd trial_unsure) (proj1 trial_fresh) (proj2 trial_fresh) (surjective_pairing _))
    as [[E _]|(row & Hr & _ & _ & Ha & _)].
  - apply (f_equal (λ db, length (wd_receipts db))) in E. vm_compute in E. discriminate E.
  - exists row. split; [exact Hr|exact Ha].
Defined.

Lemma effect_authorized_witness : permits PoolOperatorPost ABrokerSelf = true.
Proof.
  refine (proj1 (effect_authorized (FtRun None) (trial_uncertain 6000) trial_queue ABrokerSelf trial_job
                   (fst trial_unsure) (snd trial_unsure) (surjective_pairing _) _)).
  intros E. apply (f_equal (λ st, length (sd_layouts st))) in E. vm_compute in E. discriminate E.
Defined.

Lemma retry_replays_witness :
  handle_submit (FtRun None) (trial_answers 7000) (fst trial_unsure) ABrokerSelf trial_job =
    (fst trial_unsure, trial_replayed).
Proof.
  apply (retry_replays None (trial_answers 7000) (fst trial_unsure) ABrokerSelf trial_job trial_row trial_replayed).
  - split; [vm_compute; reflexivity|vm_compute; reflexivity|discriminate|reflexivity|].
    split; [|split]; reflexivity.
  - split; [|split]; reflexivity.
  - vm_compute; reflexivity.
  - vm_compute; reflexivity.
  - vm_compute; reflexivity.
Defined.

