(* ===== verification/Lanes.v ===== *)
(** * What a producer lane may conclude

    A lane submits one envelope until it has an answer: it retries transient
    refusals and unknown outcomes with the identical envelope and remembers
    that an attempt may have run.  Between its attempts anything may happen to
    the writer, and an attempt whose reply was lost may still run later.  The
    lane's final answer is the truth about the ledger. *)

From S2P Require Import Prelude Text Float64 Json Canonical Catalogs Lifecycle Requests PoolDomain.
From S2P Require Import Tables PoolLog Redact Evidence Failures Storage Inventory Receipts Writer Ledger.
From S2P Require Import WriterTrial OperationsOnce Effects.
Import Kind.

#[local] Opaque bounded_message.

(** The one element of a list with a property that fixes its key. *)
Lemma filter_the {A B} (f : A → B) (P : A → Prop) `{∀ x, Decision (P x)} l x :
  NoDup (map f l) → x ∈ l → P x → (∀ y, y ∈ l → P y → f y = f x) → filter P l = [x].
Proof.
  induction l as [|y l IH]; [by intros _ ?%elem_of_nil|]. simpl. intros [Hy Hn]%NoDup_cons Hx HP Hu.
  apply elem_of_cons in Hx as [->|Hx].
  - rewrite filter_cons_True by done. f_equal. apply filter_none. intros z Hz Hp.
    apply Hy, list_elem_of_fmap. exists z. split; [symmetry; apply Hu; [by right|done]|done].
  - rewrite filter_cons_False; [apply IH; auto; intros z Hz; apply Hu; by right|]. intros Hp.
    apply Hy, list_elem_of_fmap. exists x. split; [apply Hu; [left|done]|done].
Qed.

Section lanes.
Context `{Sha256, Chrono, JsonParser, SqliteDriver}.

(** ** A lane among other producers *)

Section lane.
Context (authority : WriteAuthority) (header : EnvelopeHeader) (kind : OpKindRef).

(** The receipt of this envelope. *)
Definition envelope_row (row : ReceiptRow) : Prop :=
  rc_id row = hd_operation_id header ∧ rc_digest row = hd_digest header ∧ rc_op_kind row = name kind ∧
  rc_producer row = hd_producer header ∧ rc_ordinal row = as_i64 (hd_ordinal header).

(** One run of the lane's loop from a world, the receipts stored so far and
    the lane's uncertainty: its turns, the world it ends in and the receipts
    stored by then.  Operation identities are fresh, so another step stores a
    receipt of this operation only by running an attempt of this envelope that
    the lane has given up waiting for. *)
Inductive lane_run : WriterWorld → list ReceiptRow → option UnknownCause → list Turn →
    WriterWorld → list ReceiptRow → Prop :=
  | lr_stop w log u : lane_run w log u [] w log
  | lr_expired w log u turns : lane_run w log u (TnExpired :: turns) w log
  | lr_other w w1 log u turns w' log' :
      writer_step w w1 →
      (∀ r, r ∈ fresh_rows (world_db w) (world_db w1) → rc_id r = hd_operation_id header →
         u ≠ None ∧ envelope_row r) →
      lane_run w1 (log ++ fresh_rows (world_db w) (world_db w1)) u turns w' log' →
      lane_run w log u turns w' log'
  | lr_unreached w log u turns w' log' :
      lane_run w log u turns w' log' → lane_run w log u (TnUnreached :: turns) w' log'
  | lr_lost w log u (timed_out : bool) turns w' log' :
      lane_run w log (Some (if timed_out then UcDeadlineDuringExecution else UcTransport)) turns w' log' →
      lane_run w log u (TnLost timed_out :: turns) w' log'
  | lr_answered w log u fate an job q r answer turns :
      jb_header job = header → jb_kind job = kind → clock_true w (an_clock an) → job_true w job →
      handle_submit fate an (ww_queue w) authority job = (q, r) → lane_answer u r = inl answer →
      lane_run w log u (TnReply r :: turns) (with_queue q w) (log ++ fresh_rows (world_db w) (queue_db q))
  | lr_retried w log u fate an job q r u1 turns w' log' :
      jb_header job = header → jb_kind job = kind → clock_true w (an_clock an) → job_true w job →
      handle_submit fate an (ww_queue w) authority job = (q, r) → lane_answer u r = inr u1 →
      lane_run (with_queue q w) (log ++ fresh_rows (world_db w) (queue_db q)) u1 turns w' log' →
      lane_run w log u (TnReply r :: turns) w' log'.

(** The receipts of this operation. *)
Definition mine (log : list ReceiptRow) : list ReceiptRow := filter (λ r, rc_id r = hd_operation_id header) log.

(** What an answer says about them. *)
Definition truthful (log : list ReceiptRow) (answer : SubmitResult) : Prop :=
  match answer with
  | SrCommitted receipt =>
      ∃ row, mine log = [row] ∧ envelope_row row ∧ rc_result row = StoredCommitted (wrc_result receipt) ∧
        correlate header (Some (name kind)) answer = true
  | SrRejected refusal =>
      if rj_durable refusal
      then ∃ row stored, mine log = [row] ∧ envelope_row row ∧ rc_result row = StoredRejected stored ∧
             refusal = made_durable stored
      else mine log = []
  | SrNotEnqueued _ => mine log = []
  | SrUnknown _ => mine log = [] ∨ ∃ row, mine log = [row] ∧ envelope_row row
  end.

(** ** The lane's invariant *)

Record lane_inv (w : WriterWorld) (log : list ReceiptRow) (u : option UnknownCause) : Prop := {
  ln_ledger : ledger_inv w log;
  ln_rows : ∀ r, r ∈ log → rc_id r = hd_operation_id header → envelope_row r;
  ln_certain : u = None → ∀ r, r ∈ log → rc_id r ≠ hd_operation_id header;
}.

Lemma envelope_identity r s : envelope_row r → envelope_row s → identity r = identity s.
Proof. unfold identity. intros (-> & _ & _ & -> & ->) (-> & _ & _ & -> & ->). done. Qed.

Lemma mine_row w log u row :
  lane_inv w log u → row ∈ log → rc_id row = hd_operation_id header → mine log = [row].
Proof.
  intros [I Hrows _] Hr Hid. apply (filter_the identity); [apply (li_once _ _ I)|done..|].
  intros y Hy Hyid. apply envelope_identity; auto.
Qed.

Lemma mine_certain w log : lane_inv w log None → mine log = [].
Proof. intros I. apply filter_none. intros r Hr. by apply (ln_certain _ _ _ I). Qed.

Lemma mine_uncertain w log u :
  lane_inv w log u → mine log = [] ∨ ∃ row, mine log = [row] ∧ envelope_row row.
Proof.
  intros I. destruct (mine log) as [|row l] eqn:E; [by left|]. right. exists row.
  assert (row ∈ mine log) as [Hid Hr]%list_elem_of_filter by (rewrite E; left).
  split; [|by apply (ln_rows _ _ _ I)]. rewrite <-E. by eapply mine_row.
Qed.

Lemma expired_truthful w log u : lane_inv w log u → truthful log (lane_expired u).
Proof. intros I. destruct u; simpl; [by eapply mine_uncertain|by eapply mine_certain]. Qed.

(** ** One attempt *)

Lemma replay_correlates row r w log u :
  lane_inv w log u → row ∈ log → rc_id row = hd_operation_id header → 0 ≤ hd_ordinal header ≤ u64_MAX →
  replay (hd_operation_id header) row true = Ok r → truthful log r ∧ lane_answer u r = inl r.
Proof.
  intros I Hr Hid Hord Er. pose proof (ln_rows _ _ _ I row Hr Hid) as Hrow. pose proof (mine_row _ _ _ _ I Hr Hid) as Hm.
  pose proof Hrow as (_ & Hd & Hk & Hp & Ho).
  assert (rc_ordinal row = hd_ordinal header) as Eo.
  { rewrite Ho. apply as_i64_nonneg; [unfold u64_MAX in Hord; lia|]. rewrite <-Ho.
    by apply (li_ordinals _ _ (ln_ledger _ _ _ I)). }
  unfold replay in Er. destruct (rc_result row) as [v|refusal] eqn:Eres.
  2:{ injection Er as <-. split; [|done]. simpl. by exists row, refusal. }
  destruct (digest_parse (rc_digest row)) as [d|] eqn:Ed; [|done]. destruct (parse_scope _) as [sc|]; [|done].
  injection Er as <-. split; [|done]. exists row. split_and!; try done. simpl.
  assert (d = rc_digest row) as -> by (unfold digest_parse in Ed; by destruct (_ || _); simplify_eq/=).
  rewrite Eo, !bool_decide_eq_true_2 by done. by rewrite Z.eqb_refl.
Qed.

(** The answers a lane gives up on, or not, when nothing was stored. *)
Lemma inconclusive_answer w log u r :
  lane_inv w log u → inconclusive r →
  match lane_answer u r with
  | inl answer => truthful log answer
  | inr u1 => u1 = None → u = None
  end.
Proof.
  intros I Hi. destruct r as [receipt|refusal|reason|cause]; simpl in *; [done|..].
  - rewrite Hi. destruct (bool_decide _); [done|]. destruct u as [c|]; [by eapply mine_uncertain|].
    simpl. rewrite Hi. by eapply mine_certain.
  - destruct (transient reason); [done|]. destruct u as [c|]; [by eapply mine_uncertain|by eapply mine_certain].
  - done.
Qed.

Lemma receipt_envelope job row :
  jb_header job = header → jb_kind job = kind → receipt_of job row → envelope_row row.
Proof. unfold receipt_of, envelope_row. by intros -> ->. Qed.

Lemma attempt w log u fate an job q r :
  lane_inv w log u → jb_header job = header → jb_kind job = kind → clock_true w (an_clock an) → job_true w job →
  handle_submit fate an (ww_queue w) authority job = (q, r) →
  let log' := log ++ fresh_rows (world_db w) (queue_db q) in
  match lane_answer u r with
  | inl answer => truthful log' answer
  | inr u1 => lane_inv (with_queue q w) log' u1
  end.
Proof.
  intros I Hh Hk Hc Hj E log'. pose proof (ln_ledger _ _ _ I) as L.
  assert (called w (sw_epoch (qu_writer (ww_queue w))) (an_at an) authority job q r) as Hcd
    by (by eapply handle_called).
  assert (ledger_inv (with_queue q w) log') as L' by (by eapply called_ledger).
  assert (queue_db q = world_db w → log' = log) as Hsame.
  { intros Eq. unfold log'. rewrite Eq, same_fresh_rows, app_nil_r; [done|]. apply (li_numbered _ _ L). }
  destruct Hcd as [Eq Hi|row Eq Es _ _ Er|res seq tx sub S Hr].
  - rewrite (Hsame Eq) in *. pose proof (inconclusive_answer _ _ _ _ I Hi) as Ha.
    destruct (lane_answer u r) as [answer|u1]; [done|]. split; [done|apply (ln_rows _ _ _ I)|].
    intros ->. apply (ln_certain _ _ _ I). by apply Ha.
  - rewrite (Hsame Eq) in *. rewrite Hh in Es, Er. apply first_where_Some in Es as [Hid Hin].
    destruct (replay_correlates row r w log u I) as [Ht ->]; try done.
    + by apply (li_logged _ _ L).
    + rewrite <-Hh. apply Hj.
  - set (row := receipt_row seq sub authority (scope_of sub) res (an_at an)).
    assert (log' = log ++ [row]) as Elog
      by (unfold log'; by rewrite (settled_fresh_rows _ _ _ _ _ _ _ _ _ (li_numbered _ _ L) S)).
    assert (envelope_row row) as Hrow by (apply (receipt_envelope job); [done..|]; apply receipt_row_of).
    assert (∀ c, lane_inv (with_queue q w) log' (Some c)) as I'.
    { intros c. split; [done| |done]. rewrite Elog.
      intros x [Hx| ->%list_elem_of_singleton]%elem_of_app Hid; [by apply (ln_rows _ _ _ I)|done]. }
    assert (mine log' = [row]) as Hm.
    { apply (mine_row _ _ _ _ (I' UcTransport)); [|apply Hrow]. rewrite Elog. apply elem_of_app. right. left. }
    destruct Hr as [->|[cause ->]]; [|apply I'].
    pose proof Hrow as (_ & _ & _ & _ & _). destruct res as [v|refusal]; simpl.
    + exists row. split_and!; try done. unfold sub. rewrite job_sub_header, job_sub_kind, Hh, Hk.
      rewrite !bool_decide_eq_true_2 by done. by rewrite Z.eqb_refl.
    + destruct (sx_effect _ _ _ _ _ _ _ _ _ S) as [_ Hd]. rewrite Hd. simpl. rewrite Hd. exists row, refusal.
      split_and!; try done. destruct refusal; simpl in *. by subst.
Qed.

Lemma lane_run_truthful w log u turns w' log' answer :
  lane_run w log u turns w' log' → lane_inv w log u → drive u turns = Some answer → truthful log' answer.
Proof.
  induction 1 as [|w log u turns|w w1 log u turns w' log' Hs Hother _ IH|w log u turns w' log' _ IH
    |w log u timed_out turns w' log' _ IH|w log u fate an job q r answer' turns Hh Hk Hc Hj E Ea
    |w log u fate an job q r u1 turns w' log' Hh Hk Hc Hj E Ea _ IH]; intros I Hd; simpl in Hd.
  - done.
  - injection Hd as <-. by eapply expired_truthful.
  - apply IH; [|done]. split.
    + apply step_ledger; [apply (ln_ledger _ _ _ I)|done].
    + intros r [Hr|Hr]%elem_of_app Hid; [by apply (ln_rows _ _ _ I)|by apply Hother].
    + intros -> r [Hr|Hr]%elem_of_app; [by apply (ln_certain _ _ _ I)|]. intros Hid. by destruct (Hother r Hr Hid).
  - by apply IH.
  - apply IH; [|done]. split; [apply (ln_ledger _ _ _ I)|apply (ln_rows _ _ _ I)|done].
  - rewrite Ea in Hd. injection Hd as <-. pose proof (attempt _ _ _ _ _ _ _ _ I Hh Hk Hc Hj E) as Ht.
    by rewrite Ea in Ht.
  - rewrite Ea in Hd. pose proof (attempt _ _ _ _ _ _ _ _ I Hh Hk Hc Hj E) as Ht. rewrite Ea in Ht. by apply IH.
Qed.
End lane.

(** C9: A lane's answer is the truth.  A producer submits an envelope with a
    fresh identity to a writer in any state its history can reach, and retries
    it as the loop does, while other producers, faults, restarts and reboots
    go on and attempts whose replies were lost run late.  If the loop answers
    committed, exactly one receipt of this operation was ever stored, it is of
    this envelope, committed with the answered result, and the reply passes
    the lane's correlation check; if it answers a durable refusal, exactly one
    receipt was stored and it is that refusal; if it answers any other refusal
    or that nothing was enqueued, none was; and if it answers unknown, at most
    one was. *)
Theorem lane_truthful authority header kind w0 log w turns w' log' answer :
  new_world w0 → history w0 log w → (∀ r, r ∈ log → rc_id r ≠ hd_operation_id header) →
  lane_run authority header kind w log None turns w' log' → drive None turns = Some answer →
  truthful header kind log' answer.
Proof.
  intros Hn Hh Hf Hl Hd. eapply lane_run_truthful; [exact Hl| |exact Hd].
  split; [by apply (history_ledger w0)| |done]. intros r Hr Hid. by destruct (Hf r Hr).
Qed.
End lanes.

(** ** On the small writer *)

(** A first attempt commits and answers unknown; the second gets the receipt. *)
Definition trial_turns : list Turn := [TnReply (snd trial_unsure); TnReply trial_replayed].

Definition trial_retry : Queue * SubmitResult :=
  handle_submit (FtRun None) (trial_answers 6000) (fst trial_unsure) ABrokerSelf trial_job.

Lemma trial_lane :
  lane_run ABrokerSelf trial_header PoolOperatorPost trial_world [] None trial_turns
    (with_queue (fst trial_retry) trial_world1)
    (([] ++ fresh_rows (world_db trial_world) (world_db trial_world1))
       ++ fresh_rows (world_db trial_world1) (queue_db (fst trial_retry))).
Proof.
  assert (snd trial_retry = trial_replayed) as E by (vm_compute; reflexivity).
  assert (lane_answer None (snd trial_unsure) = inr (Some UcCommitUncertain)) as E1 by (vm_compute; reflexivity).
  assert (lane_answer (Some UcCommitUncertain) (snd trial_retry) = inl trial_replayed) as E2
    by (rewrite E, trial_committed; reflexivity).
  unfold trial_turns. rewrite <-E.
  refine (lr_retried _ _ _ trial_world _ _ (FtRun None) (trial_uncertain 6000) trial_job _ _ _ _ _ _ eq_refl eq_refl
            (conj eq_refl eq_refl) (trial_job_true _) (surjective_pairing _) E1 _).
  refine (lr_answered _ _ _ trial_world1 _ _ (FtRun None) (trial_answers 6000) trial_job _ _ _ _ eq_refl eq_refl
            (conj eq_refl eq_refl) (trial_job_true _) (surjective_pairing _) E2).
Qed.

Lemma lane_truthful_witness :
  drive None trial_turns = Some trial_replayed ∧
  ∃ row, mine trial_header
    (([] ++ fresh_rows (world_db trial_world) (world_db trial_world1))
       ++ fresh_rows (world_db trial_world1) (queue_db (fst trial_retry))) = [row].
Proof.
  assert (drive None trial_turns = Some trial_replayed) as Hd by (vm_compute; reflexivity). split; [exact Hd|].
  assert (∀ r : ReceiptRow, r ∈ [] → rc_id r ≠ hd_operation_id trial_header) as Hf
    by (intros r Hr; destruct (not_elem_of_nil _ Hr)).
  pose proof (lane_truthful ABrokerSelf trial_header PoolOperatorPost trial_world [] trial_world trial_turns _ _
                trial_replayed trial_new (hs_start _) Hf trial_lane Hd) as Ht.
  rewrite trial_committed in Ht.
  destruct Ht as (row & Hm & _). exists row. exact Hm.
Defined.

