(* ===== verification/PoolRows.v ===== *)
(** * The pool rows of the inventory, and what the writer keeps

    [agent-run-store/src/ops/dispatch.rs] on the rows whose units this
    development models: the facts a payload targets, the unit it runs inside
    the writer's transaction and the output stored in its receipt
    ([local_facts], [remote_facts], [run_local], [run_remote] and
    [pool_outcome]).

    The writer's store is then a run of the transition system of the pools:
    each transaction that commits is a sequence of its steps, and one that
    fails anywhere is none. *)

From stdpp Require Import relations.
From S2P Require Import Prelude Text Float64 Json Canonical Catalogs Lifecycle Requests.
From S2P Require Import PoolDomain Tables Demo Roster World History WorkerStore.
From S2P Require Import Sessions ServiceRestart PoolEnrollment PoolLog PoolWrites PoolSettle.
From S2P Require Import Settlement PoolReplace PoolAdmit Replacement Replays Admissions.
From S2P Require Import WorkerFinish Terminal Steps Posts PoolSystem Reachable.
From S2P Require Import Redact Evidence Failures Storage Inventory Receipts Writer Ledger WriterTrial OperationsOnce.
Import Kind.

(** ** Outputs *)

(** [PoolDenial] under serde's external tags. *)
Definition denial_json (d : PoolDenial) : Value :=
  match d with
  | NotPoolMember => Str "NotPoolMember"
  | PoolCompleted => Str "PoolCompleted"
  | StaleProposal current =>
      Obj [("StaleProposal", Obj [("current", match current with Some n => num n | None => Null end)])]%string
  | StaleRoster current => Obj [("StaleRoster", Obj [("current", num current)])]%string
  | DConflict => Str "Conflict"
  | ChatBudgetExhausted => Str "ChatBudgetExhausted"
  | ProposalBudgetExhausted => Str "ProposalBudgetExhausted"
  | VoteBudgetExhausted => Str "VoteBudgetExhausted"
  | MalformedChecks => Str "MalformedChecks"
  | NotPoolMemberRead => Str "NotPoolMemberRead"
  | PoolNotFound => Str "PoolNotFound"
  | MemberBusy => Str "MemberBusy"
  | MemberNotCurrent => Str "MemberNotCurrent"
  end.

(** [PoolOutcome]. *)
Definition done_json (v : Value) : Value := Obj [("outcome", Str "done"); ("value", v)]%string.
Definition denied_json (d : PoolDenial) : Value := Obj [("outcome", Str "denied"); ("value", denial_json d)]%string.

(** [PoolWriteOutput]. *)
Definition write_output (r : PoolWriteReceipt) : Value :=
  Obj [("duplicate", Bool (wr_duplicate r)); ("pool_id", Str (wr_pool r)); ("seq", num (wr_seq r))]%string.

Definition member_json (m : PoolMemberRecord) : Value :=
  Obj [("agent_id", Str (pmr_agent m)); ("name", Str (pmr_name m)); ("role", Str (pmr_role m));
       ("slot", num (pmr_slot m))]%string.

Definition completion_json (c : option PoolCompletion) : Value :=
  match c with
  | Some c => Obj [("bound", Bool (pc_bound c)); ("created", Bool (pc_created c));
                   ("delivery_id", Str (pc_delivery c)); ("pool_id", Str (pc_pool c))]%string
  | None => Null
  end.

(** The [state] column of a delivery. *)
Definition delivery_state_str (s : DeliveryState) : string :=
  match s with
  | WaitingBinding => "waiting_binding"
  | DPending => "pending"
  | DSending => "sending"
  | DDelivered => "delivered"
  | DRetryWait => "retry_wait"
  | DFailed => "failed"
  | DCancelled => "cancelled"
  | DExpired => "expired"
  end.

(** ** Payloads *)

(** [SettleTarget]. *)
Inductive SettleTarget :=
  | TgPool (pool : string)
  | TgOf (agent : string)
  | TgOpen (limit seed : Z).

(** The payloads of the modelled rows. *)
Inductive PoolOp (Inputs : Type) :=
  | OpAdmitPool (input : PoolAdmissionInput Inputs)
  | OpReplacePoolMember (input : PoolReplaceInput Inputs)
  | OpReconcilePoolEnrollments (pool : string)
  | OpPoolWrite (execution attempt token : string) (w : PoolLog.PoolWrite)
  | OpPoolOperatorPost (pool request_id message : string)
  | OpSettlePool (target : SettleTarget)
  | OpBindPool (pool : string) (reference : OrchestratorRef) (at_ : f64)
  | OpNotifyOrchestrator (execution attempt token : string) (input : NotifyRequest) (at_ : f64)
  | OpIssueWorkerCapability (execution attempt token : string) (at_ : f64)
  | OpRegisterWorkerCatalog (execution attempt token : string) (version : Z) (catalog : string) (at_ : f64)
  | OpAcceptWorkerFinish (execution attempt token : string) (input : FinishRequest) (at_ : f64) (guard : FinishGuard)
  | OpWorkerTurn (execution : string) (idle : bool) (at_ : f64)
  | OpObserveWorkerFinishReceipt (execution : string)
  | OpFinishTerminal (execution : string) (o : Outcome) (proof : option AnswerProof) (usage : option Value).
Arguments OpAdmitPool {Inputs}. Arguments OpReplacePoolMember {Inputs}.
Arguments OpReconcilePoolEnrollments {Inputs}. Arguments OpPoolWrite {Inputs}.
Arguments OpPoolOperatorPost {Inputs}. Arguments OpSettlePool {Inputs}. Arguments OpBindPool {Inputs}.
Arguments OpNotifyOrchestrator {Inputs}. Arguments OpIssueWorkerCapability {Inputs}.
Arguments OpRegisterWorkerCatalog {Inputs}. Arguments OpAcceptWorkerFinish {Inputs}.
Arguments OpWorkerTurn {Inputs}. Arguments OpObserveWorkerFinishReceipt {Inputs}.
Arguments OpFinishTerminal {Inputs}.

(** The clock and the fresh identifiers one unit draws. *)
Record OpEnv := mk_op_env {
  oe_now : f64;
  oe_uuid : string;
  oe_uuids : string → string;
  oe_env : Env;
  oe_settle : string → Env;               (* of each pool of a sweep *)
  oe_summary : option Value;
}.

(** ** Dispatch *)

Section dispatch.
Context {Inputs : Type}.

(** The inventory row of a payload. *)
Definition pool_kind (op : PoolOp Inputs) : OpKindRef :=
  match op with
  | OpAdmitPool _ => AdmitPool
  | OpReplacePoolMember _ => ReplacePoolMember
  | OpReconcilePoolEnrollments _ => ReconcilePoolEnrollments
  | OpPoolWrite _ _ _ _ => Kind.PoolWrite
  | OpPoolOperatorPost _ _ _ => PoolOperatorPost
  | OpSettlePool _ => SettlePool
  | OpBindPool _ _ _ => BindPool
  | OpNotifyOrchestrator _ _ _ _ _ => NotifyOrchestrator
  | OpIssueWorkerCapability _ _ _ _ => IssueWorkerCapability
  | OpRegisterWorkerCatalog _ _ _ _ _ _ => RegisterWorkerCatalog
  | OpAcceptWorkerFinish _ _ _ _ _ _ => AcceptWorkerFinish
  | OpWorkerTurn _ _ _ => WorkerTurn
  | OpObserveWorkerFinishReceipt _ => ObserveWorkerFinishReceipt
  | OpFinishTerminal _ _ _ _ => FinishTerminal
  end.

(** [local_facts] and [remote_facts]. *)
Definition pool_facts (op : PoolOp Inputs) : Facts :=
  match op with
  | OpPoolWrite execution attempt _ _
  | OpNotifyOrchestrator execution attempt _ _ _
  | OpIssueWorkerCapability execution attempt _ _
  | OpRegisterWorkerCatalog execution attempt _ _ _ _
  | OpAcceptWorkerFinish execution attempt _ _ _ _ => (Some execution, Some attempt, None)
  | OpWorkerTurn execution _ _
  | OpObserveWorkerFinishReceipt execution
  | OpFinishTerminal execution _ _ _ => (Some execution, None, None)
  | _ => (None, None, None)
  end.

Context `{Admission Inputs, Serde, EventJson, Unicode, Host, Sha256, JsonSchema}.

(** A settlement's output, or its error. *)
Definition settled_output {A} (output : A → Value) (x : Db * result A) : Failure + (Db * Value) :=
  let '(db, r) := x in
  match r with Ok a => inr (db, Obj [("settled", output a)]%string) | Err e => inl (Domain e) end.

(** A pool verdict as [PoolOutcome]: a denial changes nothing. *)
Definition outcome_output {A} (db : Db) (output : A → Value) (r : result (verdict A)) : Failure + (Db * Value) :=
  match r with
  | Ok (Accepted db' a) => inr (db', done_json (output a))
  | Ok (Denied d) => inr (db, denied_json d)
  | Err e => inl (Domain e)
  end.

(** A unit's output. *)
Definition plain_output {A} (output : A → Value) (r : result (Db * A)) : Failure + (Db * Value) :=
  match r with Ok (db', a) => inr (db', output a) | Err e => inl (Domain e) end.

(** [run_local] and [run_remote] on the pool tables. *)
Definition run_pool (env : OpEnv) (op : PoolOp Inputs) (db : Db) : Failure + (Db * Value) :=
  match op with
  | OpAdmitPool input =>
      plain_output
        (λ a, Obj [("created", Bool (pd_created a)); ("members", Arr (map member_json (pd_members a)));
                   ("pool_id", Str (pd_pool a))]%string)
        (admit_pool db input (oe_uuid env) (oe_uuids env))
  | OpReplacePoolMember input =>
      outcome_output db
        (λ r, Obj [("created", Bool (rp_created r)); ("new", member_json (rp_new r)); ("old", member_json (rp_old r));
                   ("pool_id", Str (rp_pool_id r)); ("roster_revision", num (rp_revision r))]%string)
        (replace_pool_member db input (oe_now env))
  | OpReconcilePoolEnrollments pool =>
      match reconcile_pool_enrollments db pool (oe_now env) (oe_uuids env) with
      | Ok db' => inr (db', Null)
      | Err e => inl (Domain e)
      end
  | OpPoolWrite execution attempt token w =>
      outcome_output db write_output (pool_write db execution attempt token w (oe_env env))
  | OpPoolOperatorPost pool request_id message =>
      outcome_output db write_output (pool_operator_post db pool request_id message)
  | OpSettlePool target =>
      match target with
      | TgPool pool => settled_output completion_json (settle_pool db pool (oe_env env))
      | TgOf agent => settled_output completion_json (settle_pool_of db agent (oe_env env))
      | TgOpen limit seed =>
          if (limit =? 0) || (64 <? limit) then inl (Domain (invalid "pool settlement batch must be 1..=64"))
          else settled_output num (settle_open_pools db limit seed (oe_settle env))
      end
  | OpBindPool pool reference at_ =>
      plain_output Str (bind_pool db pool reference at_ (oe_uuid env) (oe_uuids env))
  | OpNotifyOrchestrator execution attempt token input at_ =>
      plain_output
        (λ r, Obj [("duplicate", Bool (nr_duplicate r)); ("notification_id", Str (nr_notification_id r));
                   ("state", Str (delivery_state_str (nr_state r)))]%string)
        (notify_orchestrator db execution attempt token input at_ (oe_uuid env))
  | OpIssueWorkerCapability execution attempt token at_ =>
      plain_output (λ _, Null) (issue_worker_capability db execution attempt token at_)
  | OpRegisterWorkerCatalog execution attempt token version catalog at_ =>
      plain_output (λ _, Null) (register_worker_catalog db execution attempt token version catalog at_)
  | OpAcceptWorkerFinish execution attempt token input at_ guard =>
      plain_output (λ r, Obj [("duplicate", Bool (frc_duplicate r)); ("sha256", Str (frc_sha256 r))]%string)
        (accept_worker_finish db execution attempt token input at_ guard)
  | OpWorkerTurn execution idle at_ => plain_output Bool (worker_turn db execution idle at_)
  | OpObserveWorkerFinishReceipt execution => inr (observe_worker_finish_receipt db execution, Null)
  | OpFinishTerminal execution o proof usage =>
      match commit_terminal db execution o proof usage (oe_now env) (oe_uuid env) (oe_summary env) with
      | Err e => inl (Domain e)
      | Ok (db', _) =>
          match first_where (λ a, ag_id a = execution) (db_agents db') with
          | Some a => inr (db', Str (Status.as_str (ag_status a)))
          | None => inl (Domain (NotFound execution))
          end
      end
  end.

(** The same unit on the whole store. *)
Definition pool_unit (env : OpEnv) (op : PoolOp Inputs) (st : StoreDb) : Failure + (StoreDb * Value) :=
  match run_pool env op (sd_db st) with
  | inl f => inl f
  | inr (db, v) =>
      inr (mk_store db (sd_supervisors st) (sd_generations st) (sd_probes st) (sd_layouts st), v)
  end.

(** What the broker has checked before it builds a payload. *)
Definition op_valid (op : PoolOp Inputs) : Prop :=
  match op with
  | OpAdmitPool input => valid_pool input
  | OpReplacePoolMember input => valid_input input
  | OpPoolOperatorPost pool request_id message => pool_post_validate (mk_post pool request_id message) = Ok ()
  | _ => True
  end.

(** ** Units are runs of the transition system *)

Lemma quiet_steps db db' : quiet db db' → rtc step db db'.
Proof. intros Q. by apply rtc_once, step_other. Qed.

Lemma plain_steps {A} (output : A → Value) r db db' v :
  plain_output output r = inr (db', v) → (∀ d a, r = Ok (d, a) → rtc step db d) → rtc step db db'.
Proof. unfold plain_output. destruct r as [[d a]|e]; [|done]. intros [= <- _]. by eauto. Qed.

Lemma outcome_steps {A} (output : A → Value) r db db' v :
  outcome_output db output r = inr (db', v) → (∀ d a, r = Ok (Accepted d a) → rtc step db d) → rtc step db db'.
Proof. unfold outcome_output. destruct r as [[d a|d]|e]; [|by intros [= <- _]|done]. intros [= <- _]. by eauto. Qed.

Lemma settle_steps db pool env : rtc step db (fst (settle_pool db pool env)).
Proof. destruct (settle_pool db pool env) as [d r] eqn:E. by eapply rtc_once, step_settle. Qed.

Lemma sweep_steps pools env db n : rtc step db (fst (settle_each db pools env n)).
Proof.
  revert db n. induction pools as [|pool pools IH]; intros db n; simpl; [done|].
  pose proof (settle_steps db pool (env pool)) as S. destruct (settle_pool db pool (env pool)) as [d [r|e]]; [|done].
  etrans; [exact S|]. apply IH.
Qed.

Lemma settled_steps {A} (output : A → Value) x db db' v :
  settled_output output x = inr (db', v) → rtc step db (fst x) → rtc step db db'.
Proof. unfold settled_output. destruct x as [d [a|e]]; [|done]. by intros [= <- _]. Qed.

Lemma pool_write_steps db run attempt token w env d r :
  pool_write db run attempt token w env = Ok (Accepted d r) → rtc step db d.
Proof.
  unfold pool_write. destruct (pool_write_tx _ _ _ _ _ _) as [[d1 r1|]|] eqn:E; try done. cbn.
  assert (rtc step db d1) as S by (by eapply rtc_once, step_write).
  destruct (_ && _); intros [= <- _]; [|done]. etrans; [exact S|apply settle_steps].
Qed.

Lemma run_pool_steps env op db db' v : op_valid op → run_pool env op db = inr (db', v) → rtc step db db'.
Proof.
  destruct op as [input|input|pool|run attempt token w|pool key message|target|pool r at_|run attempt token input at_
    |run attempt token at_|run attempt token version catalog at_|run attempt token input at_ guard|run idle at_|run
    |run o proof usage]; cbn [op_valid run_pool]; intros Hv E.
  - eapply plain_steps; [exact E|]. intros d a Ea. by eapply rtc_once, step_admit_pool.
  - eapply outcome_steps; [exact E|]. intros d a Ea. by eapply rtc_once, step_replace.
  - destruct (reconcile_pool_enrollments _ _ _ _) as [d|] eqn:Er; [|done]. injection E as <- _.
    by eapply quiet_steps, reconcile_quiet.
  - eapply outcome_steps; [exact E|]. intros d a Ea. by eapply pool_write_steps.
  - eapply outcome_steps; [exact E|]. intros d a Ea. by eapply rtc_once, step_operator.
  - destruct target as [pool|agent|limit seed].
    + eapply settled_steps; [exact E|apply settle_steps].
    + eapply settled_steps; [exact E|]. unfold settle_pool_of. destruct (open_pool_of db agent); [apply settle_steps|done].
    + destruct (_ || _); [done|]. eapply settled_steps; [exact E|apply sweep_steps].
  - eapply plain_steps; [exact E|]. intros d a Ea. by eapply rtc_once, step_bind.
  - eapply plain_steps; [exact E|]. intros d a Ea. by eapply rtc_once, step_report.
  - eapply plain_steps; [exact E|]. intros d a Ea. by eapply rtc_once, step_issue.
  - eapply plain_steps; [exact E|]. intros d a Ea. by eapply rtc_once, step_register.
  - eapply plain_steps; [exact E|]. intros d a Ea. by eapply rtc_once, step_finish.
  - eapply plain_steps; [exact E|]. intros d a Ea. by eapply rtc_once, step_turn.
  - injection E as <- _. by eapply rtc_once, step_receipt.
  - destruct (commit_terminal _ _ _ _ _ _ _ _) as [[d r]|] eqn:Et; [|done].
    destruct (first_where _ _); [|done]. injection E as <- _. by eapply rtc_once, step_terminal.
Qed.

(** ** The writer refines the pools *)

Context `{Chrono, JsonParser, SqliteDriver}.

(** The units of this file, pruning and recovery observations. *)
Definition pool_work (w : Work) : Prop :=
  match w with
  | WkUnit run => ∃ env op, op_valid op ∧ run = pool_unit env op
  | _ => True
  end.

(** A run of the writer whose submissions are pool work. *)
Inductive pool_run (w0 : WriterWorld) : WriterWorld → Prop :=
  | pr_start : pool_run w0 w0
  | pr_call w fate an authority job q r :
      pool_run w0 w → pool_work (jb_work job) →
      handle_submit fate an (ww_queue w) authority job = (q, r) → pool_run w0 (with_queue q w)
  | pr_clock w ns : pool_run w0 w → pool_run w0 (mk_world (ww_queue w) (ww_boot w) ns (ww_past w))
  | pr_reopen w boot ns past :
      pool_run w0 w → pool_run w0 (mk_world (reopened (world_db w)) boot ns past)
  | pr_seal w :
      pool_run w0 w →
      pool_run w0 (with_queue (mk_queue (qu_writer (ww_queue w)) (qu_poisoned (ww_queue w)) true) w).

Definition pools (w : WriterWorld) : Db := sd_db (wd_store (world_db w)).

Lemma record_recovery_steps db op at_ d r :
  record_recovery db op at_ = Ok (d, r) → rtc step (sd_db (wd_store db)) (sd_db (wd_store d)).
Proof.
  unfold record_recovery. destruct (negb (closed_label _)); [done|]. destruct (_ || _); [done|].
  destruct (negb (bool_decide _)); [done|].
  destruct (first_where _ _) as [x|]; [destruct (negb _); [done|]; by intros [= <- _]|].
  destruct (match stored db _ with Some _ => _ | None => _ end); [done|].
  destruct (insert_event _ _ _ _ _) as [base n] eqn:Ei. intros [= <- _]. simpl.
  apply quiet_steps. change base with (fst (base, n)). rewrite <-Ei. by apply quiet_event.
Qed.

Lemma perform_steps w db tx v :
  pool_work w → perform w db = inr (tx, v) → rtc step (sd_db (wd_store db)) (sd_db (wd_store tx)).
Proof.
  destruct w as [run|op live budget|op at_]; simpl; intros Hw E.
  - destruct Hw as (env & op & Hv & ->). unfold pool_unit in E.
    destruct (run_pool env op (sd_db (wd_store db))) as [|[d v1]] eqn:Er; simplify_eq/=. by eapply run_pool_steps.
  - destruct (prune_receipts db live op budget) as [|[d n]] eqn:Ep; simplify_eq/=.
    unfold prune_receipts in Ep. destruct (receipt_prune_candidates _ _ _ _) as [|[rs ks]]; [done|].
    rewrite (apply_pruning_store _ _ _ _ _ _ Ep). done.
  - destruct (record_recovery db op at_) as [[d r]|] eqn:Er; simplify_eq/=. by eapply record_recovery_steps.
Qed.

Lemma call_steps fate an q authority job q' r :
  pool_work (jb_work job) → handle_submit fate an q authority job = (q', r) →
  rtc step (sd_db (wd_store (queue_db q))) (sd_db (wd_store (queue_db q'))).
Proof.
  intros Hw E. apply handle_reply in E as [Hr _]. remember (queue_db q') as db1.
  destruct Hr as [r Hi|row r Es _ _ Er|boot ns res db2 seq r Ec sub Hst Hr]; [done..|].
  destruct Hst as [tx v db3 seq1 _ _ _ Ew Ei|refusal p db3 seq1 _ _ _ _ _ Ei];
    apply insert_receipt_inserted, in_store in Ei as [Ei _]; rewrite Ei; [|done]. by eapply perform_steps.
Qed.

(** C10: The writer refines the pools.  Take any run of the writer from an
    empty store: pool rows of the inventory submitted by anyone, pruning and
    recovery observations, with SQLite failing at any boundary, results lost,
    connections poisoned, and the process or the machine restarted in between.
    The committed pool tables are a state the transition system of the pools
    reaches from the empty store, and so they are sound: no transaction is
    ever half applied. *)
Theorem writer_refines_pools w0 w :
  pools w0 = initial → pool_run w0 w → rtc step initial (pools w) ∧ sound (pools w).
Proof.
  intros E0 Hr. assert (rtc step initial (pools w)) as R; [|split; [done|by apply (steps_sound _ _ initial_sound)]].
  induction Hr as [|w fate an authority job q r _ IH Hw E|w ns _ IH|w boot ns past _ IH|w _ IH]; try exact IH.
  - by rewrite E0.
  - etrans; [exact IH|]. by eapply call_steps.
Qed.
End dispatch.

(** ** On the small writer *)

(** The broker admits two members; the commit answers unknown. *)
Definition trial_env : OpEnv :=
  mk_op_env (of_Z 100) "s" (λ a, a) (mk_env (of_Z 100) (λ a, a) "u") (λ _, mk_env (of_Z 100) (λ a, a) "u") None.

Definition trial_admission : Job :=
  mk_job trial_header AdmitPool (pool_facts (OpAdmitPool demo_start)) no_checks None
    (WkUnit (pool_unit trial_env (OpAdmitPool demo_start))).

Definition trial_admitted : Queue * SubmitResult :=
  handle_submit (FtRun None) (trial_uncertain 6000) trial_queue ABrokerSelf trial_admission.

Lemma trial_pool_run : pool_run (Inputs := ()) trial_world (with_queue (fst trial_admitted) trial_world).
Proof.
  refine (pr_call _ trial_world (FtRun None) (trial_uncertain 6000) ABrokerSelf trial_admission _ _ (pr_start _) _
            (surjective_pairing _)).
  exists trial_env, (OpAdmitPool demo_start). split; [exact demo_start_valid|reflexivity].
Qed.

Lemma writer_refines_pools_witness :
  sound (pools (with_queue (fst trial_admitted) trial_world)) ∧
  length (db_pools (pools (with_queue (fst trial_admitted) trial_world))) = 1%nat.
Proof.
  split; [|vm_compute; reflexivity]. refine (proj2 (writer_refines_pools trial_world _ eq_refl trial_pool_run)).
Defined.

