(* ===== verification/Failover.v ===== *)
(** * Moving between accounts

    Admissions, the phases of attempts, allocations and terminal commits as
    one transition system, and what it keeps: the attempts of a provider run
    are numbered in the order of their allocation, each on another account of
    the frozen scope, at most the last one owned. *)

From stdpp Require Import relations.
From S2P Require Import Prelude Text Float64 Json Canonical Lifecycle Requests PoolDomain.
From S2P Require Import ProviderCatalog Tables Demo Roster World WorkerStore Sessions ServiceRestart.
From S2P Require Import PoolReplace WorkerFinish Evidence LaunchIdentity Terminal Restart ProviderAdmit.
From S2P Require Import Selection Attempts Starts LaunchDemo Supervision StoreFrames.

(** ** What does not change *)

(** An attempt keeps its place and its account, and does not regain ownership. *)
Record same_attempt (t t' : AttemptRow) : Prop := {
  sa_id : at_id t' = at_id t;
  sa_agent : at_agent t' = at_agent t;
  sa_number : at_number t' = at_number t;
  sa_account : at_account t' = at_account t;
  sa_owned : at_owned t' = true → at_owned t = true;
}.

(** An execution keeps its frozen identity and its intent. *)
Record same_launch (l l' : LaunchRow) : Prop := {
  sl_agent : la_agent l' = la_agent l;
  sl_identity : la_identity l' = la_identity l;
  sl_intent : la_intent l' = la_intent l;
}.

Record keeps (db db' : Db) : Prop := {
  kp_agents : map ag_id (db_agents db) ⊆ map ag_id (db_agents db');
  kp_attempts : Forall2 same_attempt (db_attempts db) (db_attempts db');
  kp_launches : Forall2 same_launch (launches db) (launches db');
}.

#[global] Instance same_attempt_refl : Reflexive same_attempt.
Proof. by intros t. Qed.
#[global] Instance same_attempt_trans : Transitive same_attempt.
Proof. intros t u v [] []. split; [congruence..|auto]. Qed.
#[global] Instance same_launch_refl : Reflexive same_launch.
Proof. by intros l. Qed.
#[global] Instance same_launch_trans : Transitive same_launch.
Proof. intros l m n [] []. split; congruence. Qed.
#[global] Instance keeps_refl : Reflexive keeps.
Proof. by split. Qed.
#[global] Instance keeps_trans : Transitive keeps.
Proof. intros a b c [] []. split; by etrans. Qed.

Lemma update_where_related {A} (R : A → A → Prop) `{!Reflexive R} (P : A → Prop) `{∀ x, Decision (P x)} f l :
  (∀ x, R x (f x)) → Forall2 R l (update_where P f l).
Proof.
  intros Hf. unfold update_where. induction l as [|x l IH]; [constructor|]. simpl. constructor; [|done].
  destruct (decide (P x)); [apply Hf|done].
Qed.

(** ** The frozen scope *)

(** The accounts a provider run may use. *)
Definition frozen_scope `{LaunchSerde} (l : LaunchRow) : option (list string) :=
  match la_identity l with
  | Some frozen =>
      if decide (json_index "provider_identity_version" frozen = num 2)
      then option_map au_eligible_accounts (authority_from_value (json_index "authority" frozen)) else None
  | None => None
  end.

Definition attempts_of (db : Db) (id : string) : list AttemptRow := filter (λ t, at_agent t = id) (db_attempts db).

(** The attempts of one run. *)
Record chain (scope : list string) (T : list AttemptRow) : Prop := {
  ch_numbers : map at_number T = seqZ 1 (Z.of_nat (length T));
  ch_accounts : ∃ used, map at_account T = map Some used ∧ NoDup used ∧ used ⊆ scope;
  ch_owned : ∀ t, t ∈ T → at_owned t = true → at_number t = Z.of_nat (length T);
}.

Record wf_runs `{LaunchSerde} (db : Db) : Prop := {
  so_attempts : ∀ t, t ∈ db_attempts db → at_agent t ∈ map ag_id (db_agents db);
  so_launches : ∀ l, l ∈ launches db → la_agent l ∈ map ag_id (db_agents db);
  so_keys : NoDup (map la_agent (launches db));
  so_chain : ∀ l scope, l ∈ launches db → frozen_scope l = Some scope → Z.of_nat (length scope) < 2 ^ 32 →
    chain scope (attempts_of db (la_agent l)) ∧
    (la_intent l = Some SkPinned → (length (attempts_of db (la_agent l)) ≤ 1)%nat);
}.

(** A run with attempts froze an authority of the typed form. *)
Definition typed_identity (l : LaunchRow) : Prop :=
  ∃ frozen a, la_identity l = Some frozen ∧ json_index "authority" frozen = authority_value a ∧ authority_typed a.

Definition provider_run (l : LaunchRow) : Prop :=
  ∃ frozen, la_identity l = Some frozen ∧ json_index "provider_identity_version" frozen = num 2.
Definition typed_runs (db : Db) : Prop :=
  ∀ l, l ∈ launches db → provider_run l → attempts_of db (la_agent l) = [] ∨ typed_identity l.

Definition runs_inv `{LaunchSerde} (db : Db) : Prop := wf_runs db ∧ typed_runs db.

(** Distinct accounts of a scope are no more than the scope has. *)
Lemma used_bound (used scope : list string) : NoDup used → used ⊆ scope → (length used ≤ length scope)%nat.
Proof. intros Hn Hs. apply NoDup_incl_length; [by apply NoDup_ListNoDup|]. intros x. rewrite <-!list_elem_of_In. apply Hs. Qed.

Lemma chain_bound scope T : chain scope T → (length T ≤ length scope)%nat.
Proof.
  intros [_ (used & E & Hn & Hs) _]. apply (f_equal length) in E. rewrite !length_map in E. rewrite E. by apply used_bound.
Qed.

Lemma Forall2_map_eq {A B} (R : A → A → Prop) (f : A → B) l l' :
  (∀ x y, R x y → f y = f x) → Forall2 R l l' → map f l' = map f l.
Proof. intros Hf. induction 1 as [|x y l l' Hx _ IH]; [done|]. simpl. by rewrite IH, (Hf x y). Qed.

Lemma chain_same scope T T' : Forall2 same_attempt T T' → chain scope T → chain scope T'.
Proof.
  intros F [Hn Ha Ho]. pose proof (Forall2_length _ _ _ F) as El. split.
  - rewrite (Forall2_map_eq same_attempt) with (l := T); [by rewrite <-El|by intros ? ? []|done].
  - by rewrite (Forall2_map_eq same_attempt) with (l := T) by (done || by intros ? ? []).
  - intros t' Ht Hw. destruct (related_r _ _ _ _ F Ht) as (t & Hin & []). rewrite sa_number0, <-El. auto.
Qed.

Section system.
Context `{Sha256, LaunchSerde, JsonWriter, ProcessTable, FileSystem}.

Lemma same_launch_scope l l' : same_launch l l' → frozen_scope l' = frozen_scope l.
Proof. intros [_ E _]. unfold frozen_scope. by rewrite E. Qed.

Lemma attempts_of_same db db' id : keeps db db' → Forall2 same_attempt (attempts_of db id) (attempts_of db' id).
Proof.
  intros [_ Ft _]. apply filter_related; [|done]. intros x x' []. by rewrite sa_agent0.
Qed.

Lemma keeps_sound db db' : keeps db db' → wf_runs db → wf_runs db'.
Proof.
  intros Hk [Ht Hl Hd Hc]. pose proof Hk as [Ka Kt Kl]. split.
  - intros t' Hin. destruct (related_r _ _ _ _ Kt Hin) as (t & Hi & []). rewrite sa_agent0. by apply Ka, Ht.
  - intros l' Hin. destruct (related_r _ _ _ _ Kl Hin) as (l & Hi & []). rewrite sl_agent0. by apply Ka, Hl.
  - by rewrite (Forall2_map_eq same_launch la_agent (launches db)) by (done || by intros ? ? []).
  - intros l' scope Hin Es Hlen. destruct (related_r _ _ _ _ Kl Hin) as (l & Hi & Hs).
    rewrite (same_launch_scope l l' Hs) in Es. destruct Hs as [-> _ ->].
    destruct (Hc l scope Hi Es Hlen) as [Hch Hp]. pose proof (attempts_of_same db db' (la_agent l) Hk) as F. split.
    + by eapply chain_same.
    + rewrite <-(Forall2_length _ _ _ F). done.
Qed.

Lemma keeps_inv db db' : keeps db db' → runs_inv db → runs_inv db'.
Proof.
  intros Hk [Hw Hty]. split; [by eapply keeps_sound|]. intros l' Hin Hp.
  destruct (related_r _ _ _ _ (kp_launches _ _ Hk) Hin) as (l & Hi & [-> Ei _]). unfold provider_run in Hp. rewrite Ei in Hp.
  pose proof (attempts_of_same db db' (la_agent l) Hk) as F.
  destruct (Hty l Hi Hp) as [E|(frozen & a & El & ?)]; [left|right].
  - rewrite E in F. by apply Forall2_nil_inv_l in F.
  - exists frozen, a. by rewrite Ei.
Qed.

(** ** Steps that keep everything *)

Lemma keeps_attempts db P `{∀ t, Decision (P t)} f :
  (∀ t, same_attempt t (f t)) → keeps db (set_attempts (update_where P f (db_attempts db)) db).
Proof. intros Hf. split; try done. by apply update_where_related; [apply _|]. Qed.

Lemma keeps_evidence db attempt f : keeps db (update_evidence attempt f db).
Proof. by split. Qed.

Lemma update_one_keeps P `{∀ t, Decision (P t)} f db db' :
  (∀ t, same_attempt t (f t)) → update_one P f db = Ok db' → keeps db db'.
Proof. intros Hf. unfold update_one. destruct (negb _); [done|]. intros [= <-]. by apply keeps_attempts. Qed.

Lemma spawning_keeps db id attempt db' b : provider_spawning db id attempt = Ok (db', b) → keeps db db'.
Proof.
  unfold provider_spawning. destruct (update_one _ _ _) as [d|] eqn:E.
  - intros [= <- _]. by apply update_one_keeps in E.
  - destruct (cancel_requested _ _); [by intros [= <- _]|done].
Qed.

Lemma process_evidence_keeps db id attempt leader integration db' :
  provider_process_evidence db id attempt leader integration = Ok db' → keeps db db'.
Proof.
  unfold provider_process_evidence. destruct (check_opt _ _); [|done]. destruct (is_some_and _ _); [done|].
  destruct (update_one _ _ _) as [d|] eqn:E; [|done]. intros [= <-]. apply update_one_keeps in E; [|done].
  etrans; [exact E|]. apply keeps_evidence.
Qed.

Lemma cleanup_keeps db id attempt proof db' : provider_cleanup db id attempt proof = Ok db' → keeps db db'.
Proof. unfold provider_cleanup. destruct (negb _); [done|]. by apply update_one_keeps. Qed.

Lemma rerunning_keeps db id attempt pgid db' : provider_rerunning db id attempt pgid = Ok db' → keeps db db'.
Proof.
  unfold provider_rerunning. destruct (update_one _ _ _) as [d|] eqn:E; [|done]. destruct (negb _); [done|].
  intros [= <-]. apply update_one_keeps in E; [|done]. etrans; [exact E|]. split; [done|done|].
  apply update_where_related; [apply _|done].
Qed.

Lemma never_spawned_keeps db id : keeps db (fst (provider_never_spawned db id)).
Proof. by apply keeps_attempts. Qed.

Lemma history_keeps db id attempt state cooldown at_ db' :
  provider_history_with_cooldown db id attempt state cooldown at_ = Ok db' → keeps db db'.
Proof.
  unfold provider_history_with_cooldown, record_cooldown, advance_capacity. intros E. cbv zeta in E.
  destruct (first_where _ (db_agents db)); [|done]. destruct (first_where _ (db_attempts db)) as [t|]; [|done].
  simpl in E. destruct (negb (Bool.eqb _ _)); [done|]. destruct (is_some _ && _); [done|].
  destruct cooldown as [reason|]; [|by injection E as <-]. destruct (_ || _); [done|].
  destruct (negb _); [done|]. destruct (cooldown_subject _ _ _ _ _) as [[provider account]|]; [|done].
  destruct (is_some _); [by injection E as <-|]. destruct (_ || _); [done|].
  destruct (first_where _ (cooldowns db)) as [old|]; [destruct (flt _ _)|].
  all: cbn [fst snd] in E; try destruct (negb _); try done; by injection E as <-.
Qed.

(** ** The end of an execution *)

Lemma keeps_event db id attempt at_ data : keeps db (fst (insert_event db id attempt at_ data)).
Proof. by split. Qed.

Lemma mark_ended_keeps db a o proof attempt cancel to time technical :
  keeps db (mark_ended db a o proof attempt cancel to time technical).
Proof.
  unfold mark_ended, close_attempts. cbv zeta. split.
  - destruct technical, cancel, attempt; simpl; by rewrite map_update_where.
  - destruct technical, cancel, attempt; simpl; by apply update_where_related; [apply _|].
  - by destruct technical, cancel, attempt.
Qed.

Lemma announce_keeps db a o usage from to time fresh technical :
  keeps db (announce db a o usage from to time fresh technical).
Proof.
  unfold announce. cbn [tx_event insert_event]. destruct technical; [by destruct usage|].
  unfold insert_terminal_notice. destruct (suppress_member_success _ _); [by destruct usage|].
  destruct (ag_session a); [|by destruct usage]. by destruct (first_where _ _), usage.
Qed.

Lemma terminal_keeps db id o proof usage time fresh summary db' t :
  commit_terminal db id o proof usage time fresh summary = Ok (db', t) → keeps db db'.
Proof.
  unfold commit_terminal. intros E. destruct (negb _); [done|]. destruct (_ && _); [done|].
  destruct (first_where _ _) as [a|]; [|done]. cbn [row ok_or] in E.
  destruct (Status.terminal (ag_status a)); [by apply ok_pair_inj in E as [<- _]|].
  destruct (explicit_checks _ _ _ _); [|done]. destruct (provider_attempt db a o) as [[d1 att]|] eqn:Ep; [|done].
  assert (keeps db d1) as K1.
  { unfold provider_attempt in Ep. destruct (ag_identity_v2 a); [|by apply ok_pair_inj in Ep as [<- _]].
    cbv zeta in Ep. destruct (row _); [|done]. destruct (negb _); [done|]. apply ok_pair_inj in Ep as [<- _].
    destruct (bool_decide _); [done|by apply keeps_attempts]. }
  destruct (terminal_path _ _ _) as [from to]. cbv zeta in E.
  match type of E with context [write_terminal ?d _ _ _ _ _ _ _ _ _ _ _] => set (d2 := d) in * end.
  assert (keeps d1 d2) as K2 by (subst d2; destruct (_ && _); [apply keeps_event|done]).
  destruct (Status.transition _ _); [|done]. apply ok_pair_inj in E as [<- _]. clearbody d2.
  etrans; [exact K1|]. etrans; [exact K2|]. unfold write_terminal. cbv zeta.
  etrans; [apply mark_ended_keeps|]. etrans; [apply announce_keeps|]. etrans; [|].
  2: { unfold compact_terminal_processes. destruct (_ && _); [|reflexivity].
       destruct summary; [apply keeps_event|reflexivity]. }
  unfold release_attempts. destruct att; by apply keeps_attempts.
Qed.

(** ** Admissions *)

Lemma frozen_scope_admitted i l :
  authority_typed (in_authority i) → la_identity l = Some (in_identity i) →
  json_index "authority" (in_identity i) = authority_value (in_authority i) →
  ∀ scope, frozen_scope l = Some scope → scope = au_eligible_accounts (in_authority i).
Proof.
  intros Ht El Ea scope. unfold frozen_scope. rewrite El. destruct (decide _); [|done].
  rewrite Ea, authority_reads_back by done. by intros [= <-].
Qed.

(** What an admission has checked of its inputs and its choice. *)
Lemma admissible_inputs db catalog i prefer at_ c :
  admissible_candidate db catalog i prefer at_ = Ok c →
  json_index "authority" (in_identity i) = authority_value (in_authority i) ∧
  qc_account c ∈ au_eligible_accounts (in_authority i) ∧ capacity_left db i = true ∧
  ∃ row, row ∈ accounts db ∧ ar_id row = qc_account c ∧ ar_enabled row = true.
Proof.
  unfold admissible_candidate. intros E. destruct (candidate_set_validate _); [|done].
  destruct (authority_validate _); [|done]. destruct (catalog_provider _ _) as [d|]; [|done]. cbn [ok_or] in E.
  destruct (inputs_agree i d) eqn:Ei; [|done]. cbn [negb] in E. destruct (check_ordered_snapshot _ _); [|done].
  destruct (negb _); [done|]. destruct (capacity_left db i) eqn:Ec; [|done]. cbn [negb] in E.
  apply choose_eligible in E as [_ [_ _ Hsc _ (row & acc & Er & _ & Een & _)]]. apply first_where_Some in Er as [Er Hin].
  split; [|by eauto 10]. unfold inputs_agree in Ei. cbv zeta in Ei.
  rewrite !andb_true_iff in Ei. destruct Ei as [[[_ E] _] _]. by to_prop.
Qed.

(** One attempt more, seen by execution. *)
Lemma attempts_of_added db d t :
  db_attempts db = db_attempts d ++ [t] →
  ∀ id, attempts_of db id = if decide (at_agent t = id) then attempts_of d id ++ [t] else attempts_of d id.
Proof.
  intros E id. unfold attempts_of. rewrite E, filter_app. cbn. by destruct (decide _); [|rewrite app_nil_r].
Qed.

Lemma chain_first scope t : at_number t = 1 → (∃ a, at_account t = Some a ∧ a ∈ scope) → chain scope [t].
Proof.
  intros En (a & Ea & Hs). split.
  - simpl. by rewrite En.
  - exists [a]. simpl. rewrite Ea. split; [done|]. split; [apply NoDup_singleton|]. by intros x ->%list_elem_of_singleton.
  - by intros x ->%list_elem_of_singleton _.
Qed.

(** The launch rows after an admission: the old ones, and the new one. *)
Lemma admitted_launches db catalog id i resume env db' r c :
  provider_admitted db catalog id i resume env db' r c → (∀ l, l ∈ launches db → la_agent l ≠ id) →
  ∃ l, launches db' = launches db ++ [l] ∧ la_agent l = id ∧ la_identity l = Some (in_identity i) ∧
    la_parent l = option_map (λ r, rm_parent (fst r)) resume ∧ la_request_id l = ps_request_id (in_request i).
Proof.
  intros [_ _ _ _ _ _ (l & El & Ei & _ & Ep & Er & ->) _ _ _ _ _] Hnew. destruct (le_owner env) as [owner|]; [|by exists l].
  exists (with_owner owner l). split; [|by destruct l]. unfold update_where. rewrite map_app. simpl.
  rewrite decide_True by done. f_equal. apply (update_where_id (λ l, la_agent l = id)). intros x Hx. by apply Hnew.
Qed.

Lemma admitted_sound db catalog id i resume env db' r c :
  authority_typed (in_authority i) → provider_admitted db catalog id i resume env db' r c → runs_inv db → runs_inv db'.
Proof.
  intros Hty Had [[Ht Hl Hd Hc] Hrt]. pose proof Had as [Ech Ea (session & d & _ & EA) Ef ET _ _ _ _ _ _ _].
  assert (id ∉ map ag_id (db_agents db)) as Hid by (intros (a & -> & Ha)%list_elem_of_fmap; by apply (Ef a)).
  assert (∀ l, l ∈ launches db → la_agent l ≠ id) as Hnew by (intros l Hin <-; by apply Hid, Hl).
  destruct (admitted_launches db catalog id i resume env db' r c Had Hnew) as (l & EL & El & Ei & _ & _).
  destruct (admissible_inputs _ _ _ _ _ _ Ech) as (Eau & Hel & _ & _).
  pose proof (attempts_of_added db' db _ ET) as EO. cbn [prepared_attempt at_agent] in EO.
  assert (attempts_of db id = []) as Enone by (apply filter_none; intros t Hin <-; by apply Hid, Ht).
  split; [split|].
  - rewrite ET, EA, map_app. intros t [Hin| ->%list_elem_of_singleton]%elem_of_app; apply elem_of_app; [left; auto|right; left].
  - rewrite EL, EA, map_app. intros x [Hin| ->%list_elem_of_singleton]%elem_of_app; apply elem_of_app; [left; auto|right].
    rewrite El. left.
  - rewrite EL. apply NoDup_snoc; [done|]. intros x Hx. rewrite El. auto.
  - rewrite EL. intros x scope [Hin| ->%list_elem_of_singleton]%elem_of_app Es Hlen; rewrite EO.
    + rewrite decide_False by (intros E; by apply (Hnew x Hin)). by apply Hc.
    + rewrite decide_True by done. rewrite El, Enone. simpl. split; [|lia]. apply chain_first; [done|].
      rewrite (frozen_scope_admitted i l Hty Ei Eau scope Es). by eexists.
  - intros x. rewrite EL. intros [Hin| ->%list_elem_of_singleton]%elem_of_app Hp.
    + rewrite EO, decide_False by (intros E; by apply (Hnew x Hin)). by apply Hrt.
    + right. exists (in_identity i), (in_authority i). done.
Qed.

Lemma link_resumed_keeps db restart parent child db' : link_resumed db restart parent child = Ok db' → keeps db db'.
Proof.
  unfold link_resumed. destruct restart; [|by intros [= <-]]. destruct (negb _); [done|]. by intros [= <-].
Qed.

Lemma start_sound db catalog i resume id env db' r :
  authority_typed (in_authority i) → admit_provider_lineage db catalog i resume id env = Ok (db', r) →
  runs_inv db → runs_inv db'.
Proof.
  intros Hty E Hs. unfold admit_provider_lineage in E. destruct (replay_found _ _) as [[found|]|]; [| |done].
  - destruct (negb _); [done|]. destruct (replayed_admission _ _ _); [|done]. by apply ok_pair_inj in E as [<- _].
  - cbv zeta in E. destruct (admission_gate _ _ _); [|done].
    match type of E with match ?x with _ => _ end = _ => destruct x as [lineage|] eqn:El; [|done] end.
    destruct (admit_provider_in_tx _ _ _ _ _ _) as [[d1 r1]|] eqn:Ea; [|done].
    apply admit_provider_Ok in Ea as [c Ha]. apply admitted_sound in Ha; [|done..].
    destruct (link_resumed _ _ _ _) as [d2|] eqn:E2; [|done]. apply link_resumed_keeps in E2.
    unfold advance_capacity in E. destruct (negb _); [done|]. apply ok_pair_inj in E as [<- _].
    apply (keeps_inv d2); [by split|]. by apply (keeps_inv d1).
Qed.

Lemma moved_tables db d A T J L : moved db d A T J L →
  db_agents d = A ∧ db_attempts d = T ∧ launches d = lt_launches L.
Proof. intros [EA ET _ EL _ _]. unfold launches. by rewrite EL. Qed.

(** A historical admission adds an execution without attempts. *)
Lemma runtime_admitted_sound db request config revision frozen parent restart id env db' r :
  admit_with_restart db request config revision frozen parent restart id env = Ok (db', r) → runs_inv db → runs_inv db'.
Proof.
  intros E Hs. unfold admit_with_restart in E. destruct (nonblank _ _); [|done].
  destruct (start_validate _) as [checked|]; [|done]. destruct (replay_found _ _) as [[found|]|]; [| |done].
  { destruct (ensure_same_replay _ _ _ _ _); [|done]. by apply ok_pair_inj in E as [<- _]. }
  destruct (_ && _); [done|]. destruct (admission_gate _ _ _); [|done]. destruct (config_runtime _ _); [|done].
  destruct (negb _); [done|].
  match type of E with match ?x with _ => _ end = _ => destruct x as [lineage|]; [|done] end.
  destruct (check_opt _ _); [|done]. destruct (upsert_session _ _ _) as [[d1 session]|] eqn:Es; [|done].
  apply (moved_session db db _ _ _ _ (moved_start db)) in Es.
  destruct (insert_agent d1 _ _) as [d2|] eqn:Ea; [|by destruct (is_some_and _ _)].
  apply (moved_insert_agent _ _ _ _ _ _ Es) in Ea as (M2 & Hfresh & _). apply moved_tables in M2 as (EA & ET & EL).
  cbn [set_launches lt_launches] in EL. fold (launches db) in EL.
  set (l := runtime_launch _ _ _ _ _ _) in EL. assert (la_agent l = id) as El by done. clearbody l.
  cbv zeta in E. match type of E with context [tx_event ?d id _ ECreated] => set (d3 := d) in E end.
  assert (keeps d2 d3) as K3.
  { subst d3. destruct (le_owner env); [|done]. split; [done|done|]. by apply update_where_related; [apply _|]. }
  clearbody d3. match type of E with match link_resumed ?d _ _ _ with _ => _ end = _ => set (d4 := d) in E end.
  assert (keeps d3 d4) as K4 by by split. clearbody d4.
  destruct (link_resumed _ _ _ _) as [d5|] eqn:E5; [|done]. apply link_resumed_keeps in E5.
  apply ok_pair_inj in E as [<- _]. apply (keeps_inv d4); [done|]. apply (keeps_inv d3); [done|].
  apply (keeps_inv d2); [done|]. clear K3 K4 E5 d3 d4 d5 Es d1. destruct Hs as [[Ht Hl Hd Hc] Hrt].
  assert (id ∉ map ag_id (db_agents db)) as Hid by (intros (y & -> & Hy)%list_elem_of_fmap; by apply (Hfresh y)).
  unfold typed_runs, attempts_of in *. split; [split|]; unfold typed_runs, attempts_of.
  - rewrite ET, EA, map_app. intros t Hin. apply elem_of_app. left. auto.
  - rewrite EL, EA, map_app. intros x [Hin| ->%list_elem_of_singleton]%elem_of_app; apply elem_of_app; [left; auto|right].
    rewrite El. left.
  - rewrite EL. apply NoDup_snoc; [done|]. intros x Hx Ex. apply Hid. rewrite <-El, <-Ex. by apply Hl.
  - rewrite EL, ET. intros x scope [Hin| ->%list_elem_of_singleton]%elem_of_app Es Hlen; [by apply Hc|].
    rewrite El. rewrite filter_none by (intros t Hin <-; by apply Hid, Ht). split; [|simpl; lia].
    split; [done| |by intros t ?%elem_of_nil]. exists []. split; [done|]. split; [constructor|]. by intros ? ?%elem_of_nil.
  - rewrite EL, ET. intros x [Hin| ->%list_elem_of_singleton]%elem_of_app Hp; [by apply Hrt|].
    left. rewrite El. apply filter_none. intros t Hin <-. by apply Hid, Ht.
Qed.

(** ** The next attempt *)

Lemma latest_in db id t : latest_attempt db id = Some t → t ∈ attempts_of db id.
Proof. apply best_by_elem. Qed.

Lemma chain_latest scope db id t :
  chain scope (attempts_of db id) → latest_attempt db id = Some t →
  at_number t = Z.of_nat (length (attempts_of db id)).
Proof.
  intros [Hn _ _] E. pose proof (latest_in db id t E) as Hin.
  assert (at_number t ∈ map at_number (attempts_of db id)) as Ht by by apply list_elem_of_fmap_2.
  rewrite Hn, elem_of_seqZ in Ht. set (n := Z.of_nat (length (attempts_of db id))) in *.
  assert (n ∈ map at_number (attempts_of db id)) as Hlast by (rewrite Hn; apply elem_of_seqZ; lia).
  apply list_elem_of_fmap in Hlast as (u & Eu & Hu).
  assert (at_number u <=? at_number t = true) as Hle; [|lia].
  apply (best_by_max (λ x y, at_number x <=? at_number y) (attempts_of db id)); try done; intros; lia.
Qed.

Lemma chain_snoc scope T T' t a :
  Forall2 same_attempt T T' → chain scope T → Forall (λ x, at_owned x = false) T' →
  at_number t = Z.of_nat (length T) + 1 → at_account t = Some a → a ∈ scope → Some a ∉ map at_account T →
  chain scope (T' ++ [t]).
Proof.
  intros F Hc Hf En Ea Hs Hnew. pose proof (Forall2_length _ _ _ F) as El.
  destruct (chain_same scope T T' F Hc) as [Hn (used & Eu & Hd & Hi) _]. split.
  - rewrite map_app, Hn, length_app. cbn [map length]. rewrite En, El, Nat2Z.inj_add, seqZ_app by lia.
    f_equal. rewrite seqZ_cons by lia. rewrite seqZ_nil by lia. f_equal. lia.
  - exists (used ++ [a]). rewrite !map_app, Eu. simpl. rewrite Ea. split; [done|]. split.
    + apply NoDup_app. split; [done|]. split; [|apply NoDup_singleton]. intros x Hx ->%list_elem_of_singleton.
      apply Hnew. rewrite <-(Forall2_map_eq same_attempt at_account T T') by (done || by intros ? ? []).
      rewrite Eu. by apply list_elem_of_fmap_2.
    + intros x [Hx| ->%list_elem_of_singleton]%elem_of_app; auto.
  - intros x [Hx| ->%list_elem_of_singleton]%elem_of_app Hw.
    + rewrite Forall_forall in Hf. by rewrite (Hf x Hx) in Hw.
    + rewrite length_app. simpl. rewrite En, El. lia.
Qed.

Lemma tried_spec db id a : Some a ∈ map at_account (attempts_of db id) → a ∈ tried_accounts db id.
Proof.
  intros (t & Ea & Ht)%list_elem_of_fmap. apply list_elem_of_filter in Ht as [Hid Hin]. unfold tried_accounts.
  apply list_elem_of_omap. exists t. split; [done|]. by rewrite decide_True.
Qed.

(** The run of an allocation, with its scope. *)
Lemma continued_scope db id catalog candidates at_ previous c authority :
  may_continue db id catalog candidates at_ previous c authority →
  ∃ l, l ∈ launches db ∧ la_agent l = id ∧ la_intent l = Some SkAuto ∧
    frozen_scope l = Some (au_eligible_accounts authority).
Proof.
  intros [_ _ (frozen & Ef & Eu) (l & El & Ei) _ _ _ _ _].
  pose proof El as El'. unfold launch_of in El'. apply first_where_Some in El' as [Hid Hin].
  exists l. split_and!; try done. unfold frozen_identity in Ef. rewrite El in Ef. unfold frozen_scope.
  destruct (la_identity l) as [v|]; [|done]. destruct (decide _); [|done]. injection Ef as ->. by rewrite Eu.
Qed.

Lemma surrendered_all scope db id previous state at_ :
  chain scope (attempts_of db id) → latest_attempt db id = Some previous →
  Forall (λ t, at_owned t = false)
    (filter (λ t, at_agent t = id)
       (update_where (owned_attempt_of id (at_id previous)) (surrendered state at_) (db_attempts db))).
Proof.
  intros Hc El. apply Forall_forall. intros t' [Ha Ht]%list_elem_of_filter.
  apply elem_of_update_where in Ht as (t & Hin & ->). destruct (decide _) as [|Hn]; [done|].
  destruct (at_owned t) eqn:Eo; [|done]. destruct Hn.
  assert (t ∈ attempts_of db id) as Ht by by apply list_elem_of_filter.
  enough (t = previous) as -> by done. pose proof (ch_owned _ _ Hc t Ht Eo) as En.
  rewrite <-(chain_latest scope db id previous Hc El) in En.
  apply (primary_key at_number (attempts_of db id)); [|done|by apply latest_in|done].
  rewrite (ch_numbers _ _ Hc). apply NoDup_seqZ.
Qed.

Lemma allocated_sound db id catalog candidates at_ fresh db' r previous state c :
  allocated db id catalog candidates at_ fresh db' r previous state c → runs_inv db → runs_inv db'.
Proof.
  intros [[authority Hm] Er ET _ EA EL _ _ _] [Hs Hrt].
  destruct (continued_scope _ _ _ _ _ _ _ _ Hm) as (l0 & Hl0 & Eid & Eauto & Esc).
  set (T1 := update_where (owned_attempt_of id (at_id previous)) (surrendered state at_) (db_attempts db)) in *.
  assert (keeps db (set_attempts T1 db)) as K by by apply keeps_attempts.
  pose proof (attempts_of_added db' (set_attempts T1 db) _ ET) as EO. cbn [prepared_attempt at_agent] in EO.
  pose proof (keeps_sound _ _ K Hs) as [Ht _ _ Hc]. pose proof Hs as [_ Hl Hd Hc0]. split; [split|].
  - rewrite ET, EA. intros t [Hin| ->%list_elem_of_singleton]%elem_of_app; [by apply Ht|]. simpl.
    rewrite <-Eid. by apply Hl.
  - rewrite EL, EA. done.
  - by rewrite EL.
  - rewrite EL. intros l scope Hin Es Hlen. rewrite EO. destruct (decide (id = la_agent l)) as [E|].
    2: by apply Hc.
    assert (l = l0) as -> by (apply (primary_key la_agent (launches db)); congruence).
    rewrite Esc in Es. injection Es as <-. rewrite <-E. split; [|congruence].
    destruct (Hc0 l0 _ Hl0 Esc Hlen) as [Hch _]. rewrite <-E in Hch.
    pose proof (chain_latest _ db id previous Hch (mc_latest _ _ _ _ _ _ _ _ Hm)) as En.
    destruct (choose_eligible _ _ _ _ _ _ _ _ _ _ _ (mc_choice _ _ _ _ _ _ _ _ Hm)) as [_ [_ Hx Hi _ _]].
    assert (Some (qc_account c) ∉ map at_account (attempts_of db id)) as Hnew by (intros ?%tried_spec; done).
    eapply (chain_snoc _ (attempts_of db id)); try done.
    + by apply attempts_of_same.
    + by apply (surrendered_all (au_eligible_accounts authority)); [|apply (mc_latest _ _ _ _ _ _ _ _ Hm)].
    + rewrite Er. simpl. rewrite En. apply Z.mod_small.
      destruct (ch_accounts _ _ Hch) as (used & Eu & Hn & Hsub).
      pose proof (used_bound (qc_account c :: used) (au_eligible_accounts authority)) as Hb.
      apply (f_equal length) in Eu as El. rewrite !length_map in El. rewrite Eu in Hnew. simpl in Hb. rewrite El.
      assert (qc_account c ∉ used) by (intros ?; by apply Hnew, list_elem_of_fmap_2).
      assert (S (length used) ≤ length (au_eligible_accounts authority))%nat; [|lia].
      apply Hb; [by constructor|]. intros x [->|Hin']%elem_of_cons; auto.
  - intros l. rewrite EL. intros Hin Hpr. rewrite EO. destruct (decide (id = la_agent l)) as [E|].
    2: by apply (proj2 (keeps_inv _ _ K (conj Hs Hrt)) l).
    right. destruct (Hrt l Hin Hpr) as [E0|]; [|done].
    pose proof (latest_in _ _ _ (mc_latest _ _ _ _ _ _ _ _ Hm)) as Hp. rewrite E, E0 in Hp. by apply elem_of_nil in Hp.
Qed.

(** ** Sealing and running *)

Definition with_assets (digest : string) (a : ResolvedLaunchAuthority) : ResolvedLaunchAuthority :=
  mk_authority (au_provider a) (au_harness a) (au_connection a) (au_model a) (au_effort a) (au_profile a)
    (au_workdir a) (au_role_payload a) digest (au_eligible_accounts a).

Lemma map_get_same {A} key (v : A) m : map_get key (map_set key v m) = Some v.
Proof.
  induction m as [|[k w] m IH]; cbn [map_set]; [by rewrite map_get_cons, decide_True|].
  case_bool_decide; [by rewrite map_get_cons, decide_True|].
  case_bool_decide; [by rewrite map_get_cons, decide_True|]. by rewrite map_get_cons, decide_False.
Qed.

(** A seal rewrites the assets digest of the frozen authority. *)
Lemma sealed_authority op frozen a :
  json_index "authority" frozen = authority_value a →
  json_index "authority" (sealed_identity op frozen) =
    authority_value (match ui_assets_sha256 op with Some digest => with_assets digest a | None => a end).
Proof.
  intros E. unfold sealed_identity. cbv zeta. set (v := json_put _ _ _).
  assert (json_index "authority" v = authority_value a) as Ev by (unfold v; by rewrite !json_put_other).
  destruct (ui_assets_sha256 op) as [digest|]; [|done]. clearbody v. destruct v as [| | | | |m]; try done. simpl in *.
  rewrite map_get_same. destruct (map_get "authority" m) as [x|]; [|done]. simpl in *. by rewrite Ev.
Qed.

Lemma sealed_typed op l :
  check_opt (hex64 "assets digest") (ui_assets_sha256 op) = Ok () → typed_identity l →
  typed_identity (sealed_launch op l) ∧ frozen_scope (sealed_launch op l) = frozen_scope l.
Proof.
  intros Hd (frozen & a & El & Ea & Hty). pose proof (sealed_authority op frozen a Ea) as Es.
  set (a' := match ui_assets_sha256 op with Some _ => _ | None => _ end) in Es.
  assert (authority_typed a' ∧ au_eligible_accounts a' = au_eligible_accounts a) as [Hty' Eacc].
  { subst a'. destruct (ui_assets_sha256 op) as [digest|]; [|done]. split; [|done]. destruct Hty. split; try done. simpl.
    simpl in Hd. unfold hex64 in Hd. unfold sha256_digest_from_str. destruct (_ =? _); [|done].
    by destruct (forallb _ _). }
  clearbody a'. split; [exists (sealed_identity op frozen), a'; simpl; by rewrite El|].
  unfold frozen_scope. simpl. rewrite El. simpl. rewrite sealed_other by done.
  destruct (decide _); [|done]. rewrite Es, Ea, !authority_reads_back by done. simpl. by rewrite Eacc.
Qed.

Lemma sealed_provider op l : provider_run (sealed_launch op l) → provider_run l.
Proof.
  intros (frozen & E & Ev). simpl in E. destruct (la_identity l) as [v|] eqn:El; [|done]. injection E as <-.
  exists v. by rewrite sealed_other in Ev.
Qed.

Lemma scope_provider l scope : frozen_scope l = Some scope → provider_run l.
Proof. unfold frozen_scope. destruct (la_identity l) as [v|] eqn:E; [|done]. case_decide; [|done]. by exists v. Qed.

Lemma chain_nil scope : chain scope [].
Proof.
  split; [done| |by intros t ?%elem_of_nil]. exists []. split; [done|]. split; [constructor|]. by intros ? ?%elem_of_nil.
Qed.

(** What a seal leaves of a run: its attempts, and its scope once it has any. *)
Lemma sealed_row db op x :
  typed_runs db → check_opt (hex64 "assets digest") (ui_assets_sha256 op) = Ok () →
  x ∈ update_where (sealable db op) (sealed_launch op) (launches db) →
  ∃ l, l ∈ launches db ∧ la_agent x = la_agent l ∧ la_intent x = la_intent l ∧
    (provider_run x → attempts_of db (la_agent l) = [] ∨ (typed_identity x ∧ frozen_scope x = frozen_scope l)).
Proof.
  intros Hrt Hk (l & Hin & ->)%elem_of_update_where. exists l. split; [done|].
  case_decide; (split; [done|]; split; [done|]); intros Hp.
  - apply sealed_provider in Hp. destruct (Hrt l Hin Hp) as [|Hty]; [by left|right]. by apply sealed_typed.
  - destruct (Hrt l Hin Hp); [by left|by right].
Qed.

Lemma seal_inv db op db' : seal_identity db op = Ok db' → runs_inv db → runs_inv db'.
Proof.
  unfold seal_identity. intros E [[Ht Hl Hd Hc] Hrt]. destruct (hex64 _ _); [|done].
  destruct (check_opt _ _) as [[]|] eqn:Ek; [|done]. destruct (_ || _); [done|]. destruct (negb _); [done|].
  injection E as <-. pose proof (λ x, sealed_row db op x Hrt Ek) as Hrow.
  set (ls := update_where _ _ _) in *.
  assert (map la_agent ls = map la_agent (launches db)) as Ekey by (by apply map_update_where).
  split; [split|].
  - done.
  - intros x Hx. destruct (Hrow x Hx) as (l & Hin & -> & _). by apply Hl.
  - change (NoDup (map la_agent ls)). by rewrite Ekey.
  - intros x scope Hx Es Hlen. destruct (Hrow x Hx) as (l & Hin & -> & -> & Hs).
    change (attempts_of (on_launch _ db) (la_agent l)) with (attempts_of db (la_agent l)).
    destruct (Hs (scope_provider _ _ Es)) as [->|[_ E]]; [|rewrite E in Es; by apply Hc].
    split; [apply chain_nil|simpl; lia].
  - intros x Hx Hp. destruct (Hrow x Hx) as (l & Hin & -> & _ & Hs).
    destruct (Hs Hp) as [|[? _]]; [by left|by right].
Qed.

Lemma running_keeps db id pgid now db' a :
  first_where (λ a, ag_id a = id) (db_agents db) = Some a → ag_identity_v2 a = true →
  running db id pgid now = Ok db' → keeps db db'.
Proof.
  unfold running. intros -> Hv. cbn [row ok_or]. destruct (Status.transition _ _); [|done]. rewrite Hv.
  match goal with |- context [on_launch ?f ?x] => set (d := on_launch f x) end.
  assert (keeps db d) as K.
  { split; [simpl; by rewrite map_update_where|done|]. by apply update_where_related; [apply _|]. }
  clearbody d. destruct (update_one _ _ _) as [d'|] eqn:E; [|done]. intros [= <-].
  apply update_one_keeps in E; [|done]. etrans; [exact K|]. etrans; [exact E|apply keeps_event].
Qed.

(** ** The system *)

(** The transactions that write executions and attempts; [fo_running] is that
    of a provider run, and [fo_other] is any other change, which leaves their
    identity alone. *)
Inductive failover_step : Db → Db → Prop :=
  | fo_start db catalog i resume id env db' r :
      authority_typed (in_authority i) →
      admit_provider_lineage db catalog i resume id env = Ok (db', r) → failover_step db db'
  | fo_pool db id l db' :
      authority_typed (in_authority (lc_inputs l)) → launch_in_tx db id l = Ok db' → failover_step db db'
  | fo_runtime db request config revision frozen parent restart id env db' r :
      admit_with_restart db request config revision frozen parent restart id env = Ok (db', r) → failover_step db db'
  | fo_next db id catalog candidates at_ fresh db' r :
      allocate_next_attempt db id catalog candidates at_ fresh = Ok (db', r) → failover_step db db'
  | fo_spawning db id attempt db' b : provider_spawning db id attempt = Ok (db', b) → failover_step db db'
  | fo_spawn_failed db id attempt db' : provider_spawn_failed db id attempt = Ok db' → failover_step db db'
  | fo_process db id attempt leader integration db' :
      provider_process_evidence db id attempt leader integration = Ok db' → failover_step db db'
  | fo_seal db op db' : seal_identity db op = Ok db' → failover_step db db'
  | fo_running db id pgid now db' a :
      first_where (λ a, ag_id a = id) (db_agents db) = Some a → ag_identity_v2 a = true →
      running db id pgid now = Ok db' → failover_step db db'
  | fo_cleanup db id attempt proof db' : provider_cleanup db id attempt proof = Ok db' → failover_step db db'
  | fo_history db id attempt state cooldown at_ db' :
      provider_history_with_cooldown db id attempt state cooldown at_ = Ok db' → failover_step db db'
  | fo_rerunning db id attempt pgid db' : provider_rerunning db id attempt pgid = Ok db' → failover_step db db'
  | fo_never_spawned db id : failover_step db (fst (provider_never_spawned db id))
  | fo_terminal db id o proof usage time fresh summary db' t :
      commit_terminal db id o proof usage time fresh summary = Ok (db', t) → failover_step db db'
  | fo_other db db' : keeps db db' → failover_step db db'.

Lemma failover_step_sound db db' : failover_step db db' → runs_inv db → runs_inv db'.
Proof.
  intros [] Hs.
  - by eapply start_sound.
  - unfold launch_in_tx in *. destruct (admit_provider_in_tx _ _ _ _ _ _) as [[d r]|] eqn:E; [|done]. simplify_eq.
    apply admit_provider_Ok in E as [c Ha]. by eapply admitted_sound.
  - by eapply runtime_admitted_sound.
  - rename select (allocate_next_attempt _ _ _ _ _ _ = _) into E. apply allocate_Ok in E as (? & ? & ? & Ha).
    by eapply allocated_sound.
  - eapply keeps_inv; [by eapply spawning_keeps|done].
  - eapply keeps_inv; [by eapply (update_one_keeps _ (with_phase "prepared"))|done].
  - eapply keeps_inv; [by eapply process_evidence_keeps|done].
  - by eapply seal_inv.
  - eapply keeps_inv; [by eapply running_keeps|done].
  - eapply keeps_inv; [by eapply cleanup_keeps|done].
  - eapply keeps_inv; [by eapply history_keeps|done].
  - eapply keeps_inv; [by eapply rerunning_keeps|done].
  - eapply keeps_inv; [apply never_spawned_keeps|done].
  - eapply keeps_inv; [by eapply terminal_keeps|done].
  - by eapply keeps_inv.
Qed.

Lemma failover_run_sound db0 db :
  db_attempts db0 = [] → launches db0 = [] → rtc failover_step db0 db → wf_runs db.
Proof.
  intros Et El R. cut (runs_inv db); [by intros []|]. revert R. apply (rtc_ind_r (λ db, runs_inv db)).
  - split; [split|]; unfold typed_runs; rewrite ?Et, ?El.
    + by intros t ?%elem_of_nil.
    + by intros l ?%elem_of_nil.
    + constructor.
    + by intros l scope ?%elem_of_nil.
    + by intros l ?%elem_of_nil.
  - intros d d' _ Hstep. by apply failover_step_sound.
Qed.
End system.

(** C16: the attempts of a provider run never exceed the accounts frozen into
    it.  From a store without executions, however starts, resumes, pool
    launches, seals of the identity, phases, failures, allocations and ends
    interleave, the attempts
    of a run are numbered from one in the order of their allocation, each has
    another account of the frozen scope, at most one is owned, and a run
    pinned to an account has no second one. *)
Theorem failover_bounded `{Sha256, LaunchSerde, JsonWriter, ProcessTable, FileSystem} db0 db l scope :
  db_attempts db0 = [] → launches db0 = [] → rtc failover_step db0 db →
  l ∈ launches db → frozen_scope l = Some scope → Z.of_nat (length scope) < 2 ^ 32 →
  let T := attempts_of db (la_agent l) in
  map at_number T = seqZ 1 (Z.of_nat (length T)) ∧
  (∃ used, map at_account T = map Some used ∧ NoDup used ∧ used ⊆ scope) ∧
  (length T ≤ length scope)%nat ∧
  (∀ t u, t ∈ T → u ∈ T → at_owned t = true → at_owned u = true → t = u) ∧
  (la_intent l = Some SkPinned → (length T ≤ 1)%nat).
Proof.
  intros Et El Hrun Hl Es Hlen. cbv zeta. destruct (failover_run_sound db0 db Et El Hrun) as [_ _ _ Hc].
  destruct (Hc l scope Hl Es Hlen) as [Hch Hp]. pose proof (chain_bound _ _ Hch). destruct Hch as [Hn Ha Ho].
  split_and!; try done. intros t u Ht Hu Ot Ou.
  apply (primary_key at_number (attempts_of db (la_agent l))); [rewrite Hn; apply NoDup_seqZ|done|done|]. by rewrite (Ho t), (Ho u).
Qed.

(** A file system for the evaluation. *)
#[export] Instance demo_files : FileSystem := {| canonicalize := λ p, Some p; is_dir := λ _, true |}.

Lemma demo_authority_typed : authority_typed demo_launch_authority.
Proof. split; [by vm_compute|by vm_compute|]. by repeat constructor. Qed.

Lemma demo_failover : rtc failover_step demo_store demo_switched.
Proof.
  apply (rtc_l _ _ demo_glm_started).
  { apply (fo_start demo_store demo_catalog demo_inputs None "ag-1" demo_env _
             (mk_provider_admission "ag-1" "att_u1" "acct-1" true)); [apply demo_authority_typed|by vm_compute]. }
  apply (rtc_l _ _ demo_spawned); [by apply (fo_spawning demo_glm_started "ag-1" "att_u1" _ true)|].
  apply (rtc_l _ _ demo_process); [by apply (fo_process demo_spawned "ag-1" "att_u1" (mk_identity "tok" (of_Z 101)) None)|].
  apply (rtc_l _ _ demo_stopped); [by apply (fo_cleanup demo_process "ag-1" "att_u1" demo_cleanup)|].
  apply (rtc_l _ _ demo_exhausted).
  { apply (fo_history demo_stopped "ag-1" "att_u1" demo_failure (Some BcQuotaExhausted) (of_Z 200)). by vm_compute. }
  apply rtc_once. apply (fo_next demo_exhausted "ag-1" demo_catalog demo_next_candidates (of_Z 210) "u2" _
    (mk_next "att_u2" 2 "acct-2" "att_u1")). by vm_compute.
Qed.

Definition demo_launch_row : LaunchRow := Eval vm_compute in
  default (admitted_launch demo_inputs "ag-1" None) (head (launches demo_switched)).

Lemma failover_bounded_witness :
  map at_account (attempts_of demo_switched "ag-1") = [Some "acct-1"; Some "acct-2"]%string ∧
  (length (attempts_of demo_switched "ag-1") ≤ 2)%nat.
Proof.
  split; [by vm_compute|].
  destruct (failover_bounded demo_store demo_switched demo_launch_row ["acct-1"; "acct-2"]%string) as (_ & _ & Hb & _).
  - reflexivity.
  - reflexivity.
  - apply demo_failover.
  - left.
  - by vm_compute.
  - by vm_compute.
  - exact Hb.
Defined.
