(* ===== verification/StartOnce.v ===== *)
(** * One execution for one request

    What a start commits: either the recorded execution of a repeated request
    and no change, or one new execution within the caps; and the proof that a
    repeated request finds the execution of the first. *)

From stdpp Require Import relations.
From S2P Require Import Prelude Text Float64 Json Canonical Lifecycle Requests PoolDomain.
From S2P Require Import ProviderCatalog Tables Demo Roster World History WorkerStore Sessions ServiceRestart.
From S2P Require Import PoolSettle Settlement PoolReplace PoolAdmit Admissions WorkerFinish Evidence Outbox.
From S2P Require Import LaunchIdentity Restart ProviderAdmit Selection Attempts Starts LaunchDemo Supervision.
From S2P Require Import StoreFrames StoreSystem RestartSafety Failover.

Section starts.
Context `{Sha256, LaunchSerde, JsonWriter, ProcessTable}.

(** ** The two outcomes of a start *)

(** A new execution: the rows of the admission, and the revision. *)
Record newly_started (db : Db) (catalog : ProviderCatalog) (i : AdmissionInputs) (resume : option ProviderResume)
  (id : string) (env : LaunchEnv) (db' : Db) (r : ProviderAdmission) : Prop := {
  st_new : replay_found db (in_effective i) = Ok None;
  st_gate : admission_gate db (match resume with Some r => rm_restart r | None => None end)
              (match resume with Some r => rm_parent r | None => ""%string end) = Ok ();
  st_rows : ∃ lineage c d, admit_provider_in_tx db catalog id i lineage env = Ok (d, r) ∧
    provider_admitted db catalog id i lineage env d r c ∧
    option_map (λ x, rm_parent (fst x)) lineage = option_map rm_parent resume ∧
    db_agents db' = db_agents d ∧ db_attempts db' = db_attempts d ∧ db_launch db' = db_launch d ∧
    db_sessions db' = db_sessions d ∧ db_capacity_revision db' = db_capacity_revision d + 1;
}.

(** A repeated request: the recorded execution, and no change. *)
Record repeated (db : Db) (i : AdmissionInputs) (resume : option ProviderResume) (db' : Db)
  (r : ProviderAdmission) : Prop := {
  re_same : db' = db;
  re_found : ∃ found, replay_found db (in_effective i) = Ok (Some found) ∧
    parent_of db found = option_map rm_parent resume ∧ replayed_admission db found (in_request i) = Ok r;
}.

Lemma link_resumed_tables db restart parent child db' : link_resumed db restart parent child = Ok db' →
  db_agents db' = db_agents db ∧ db_attempts db' = db_attempts db ∧ db_launch db' = db_launch db ∧
  db_sessions db' = db_sessions db ∧ db_capacity_revision db' = db_capacity_revision db.
Proof.
  unfold link_resumed. destruct restart; [|by intros [= <-]]. destruct (negb _); [done|]. by intros [= <-].
Qed.

Lemma start_cases db catalog i resume id env db' r :
  admit_provider_lineage db catalog i resume id env = Ok (db', r) →
  (pv_created r = true ∧ newly_started db catalog i resume id env db' r) ∨
  (pv_created r = false ∧ repeated db i resume db' r).
Proof.
  unfold admit_provider_lineage. intros E. destruct (replay_found _ _) as [[found|]|] eqn:Ef; [| |done].
  - destruct (bool_decide _) eqn:Ep; [|done]. cbn [negb] in E. to_prop.
    destruct (replayed_admission db found (in_request i)) as [r0|] eqn:Er; [|done]. apply ok_pair_inj in E as [<- <-].
    right. split; [|split; [done|by exists found]]. unfold replayed_admission in Er.
    repeat (case_match; [|done] || (case_match; [done|])). all: cbn in *; by simplify_eq.
  - left. cbv zeta in E. destruct (admission_gate _ _ _) as [[]|] eqn:Eg; [|done].
    match type of E with match ?x with _ => _ end = _ => destruct x as [lineage|] eqn:El; [|done] end.
    destruct (admit_provider_in_tx _ _ _ _ _ _) as [[d1 r1]|] eqn:Ea; [|done].
    destruct (link_resumed _ _ _ _) as [d2|] eqn:E2; [|done]. apply link_resumed_tables in E2 as (A & T & L & S & C).
    unfold advance_capacity in E. destruct (negb _); [done|]. apply ok_pair_inj in E as [<- <-].
    pose proof Ea as Ha. apply admit_provider_Ok in Ha as [c Ha]. split; [by destruct Ha as [_ -> _ _ _ _ _ _ _ _ _ _]|].
    split; [done|done|]. exists lineage, c, d1. split_and!; try done; simpl; [|congruence].
    destruct resume as [rm|]; [|by injection El as <-]. destruct (resume_lineage db rm); [|done]. by injection El as <-.
Qed.

(** ** The rows of a new execution *)

Section rows.
Context (db : Db) (catalog : ProviderCatalog) (i : AdmissionInputs) (resume : option ProviderResume)
  (id : string) (env : LaunchEnv) (db' : Db) (r : ProviderAdmission).
Hypothesis Hsound : wf_runs db.
Hypothesis Hstart : newly_started db catalog i resume id env db' r.

(** The new rows of [agents], in both parts, and of [attempts]. *)
Lemma started_rows : ∃ session d l c lineage,
  upsert_session db (in_effective i) (le_session env) = Ok (d, session) ∧ db_sessions db' = db_sessions d ∧
  db_agents db' = db_agents db ++ [admitted_agent i id session lineage (le_now env)] ∧
  launches db' = launches db ++ [l] ∧ la_agent l = id ∧ la_identity l = Some (in_identity i) ∧
  la_parent l = option_map rm_parent resume ∧ la_request_id l = ps_request_id (in_request i) ∧
  db_attempts db' = db_attempts db ++ [prepared_attempt (pv_attempt r) id 1 (qc_account c)] ∧
  r = mk_provider_admission id (pv_attempt r) (qc_account c) true ∧ id ∉ map ag_id (db_agents db) ∧
  ∃ prefer, admissible_candidate db catalog i prefer (le_now env) = Ok c.
Proof.
  destruct Hstart as [_ _ (lineage & c & d1 & E & Ha & Ep & EA & ET & EL & ES & EC)].
  destruct (ad_agents _ _ _ _ _ _ _ _ _ Ha) as (session & d & Es & A).
  assert (id ∉ map ag_id (db_agents db)) as Hid.
  { intros (a & -> & Hin)%list_elem_of_fmap. by apply (ad_fresh _ _ _ _ _ _ _ _ _ Ha a). }
  destruct (admitted_launches _ _ _ _ _ _ _ _ _ Ha) as (l & El & Eid & Ei & Epar & Ereq).
  { intros l Hin <-. by apply Hid, (so_launches _ Hsound). }
  exists session, d, l, c, (option_map snd lineage). split; [done|].
  split; [by rewrite ES; apply (admit_sessions _ _ _ _ _ _ _ _ _ _ E Es)|].
  split; [by rewrite EA|]. split; [unfold launches; by rewrite EL|]. split; [done|]. split; [done|].
  split; [by rewrite Epar, Ep|]. split; [done|]. split; [by rewrite ET; apply (ad_attempts _ _ _ _ _ _ _ _ _ Ha)|].
  split; [rewrite (ad_answer _ _ _ _ _ _ _ _ _ Ha); done|]. split; [done|].
  eexists. apply (ad_choice _ _ _ _ _ _ _ _ _ Ha).
Qed.
End rows.

(** The launch rows looked up after a start. *)
Lemma launch_of_snoc db db' l :
  launches db' = launches db ++ [l] → (∀ x, x ∈ launches db → la_agent x ≠ la_agent l) →
  ∀ agent, launch_of db' agent = if decide (agent = la_agent l) then Some l else launch_of db agent.
Proof.
  intros E Hn agent. unfold launch_of. rewrite E, first_where_app, first_where_cons. destruct (decide (agent = la_agent l)) as [->|Ha].
  - assert (first_where (λ x, la_agent x = la_agent l) (launches db) = None) as -> by by apply first_where_None.
    by rewrite decide_True.
  - rewrite decide_False by congruence. by destruct (first_where _ (launches db)).
Qed.

Lemma active_on_snoc db db' i session lineage at_ l :
  launches db' = launches db ++ [l] → (∀ x, x ∈ launches db → la_agent x ≠ la_agent l) →
  db_agents db' = db_agents db ++ [admitted_agent i (la_agent l) session lineage at_] →
  la_agent l ∉ map ag_id (db_agents db) → la_identity l = Some (in_identity i) →
  json_index "authority" (in_identity i) = authority_value (in_authority i) →
  active_on db' (au_harness (in_authority i)) = active_on db (au_harness (in_authority i)) + 1.
Proof.
  intros EL Hn EA Hid Ei Ea. pose proof (launch_of_snoc db db' l EL Hn) as Hl. unfold active_on.
  rewrite EA, count_where_app, count_where_one, decide_True.
  2: { split; [by vm_compute; repeat constructor|]. unfold harness_of. simpl. by rewrite Hl, decide_True, Ei, Ea by done. }
  f_equal. apply count_where_iff. intros a Ha. unfold harness_of. rewrite Hl, decide_False; [done|].
  intros E. apply Hid. rewrite <-E. by apply list_elem_of_fmap_2.
Qed.

Lemma replay_found_Some db request found :
  replay_found db request = Ok (Some found) →
  found ∈ db_agents db ∧ request_id_of db found = sq_request_id request.
Proof.
  unfold replay_found, replay_in_transaction, local_replay, session_replay. intros E.
  destruct (replay_session _ _) as [session|]; [|done]. destruct (_ || _); [|done].
  destruct (sq_request_id request) as [rid|]; [|done]. destruct (sq_orchestrator request) as [o|].
  - destruct (is_some session); [|done]. destruct (canonical_transport_name _); [|done].
    destruct (legacy_transport _); [|done]. injection E as E. apply best_by_elem, list_elem_of_filter in E as [[Hq _] Hin]. done.
  - injection E as E. apply best_by_elem, list_elem_of_filter in E as [[Hq _] Hin]. done.
Qed.

Lemma replayed_agent db found request r : replayed_admission db found request = Ok r → pv_agent r = ag_id found.
Proof.
  unfold replayed_admission. intros E. repeat (case_match; [|done] || (case_match; [done|])). all: cbn in *; by simplify_eq.
Qed.
End starts.

(** C18: what a start commits.  It answers with the recorded execution of the
    same request and parent and writes nothing, or it was admitted by an open
    service or a recovering restart and commits one new execution within the
    global cap and the cap of its harness, with one owned first attempt on an
    account of the frozen scope that is registered and enabled. *)
Theorem start_is_sound `{Sha256, LaunchSerde, JsonWriter, ProcessTable} db catalog i resume id env db' r :
  wf_runs db → admit_provider_lineage db catalog i resume id env = Ok (db', r) →
  if pv_created r then
    admission_gate db (match resume with Some r => rm_restart r | None => None end)
      (match resume with Some r => rm_parent r | None => ""%string end) = Ok () ∧
    pv_agent r = id ∧ id ∉ map ag_id (db_agents db) ∧
    (∃ a, db_agents db' = db_agents db ++ [a] ∧ ag_id a = id ∧ ag_status a = Starting) ∧
    active_agents db' = active_agents db + 1 ∧ active_agents db' ≤ in_global_cap i ∧
    (∀ cap, in_harness_cap i = Some cap → active_on db' (au_harness (in_authority i)) ≤ cap) ∧
    db_attempts db' = db_attempts db ++ [prepared_attempt (pv_attempt r) id 1 (pv_account r)] ∧
    pv_account r ∈ au_eligible_accounts (in_authority i) ∧
    (∃ row, row ∈ accounts db ∧ ar_id row = pv_account r ∧ ar_enabled row = true)
  else
    db' = db ∧
    ∃ found, found ∈ db_agents db ∧ ag_id found = pv_agent r ∧
      request_id_of db found = sq_request_id (in_effective i) ∧ parent_of db found = option_map rm_parent resume.
Proof.
  intros Hs E. apply start_cases in E as [[-> Hst]|[-> [-> (found & Ef & Ep & Er)]]].
  - destruct (started_rows _ _ _ _ _ _ _ _ Hs Hst) as (session & d & l & c & lineage & Es & ES & EA & EL & El & Ei & _ & _
      & ET & Er & Hid & prefer & Ec).
    destruct (admissible_inputs _ _ _ _ _ _ Ec) as (Eau & Hel & Hcap & Hrow). rewrite Er. cbn [pv_agent pv_account].
    unfold capacity_left in Hcap. apply andb_true_iff in Hcap as [Hg Hh].
    assert (active_agents db' = active_agents db + 1) as Eact.
    { unfold active_agents. rewrite EA, count_where_app, count_where_one. by rewrite decide_True by (by vm_compute; repeat constructor). }
    assert (active_on db' (au_harness (in_authority i)) = active_on db (au_harness (in_authority i)) + 1) as Eon.
    { rewrite <-El in EA, Hid. eapply (active_on_snoc db db' i session lineage); try done.
      intros x Hx E. apply Hid. rewrite <-E. by apply (so_launches _ Hs). }
    split; [apply (st_gate _ _ _ _ _ _ _ _ Hst)|]. split; [done|]. split; [done|].
    split; [eexists; split; [exact EA|done]|]. split; [done|]. split; [lia|].
    split; [|done]. intros cap Ecap. rewrite Ecap in Hh. simpl in Hh. lia.
  - apply replay_found_Some in Ef as [Hin Hreq]. apply replayed_agent in Er. split; [done|]. by exists found.
Qed.

(** ** Repeating a request *)

(** The first attempt of an execution. *)
Definition first_attempt (db : Db) (id : string) : option (string * option string) :=
  option_map (λ t, (at_id t, at_account t)) (first_where (λ t, at_agent t = id ∧ at_number t = 1) (db_attempts db)).

(** The same conversation: none, or the same one under any spelling of its
    transport and at any turn. *)
Definition same_chat (o o' : option OrchestratorRef) : Prop :=
  match o, o' with
  | None, None => True
  | Some r, Some r' =>
      canonical_transport_name (transport r) = canonical_transport_name (transport r') ∧
      external_session_id r = external_session_id r'
  | _, _ => False
  end.

(** The request identity is used in one conversation only. *)
Definition reserved (request : string) (o : option OrchestratorRef) (q : StartRequest) : Prop :=
  sq_request_id q = Some request → same_chat (sq_orchestrator q) o.

(** Where a replay finds an execution: it was asked for without a conversation,
    or its session is one of the conversation. *)
Definition findable (db : Db) (o : option OrchestratorRef) (a : AgentRow) : Prop :=
  match o with
  | None => sq_orchestrator (ag_request a) = None
  | Some r =>
      ∃ s canonical legacy, ag_session a = Some s ∧ canonical_transport_name (transport r) = Ok canonical ∧
        legacy_transport r = Ok legacy ∧
        ∃ row, row ∈ db_sessions db ∧ os_id row = s ∧ os_external_session_id row = external_session_id r ∧
          (os_transport row = canonical ∨ os_transport row = legacy)
  end.

(** The store knows the execution of a request: its row, its lineage, the names
    of its identity, its first attempt, and no other execution of the request. *)
Record on_record (request : string) (o : option OrchestratorRef) (parent : option string) (identity : Value)
  (id attempt account : string) (db : Db) : Prop := {
  or_ids : NoDup (map ag_id (db_agents db));
  or_row : ∃ a, a ∈ db_agents db ∧ ag_id a = id ∧ findable db o a;
  or_launch : ∃ l frozen, launch_of db id = Some l ∧ la_request_id l = Some request ∧ la_parent l = parent ∧
    la_identity l = Some frozen ∧ ∀ name, name ∈ replay_names → json_index name frozen = json_index name identity;
  or_first : first_attempt db id = Some (attempt, Some account);
  or_only : ∀ l, l ∈ launches db → la_request_id l = Some request → la_agent l = id;
}.

Lemma first_where_related {A} (R : A → A → Prop) (P : A → Prop) `{∀ x, Decision (P x)} l l' x :
  (∀ x y, R x y → P x ↔ P y) → Forall2 R l l' → first_where P l = Some x →
  ∃ y, first_where P l' = Some y ∧ R x y.
Proof.
  intros HP. induction 1 as [|a b l l' Ha _ IH]; [done|]. rewrite !first_where_cons. destruct (decide (P a)) as [Hp|Hp].
  - intros [= <-]. rewrite decide_True by (by apply (HP a b)). eauto.
  - rewrite decide_False by (by rewrite <-(HP a b)). done.
Qed.

Lemma first_where_grow {A} (R : A → A → Prop) (P : A → Prop) `{∀ x, Decision (P x)} l l' x :
  (∀ x y, R x y → P x ↔ P y) → rows_grow R l l' → first_where P l = Some x →
  ∃ y, first_where P l' = Some y ∧ R x y.
Proof.
  intros HP (old & new & -> & F) E. destruct (first_where_related R P l old x HP F E) as (y & Ey & Hy).
  exists y. by rewrite first_where_app, Ey.
Qed.

Lemma grow_elem {A} (R : A → A → Prop) l l' x : rows_grow R l l' → x ∈ l → ∃ y, y ∈ l' ∧ R x y.
Proof.
  intros (old & new & -> & F) Hx. destruct (related_l _ _ _ _ F Hx) as (y & Hy & HR). exists y. split; [|done].
  apply elem_of_app. by left.
Qed.

Lemma findable_grow db db' o a a' :
  rows_grow same_session (db_sessions db) (db_sessions db') → same_agent a a' → findable db o a → findable db' o a'.
Proof.
  intros G [_ Er _ Hs]. unfold findable. destruct o as [r|]; [|by rewrite Er].
  intros (s & canonical & legacy & Es & Ec & El & row & Hin & Hid & Hx & Ht). exists s, canonical, legacy.
  split; [by apply Hs|]. split; [done|]. split; [done|]. destruct (grow_elem _ _ _ _ G Hin) as (row' & Hin' & [Ei Et Ex]).
  exists row'. rewrite Ei, Et, Ex. done.
Qed.

(** It still knows it after a step that admits no other execution of the request. *)
Lemma on_record_grow request o parent identity id attempt account db db' (P : option string → Prop) :
  ¬ P (Some request) → enlarges P db db' → on_record request o parent identity id attempt account db →
  on_record request o parent identity id attempt account db'.
Proof.
  intros HP [Ga Hn Gt (old & new & EL & FL & Hnew) Gs] [Oi (a & Ha & Eid & Hf) (l & frozen & Ol & Er & Ep & Ei & Ek) Ot Oo].
  split.
  - auto.
  - destruct (grow_elem _ _ _ _ Ga Ha) as (a' & Ha' & S). exists a'. split; [done|].
    split; [rewrite (ak_id _ _ (sg_kept _ _ S)); done|by eapply findable_grow].
  - destruct (first_where_grow same_run (λ l, la_agent l = id) (launches db) (launches db') l) as (l' & El' & [_ Sr Sp Si]).
    { intros x y []. by rewrite sr_agent. }
    { by exists old, new. }
    { done. }
    destruct (Si frozen Ei) as (frozen' & Ei' & Hk). exists l', frozen'. split; [done|]. split; [congruence|].
    split; [congruence|]. split; [done|]. intros name Hin. by rewrite Hk, Ek.
  - unfold first_attempt in *. destruct (first_where _ (db_attempts db)) as [t|] eqn:Et; [|done].
    destruct (first_where_grow same_place (λ t, at_agent t = id ∧ at_number t = 1) (db_attempts db) (db_attempts db') t)
      as (t' & -> & []); [|done|done|].
    + intros x y []. by rewrite pc_agent, pc_number.
    + simpl in *. congruence.
  - rewrite EL. intros x [Hx|Hx]%elem_of_app E.
    + destruct (related_r _ _ _ _ FL Hx) as (y & Hy & [Ey Ry _ _]). rewrite Ey. apply Oo; [done|congruence].
    + rewrite Forall_forall in Hnew. specialize (Hnew x Hx). simpl in Hnew. by rewrite E in Hnew.
Qed.

(** The session of a new execution is in the family of its reference. *)
Record upserted (d : Db) (reference : OrchestratorRef) (s canonical legacy : string) : Prop := {
  up_valid : orchestrator_validate reference = Ok ();
  up_canonical : canonical_transport_name (transport reference) = Ok canonical;
  up_legacy : legacy_transport reference = Ok legacy;
  up_row : ∃ row, row ∈ db_sessions d ∧ os_id row = s ∧
    os_external_session_id row = external_session_id reference ∧ (os_transport row = canonical ∨ os_transport row = legacy);
}.

Lemma legacy_transport_Ok reference canonical :
  canonical_transport_name (transport reference) = Ok canonical → ∃ legacy, legacy_transport reference = Ok legacy.
Proof. unfold legacy_transport. intros ->. eauto. Qed.

Lemma upsert_Ok db request fresh d session reference :
  upsert_session db request fresh = Ok (d, session) → sq_orchestrator request = Some reference →
  ∃ s canonical legacy, session = Some s ∧ upserted d reference s canonical legacy.
Proof.
  unfold upsert_session, session_for_reference. intros E Eo. rewrite Eo in E.
  destruct (orchestrator_validate reference) as [[]|] eqn:Ev; [|done].
  destruct (canonical_transport_name _) as [canonical|] eqn:Ec; [|done].
  destruct (legacy_transport_Ok reference canonical Ec) as [legacy El].
  destruct (session_ids_for_reference db reference) as [ids|] eqn:Ei; [|done].
  pose proof Ei as Ei'. unfold session_ids_for_reference in Ei'. rewrite Ev, Ec, El in Ei'. injection Ei' as Ei'.
  destruct ids as [|s ids]; apply ok_pair_inj in E as [<- <-].
  - exists ("os-" +:+ fresh), canonical, legacy. split; [done|]. split; try done.
    eexists. split; [apply elem_of_app; right; left|]. auto.
  - exists s, canonical, legacy. split; [done|]. split; try done.
    assert (s ∈ map os_id (merge_sort (session_le canonical)
          (filter (λ x, os_external_session_id x = external_session_id reference ∧
             (os_transport x = canonical ∨ os_transport x = legacy)) (db_sessions db)))) as Hin by (rewrite Ei'; left).
      apply list_elem_of_fmap in Hin as (row & Es & Hr). rewrite merge_sort_Permutation in Hr.
      apply list_elem_of_filter in Hr as [[Hx Ht] Hr]. exists (with_turn (external_turn_id reference) row).
      split; [|done]. apply elem_of_update_where. exists row. split; [done|]. by rewrite decide_True.
Qed.

Lemma family_member d s row external canonical legacy a :
  ag_session a = Some s → row ∈ db_sessions d → os_id row = s → os_external_session_id row = external →
  os_transport row = canonical ∨ os_transport row = legacy →
  family_transport d external canonical legacy a ≠ None.
Proof.
  intros Es Hin Hid Hx Ht. unfold family_transport. rewrite Es.
  destruct (first_where_is_Some (λ o, os_id o = s ∧ os_external_session_id o = external ∧
    (os_transport o = canonical ∨ os_transport o = legacy)) (db_sessions d) row) as [y ->]; done.
Qed.

(** A family with a row has a session. *)
Lemma family_session d reference canonical legacy row :
  orchestrator_validate reference = Ok () → canonical_transport_name (transport reference) = Ok canonical →
  legacy_transport reference = Ok legacy → row ∈ db_sessions d →
  os_external_session_id row = external_session_id reference →
  os_transport row = canonical ∨ os_transport row = legacy →
  ∃ s ids, session_ids_for_reference d reference = Ok (s :: ids).
Proof.
  intros Ev Ec El Hin Hx Ht. unfold session_ids_for_reference. rewrite Ev, Ec, El.
  destruct (map os_id _) as [|s ids] eqn:E; [|by exists s, ids]. exfalso.
  assert (os_id row ∈ @nil string) as Hn; [|by apply elem_of_nil in Hn]. rewrite <-E. apply list_elem_of_fmap_2.
  rewrite merge_sort_Permutation. by apply list_elem_of_filter.
Qed.

(** ** The replay *)

Section again.
Context `{Sha256, LaunchSerde, JsonWriter}.
Context (request : string) (o : option OrchestratorRef) (parent : option string) (identity : Value)
  (id attempt account : string) (db : Db).
Hypothesis Hrec : on_record request o parent identity id attempt account db.

(** Only one execution carries the request. *)
Lemma only_carrier a b :
  a ∈ db_agents db → ag_id a = id → b ∈ db_agents db → request_id_of db b = Some request → b = a.
Proof.
  intros Ha Hid Hb E. unfold request_id_of in E. destruct (launch_of db (ag_id b)) as [l|] eqn:El; [|done].
  apply first_where_Some in El as [El Hl]. apply (primary_key ag_id (db_agents db)); [apply Hrec|done|done|].
  rewrite <-El, Hid. by apply (or_only _ _ _ _ _ _ _ _ Hrec).
Qed.

Lemma best_carrier le (P : AgentRow → Prop) {dec : ∀ x, Decision (P x)} a :
  a ∈ db_agents db → ag_id a = id → P a → (∀ x, P x → request_id_of db x = Some request) →
  best_by le (filter P (db_agents db)) = Some a.
Proof.
  intros Ha Hid Hp HP. destruct (best_by le _) as [b|] eqn:E.
  - apply best_by_elem, list_elem_of_filter in E as [Hb Hin]. by rewrite (only_carrier a b) by auto.
  - apply best_by_None in E. assert (a ∈ filter P (db_agents db)) as Hin by by apply list_elem_of_filter.
    rewrite E in Hin. by apply elem_of_nil in Hin.
Qed.

(** Every valid request of the conversation under the identity finds it. *)
Lemma record_found q :
  sq_request_id q = Some request → same_chat (sq_orchestrator q) o →
  (∀ r, sq_orchestrator q = Some r → orchestrator_validate r = Ok ()) →
  ∃ a, a ∈ db_agents db ∧ ag_id a = id ∧ replay_found db q = Ok (Some a).
Proof.
  intros Eq Hchat Hv. destruct (or_row _ _ _ _ _ _ _ _ Hrec) as (a & Ha & Hid & Hf).
  destruct (or_launch _ _ _ _ _ _ _ _ Hrec) as (l & frozen & El & Er & _).
  assert (request_id_of db a = Some request) as Ea by (unfold request_id_of; by rewrite Hid, El).
  pose proof (λ le P dec, best_carrier le P (dec := dec) a Ha Hid) as Hbest.
  exists a. split; [done|]. split; [done|]. unfold replay_found, replay_session, replay_in_transaction. rewrite Eq.
  unfold same_chat in Hchat. destruct (sq_orchestrator q) as [r'|], o as [r|]; try done; cbn [findable] in Hf.
  - destruct Hchat as [Et Ex]. destruct Hf as (s & canonical & legacy & Es & Ec & Elg & row & Hin & Hrid & Hx & Ht).
    rewrite Ec in Et. assert (legacy_transport r' = Ok legacy) as Elg'.
    { unfold legacy_transport in *. by rewrite Et, Ec in *. }
    destruct (family_session db r' canonical legacy row) as (s' & ids & ->); [auto|done|done|done|congruence|done|].
    cbn. rewrite Et, Elg'. cbn. unfold session_replay. rewrite Hbest; [done| |by intros x []].
    split; [done|]. eapply (family_member db s row); try done. congruence.
  - cbn. unfold local_replay. rewrite Hbest; [done| |by intros x []]. split; [done|by right].
Qed.

(** So it is never taken for new. *)
Lemma record_not_new q : reserved request o q → sq_request_id q = Some request → replay_found db q ≠ Ok None.
Proof.
  intros Hres Eq E. specialize (Hres Eq).
  assert (∀ r, sq_orchestrator q = Some r → orchestrator_validate r = Ok ()) as Hv.
  { intros r Er. unfold replay_found, replay_session, session_ids_for_reference in E. rewrite Er in E.
    destruct (orchestrator_validate r) as [[]|]; [done|discriminate E]. }
  destruct (record_found q Eq Hres Hv) as (a & _ & _ & Ef). congruence.
Qed.
End again.

(** ** Every later state *)

Lemma on_record_step `{Sha256, LaunchSerde, JsonWriter, Serde, EventJson, Unicode, Host, JsonSchema}
  request o parent identity id attempt account mn mn' :
  restart_step (reserved request o) mn mn' → on_record request o parent identity id attempt account (mn_db mn) →
  on_record request o parent identity id attempt account (mn_db mn').
Proof.
  intros S Hrec. pose proof (or_ids _ _ _ _ _ _ _ _ Hrec) as Hn. destruct S as [db' S|m T|m E].
  - apply db_step_effect in S as [En _ _ _]; [|done]. eapply on_record_grow; [|exact En|done].
    intros [?|(q & Hq & Eq & Ef)]; [done|]. by eapply (record_not_new _ _ _ _ _ _ _ _ Hrec q).
  - apply transaction_idles in T; [|done]. eapply (on_record_grow _ _ _ _ _ _ _ (mn_db mn) _ (λ _, False)); [by intros []| |exact Hrec].
    by apply spares_enlarges.
  - eapply (on_record_grow _ _ _ _ _ _ _ (mn_db mn) _ (λ _, False)); [by intros []| |exact Hrec]. apply spares_enlarges, E.
Qed.

Lemma on_record_later `{Sha256, LaunchSerde, JsonWriter, Serde, EventJson, Unicode, Host, JsonSchema}
  request o parent identity id attempt account mn mn' :
  rtc (restart_step (reserved request o)) mn mn' → on_record request o parent identity id attempt account (mn_db mn) →
  on_record request o parent identity id attempt account (mn_db mn').
Proof. induction 1 as [|x y z S _ IH]; [done|]. intros Hrec. apply IH. by eapply on_record_step. Qed.

(** A current request document is its own history. *)
Lemma from_history_current `{LaunchSerde} request :
  request_from_value (request_value request) = Some request → from_history (request_value request) = Ok request.
Proof.
  intros E. unfold from_history. revert E. unfold request_value, field_if. cbv zeta.
  destruct (is_some (ps_display_name request)), (negb (bool_decide (ps_idle_ping request = PObserve))),
    (negb (bool_decide (ps_required_mcp request = []))); intros E;
    match type of E with _ ?v = _ => change (ok_or JsonFailure (request_from_value v) = Ok request) end; by rewrite E.
Qed.

(** What an admission has checked of the identity a replay reads. *)
Lemma admissible_identity `{Sha256} db catalog i prefer at_ c :
  admissible_candidate db catalog i prefer at_ = Ok c →
  json_index "provider_identity_version" (in_identity i) = num 2 ∧
  json_index "provider_request" (in_identity i) = request_value (in_request i) ∧
  json_index "replay_request_sha256" (in_identity i) = Str (request_digest (in_request i)) ∧
  c ∈ qs_candidates (in_candidates i).
Proof.
  unfold admissible_candidate. intros E. destruct (candidate_set_validate _); [|done].
  destruct (authority_validate _); [|done]. destruct (catalog_provider _ _) as [d|]; [|done]. cbn [ok_or] in E.
  destruct (inputs_agree i d) eqn:Ei; [|done]. cbn [negb] in E. destruct (check_ordered_snapshot _ _); [|done].
  destruct (negb _); [done|]. destruct (negb _); [done|]. apply choose_eligible in E as [Hc _].
  unfold inputs_agree in Ei. cbv zeta in Ei. rewrite !andb_true_iff in Ei. destruct Ei as [[[[[_ E1] E2] _] E3] _].
  to_prop. done.
Qed.

Section again_answer.
Context `{Sha256, LaunchSerde}.

(** The digests of a request contain its own. *)
Lemma fingerprints_self request :
  (∀ reference, ps_orchestrator request = Some reference →
     ∃ canonical, canonical_transport_name (transport reference) = Ok canonical) →
  ∃ prints originals, fingerprints request = Ok prints ∧ request_digest request ∈ prints ∧
    original_digests (request_value request) request = Ok originals ∧ request_digest request ∈ originals.
Proof.
  intros Ho. unfold fingerprints, original_digests. destruct (ps_orchestrator request) as [reference|].
  - destruct (Ho reference eq_refl) as [canonical Ec]. destruct (legacy_transport_Ok reference canonical Ec) as [legacy El].
    rewrite Ec, El. eexists _, _. split_and!; [done|left|done|left].
  - eexists _, _. split_and!; [done|left|done|left].
Qed.

Lemma replayed_record request o parent identity id attempt account db a q :
  on_record request o parent identity id attempt account db → ag_id a = id →
  json_index "provider_identity_version" identity = num 2 → json_index "provider_request" identity = request_value q →
  json_index "replay_request_sha256" identity = Str (request_digest q) →
  request_from_value (request_value q) = Some q → account_id_from_str account = Ok account →
  (∀ reference, ps_orchestrator q = Some reference →
     ∃ canonical, canonical_transport_name (transport reference) = Ok canonical) →
  replayed_admission db a q = Ok (mk_provider_admission id attempt account false) ∧ parent_of db a = parent.
Proof.
  intros [_ _ (l & frozen & El & _ & Epar & Ei & Ek) Ef _] Hid Ev Ep Es Er Eacc Ho. unfold parent_of. rewrite Hid, El.
  split; [|done]. destruct (fingerprints_self q Ho) as (prints & originals & E1 & H1 & E2 & H2).
  unfold replayed_admission, identity_of. rewrite E1, Hid, El, Ei. cbn [ok_or].
  rewrite !Ek by (unfold replay_names; set_solver).
  rewrite Ep, (from_history_current q Er), E2, Ev, Es. rewrite !bool_decide_true by done. cbn [json_str is_some_and negb orb].
  rewrite !bool_decide_true by done. cbn [negb orb]. unfold first_attempt in Ef.
  destruct (first_where _ (db_attempts db)) as [t|]; [|done]. injection Ef as <- Et. cbn [row ok_or]. rewrite Et. cbn [ok_or].
  by rewrite Eacc.
Qed.
End again_answer.

(** A start that creates an execution puts it on record. *)
Lemma started_on_record `{Sha256, LaunchSerde, JsonWriter, ProcessTable} db catalog i resume id env db' r request :
  wf_runs db → NoDup (map ag_id (db_agents db)) → newly_started db catalog i resume id env db' r → prepared i →
  ps_request_id (in_request i) = Some request → (∀ l, l ∈ launches db → la_request_id l ≠ Some request) →
  on_record request (ps_orchestrator (in_request i)) (option_map rm_parent resume) (in_identity i)
    (pv_agent r) (pv_attempt r) (pv_account r) db' ∧
  (∀ reference, ps_orchestrator (in_request i) = Some reference → orchestrator_validate reference = Ok ()) ∧
  ∃ prefer c, admissible_candidate db catalog i prefer (le_now env) = Ok c ∧ pv_account r = qc_account c.
Proof.
  intros Hs Hn Hst Hprep Hreq Hnew.
  destruct (started_rows _ _ _ _ _ _ _ _ Hs Hst) as (session & d & l & c & lineage & Es & ES & EA & EL & El & Eid & Epar & Erq
    & ET & Er & Hid & prefer & Ec).
  destruct (prepared_identity i Hprep) as [_ Eo]. rewrite Er. cbn [pv_agent pv_account pv_attempt].
  assert (∀ x, x ∈ launches db → la_agent x ≠ la_agent l) as Hl.
  { intros x Hx E. apply Hid. rewrite <-El, <-E. by apply (so_launches _ Hs). }
  assert (∀ reference, ps_orchestrator (in_request i) = Some reference → ∃ s canonical legacy,
    session = Some s ∧ upserted d reference s canonical legacy) as Hup.
  { intros reference E. eapply upsert_Ok; [exact Es|]. by rewrite Eo. }
  split; [split|split].
  - rewrite EA. apply NoDup_snoc; [done|]. intros x Hx E. apply Hid. cbn in E. rewrite <-E. by apply list_elem_of_fmap_2.
  - eexists. split; [rewrite EA; apply elem_of_app; right; left|]. split; [done|]. unfold findable.
    destruct (ps_orchestrator (in_request i)) as [reference|] eqn:E; [|by simpl; rewrite Eo].
    destruct (Hup reference eq_refl) as (s & canonical & legacy & -> & [_ Hc Hlg Hrow]). rewrite <-ES in Hrow.
    by exists s, canonical, legacy.
  - exists l, (in_identity i). split; [by rewrite (launch_of_snoc db db' l EL Hl), decide_True|]. by rewrite Erq.
  - unfold first_attempt. rewrite ET, first_where_app, first_where_cons, decide_True by done.
    destruct (first_where _ (db_attempts db)) as [t|] eqn:Et; [|done]. apply first_where_Some in Et as [[E _] Ht].
    destruct Hid. rewrite <-E. by apply (so_attempts _ Hs).
  - rewrite EL. intros x [Hx| ->%list_elem_of_singleton]%elem_of_app E; [by destruct (Hnew x Hx)|done].
  - intros reference E. by destruct (Hup reference E) as (? & ? & ? & _ & []).
  - by exists prefer, c.
Qed.

(** C17: a request starts one execution.  Once a start has created an execution
    under a request identity that was not in use, let the store run on in any
    way: starts, resumes and historical requests, pools, attempts, seals of the
    identity, bindings to sessions, ends and restarts, provided the identity is
    used in this conversation only.  Then every repetition of the request, with
    whatever configuration, catalog, candidates, caps, process table and clock,
    answers with that execution, its first attempt and its account, and writes
    nothing. *)
Theorem start_replays `{Sha256, LaunchSerde, JsonWriter, Serde, EventJson, Unicode, Host, JsonSchema}
  (processes processes' : ProcessTable) db catalog i resume id env r request mn mn' catalog' i' resume' id' env' :
  wf_runs db → NoDup (map ag_id (db_agents db)) → (∀ l, l ∈ launches db → la_request_id l ≠ Some request) →
  prepared i → ps_request_id (in_request i) = Some request →
  request_from_value (request_value (in_request i)) = Some (in_request i) →
  (∀ c, c ∈ qs_candidates (in_candidates i) → account_id_from_str (qc_account c) = Ok (qc_account c)) →
  @admit_provider_lineage _ _ _ processes db catalog i resume id env = Ok (mn_db mn, r) → pv_created r = true →
  rtc (restart_step (reserved request (ps_orchestrator (in_request i)))) mn mn' →
  prepared i' → in_request i' = in_request i → option_map rm_parent resume' = option_map rm_parent resume →
  @admit_provider_lineage _ _ _ processes' (mn_db mn') catalog' i' resume' id' env' =
    Ok (mn_db mn', mk_provider_admission (pv_agent r) (pv_attempt r) (pv_account r) false).
Proof.
  intros Hs Hn Hnew Hprep Hreq Hread Hacc E Ecr Hrun Hprep' Ei Ep.
  apply start_cases in E as [[_ Hst]|[E _]]; [|congruence].
  destruct (started_on_record _ _ _ _ _ _ _ _ _ Hs Hn Hst Hprep Hreq Hnew) as (Hrec & Hv & prefer & c & Ec & Eacc).
  apply (on_record_later _ _ _ _ _ _ _ _ _ Hrun) in Hrec.
  destruct (prepared_identity i' Hprep') as [Eq Eo]. rewrite Ei in Eq, Eo.
  destruct (record_found _ _ _ _ _ _ _ _ Hrec (in_effective i')) as (a & Ha & Hid & Hf).
  { congruence. }
  { rewrite Eo. unfold same_chat. by destruct (ps_orchestrator (in_request i)). }
  { intros reference. rewrite Eo. apply Hv. }
  destruct (admissible_identity _ _ _ _ _ _ Ec) as (Ev & Epr & Edig & Hc).
  destruct (replayed_record _ _ _ _ _ _ _ _ a (in_request i) Hrec Hid Ev Epr Edig Hread) as [Ead Epar].
  { rewrite Eacc. by apply Hacc. }
  { intros reference E. specialize (Hv reference E). unfold orchestrator_validate in Hv.
    destruct (canonical_transport_name _) as [canonical|]; [by exists canonical|done]. }
  unfold admit_provider_lineage. rewrite Hf, Epar, Ep, bool_decide_true by done. cbn [negb]. by rewrite Ei, Ead.
Qed.

(** ** A concrete start *)

Lemma demo_start_Ok :
  admit_provider_lineage demo_store demo_catalog demo_inputs None "ag-1" demo_env =
    Ok (demo_glm_started, mk_provider_admission "ag-1" "att_u1" "acct-1" true).
Proof. by vm_compute. Qed.

Lemma demo_store_sound : wf_runs demo_store.
Proof. by apply (failover_run_sound demo_store). Qed.

Lemma start_is_sound_witness :
  active_agents demo_glm_started = 1 ∧ active_agents demo_glm_started ≤ 2 ∧
  (∃ row, row ∈ accounts demo_store ∧ ar_id row = "acct-1"%string ∧ ar_enabled row = true).
Proof.
  split; [by vm_compute|].
  pose proof (start_is_sound demo_store demo_catalog demo_inputs None "ag-1" demo_env demo_glm_started _
    demo_store_sound demo_start_Ok) as (_ & _ & _ & _ & _ & Hcap & _ & _ & _ & Hrow).
  split; [exact Hcap|exact Hrow].
Defined.

(** The run goes on: its identity is sealed, its first account is exhausted, it
    moves to the second one, and a conversation binds it. *)
Definition demo_seal : UpdateIdentity :=
  mk_update_identity "ag-1" "pending:provider-v2" "rev-1" "/home/ag-1" (of_bytes (repeat 97 64)) None.
Definition demo_r1 : Db := Eval vm_compute in kept_db demo_glm_started (seal_identity demo_glm_started demo_seal).
Definition demo_r2 : Db := Eval vm_compute in committed demo_r1 (provider_spawning demo_r1 "ag-1" "att_u1").
Definition demo_r3 : Db := Eval vm_compute in
  kept_db demo_r2 (provider_process_evidence demo_r2 "ag-1" "att_u1" (mk_identity "tok" (of_Z 101)) None).
Definition demo_r4 : Db := Eval vm_compute in kept_db demo_r3 (provider_cleanup demo_r3 "ag-1" "att_u1" demo_cleanup).
Definition demo_r5 : Db := Eval vm_compute in
  kept_db demo_r4 (provider_history_with_cooldown demo_r4 "ag-1" "att_u1" demo_failure (Some BcQuotaExhausted) (of_Z 200)).
Definition demo_r6 : Db := Eval vm_compute in
  committed demo_r5 (allocate_next_attempt demo_r5 "ag-1" demo_catalog demo_next_candidates (of_Z 210) "u2").

Definition demo_service (db : Db) : Maintenance := mk_maintenance (mk_outbox db [] [] []) [] 0 (Some 1).
Definition demo_chat : OrchestratorRef := mk_orchestrator "codex" "thread-1" None.
Definition demo_recipient (agent session : string) : string * string := (agent, session).
Definition demo_taken : Maintenance := Eval vm_compute in
  match bind_orchestrator (demo_service demo_r6) "ag-1" demo_chat (of_Z 220) "s2" "n1" (of_Z 220) demo_recipient with
  | Ok (mn, _) => mn
  | Err _ => demo_service demo_r6
  end.

Lemma demo_service_run : rtc (restart_step (reserved "req-1" None)) (demo_service demo_glm_started) demo_taken.
Proof.
  apply (rtc_l _ _ (demo_service demo_r1)); [apply (do_store _ (demo_service _) demo_r1), (by_seal _ _ _ demo_seal); by vm_compute|].
  apply (rtc_l _ _ (demo_service demo_r2)).
  { apply (do_store _ (demo_service _) demo_r2), (by_spawning _ _ _ "ag-1" "att_u1" true). by vm_compute. }
  apply (rtc_l _ _ (demo_service demo_r3)).
  { apply (do_store _ (demo_service _) demo_r3), (by_process _ _ _ "ag-1" "att_u1" (mk_identity "tok" (of_Z 101)) None).
    by vm_compute. }
  apply (rtc_l _ _ (demo_service demo_r4)).
  { apply (do_store _ (demo_service _) demo_r4), (by_cleanup _ _ _ "ag-1" "att_u1" demo_cleanup). by vm_compute. }
  apply (rtc_l _ _ (demo_service demo_r5)).
  { apply (do_store _ (demo_service _) demo_r5),
      (by_history _ _ _ "ag-1" "att_u1" demo_failure (Some BcQuotaExhausted) (of_Z 200)). by vm_compute. }
  apply (rtc_l _ _ (demo_service demo_r6)).
  { apply (do_store _ (demo_service _) demo_r6),
      (by_next_attempt _ _ _ "ag-1" demo_catalog demo_next_candidates (of_Z 210) "u2" (mk_next "att_u2" 2 "acct-2" "att_u1")).
    by vm_compute. }
  apply rtc_once, do_restart, (do_bind _ "ag-1" demo_chat (of_Z 220) "s2" "n1" (of_Z 220) demo_recipient _ "os-s2"). by vm_compute.
Qed.

Lemma demo_resolved : prepared demo_inputs.
Proof. left. by exists (mk_resolved false None false [] []). Qed.

(** The same request, resolved against another configuration. *)
Definition demo_again : AdmissionInputs :=
  mk_inputs demo_glm_start (start_effective demo_glm_start (mk_resolved true (Some "high"%string) true ["/lib"]%string []))
    demo_launch_authority (mk_candidates "glm" "glm-5" Auto [] 9) Null 0 (Some 0) None.

Lemma start_replays_witness :
  admit_provider_lineage (mn_db demo_taken) (mk_catalog [] []) demo_again None "ag-2" demo_env =
    Ok (mn_db demo_taken, mk_provider_admission "ag-1" "att_u1" "acct-1" false).
Proof.
  apply (start_replays demo_processes demo_processes demo_store demo_catalog demo_inputs None "ag-1" demo_env
    (mk_provider_admission "ag-1" "att_u1" "acct-1" true) "req-1" (demo_service demo_glm_started) demo_taken
    (mk_catalog [] []) demo_again None "ag-2" demo_env demo_store_sound).
  - constructor.
  - by intros l ?%elem_of_nil.
  - exact demo_resolved.
  - reflexivity.
  - by vm_compute.
  - intros c Hc. repeat (apply elem_of_cons in Hc as [->|Hc]; [by vm_compute|]). by apply elem_of_nil in Hc.
  - exact demo_start_Ok.
  - reflexivity.
  - exact demo_service_run.
  - left. by eexists.
  - reflexivity.
  - reflexivity.
Defined.
